(* ===== verification/_CoqProject ===== *)
-Q . S2P
Prelude.v
PthreadTypes.v
Klee.v
Interleave.v
WaitLists.v
SyncUtil.v
SimEngine.v
Demo.v
Mutex.v
Cond.v
Barrier.v
RwLock.v
Semaphore.v
Threads.v
ThreadSpec.v
Runtime.v
InitEnv.v
Misc.v
IoModel.v
Alloc.v
CString.v
Args.v
Printf.v
HbGraph.v
CxState.v
Schedule.v
CxSched.v
CxPool.v
CxOrder.v
GraphRun.v
CxInput.v
CallCtx.v
CxPthread.v
CxRegion.v
Intrinsics.v
BitVec.v
Expr.v
ExprCreate.v
ExprSound.v
ExprBits.v
ExprVisit.v
Constraints.v
ForkTrace.v
SliceTrace.v
Solver.v
SolverChain.v
Independent.v
ImmTree.v
ImmIter.v
ConstDiv.v
Stp.v
StpSound.v
StpConstruct.v
StpQuery.v
StpSolver.v
StpModel.v
PathManager.v
PathTree.v
PathCover.v
Explore.v
Switches.v
