(* ===== verification/Prelude.v ===== *)
(** * Verification of the input-covering-schedules system

    The program enumerates, by symbolic execution, a set of schedules that
    covers all inputs of a multithreaded program, and instruments the program so
    that every run follows one of them.  Its own C and C++ code has four parts,
    all under [src/cloud9]:

    - the models of the POSIX interface that run inside the symbolic engine
      ([runtime/POSIX]): threads, synchronization objects, input and output,
      memory, start-up;
    - the exploration: expressions, constraints and solvers ([lib/Expr],
      [lib/Solver]), the traces of executed paths and the worklist of paths
      ([lib/ICS/PrecondSliceTrace.cpp], [lib/ICS/PathManager.cpp]);
    - the happens-before graphs that the engine records ([lib/ICS/HBGraph.cpp])
      and the tables that the instrumentation writes from them
      ([lib/ICS/Instrumentor.cpp]);
    - the runtime that executes the instrumented program under such a schedule
      ([runtime/ConstrainedExec]).

    The engine itself ([lib/Core]) is not part of the repository.

    ** Foundations

    [Prelude] (this file): machine integers, error numbers, shared tactics and
    hints.  [PthreadTypes]: the structs of [wrappers/pthread.h] and [config.h].

    ** The models of [runtime/POSIX]

    [Klee] is the interface to the engine: the class [KleeEngine] has one
    operation per [klee_*] call, a model function is a computation of the monad
    [M] over the engine state and the memory of the objects, which can finish,
    sleep on a waiting list, yield, end its thread, or stop.  [Interleave] states
    what the code relies on ([KleeView], [KleeLaws]: documented behaviour of
    waiting lists and thread ids) and the semantics of a pool of threads that
    interleave at those points; [SimEngine] is a concrete engine that satisfies
    the laws, used by the witnesses through [Demo].  [WaitLists] has the
    invariant that links the queue counters to the waiting lists, [SyncUtil] the
    helpers of [threadsync.c].

    One file per object: [Mutex], [Cond], [Barrier], [RwLock], [Semaphore]
    ([threadsync.c]); [Threads] and [ThreadSpec] ([threads.c]); [InitEnv] and
    [Args] ([init.c]); [IoModel] ([io.c], [time.c], [processes.c]); [Alloc]
    ([malloc.c]); [Misc] ([misc.c]); [Intrinsics]
    ([runtime/Intrinsic]).  [CString] has C strings.

    What is shown: in every reachable state of any pool of threads that call the
    API, the counters of all objects agree with the waiting lists
    ([Runtime.runtime_queues_match]); the functional behaviour of every
    synchronization operation on each branch, errors included; start-up
    establishes the invariant; runs that exhibit races in the models (a woken
    waiter does not check the object again).

    ** Graphs, schedules and contexts

    [HbGraph]: the record [HBGraph] and every operation that changes a graph;
    [graph_ops_wf] is the invariant of all of them, below [2 ^ 32] nodes, where
    ids would wrap.  [Schedule]: how a fragment
    of a graph is written as arrays of 16-bit tokens ([DumpThreadSchedule],
    [DumpScheduleFragments]).  [CallCtx]: unique ids of calling contexts
    ([AddUsedCallCtx], [DumpCallingContexts]).

    ** Constrained execution

    [CxState]: the globals of [lib.cpp] are the record [cworld], the thread-local
    variables the record [tls].  A computation is a tree of type [act]: it
    returns, stops with an error, ends its thread, or waits ([SPIN_WAIT_UNTIL])
    for a condition on the shared state.  [CxSched]: reading the schedule, the
    vector clock, fragments, the region barrier.  [CxInput]: call stack hashes,
    logged variables, inputs and the wrapped library calls.  [CxPthread]: the
    pthread API.  [Printf]: the formatter of [printf.c].

    [CxPool] has the interleaving semantics of such computations, a
    rely-guarantee rule ([safe], [pool_ok_rtc]), and that every run is finite.
    [CxOrder] shows that threads which follow encoded schedules refine the
    abstract specification [hb_step] (an operation happens only after those its
    edges and its thread ask for), never fail, and complete when the edges are
    acyclic.  [GraphRun] composes the chain: from a well-formed graph through the
    emitted tables to the execution, whose order respects the graph
    ([graph_respected]) and contains all its nodes ([graph_executed]).  These
    theorems are about schedules without skipped nodes, and [GraphRun] about graphs
    written as one fragment with logical threads mapped to themselves; a run
    with a skipped node that releases a waiter too early is in
    [skip_releases_early].
    [CxRegion]: all threads meet at the barrier between two regions, in any
    interleaving, and start the next region together
    ([region_barrier_meets]), if the selector gives a schedule for every thread
    that does not start with a skipped node.  [CallCtx.context_identified]: the run-time
    context test is exact.  [CxPthread] also has two runs that show races of the
    run-time mutexes.

    ** Expressions and solvers

    [BitVec]: the arithmetic of constants at their width.  [Expr]: expression
    trees, arrays and update lists, their value under an assignment, and the
    well-formedness [good].  [ExprCreate]: the creators with all their
    simplifications; [ExprSound] and [ExprBits] prove each of them right.
    [ExprVisit]: visitors, which rebuild what they change; the properties
    [creators_exact] and [replacing_exact] are there.  [Constraints]: the
    constraint manager; adding a constraint keeps its meaning
    ([addConstraint_equivalent]).

    [Solver]: the interface [SolverImpl] as a record of computations over the
    state of a solver, the class [SolverLaws] of what a solver promises, the
    front end and the binary searches of [getRange] over it.  [SolverChain]: the
    cache and the staged solver are again instances of [SolverLaws].
    [Independent]: the closure of the constraints that a query depends on, and
    the stack of all of them ([solver_stack_exact]), for queries without copied
    arrays, which the independence test overlooks
    ([independent_ignores_copies]).

    The bottom of the stack is the binding to STP, a library outside of the
    program: [Stp] has its interface, the class [VC], and over it the builder
    that translates expressions and queries with its caches
    ([lib/Solver/STPBuilder.cpp]) and the core solver.  [StpSound] states what
    the terms mean ([VCLaws]) and proves the builder's shifts, products and
    quotients right; [StpConstruct] has one lemma per kind of expression,
    [StpQuery] the invariant of the caches, [StpSolver] the answers.  [StpModel]
    is a term language that satisfies the laws, and has the properties
    ([construct_sound], [stp_solver_exact]) and the expressions that are
    translated wrongly ([encoding_gaps]).  [ConstDiv]: the constants that replace
    products and 32-bit quotients by shifts and one product, exact for all
    operands ([lib/Solver/ConstantDivision.cpp]).

    [ImmTree] and [ImmIter]: the persistent balanced trees in which assignments
    and states keep their data ([ADT/ImmutableTree.h]).  They refine finite maps
    ([tree_refines_map]); iterators meet every value once and never overrun their
    stack ([iteration_exact]); [merge_with] is the union.

    ** Exploration

    [ForkTrace]: traces that share reference-counted nodes, in a heap; they
    refine independent lists ([trace_refines]).  [SliceTrace]: the entries of a
    trace with their packed type word, and the operations that append them.
    [PathManager]: path constraints, the frontier, the sets of seen constraints,
    [processSlice] and [instantiateNextInput].  [PathTree] is the specification,
    a worklist over the paths of a decision tree; [PathCover] shows that the path
    manager refines it; [Explore] has the consequences for inputs
    ([exploration_covers], [exploration_progress], [path_constraint_exact]), and
    concrete runs, also where the conditions of the theorems do not hold and
    inputs or schedules are lost.  [exploration_covers] supposes that the
    conditions and alternatives at a branch are written the same way in every
    run, that no slice has alternative context switches, and that the terms of a
    disjunction are not separated by a later branch.  [Switches]: what becomes of
    alternative context switches; after a branch they are lost
    ([ctx_switch_after_branch_lost]).

    ** Bounds and fuel

    Integers are kept at their width by [u8] ... [s64].  In [Printf] a loop that
    runs out of fuel is [None], and the properties show that it does not (24 turns
    for at most 22 digits).  The fuel of loops in
    [Args] and [CString] is proved sufficient where a property depends
    on it; loops of [CxSched] over fragments and regions, and of [CxPthread],
    take fuel because the number of turns depends on the schedule: running out
    is the separate stop [CxFuel], and in the theorems of [CxOrder] and
    [GraphRun] no thread stops, so the fuel given there is enough.  The attempts
    of [CallCtx.find_hash] are bounded because the code's loop can run for ever
    ([find_hash_stuck]).  The fuel of the creators of sums ([addsub_fuel]), of
    recursive visitors ([visit_again_enough]), of adding constraints ([add_fuel]:
    the recursion loses symbolic leaves), of [findReads] (the number of
    subexpressions) and of the binary searches ([search_fuel]: 65 halvings of 64
    bits) is proved sufficient; extraction and concatenation call each other at
    most twice ([extract_level]).  The loop over the runs of ones of a 64-bit
    factor needs at most 64 rounds ([mult_loop_ok]); walks over trees take one
    more step than there are values.

    ** Not modelled

    The slicing of [lib/ICS/SearchStrategy.cpp] and the construction of selectors
    and snapshot functions (they work on the engine's states and on LLVM code),
    quantifiers and the arrays constrained by them, hashing and printing of
    expressions, the counterexample caches, the evaluation of expressions with a
    found assignment, reference counts of trees, the vendored STP, uClibc and pool
    allocation, the benchmark programs, statistics and debug
    output, floating-point [pow.c], the libraries [runtime/Runtest] and
    [runtime/NondetExec].  The theorems on whole executions are about one region
    whose graph is a single fragment without dynamic inputs; the change of
    fragments within a region is modelled, no theorem is stated about it yet.

    Possible extensions, in this order: fragments and schedules with dynamic
    inputs; agreement of the run-time pthread API with the models; explorations
    whose conditions are generalized between runs; the replay library. *)

From stdpp Require Import base gmap list fin_maps.
From Stdlib Require Import ZArith Lia.

#[global] Open Scope Z_scope.

(** ** Machine integers

    A C integer of width [w] is a [Z] together with the wrap-around function
    that every arithmetic result goes through. *)

Definition u8 (z : Z) : Z := z mod 2 ^ 8.
Definition u16 (z : Z) : Z := z mod 2 ^ 16.
Definition u32 (z : Z) : Z := z mod 2 ^ 32.
Definition u64 (z : Z) : Z := z mod 2 ^ 64.

(** Two's complement reading of the low [w] bits. *)
Definition swrap (w z : Z) : Z := (z + 2 ^ (w - 1)) mod 2 ^ w - 2 ^ (w - 1).

Definition s8 (z : Z) : Z := swrap 8 z.
Definition s32 (z : Z) : Z := swrap 32 z.
Definition s64 (z : Z) : Z := swrap 64 z.

Lemma u8_range z : 0 <= u8 z < 2 ^ 8.
Proof. apply Z.mod_pos_bound; lia. Qed.

Lemma u16_range z : 0 <= u16 z < 2 ^ 16.
Proof. apply Z.mod_pos_bound; lia. Qed.

Lemma u32_range z : 0 <= u32 z < 2 ^ 32.
Proof. apply Z.mod_pos_bound; lia. Qed.

Lemma u64_range z : 0 <= u64 z < 2 ^ 64.
Proof. apply Z.mod_pos_bound; lia. Qed.

Lemma u8_small z : 0 <= z < 2 ^ 8 -> u8 z = z.
Proof. apply Z.mod_small. Qed.

Lemma u16_small z : 0 <= z < 2 ^ 16 -> u16 z = z.
Proof. apply Z.mod_small. Qed.

Lemma u32_small z : 0 <= z < 2 ^ 32 -> u32 z = z.
Proof. apply Z.mod_small. Qed.

Lemma u64_small z : 0 <= z < 2 ^ 64 -> u64 z = z.
Proof. apply Z.mod_small. Qed.

Lemma swrap_small w z : 0 < w -> - 2 ^ (w - 1) <= z < 2 ^ (w - 1) -> swrap w z = z.
Proof.
  intros Hw Hz. unfold swrap.
  assert (2 ^ w = 2 * 2 ^ (w - 1)) as E
    by (rewrite <- Z.pow_succ_r by lia; f_equal; lia).
  rewrite Z.mod_small; lia.
Qed.

Lemma s32_small z : - 2 ^ 31 <= z < 2 ^ 31 -> s32 z = z.
Proof. intros; apply (swrap_small 32); lia. Qed.

Lemma s64_small z : - 2 ^ 63 <= z < 2 ^ 63 -> s64 z = z.
Proof. intros; apply (swrap_small 64); lia. Qed.

(** Stepping an unsigned counter by one, away from its ends. *)
Lemma u32_succ z : 0 <= z < 2 ^ 32 - 1 -> u32 (z + 1) = z + 1.
Proof. intros; apply u32_small; lia. Qed.

Lemma u32_pred z : 0 < z < 2 ^ 32 -> u32 (z - 1) = z - 1.
Proof. intros; apply u32_small; lia. Qed.

(** ** C truth values *)

Definition Z_of_bool (b : bool) : Z := if b then 1 else 0.
Definition bool_of_Z (z : Z) : bool := negb (z =? 0).

(** ** Error numbers (Linux numbering, the one uClibc uses) *)

Definition EPERM : Z := 1.
Definition ENOENT : Z := 2.
Definition ESRCH : Z := 3.
Definition EINTR : Z := 4.
Definition EIO : Z := 5.
Definition EBADF : Z := 9.
Definition EAGAIN : Z := 11.
Definition ENOMEM : Z := 12.
Definition EBUSY : Z := 16.
Definition EINVAL : Z := 22.
Definition EDEADLK : Z := 35.

(** ** Generic facts *)

(** Turns the boolean integer tests of the code into arithmetic hypotheses. *)
Ltac zbool :=
  repeat match goal with
  | H : context [Z.eqb ?a ?b] |- _ => destruct (Z.eqb_spec a b)
  | H : context [Z.ltb ?a ?b] |- _ => destruct (Z.ltb_spec a b)
  | H : context [Z.leb ?a ?b] |- _ => destruct (Z.leb_spec a b)
  | |- context [Z.eqb ?a ?b] => destruct (Z.eqb_spec a b)
  | |- context [Z.ltb ?a ?b] => destruct (Z.ltb_spec a b)
  | |- context [Z.leb ?a ?b] => destruct (Z.leb_spec a b)
  end; simpl in *; try lia; try discriminate; try congruence.

Lemma size_insert_fresh (s : gset Z) x : x ∉ s -> Z.of_nat (size ({[x]} ∪ s)) = Z.of_nat (size s) + 1.
Proof. intros H. rewrite size_union by set_solver. rewrite size_singleton. lia. Qed.

Lemma size_remove_one (s : gset Z) x : x ∈ s -> Z.of_nat (size (s ∖ {[x]})) = Z.of_nat (size s) - 1.
Proof.
  intros H. rewrite size_difference by set_solver. rewrite size_singleton.
  assert (size s <> 0)%nat; [|lia].
  intros E. apply size_empty_inv in E. set_solver.
Qed.

Create HintDb cint.
#[export] Hint Resolve u8_range u16_range u32_range u64_range : cint.

