(* ===== verification/PthreadTypes.v ===== *)
(** * The pthread data structures of the runtime

    The structs of [runtime/POSIX/wrappers/pthread.h], with one setter per
    field that the code assigns, and the limits of [runtime/POSIX/config.h].
    A pointer is the [Z] address of its target, [0] being NULL. *)

From stdpp Require Import base gmap list fin_maps.
From Stdlib Require Import ZArith Lia.
From S2P Require Import Prelude.

(** ** [config.h] *)

Definition KLEE_MAX_THREADS : Z := 16.
Definition DISABLE_KLEE_SYNC_INVARIANTS : bool := true.
Definition ENABLE_KLEE_PTHREAD_ALWAYS_PREEMPT_UNLOCK : bool := false.
Definition DISABLE_KLEE_PTHREAD_SYMBOLIC_CLEANUP_ON_EXIT : bool := false.

(** ** Constants of [pthread.h] *)

Definition PTHREAD_MUTEX_NORMAL : Z := 0.
Definition PTHREAD_PROCESS_PRIVATE : Z := 0.
Definition PTHREAD_BARRIER_SERIAL_THREAD : Z := -1.
Definition PTHREAD_ONCE_INIT : Z := 0.
Definition SEM_VALUE_MAX : Z := 32000.

(** ** Mutexes *)

Record pthread_mutex_t := Mutex {
  m_wlist : Z;         (* wlist_id_t  *)
  m_last_hbnode : Z;   (* hbnode_id_t *)
  m_owner : Z;         (* pthread_t   *)
  m_queued : Z;        (* unsigned int *)
  m_taken : Z          (* char *)
}.

Definition m_set_wlist (v : Z) (m : pthread_mutex_t) : pthread_mutex_t :=
  Mutex v (m_last_hbnode m) (m_owner m) (m_queued m) (m_taken m).
Definition m_set_last_hbnode (v : Z) (m : pthread_mutex_t) : pthread_mutex_t :=
  Mutex (m_wlist m) v (m_owner m) (m_queued m) (m_taken m).
Definition m_set_owner (v : Z) (m : pthread_mutex_t) : pthread_mutex_t :=
  Mutex (m_wlist m) (m_last_hbnode m) v (m_queued m) (m_taken m).
Definition m_set_queued (v : Z) (m : pthread_mutex_t) : pthread_mutex_t :=
  Mutex (m_wlist m) (m_last_hbnode m) (m_owner m) v (m_taken m).
Definition m_set_taken (v : Z) (m : pthread_mutex_t) : pthread_mutex_t :=
  Mutex (m_wlist m) (m_last_hbnode m) (m_owner m) (m_queued m) v.

Definition PTHREAD_MUTEX_INITIALIZER : pthread_mutex_t := Mutex 0 0 0 0 0.

(** ** Condition variables *)

Record pthread_cond_t := Cond {
  c_wlist : Z;
  c_mutex : Z;               (* pthread_mutex_t * *)
  c_queued : Z;              (* unsigned int *)
  c_fake_initialized : Z     (* hbnode_id_t *)
}.

Definition c_set_wlist (v : Z) (c : pthread_cond_t) : pthread_cond_t :=
  Cond v (c_mutex c) (c_queued c) (c_fake_initialized c).
Definition c_set_mutex (v : Z) (c : pthread_cond_t) : pthread_cond_t :=
  Cond (c_wlist c) v (c_queued c) (c_fake_initialized c).
Definition c_set_queued (v : Z) (c : pthread_cond_t) : pthread_cond_t :=
  Cond (c_wlist c) (c_mutex c) v (c_fake_initialized c).
Definition c_set_fake_initialized (v : Z) (c : pthread_cond_t) : pthread_cond_t :=
  Cond (c_wlist c) (c_mutex c) (c_queued c) v.

Definition PTHREAD_COND_INITIALIZER : pthread_cond_t := Cond 0 0 0 0.

(** ** Barriers *)

Record pthread_barrier_t := Barrier {
  b_wlist : Z;
  b_init_count : Z;          (* unsigned int *)
  b_left : Z;                (* unsigned int *)
  b_fake_initialized : Z
}.

Definition b_set_wlist (v : Z) (b : pthread_barrier_t) : pthread_barrier_t :=
  Barrier v (b_init_count b) (b_left b) (b_fake_initialized b).
Definition b_set_init_count (v : Z) (b : pthread_barrier_t) : pthread_barrier_t :=
  Barrier (b_wlist b) v (b_left b) (b_fake_initialized b).
Definition b_set_left (v : Z) (b : pthread_barrier_t) : pthread_barrier_t :=
  Barrier (b_wlist b) (b_init_count b) v (b_fake_initialized b).
Definition b_set_fake_initialized (v : Z) (b : pthread_barrier_t) : pthread_barrier_t :=
  Barrier (b_wlist b) (b_init_count b) (b_left b) v.

(** ** Read-write locks *)

Record pthread_rwlock_t := Rwlock {
  rw_wlist_readers : Z;
  rw_wlist_writers : Z;
  rw_last_reader_hbgroup : Z;
  rw_last_writer_hbnode : Z;
  rw_nr_readers : Z;          (* unsigned int *)
  rw_nr_readers_queued : Z;   (* unsigned int *)
  rw_nr_writers_queued : Z;   (* unsigned int *)
  rw_writer : Z               (* unsigned int *)
}.

Definition rw_set_wlist_readers (v : Z) (r : pthread_rwlock_t) : pthread_rwlock_t :=
  Rwlock v (rw_wlist_writers r) (rw_last_reader_hbgroup r) (rw_last_writer_hbnode r)
    (rw_nr_readers r) (rw_nr_readers_queued r) (rw_nr_writers_queued r) (rw_writer r).
Definition rw_set_wlist_writers (v : Z) (r : pthread_rwlock_t) : pthread_rwlock_t :=
  Rwlock (rw_wlist_readers r) v (rw_last_reader_hbgroup r) (rw_last_writer_hbnode r)
    (rw_nr_readers r) (rw_nr_readers_queued r) (rw_nr_writers_queued r) (rw_writer r).
Definition rw_set_last_reader_hbgroup (v : Z) (r : pthread_rwlock_t) : pthread_rwlock_t :=
  Rwlock (rw_wlist_readers r) (rw_wlist_writers r) v (rw_last_writer_hbnode r)
    (rw_nr_readers r) (rw_nr_readers_queued r) (rw_nr_writers_queued r) (rw_writer r).
Definition rw_set_last_writer_hbnode (v : Z) (r : pthread_rwlock_t) : pthread_rwlock_t :=
  Rwlock (rw_wlist_readers r) (rw_wlist_writers r) (rw_last_reader_hbgroup r) v
    (rw_nr_readers r) (rw_nr_readers_queued r) (rw_nr_writers_queued r) (rw_writer r).
Definition rw_set_nr_readers (v : Z) (r : pthread_rwlock_t) : pthread_rwlock_t :=
  Rwlock (rw_wlist_readers r) (rw_wlist_writers r) (rw_last_reader_hbgroup r)
    (rw_last_writer_hbnode r) v (rw_nr_readers_queued r) (rw_nr_writers_queued r) (rw_writer r).
Definition rw_set_nr_readers_queued (v : Z) (r : pthread_rwlock_t) : pthread_rwlock_t :=
  Rwlock (rw_wlist_readers r) (rw_wlist_writers r) (rw_last_reader_hbgroup r)
    (rw_last_writer_hbnode r) (rw_nr_readers r) v (rw_nr_writers_queued r) (rw_writer r).
Definition rw_set_nr_writers_queued (v : Z) (r : pthread_rwlock_t) : pthread_rwlock_t :=
  Rwlock (rw_wlist_readers r) (rw_wlist_writers r) (rw_last_reader_hbgroup r)
    (rw_last_writer_hbnode r) (rw_nr_readers r) (rw_nr_readers_queued r) v (rw_writer r).
Definition rw_set_writer (v : Z) (r : pthread_rwlock_t) : pthread_rwlock_t :=
  Rwlock (rw_wlist_readers r) (rw_wlist_writers r) (rw_last_reader_hbgroup r)
    (rw_last_writer_hbnode r) (rw_nr_readers r) (rw_nr_readers_queued r)
    (rw_nr_writers_queued r) v.

Definition PTHREAD_RWLOCK_INITIALIZER : pthread_rwlock_t := Rwlock 0 0 0 0 0 0 0 0.

(** ** Semaphores *)

Record sem_t := Sem {
  s_wlist : Z;
  s_last_hbnode : Z;
  s_count : Z           (* unsigned int *)
}.

Definition s_set_wlist (v : Z) (s : sem_t) : sem_t := Sem v (s_last_hbnode s) (s_count s).
Definition s_set_last_hbnode (v : Z) (s : sem_t) : sem_t := Sem (s_wlist s) v (s_count s).
Definition s_set_count (v : Z) (s : sem_t) : sem_t := Sem (s_wlist s) (s_last_hbnode s) v.

(** ** Threads *)

Record _pthread_cleanup_buffer := CleanupBuffer {
  __routine : Z;        (* function pointer *)
  __arg : Z;
  __canceltype : Z;
  __prev : Z            (* struct _pthread_cleanup_buffer * *)
}.

(** The fields that the symbolic runtime uses; [start_routine], [start_arg],
    [id], [initial_fragment_id] and [wait_slot] belong to the constrained
    runtime only. *)
Record thread_data_t := ThreadData {
  td_wlist : Z;
  td_return_value : Z;
  td_cleanup_stack : Z;
  td_allocated : Z;     (* char *)
  td_terminated : Z;    (* char *)
  td_joinable : Z;      (* char *)
  td_hasjoiner : Z      (* char *)
}.

(** What [memset(..., 0, ...)] leaves in a slot. *)
Definition thread_data_zero : thread_data_t := ThreadData 0 0 0 0 0 0 0.

Definition td_set_wlist (v : Z) (d : thread_data_t) : thread_data_t :=
  ThreadData v (td_return_value d) (td_cleanup_stack d) (td_allocated d) (td_terminated d)
    (td_joinable d) (td_hasjoiner d).
Definition td_set_return_value (v : Z) (d : thread_data_t) : thread_data_t :=
  ThreadData (td_wlist d) v (td_cleanup_stack d) (td_allocated d) (td_terminated d)
    (td_joinable d) (td_hasjoiner d).
Definition td_set_cleanup_stack (v : Z) (d : thread_data_t) : thread_data_t :=
  ThreadData (td_wlist d) (td_return_value d) v (td_allocated d) (td_terminated d)
    (td_joinable d) (td_hasjoiner d).
Definition td_set_allocated (v : Z) (d : thread_data_t) : thread_data_t :=
  ThreadData (td_wlist d) (td_return_value d) (td_cleanup_stack d) v (td_terminated d)
    (td_joinable d) (td_hasjoiner d).
Definition td_set_terminated (v : Z) (d : thread_data_t) : thread_data_t :=
  ThreadData (td_wlist d) (td_return_value d) (td_cleanup_stack d) (td_allocated d) v
    (td_joinable d) (td_hasjoiner d).
Definition td_set_joinable (v : Z) (d : thread_data_t) : thread_data_t :=
  ThreadData (td_wlist d) (td_return_value d) (td_cleanup_stack d) (td_allocated d)
    (td_terminated d) v (td_hasjoiner d).
Definition td_set_hasjoiner (v : Z) (d : thread_data_t) : thread_data_t :=
  ThreadData (td_wlist d) (td_return_value d) (td_cleanup_stack d) (td_allocated d)
    (td_terminated d) (td_joinable d) v.

Record tsync_data_t := Tsync {
  ts_threads : list thread_data_t;   (* threads[KLEE_MAX_THREADS] *)
  ts_live_threads : Z;               (* uint32_t *)
  ts_last_hbnode : Z;
  ts_joinall_wlist : Z
}.

Definition ts_set_threads (v : list thread_data_t) (t : tsync_data_t) : tsync_data_t :=
  Tsync v (ts_live_threads t) (ts_last_hbnode t) (ts_joinall_wlist t).
Definition ts_set_live_threads (v : Z) (t : tsync_data_t) : tsync_data_t :=
  Tsync (ts_threads t) v (ts_last_hbnode t) (ts_joinall_wlist t).
Definition ts_set_last_hbnode (v : Z) (t : tsync_data_t) : tsync_data_t :=
  Tsync (ts_threads t) (ts_live_threads t) v (ts_joinall_wlist t).
Definition ts_set_joinall_wlist (v : Z) (t : tsync_data_t) : tsync_data_t :=
  Tsync (ts_threads t) (ts_live_threads t) (ts_last_hbnode t) v.

(** Reads of fields that were just written. *)
Ltac fields :=
  cbn [m_wlist m_last_hbnode m_owner m_queued m_taken
       m_set_wlist m_set_last_hbnode m_set_owner m_set_queued m_set_taken
       c_wlist c_mutex c_queued c_fake_initialized
       c_set_wlist c_set_mutex c_set_queued c_set_fake_initialized
       b_wlist b_init_count b_left b_fake_initialized
       b_set_wlist b_set_init_count b_set_left b_set_fake_initialized
       rw_wlist_readers rw_wlist_writers rw_last_reader_hbgroup rw_last_writer_hbnode
       rw_nr_readers rw_nr_readers_queued rw_nr_writers_queued rw_writer
       rw_set_wlist_readers rw_set_wlist_writers rw_set_last_reader_hbgroup
       rw_set_last_writer_hbnode rw_set_nr_readers rw_set_nr_readers_queued
       rw_set_nr_writers_queued rw_set_writer
       s_wlist s_last_hbnode s_count s_set_wlist s_set_last_hbnode s_set_count
       td_wlist td_return_value td_cleanup_stack td_allocated td_terminated td_joinable td_hasjoiner
       td_set_wlist td_set_return_value td_set_cleanup_stack td_set_allocated td_set_terminated
       td_set_joinable td_set_hasjoiner
       ts_threads ts_live_threads ts_last_hbnode ts_joinall_wlist
       ts_set_threads ts_set_live_threads ts_set_last_hbnode ts_set_joinall_wlist].
