(* ===== verification/Klee.v ===== *)
(** * The engine interface and the computation model

    The model functions of [runtime/POSIX] run inside the symbolic engine and
    reach it through the [klee_*] calls of [include/klee/klee.h]; the engine
    itself (lib/Core) is not part of the sources, so it is a parameter here:
    the class [KleeEngine], one operation per call, on an abstract engine
    state.  This file also fixes the store the functions share ([world]), the
    monad they are written in ([M], a resumption monad: a call either finishes
    or stops at a scheduling point with the rest of its code as a
    continuation), the API shorthands of [multiprocess.h], and the interleaving
    semantics of a pool of threads. *)

From stdpp Require Import base gmap list fin_maps.
From Stdlib Require Import ZArith Lia.
From S2P Require Import Prelude PthreadTypes.

(** ** Enumerations *)

(** [enum SyncOpType] of [multiprocess.h]. *)
Inductive SyncOpType :=
| SyncOpOther | SyncOpJoinProc | SyncOpJoinThread | SyncOpJoinAllThreads
| SyncOpMutex | SyncOpCondvar | SyncOpBarrier | SyncOpRwlock | SyncOpSem.

Definition SyncOpType_to_Z (t : SyncOpType) : Z :=
  match t with
  | SyncOpOther => 0 | SyncOpJoinProc => 1 | SyncOpJoinThread => 2
  | SyncOpJoinAllThreads => 3 | SyncOpMutex => 4 | SyncOpCondvar => 5
  | SyncOpBarrier => 6 | SyncOpRwlock => 7 | SyncOpSem => 8
  end.

(** [enum InitState] of [klee/Constants.h]. *)
Inductive InitState := AlreadyInit | NeedsSymbolicInitAliased | NeedsSymbolicInitUnique.

Definition KLEE_OPTION_BRANCH_COUNTER_ENABLED : Z := 1.

(** ** The engine *)

Class KleeEngine (E : Type) := {
  (* waiting lists and threads *)
  klee_get_wlist : E -> Z * E;
  klee_thread_sleep : Z -> Z -> Z -> E -> E;
  klee_thread_notify : Z -> Z -> Z -> Z -> Z -> Z -> Z -> Z -> E -> E;
  klee_thread_create : Z -> Z -> Z -> E -> E;
  klee_thread_terminate : E -> E;
  klee_get_symbolic_thread_context : E -> Z;
  klee_get_symbolic_thread_context_for : Z -> E -> Z;
  klee_get_concrete_thread_context : E -> Z;
  klee_get_concrete_thread_context_for : Z -> E -> Z;
  (* the happens-before graph *)
  klee_add_hbnode : E -> Z * E;
  klee_last_hbnode : E -> Z;
  klee_add_hbedge : Z -> Z -> E -> E;
  klee_add_hbedge_from_threads_last_hbnode : Z -> Z -> E -> E;
  klee_add_hbnode_to_hbgroup : Z -> Z -> E -> E;
  klee_add_hbedges_from_hbgroup : Z -> Z -> E -> E;
  klee_remove_hbgroup : Z -> E -> E;
  (* options, locksets, symbolic values *)
  klee_set_option : Z -> Z -> E -> E;
  klee_get_option : Z -> E -> Z;
  klee_lockset_add : Z -> E -> E;
  klee_lockset_remove : Z -> E -> E;
  klee_is_symbolic : Z -> E -> bool;
  klee_fork_for_concrete_initialization : Z -> Z -> Z -> E -> InitState * E;
  klee_enumerate_possible_lock_owners : Z -> Z -> Z -> E -> Z * E;
  klee_enumerate_possible_barrier_init_counts : Z -> Z -> Z -> E -> (Z * Z) * E;
  klee_enumerate_possible_waiters : Z -> Z -> Z -> E -> (Z * Z) * E;
  klee_enumerate_threads : E -> list bool * list bool;
  (* what klee_load8_no_boundscheck gives for an offset outside the object *)
  klee_load8_oob : Z -> E -> Z;
  (* the dispatcher's choice of the next thread to run *)
  klee_switch_to : Z -> E -> E
}.

(** ** The store

    One typed heap per kind of object, keyed by address; [w_cells] holds the
    plain integer objects that output parameters point to.  [w_user] is the
    state of the program that runs on top of the runtime. *)

Record world (E U : Type) := World {
  w_mutexes : gmap Z pthread_mutex_t;
  w_conds : gmap Z pthread_cond_t;
  w_barriers : gmap Z pthread_barrier_t;
  w_rwlocks : gmap Z pthread_rwlock_t;
  w_sems : gmap Z sem_t;
  w_cleanups : gmap Z _pthread_cleanup_buffer;
  w_cells : gmap Z Z;
  w_tsync : tsync_data_t;
  w_errno : Z;
  w_eng : E;
  w_user : U
}.
Arguments World {E U}.
Arguments w_mutexes {E U}.
Arguments w_conds {E U}.
Arguments w_barriers {E U}.
Arguments w_rwlocks {E U}.
Arguments w_sems {E U}.
Arguments w_cleanups {E U}.
Arguments w_cells {E U}.
Arguments w_tsync {E U}.
Arguments w_errno {E U}.
Arguments w_eng {E U}.
Arguments w_user {E U}.

Section WorldSetters.
Context {E U : Type}.
Implicit Type w : world E U.

Definition w_set_tsync (t : tsync_data_t) w : world E U :=
  World (w_mutexes w) (w_conds w) (w_barriers w) (w_rwlocks w) (w_sems w) (w_cleanups w)
    (w_cells w) t (w_errno w) (w_eng w) (w_user w).
Definition w_set_errno (n : Z) w : world E U :=
  World (w_mutexes w) (w_conds w) (w_barriers w) (w_rwlocks w) (w_sems w) (w_cleanups w)
    (w_cells w) (w_tsync w) n (w_eng w) (w_user w).
Definition w_set_eng (e : E) w : world E U :=
  World (w_mutexes w) (w_conds w) (w_barriers w) (w_rwlocks w) (w_sems w) (w_cleanups w)
    (w_cells w) (w_tsync w) (w_errno w) e (w_user w).
Definition w_set_user (u : U) w : world E U :=
  World (w_mutexes w) (w_conds w) (w_barriers w) (w_rwlocks w) (w_sems w) (w_cleanups w)
    (w_cells w) (w_tsync w) (w_errno w) (w_eng w) u.
End WorldSetters.

(** The heap a type lives in. *)
Class Stored (T : Type) := {
  heap_get : forall {E U}, world E U -> gmap Z T;
  heap_set : forall {E U}, gmap Z T -> world E U -> world E U
}.

#[export] Instance stored_mutex : Stored pthread_mutex_t := {
  heap_get _ _ w := w_mutexes w;
  heap_set _ _ h w := World h (w_conds w) (w_barriers w) (w_rwlocks w) (w_sems w)
    (w_cleanups w) (w_cells w) (w_tsync w) (w_errno w) (w_eng w) (w_user w) }.
#[export] Instance stored_cond : Stored pthread_cond_t := {
  heap_get _ _ w := w_conds w;
  heap_set _ _ h w := World (w_mutexes w) h (w_barriers w) (w_rwlocks w) (w_sems w)
    (w_cleanups w) (w_cells w) (w_tsync w) (w_errno w) (w_eng w) (w_user w) }.
#[export] Instance stored_barrier : Stored pthread_barrier_t := {
  heap_get _ _ w := w_barriers w;
  heap_set _ _ h w := World (w_mutexes w) (w_conds w) h (w_rwlocks w) (w_sems w)
    (w_cleanups w) (w_cells w) (w_tsync w) (w_errno w) (w_eng w) (w_user w) }.
#[export] Instance stored_rwlock : Stored pthread_rwlock_t := {
  heap_get _ _ w := w_rwlocks w;
  heap_set _ _ h w := World (w_mutexes w) (w_conds w) (w_barriers w) h (w_sems w)
    (w_cleanups w) (w_cells w) (w_tsync w) (w_errno w) (w_eng w) (w_user w) }.
#[export] Instance stored_sem : Stored sem_t := {
  heap_get _ _ w := w_sems w;
  heap_set _ _ h w := World (w_mutexes w) (w_conds w) (w_barriers w) (w_rwlocks w) h
    (w_cleanups w) (w_cells w) (w_tsync w) (w_errno w) (w_eng w) (w_user w) }.
#[export] Instance stored_cleanup : Stored _pthread_cleanup_buffer := {
  heap_get _ _ w := w_cleanups w;
  heap_set _ _ h w := World (w_mutexes w) (w_conds w) (w_barriers w) (w_rwlocks w) (w_sems w)
    h (w_cells w) (w_tsync w) (w_errno w) (w_eng w) (w_user w) }.
#[export] Instance stored_cell : Stored Z := {
  heap_get _ _ w := w_cells w;
  heap_set _ _ h w := World (w_mutexes w) (w_conds w) (w_barriers w) (w_rwlocks w) (w_sems w)
    (w_cleanups w) h (w_tsync w) (w_errno w) (w_eng w) (w_user w) }.

(** ** Computations *)

(** Why the engine ends the current path. *)
Inductive stop_reason :=
| StopAssert            (* klee_assert_fail *)
| StopMemory            (* access to an address with no object *)
| StopNotImplemented    (* FUNCTION_NOT_IMPLEMENTED *)
| StopProcess           (* klee_process_terminate *)
| StopInfeasible        (* klee_assume of a false condition *)
| StopError             (* klee_report_error *)
| StopFuel.             (* the model's bound on a waiting loop was too small *)

(** The outcome of running code up to its next scheduling point. *)
Inductive out (W A : Type) : Type :=
| Done (a : A) (w : W)
| Sleep (wl : Z) (w : W) (k : W -> out W A)
| Preempt (yield : Z) (w : W) (k : W -> out W A)
| ThreadExit (w : W)
| Halt (r : stop_reason) (w : W).
Arguments Done {W A}.
Arguments Sleep {W A}.
Arguments Preempt {W A}.
Arguments ThreadExit {W A}.
Arguments Halt {W A}.

Definition M (W A : Type) : Type := W -> out W A.

Fixpoint out_bind {W A B} (o : out W A) (f : A -> M W B) : out W B :=
  match o with
  | Done a w => f a w
  | Sleep wl w k => Sleep wl w (fun w' => out_bind (k w') f)
  | Preempt y w k => Preempt y w (fun w' => out_bind (k w') f)
  | ThreadExit w => ThreadExit w
  | Halt r w => Halt r w
  end.

#[export] Instance M_ret W : MRet (M W) := fun A a w => Done a w.
#[export] Instance M_bind W : MBind (M W) := fun A B f c w => out_bind (c w) f.

Definition halt {W A} (r : stop_reason) : M W A := fun w => Halt r w.

Section Primitives.
Context {E U : Type} `{!KleeEngine E}.
Abbreviation W := (world E U).

Definition load {T} `{!Stored T} (a : Z) : M W T := fun w =>
  match heap_get w !! a with
  | Some v => Done v w
  | None => Halt StopMemory w
  end.

Definition store {T} `{!Stored T} (a : Z) (v : T) : M W unit := fun w =>
  match heap_get w !! a with
  | Some _ => Done tt (heap_set (<[a := v]> (heap_get w)) w)
  | None => Halt StopMemory w
  end.

(** [p->field = v]: an update of one field of the object at [a]. *)
Definition modify {T} `{!Stored T} (a : Z) (f : T -> T) : M W unit :=
  v ← load a; store a (f v).

Definition get_tsync : M W tsync_data_t := fun w => Done (w_tsync w) w.
Definition put_tsync (t : tsync_data_t) : M W unit := fun w => Done tt (w_set_tsync t w).
Definition set_errno (n : Z) : M W unit := fun w => Done tt (w_set_errno n w).
Definition get_user : M W U := fun w => Done (w_user w) w.
Definition put_user (u : U) : M W unit := fun w => Done tt (w_set_user u w).

(** Engine calls: a query, a state change, or both. *)
Definition ask {A} (f : E -> A) : M W A := fun w => Done (f (w_eng w)) w.
Definition tell (f : E -> E) : M W unit := fun w => Done tt (w_set_eng (f (w_eng w)) w).
Definition call {A} (f : E -> A * E) : M W A := fun w =>
  Done (f (w_eng w)).1 (w_set_eng (f (w_eng w)).2 w).

Definition klee_assume (b : bool) : M W unit := if b then mret tt else halt StopInfeasible.
Definition klee_assert (b : bool) : M W unit := if b then mret tt else halt StopAssert.

(** [klee_expr_or], [klee_expr_select32], [klee_expr_select64]: both
    arguments are already evaluated, so they are plain functions. *)
Definition klee_expr_or (a b : bool) : bool := a || b.
Definition klee_expr_select (c : bool) (a b : Z) : Z := if c then a else b.

(** *** The API shorthands of [multiprocess.h] *)

Definition __thread_preempt (yield : Z) : M W unit := fun w =>
  Preempt yield w (fun w' => Done tt w').

Definition __canonical_wlist_addr (wlist_addr : Z) (wlist_type : SyncOpType) : Z := wlist_addr.

(** [wl] is [*wlist_addr], read by the caller; the thread joins the waiting
    list and stops here until it is dispatched again. *)
Definition __thread_sleep (wl wlist_addr : Z) (wlist_type : SyncOpType) : M W unit := fun w =>
  Sleep wl
    (w_set_eng (klee_thread_sleep wl (__canonical_wlist_addr wlist_addr wlist_type)
                  (SyncOpType_to_Z wlist_type) (w_eng w)) w)
    (fun w' => Done tt w').

Definition __thread_notify_one (wl wlist_addr : Z) (wlist_type : SyncOpType) : M W unit :=
  tell (klee_thread_notify wl (__canonical_wlist_addr wlist_addr wlist_type)
          (SyncOpType_to_Z wlist_type) 0 0 0 (-1) 0).

Definition __thread_notify_all (wl wlist_addr : Z) (wlist_type : SyncOpType) : M W unit :=
  tell (klee_thread_notify wl (__canonical_wlist_addr wlist_addr wlist_type)
          (SyncOpType_to_Z wlist_type) 1 0 0 (-1) 0).

Definition __thread_notify_one_with_hbedges (wl wlist_addr : Z) (wlist_type : SyncOpType)
    (source sink : Z) : M W unit :=
  tell (klee_thread_notify wl (__canonical_wlist_addr wlist_addr wlist_type)
          (SyncOpType_to_Z wlist_type) 0 source sink (-1) 0).

Definition __thread_notify_all_with_hbedges (wl wlist_addr : Z) (wlist_type : SyncOpType)
    (source sink : Z) : M W unit :=
  tell (klee_thread_notify wl (__canonical_wlist_addr wlist_addr wlist_type)
          (SyncOpType_to_Z wlist_type) 1 source sink (-1) 0).

Definition __thread_notify_one_with_expected (wl wlist_addr : Z) (wlist_type : SyncOpType)
    (expected_queue_size : Z) : M W unit :=
  tell (klee_thread_notify wl (__canonical_wlist_addr wlist_addr wlist_type)
          (SyncOpType_to_Z wlist_type) 0 0 0 expected_queue_size 0).

Definition __thread_notify_all_with_expected (wl wlist_addr : Z) (wlist_type : SyncOpType)
    (expected_queue_size : Z) : M W unit :=
  tell (klee_thread_notify wl (__canonical_wlist_addr wlist_addr wlist_type)
          (SyncOpType_to_Z wlist_type) 1 0 0 expected_queue_size 0).

Definition __thread_notify_one_with_extras (wl wlist_addr : Z) (wlist_type : SyncOpType)
    (source sink expected_queue_size ics_region_marker : Z) : M W unit :=
  tell (klee_thread_notify wl (__canonical_wlist_addr wlist_addr wlist_type)
          (SyncOpType_to_Z wlist_type) 0 source sink expected_queue_size ics_region_marker).

Definition __thread_notify_all_with_extras (wl wlist_addr : Z) (wlist_type : SyncOpType)
    (source sink expected_queue_size ics_region_marker : Z) : M W unit :=
  tell (klee_thread_notify wl (__canonical_wlist_addr wlist_addr wlist_type)
          (SyncOpType_to_Z wlist_type) 1 source sink expected_queue_size ics_region_marker).

Definition __enumerate_possible_waiters (wl wlist_addr : Z) (wlist_type : SyncOpType)
    : M W (Z * Z) :=
  call (klee_enumerate_possible_waiters wl (__canonical_wlist_addr wlist_addr wlist_type)
          (SyncOpType_to_Z wlist_type)).

Definition __thread_make_hbnode : M W Z := call klee_add_hbnode.

(** The parameter is an [int]: a node id above 2^31 is truncated. *)
Definition __thread_make_hbnode_from (from : Z) : M W Z :=
  n ← call klee_add_hbnode;
  tell (klee_add_hbedge (u64 (s32 from)) n);;
  mret n.

Definition FUNCTION_NOT_IMPLEMENTED {A} : M W A := halt StopNotImplemented.
End Primitives.
