(* ===== verification/Interleave.v ===== *)
(** * What the runtime relies on, and reasoning about interleavings

    [KleeView] names the parts of the engine state that the documentation of
    [klee.h] talks about (who is running, who waits where, the happens-before
    edges, the locksets); [KleeLaws] states the documented behaviour of the
    calls on them.  [always] is the safety logic of the computations: an
    invariant that holds at every scheduling point, whatever the other threads
    do in between.  [pool_invariant] lifts it to every interleaving of a pool
    of threads. *)

From stdpp Require Import base gmap list fin_maps relations.
From Stdlib Require Import ZArith Lia.
From S2P Require Import Prelude PthreadTypes Klee.

(** ** Observations of the engine *)

Class KleeView (E : Type) := {
  eng_wf : E -> Prop;                 (* states the engine can be in *)
  eng_current : E -> Z;               (* the running thread *)
  eng_waiters : E -> Z -> gset Z;     (* threads on a waiting list *)
  eng_allocated : E -> Z -> Prop;     (* waiting list ids handed out *)
  eng_edges : E -> gset (Z * Z);      (* happens-before edges *)
  eng_lockset : E -> Z -> gset Z;     (* locks held, by thread *)
  eng_symid : Z -> Z                  (* concrete to symbolic thread id *)
}.

Definition tid_ok (t : Z) : Prop := 0 <= t < KLEE_MAX_THREADS.

(** A call that does not touch scheduling: it may only add edges. *)
Record frame {E} `{!KleeView E} (e e' : E) : Prop := Frame {
  fr_wf : eng_wf e -> eng_wf e';
  fr_current : eng_current e' = eng_current e;
  fr_waiters : forall wl, eng_waiters e' wl = eng_waiters e wl;
  fr_allocated : forall wl, eng_allocated e' wl <-> eng_allocated e wl;
  fr_edges : eng_edges e ⊆ eng_edges e'
}.

Record quiet {E} `{!KleeView E} (e e' : E) : Prop := Quiet {
  q_frame : frame e e';
  q_lockset : forall t, eng_lockset e' t = eng_lockset e t
}.

Class KleeLaws (E : Type) `{!KleeEngine E, !KleeView E} : Prop := {
  (* well-formed states *)
  law_current_ok e : eng_wf e -> tid_ok (eng_current e);
  law_waiters_ok e wl t : eng_wf e -> t ∈ eng_waiters e wl -> tid_ok t;
  law_waiters_alloc e wl : eng_wf e -> ~ eng_allocated e wl -> eng_waiters e wl = ∅;
  law_symid_inj a b : tid_ok a -> tid_ok b -> eng_symid a = eng_symid b -> a = b;
  law_symid_ok a : tid_ok a -> tid_ok (eng_symid a);

  (* klee_get_wlist hands out a fresh non-zero id *)
  law_get_wlist e : eng_wf e ->
    let wl := (klee_get_wlist e).1 in
    let e' := (klee_get_wlist e).2 in
    eng_wf e' /\ wl <> 0 /\ ~ eng_allocated e wl /\
    (forall x, eng_allocated e' x <-> x = wl \/ eng_allocated e x) /\
    eng_current e' = eng_current e /\
    (forall x, eng_waiters e' x = eng_waiters e x) /\
    eng_edges e' = eng_edges e /\ (forall t, eng_lockset e' t = eng_lockset e t);

  (* klee_thread_sleep puts the running thread on the list *)
  law_sleep e wl addr ty : eng_wf e -> eng_allocated e wl ->
    let e' := klee_thread_sleep wl addr ty e in
    eng_wf e' /\ eng_current e' = eng_current e /\
    eng_waiters e' wl = {[eng_current e]} ∪ eng_waiters e wl /\
    (forall x, x <> wl -> eng_waiters e' x = eng_waiters e x) /\
    (forall x, eng_allocated e' x <-> eng_allocated e x) /\
    eng_edges e ⊆ eng_edges e' /\ (forall t, eng_lockset e' t = eng_lockset e t);

  (* klee_thread_notify wakes one or all; "expected_queue_size" is -1 or the
     number of threads on the list *)
  law_notify e wl addr ty all src sink expected region : eng_wf e ->
    expected = -1 \/ expected = Z.of_nat (size (eng_waiters e wl)) ->
    let e' := klee_thread_notify wl addr ty all src sink expected region e in
    eng_wf e' /\ eng_current e' = eng_current e /\
    (all <> 0 -> eng_waiters e' wl = ∅) /\
    (all = 0 -> eng_waiters e wl = ∅ -> eng_waiters e' wl = ∅) /\
    (all = 0 -> eng_waiters e wl <> ∅ ->
       exists t, t ∈ eng_waiters e wl /\ eng_waiters e' wl = eng_waiters e wl ∖ {[t]}) /\
    (forall x, x <> wl -> eng_waiters e' x = eng_waiters e x) /\
    (forall x, eng_allocated e' x <-> eng_allocated e x) /\
    eng_edges e ⊆ eng_edges e' /\ (forall t, eng_lockset e' t = eng_lockset e t);

  (* the dispatcher *)
  law_switch e t : eng_wf e -> tid_ok t ->
    let e' := klee_switch_to t e in
    eng_wf e' /\ eng_current e' = t /\
    (forall x, eng_waiters e' x = eng_waiters e x) /\
    (forall x, eng_allocated e' x <-> eng_allocated e x) /\
    eng_edges e' = eng_edges e /\ (forall u, eng_lockset e' u = eng_lockset e u);

  (* thread identifiers *)
  law_symbolic_context e : klee_get_symbolic_thread_context e = eng_symid (eng_current e);
  law_symbolic_context_for e t : klee_get_symbolic_thread_context_for t e = eng_symid t;
  law_concrete_context e : klee_get_concrete_thread_context e = eng_current e;
  law_concrete_context_for e t : tid_ok t ->
    klee_get_concrete_thread_context_for (eng_symid t) e = t;
  law_thread_create e t f x : tid_ok t -> quiet e (klee_thread_create t f x e);
  law_thread_terminate e : quiet e (klee_thread_terminate e);

  (* the happens-before graph: node ids are positive 32-bit integers *)
  law_add_hbnode e : quiet e (klee_add_hbnode e).2;
  law_add_hbnode_last e : klee_last_hbnode (klee_add_hbnode e).2 = (klee_add_hbnode e).1;
  law_add_hbnode_range e : 0 < (klee_add_hbnode e).1 < 2 ^ 31;
  law_add_hbedge e a b : quiet e (klee_add_hbedge a b e);
  law_add_hbedge_edge e a b : a <> 0 -> (a, b) ∈ eng_edges (klee_add_hbedge a b e);
  law_add_hbedge_threads e a b : quiet e (klee_add_hbedge_from_threads_last_hbnode a b e);
  law_add_to_hbgroup e a b : quiet e (klee_add_hbnode_to_hbgroup a b e);
  law_from_hbgroup e a b : quiet e (klee_add_hbedges_from_hbgroup a b e);
  law_remove_hbgroup e a : quiet e (klee_remove_hbgroup a e);

  (* options, locksets, values; the contents of the store are concrete *)
  law_set_option e o v : quiet e (klee_set_option o v e);
  law_is_symbolic e v : klee_is_symbolic v e = false;
  law_lockset_add e a :
    frame e (klee_lockset_add a e) /\
    eng_lockset (klee_lockset_add a e) (eng_current e) = {[a]} ∪ eng_lockset e (eng_current e) /\
    (forall t, t <> eng_current e -> eng_lockset (klee_lockset_add a e) t = eng_lockset e t);
  law_lockset_remove e a :
    frame e (klee_lockset_remove a e) /\
    eng_lockset (klee_lockset_remove a e) (eng_current e) = eng_lockset e (eng_current e) ∖ {[a]} /\
    (forall t, t <> eng_current e -> eng_lockset (klee_lockset_remove a e) t = eng_lockset e t)
}.

Section Frames.
Context {E : Type} `{!KleeView E}.

#[export] Instance frame_preorder : PreOrder (frame (E := E)).
Proof.
  split.
  - intros e; by split.
  - intros e1 e2 e3 [w1 c1 v1 a1 d1] [w2 c2 v2 a2 d2]. split; [tauto|congruence| | |by etrans].
    + intros wl; by rewrite v2, v1.
    + intros wl; by rewrite a2, a1.
Qed.

#[export] Instance quiet_preorder : PreOrder (quiet (E := E)).
Proof.
  split.
  - intros e; by split.
  - intros e1 e2 e3 [f1 l1] [f2 l2]. split; [by etrans|]. intros t; by rewrite l2, l1.
Qed.
End Frames.

(** Waiting lists never hold more threads than there are. *)
Lemma waiters_bound {E} `{!KleeEngine E, !KleeView E, !KleeLaws E} (e : E) wl :
  eng_wf e -> 0 <= Z.of_nat (size (eng_waiters e wl)) <= KLEE_MAX_THREADS.
Proof.
  intros Hwf. split; [lia|].
  assert (eng_waiters e wl ⊆ list_to_set (Z.of_nat <$> seq 0 16)) as Hsub.
  { intros t Ht. apply elem_of_list_to_set, list_elem_of_fmap.
    pose proof (law_waiters_ok e wl t Hwf Ht) as [Ha Hb]. unfold KLEE_MAX_THREADS in Hb.
    exists (Z.to_nat t). split; [lia|]. apply elem_of_seq. lia. }
  apply subseteq_size in Hsub.
  etrans; [apply Nat2Z.inj_le, Hsub|]. by vm_compute.
Qed.

(** ** Safety at scheduling points *)

Section Always.
Context {E U : Type} `{!KleeEngine E, !KleeView E}.
Abbreviation W := (world E U).

Definition switch_to (t : Z) (w : W) : W := w_set_eng (klee_switch_to t (w_eng w)) w.

(** Thread [t] waits for nothing. *)
Definition runnable (t : Z) (w : W) : Prop := forall wl, t ∉ eng_waiters (w_eng w) wl.

(** [always t I Q o]: at every scheduling point of the rest of the code [o]
    of thread [t], [I] holds, provided every other thread re-establishes [I]
    before [t] runs again; when the code returns, [Q] holds. *)
Fixpoint always {A} (t : Z) (I : W -> Prop) (Q : A -> W -> Prop) (o : out W A) : Prop :=
  match o with
  | Done a w => Q a w
  | Sleep _ w k | Preempt _ w k =>
      I w /\ forall w', I w' -> runnable t w' -> always t I Q (k (switch_to t w'))
  | ThreadExit w => I w
  | Halt _ _ => True
  end.

Lemma always_bind {A B} t I (Q : B -> W -> Prop) (o : out W A) (f : A -> M W B) :
  always t I (fun a w => always t I Q (f a w)) o -> always t I Q (out_bind o f).
Proof.
  induction o as [a w|wl w k IH|y w k IH|w|r w]; simpl; auto.
  - intros [Hw Hk]; split; auto.
  - intros [Hw Hk]; split; auto.
Qed.

Lemma always_mbind {A B} t I (Q : B -> W -> Prop) (c : M W A) (f : A -> M W B) w :
  always t I (fun a w => always t I Q (f a w)) (c w) -> always t I Q ((c ≫= f) w).
Proof. apply always_bind. Qed.

Lemma always_mono {A} t (I : W -> Prop) (Q Q' : A -> W -> Prop) o :
  (forall a w, Q a w -> Q' a w) -> always t I Q o -> always t I Q' o.
Proof.
  intros HQ. induction o as [a w|wl w k IH|y w k IH|w|r w]; simpl; auto.
  - intros [Hw Hk]; split; auto.
  - intros [Hw Hk]; split; auto.
Qed.
End Always.

(** ** Pools of threads *)

Section Pool.
Context {E U : Type} `{!KleeEngine E, !KleeView E}.
Abbreviation W := (world E U).

(** A thread is the code it has left to run, or has ended. *)
Inductive tstate := Suspended (k : M W unit) | Ended.

Record config := Config { cf_world : W; cf_threads : gmap Z tstate }.

(** Where a segment of thread [t] leads; a halted path leads nowhere. *)
Definition after_segment (t : Z) (th : gmap Z tstate) (o : out W unit) : option config :=
  match o with
  | Done _ w | ThreadExit w => Some (Config w (<[t := Ended]> th))
  | Sleep _ w k | Preempt _ w k => Some (Config w (<[t := Suspended k]> th))
  | Halt _ _ => None
  end.

(** Which code a new thread may run. *)
Variable allowed : Z -> M W unit -> Prop.

Inductive pool_step : config -> config -> Prop :=
| step_run c t k c' :
    cf_threads c !! t = Some (Suspended k) ->
    runnable t (cf_world c) ->
    after_segment t (cf_threads c) (k (switch_to t (cf_world c))) = Some c' ->
    pool_step c c'
| step_spawn c t k :
    cf_threads c !! t = None -> tid_ok t -> allowed t k ->
    pool_step c (Config (cf_world c) (<[t := Suspended k]> (cf_threads c))).

Definition safe_code (I : W -> Prop) (t : Z) (k : M W unit) : Prop :=
  forall w, I w -> runnable t w -> always t I (fun _ w' => I w') (k (switch_to t w)).

Definition pool_safe (I : W -> Prop) (c : config) : Prop :=
  I (cf_world c) /\
  forall t k, cf_threads c !! t = Some (Suspended k) -> safe_code I t k.

Lemma pool_safe_step (I : W -> Prop) c c' :
  (forall t k, tid_ok t -> allowed t k -> safe_code I t k) ->
  pool_step c c' -> pool_safe I c -> pool_safe I c'.
Proof.
  intros Hnew Hstep [Hw Hth]. destruct Hstep as [c t k c' Ht Hrun Hseg | c t k Ht Hok Hall].
  - pose proof (Hth t k Ht _ Hw Hrun) as Ha.
    assert (forall w s, I w -> (forall k', s = Suspended k' -> safe_code I t k') ->
              pool_safe I (Config w (<[t := s]> (cf_threads c)))) as Hput.
    { intros w s Hi Hs. split; [done|]. intros u ku Hu. simpl in Hu.
      destruct (decide (u = t)) as [->|Hne]; simplify_map_eq; eauto. }
    destruct (k (switch_to t (cf_world c))) as [a w|wl w k'|y w k'|w|r w];
      simplify_eq/=; apply Hput; try tauto; try discriminate;
      intros k1 [= <-]; exact (proj2 Ha).
  - split; [done|]. intros u ku Hu. simpl in Hu.
    destruct (decide (u = t)) as [->|Hne]; simplify_map_eq; eauto.
Qed.

(** An invariant that every thread's code maintains at its scheduling points
    holds in every reachable configuration. *)
Lemma pool_invariant (I : W -> Prop) c c' :
  (forall t k, tid_ok t -> allowed t k -> safe_code I t k) ->
  pool_safe I c -> rtc pool_step c c' -> I (cf_world c').
Proof.
  intros Hnew Hsafe Hrtc. cut (pool_safe I c'); [by intros []|].
  induction Hrtc as [c|c1 c2 c3 H12 H23 IH]; eauto using pool_safe_step.
Qed.
End Pool.
