(* ===== verification/WaitLists.v ===== *)
(** * Waiting lists and the counters that mirror them

    Every synchronization object owns one or two waiting lists and most keep a
    counter of the threads queued on them (the "queued" protocol described at
    the top of [threadsync.c]).  [wl_inv] is the global invariant of the
    runtime: list ids are never shared between objects, and each counter is
    exactly the number of threads that the engine has on the list. *)

From stdpp Require Import base gmap list fin_maps.
From Stdlib Require Import ZArith Lia.
From S2P Require Import Prelude PthreadTypes Klee Interleave.

(** The places of the store that hold a waiting list id. *)
Inductive slot :=
| SlMutex (a : Z) | SlCond (a : Z) | SlBarrier (a : Z) | SlReaders (a : Z) | SlWriters (a : Z)
| SlSem (a : Z) | SlJoin (i : nat) | SlJoinAll.

(** How many threads have arrived at a barrier: none if it is not initialized;
    the value -1, which no list can have, if the two counters do not fit. *)
Definition b_arrived (b : pthread_barrier_t) : Z :=
  if (b_init_count b =? 0) && (b_left b =? 0) then 0
  else if (1 <=? b_left b) && (b_left b <=? b_init_count b) && (b_init_count b <? 2 ^ 32)
  then b_init_count b - b_left b else -1.

(** The counter of an object that keeps none: any number of threads may be on
    its list, but it has to have one. *)
Definition must_exist (wl : Z) : option Z := if wl =? 0 then Some (-1) else None.

(** A thread slot in use has a list; there are [KLEE_MAX_THREADS] slots. *)
Definition td_list (i : nat) (d : thread_data_t) : option Z :=
  if KLEE_MAX_THREADS <=? Z.of_nat i then Some (-1)
  else if td_allocated d =? 0 then None else must_exist (td_wlist d).

(** The threads queued for writing; -1 if the lock has only one of its two
    lists. *)
Definition rw_writers_waiting (r : pthread_rwlock_t) : Z :=
  if Bool.eqb (rw_wlist_readers r =? 0) (rw_wlist_writers r =? 0) then rw_nr_writers_queued r else -1.

#[export] Instance slot_eq_dec : EqDecision slot.
Proof. solve_decision. Defined.

(** Engine changes that leave scheduling alone, except for new list ids. *)
Record calm {E} `{!KleeView E} (e e' : E) : Prop := Calm {
  calm_wf : eng_wf e -> eng_wf e';
  calm_current : eng_current e' = eng_current e;
  calm_waiters : forall wl, eng_waiters e' wl = eng_waiters e wl;
  calm_allocated : forall wl, eng_allocated e wl -> eng_allocated e' wl;
  calm_edges : eng_edges e ⊆ eng_edges e'
}.

#[export] Instance calm_preorder {E} `{!KleeView E} : PreOrder (calm (E := E)).
Proof.
  split; [by split|].
  intros e1 e2 e3 [w1 c1 v1 a1 d1] [w2 c2 v2 a2 d2]. split; [tauto|congruence| |auto|by etrans].
  intros wl; by rewrite v2, v1.
Qed.

Lemma frame_calm {E} `{!KleeView E} (e e' : E) : frame e e' -> calm e e'.
Proof. intros [w c v a d]. split; auto. intros wl; by rewrite a. Qed.

Lemma quiet_calm {E} `{!KleeView E} (e e' : E) : quiet e e' -> calm e e'.
Proof. intros [f _]. by apply frame_calm. Qed.

Create HintDb calm.
#[export] Hint Resolve frame_calm quiet_calm : calm.
#[export] Hint Resolve law_add_hbnode law_add_hbedge law_add_hbedge_threads law_add_to_hbgroup
  law_from_hbgroup law_remove_hbgroup law_set_option law_thread_terminate : calm.

(** Chains of calm engine calls. *)
Ltac calm_tac :=
  repeat match goal with
  | |- calm ?e ?e => reflexivity
  | |- calm ?e ?e' => first [ assumption | solve [eauto 3 with calm] ]
  | |- calm ?e (klee_add_hbnode ?e').2 => transitivity e'; [|solve [eauto 3 with calm]]
  | |- calm ?e (klee_add_hbedge _ _ ?e') => transitivity e'; [|solve [eauto 3 with calm]]
  | |- calm ?e (klee_set_option _ _ ?e') => transitivity e'; [|solve [eauto 3 with calm]]
  | |- calm ?e (klee_add_hbnode_to_hbgroup _ _ ?e') => transitivity e'; [|solve [eauto 3 with calm]]
  | |- calm ?e (klee_add_hbedges_from_hbgroup _ _ ?e') => transitivity e'; [|solve [eauto 3 with calm]]
  | |- calm ?e (klee_remove_hbgroup _ ?e') => transitivity e'; [|solve [eauto 3 with calm]]
  | |- calm ?e (klee_add_hbedge_from_threads_last_hbnode _ _ ?e') =>
      transitivity e'; [|solve [eauto 3 with calm]]
  | |- calm ?e (klee_lockset_add ?a ?e') =>
      transitivity e'; [|apply frame_calm; apply (law_lockset_add e' a)]
  | |- calm ?e (klee_lockset_remove ?a ?e') =>
      transitivity e'; [|apply frame_calm; apply (law_lockset_remove e' a)]
  end.

Section WaitLists.
Context {E U : Type} `{!KleeEngine E, !KleeView E, !KleeLaws E}.
Abbreviation W := (world E U).
Implicit Types (w : W) (e : E).

Lemma get_wlist_calm e : eng_wf e -> calm e (klee_get_wlist e).2.
Proof.
  intros Hwf. destruct (law_get_wlist e Hwf) as (Hw & _ & _ & Ha & Hc & Hv & Hd & _).
  split; auto; [|by rewrite Hd]. intros wl Hwl. apply Ha. auto.
Qed.

(** List id and counter (if the object keeps one) of a slot. *)
Definition slot_get w (sl : slot) : option (Z * option Z) :=
  match sl with
  | SlMutex a => (fun m => (m_wlist m, Some (m_queued m))) <$> w_mutexes w !! a
  | SlCond a => (fun c => (c_wlist c, Some (c_queued c))) <$> w_conds w !! a
  | SlBarrier a => (fun b => (b_wlist b, Some (b_arrived b))) <$> w_barriers w !! a
  | SlReaders a => (fun r => (rw_wlist_readers r, Some (rw_nr_readers_queued r))) <$> w_rwlocks w !! a
  | SlWriters a => (fun r => (rw_wlist_writers r, Some (rw_writers_waiting r))) <$> w_rwlocks w !! a
  | SlSem a => (fun s => (s_wlist s, must_exist (s_wlist s))) <$> w_sems w !! a
  | SlJoin i => (fun d => (td_wlist d, td_list i d)) <$> ts_threads (w_tsync w) !! i
  | SlJoinAll => Some (ts_joinall_wlist (w_tsync w), must_exist (ts_joinall_wlist (w_tsync w)))
  end.

(** Not yet assigned, or a list whose length the counter gives. *)
Definition slot_ok e (wl : Z) (n : option Z) : Prop :=
  (wl = 0 /\ (n = None \/ n = Some 0)) \/
  (wl <> 0 /\ eng_allocated e wl /\ forall c, n = Some c -> c = Z.of_nat (size (eng_waiters e wl))).

Record wl_inv w : Prop := WlInv {
  wl_wf : eng_wf (w_eng w);
  wl_slots : forall sl wl n, slot_get w sl = Some (wl, n) -> slot_ok (w_eng w) wl n;
  wl_inj : forall sl1 sl2 wl n1 n2, wl <> 0 ->
    slot_get w sl1 = Some (wl, n1) -> slot_get w sl2 = Some (wl, n2) -> sl1 = sl2
}.

(** Changing one slot, and the waiting list it names afterwards. *)
Lemma wl_inv_change w w' sl0 wl0 n0 :
  wl_inv w ->
  eng_wf (w_eng w') ->
  (forall x, eng_allocated (w_eng w) x -> eng_allocated (w_eng w') x) ->
  (forall sl, sl <> sl0 -> slot_get w' sl = slot_get w sl) ->
  slot_get w' sl0 = Some (wl0, n0) ->
  (forall x, x <> wl0 -> eng_waiters (w_eng w') x = eng_waiters (w_eng w) x) ->
  slot_ok (w_eng w') wl0 n0 ->
  (forall sl n, sl <> sl0 -> wl0 <> 0 -> slot_get w sl <> Some (wl0, n)) ->
  wl_inv w'.
Proof.
  intros [Hwf Hsl Hinj] Hwf' Hal Hother Hnew Hwait Hok Hfresh. split; [done| |].
  - intros sl wl n Hget. destruct (decide (sl = sl0)) as [->|Hne]; [by simplify_eq|].
    rewrite Hother in Hget by done.
    destruct (Hsl _ _ _ Hget) as [H0|(Hnz & Ha & Hc)]; [by left|right].
    assert (wl <> wl0) as Hd. { intros ->. by apply (Hfresh sl n). }
    split; [done|]. split; [auto|]. intros c Hcn. rewrite Hwait by done. auto.
  - intros sl1 sl2 wl n1 n2 Hnz H1 H2.
    destruct (decide (sl1 = sl0)) as [->|Hn1], (decide (sl2 = sl0)) as [->|Hn2]; [done| | |].
    + rewrite Hnew in H1. rewrite Hother in H2 by done. simplify_eq.
      by destruct (Hfresh _ _ Hn2 Hnz H2).
    + rewrite Hnew in H2. rewrite Hother in H1 by done. simplify_eq.
      by destruct (Hfresh _ _ Hn1 Hnz H1).
    + rewrite Hother in H1, H2 by done. by apply (Hinj _ _ _ _ _ Hnz H1 H2).
Qed.

(** Nothing but the engine changed, and calmly. *)
Lemma wl_inv_calm w w' :
  wl_inv w -> calm (w_eng w) (w_eng w') -> (forall sl, slot_get w' sl = slot_get w sl) -> wl_inv w'.
Proof.
  intros [Hwf Hsl Hinj] [cw cc cv ca cd] Hs. split; [auto| |].
  - intros sl wl n Hget. rewrite Hs in Hget.
    destruct (Hsl _ _ _ Hget) as [H0|(Hnz & Ha & Hc)]; [by left|right].
    split; [done|]. split; [auto|]. intros c Hcn. rewrite cv. auto.
  - intros sl1 sl2 wl n1 n2 Hnz H1 H2. rewrite Hs in H1, H2. eauto.
Qed.

Lemma wl_inv_not_elsewhere w sl0 wl n0 :
  wl_inv w -> slot_get w sl0 = Some (wl, n0) ->
  forall sl n, sl <> sl0 -> wl <> 0 -> slot_get w sl <> Some (wl, n).
Proof. intros Hinv H0 sl n Hne Hnz Hget. by apply Hne, (wl_inj w Hinv _ _ wl n n0). Qed.

(** A fresh list id for one slot. *)
Lemma wl_inv_fresh w w' sl0 n0 e :
  wl_inv w -> calm (w_eng w) e ->
  w_eng w' = (klee_get_wlist e).2 ->
  (forall sl, sl <> sl0 -> slot_get w' sl = slot_get w sl) ->
  slot_get w' sl0 = Some ((klee_get_wlist e).1, n0) ->
  n0 = None \/ n0 = Some 0 ->
  wl_inv w'.
Proof.
  intros Hinv Hcalm He Hother Hnew Hn.
  pose proof (calm_wf _ _ Hcalm (wl_wf w Hinv)) as Hwfe.
  destruct (law_get_wlist e Hwfe) as (Hw & Hnz & Hna & Ha & Hc & Hv & _).
  assert (~ eng_allocated (w_eng w) (klee_get_wlist e).1) as Hna'.
  { intros Hx. by apply Hna, (calm_allocated _ _ Hcalm). }
  eapply (wl_inv_change w w' sl0); eauto.
  - by rewrite He.
  - intros x Hx. rewrite He. apply Ha. right. by apply (calm_allocated _ _ Hcalm).
  - intros x _. rewrite He, Hv. apply (calm_waiters _ _ Hcalm).
  - right. split; [done|]. split; [rewrite He; apply Ha; auto|].
    intros c ->. destruct Hn as [|[= ->]]; [done|].
    rewrite He, Hv, (law_waiters_alloc e) by done. by rewrite size_empty.
  - intros sl n _ _ Hget. destruct (wl_slots w Hinv _ _ _ Hget) as [[? _]|(_ & Hal & _)]; auto.
Qed.

(** The running thread goes to sleep on the list of a slot, counted. *)
Lemma wl_inv_sleep w w' sl0 wl n n' e addr ty :
  wl_inv w -> calm (w_eng w) e ->
  (forall x, eng_current (w_eng w) ∉ eng_waiters (w_eng w) x) ->
  slot_get w sl0 = Some (wl, n) -> wl <> 0 ->
  w_eng w' = klee_thread_sleep wl addr ty e ->
  (forall sl, sl <> sl0 -> slot_get w' sl = slot_get w sl) ->
  slot_get w' sl0 = Some (wl, n') ->
  (forall c', n' = Some c' -> exists c, n = Some c /\ c' = c + 1) ->
  wl_inv w'.
Proof.
  intros Hinv Hcalm Hrun Hold Hnz He Hother Hnew Hn.
  destruct (wl_slots w Hinv _ _ _ Hold) as [[? _]|(_ & Hal & Hcnt)]; [done|].
  pose proof (calm_wf _ _ Hcalm (wl_wf w Hinv)) as Hwfe.
  pose proof (calm_allocated _ _ Hcalm _ Hal) as Hale.
  destruct (law_sleep e wl addr ty Hwfe Hale) as (Hw & Hc & Hv & Hvo & Ha & _).
  eapply (wl_inv_change w w' sl0); eauto using wl_inv_not_elsewhere.
  - by rewrite He.
  - intros x Hx. rewrite He. apply Ha. by apply (calm_allocated _ _ Hcalm).
  - intros x Hx. rewrite He, Hvo by done. apply (calm_waiters _ _ Hcalm).
  - right. split; [done|]. split; [rewrite He; by apply Ha|].
    intros c' Hc'. destruct (Hn c' Hc') as (c & -> & ->).
    rewrite He, Hv, (calm_waiters _ _ Hcalm), (calm_current _ _ Hcalm).
    rewrite size_insert_fresh by apply Hrun. f_equal. auto.
Qed.

(** One thread of a non-empty counted list is notified. *)
Lemma wl_inv_notify_one w w' sl0 wl c e addr ty src sink region :
  wl_inv w -> calm (w_eng w) e ->
  slot_get w sl0 = Some (wl, Some c) -> wl <> 0 -> 0 < c ->
  w_eng w' = klee_thread_notify wl addr ty 0 src sink c region e ->
  (forall sl, sl <> sl0 -> slot_get w' sl = slot_get w sl) ->
  slot_get w' sl0 = Some (wl, Some (c - 1)) ->
  wl_inv w'.
Proof.
  intros Hinv Hcalm Hold Hnz Hpos He Hother Hnew.
  destruct (wl_slots w Hinv _ _ _ Hold) as [[? _]|(_ & Hal & Hcnt)]; [done|].
  specialize (Hcnt c eq_refl). rewrite <- (calm_waiters _ _ Hcalm) in Hcnt.
  pose proof (calm_wf _ _ Hcalm (wl_wf w Hinv)) as Hwfe.
  destruct (law_notify e wl addr ty 0 src sink c region Hwfe (or_intror Hcnt))
    as (Hw & Hc & _ & _ & Hone & Hvo & Ha & _).
  destruct (Hone eq_refl) as (t & Ht & Hv).
  { intros Hemp. rewrite Hemp, size_empty in Hcnt. lia. }
  eapply (wl_inv_change w w' sl0); eauto using wl_inv_not_elsewhere.
  - by rewrite He.
  - intros x Hx. rewrite He. apply Ha. by apply (calm_allocated _ _ Hcalm).
  - intros x Hx. rewrite He, Hvo by done. apply (calm_waiters _ _ Hcalm).
  - right. split; [done|]. split; [rewrite He; apply Ha; by apply (calm_allocated _ _ Hcalm)|].
    intros c' [= <-]. rewrite He, Hv, size_remove_one by done. lia.
Qed.

(** Every thread of a list is notified. *)
Lemma wl_inv_notify_all w w' sl0 wl n n' e addr ty all src sink expected region :
  wl_inv w -> calm (w_eng w) e ->
  slot_get w sl0 = Some (wl, n) -> wl <> 0 -> all <> 0 ->
  expected = -1 \/ n = Some expected ->
  w_eng w' = klee_thread_notify wl addr ty all src sink expected region e ->
  (forall sl, sl <> sl0 -> slot_get w' sl = slot_get w sl) ->
  slot_get w' sl0 = Some (wl, n') -> n' = None \/ n' = Some 0 ->
  wl_inv w'.
Proof.
  intros Hinv Hcalm Hold Hnz Hall Hexp He Hother Hnew Hn'.
  destruct (wl_slots w Hinv _ _ _ Hold) as [[? _]|(_ & Hal & Hcnt)]; [done|].
  pose proof (calm_wf _ _ Hcalm (wl_wf w Hinv)) as Hwfe.
  assert (expected = -1 \/ expected = Z.of_nat (size (eng_waiters e wl))) as Hexp'.
  { destruct Hexp as [|Hs]; [by left|right]. rewrite (calm_waiters _ _ Hcalm). auto. }
  destruct (law_notify e wl addr ty all src sink expected region Hwfe Hexp')
    as (Hw & Hc & Hv & _ & _ & Hvo & Ha & _).
  eapply (wl_inv_change w w' sl0); eauto using wl_inv_not_elsewhere.
  - by rewrite He.
  - intros x Hx. rewrite He. apply Ha. by apply (calm_allocated _ _ Hcalm).
  - intros x Hx. rewrite He, Hvo by done. apply (calm_waiters _ _ Hcalm).
  - right. split; [done|]. split; [rewrite He; apply Ha; by apply (calm_allocated _ _ Hcalm)|].
    intros c' ->. destruct Hn' as [|[= ->]]; [done|].
    rewrite He, (Hv Hall). by rewrite size_empty.
Qed.

(** A counter stays far below its wrap-around. *)
Lemma wl_inv_count_bound w sl wl c :
  wl_inv w -> slot_get w sl = Some (wl, Some c) -> 0 <= c <= KLEE_MAX_THREADS.
Proof.
  intros Hinv Hget. destruct (wl_slots w Hinv _ _ _ Hget) as [[_ [?|?]]|(_ & _ & Hc)]; simplify_eq.
  - unfold KLEE_MAX_THREADS; lia.
  - rewrite (Hc c eq_refl). apply waiters_bound, (wl_wf w Hinv).
Qed.

Lemma wl_inv_switch w t : tid_ok t -> wl_inv w -> wl_inv (switch_to t w).
Proof.
  intros Ht [Hwf Hsl Hinj]. destruct (law_switch (w_eng w) t Hwf Ht) as (Hw & Hc & Hv & Ha & _).
  split; [done| |exact Hinj].
  intros sl wl n Hget. destruct (Hsl sl wl n Hget) as [H0|(Hnz & Hal & Hcn)]; [by left|right].
  split; [done|]. split; [by apply Ha|]. intros c Hc'. simpl. rewrite Hv. auto.
Qed.
End WaitLists.

(** ** Segments *)

Section Segments.
Context {E U : Type} `{!KleeEngine E, !KleeView E, !KleeLaws E}.
Abbreviation W := (world E U).
Implicit Types (w : W) (e : E).

(** A new value for the object at [a], and a new engine state. *)
Definition put {T} `{!Stored T} (a : Z) (v : T) e w : W :=
  heap_set (<[a := v]> (heap_get w)) (w_set_eng e w).

#[global] Arguments put : simpl never.

(** Thread [t] is running, and the invariant holds. *)
Record on_cpu (t : Z) w : Prop := OnCpu {
  cpu_inv : wl_inv w;
  cpu_current : eng_current (w_eng w) = t;
  cpu_free : forall x, t ∉ eng_waiters (w_eng w) x
}.

Lemma on_cpu_enter t w : tid_ok t -> wl_inv w -> runnable t w -> on_cpu t (switch_to t w).
Proof.
  intros Ht Hinv Hrun. destruct (law_switch (w_eng w) t (wl_wf w Hinv) Ht) as (_ & Hc & Hv & _).
  split; [by apply wl_inv_switch|done|]. intros x. simpl. rewrite Hv. apply Hrun.
Qed.

Lemma on_cpu_tid t w : on_cpu t w -> tid_ok t.
Proof. intros [Hinv <- _]. apply law_current_ok, (wl_wf w Hinv). Qed.

Lemma on_cpu_calm t w w' :
  on_cpu t w -> calm (w_eng w) (w_eng w') -> (forall sl, slot_get w' sl = slot_get w sl) ->
  on_cpu t w'.
Proof.
  intros [Hinv Hc Hf] Hcalm Hs. split.
  - by apply (wl_inv_calm w w').
  - by rewrite (calm_current _ _ Hcalm).
  - intros x. rewrite (calm_waiters _ _ Hcalm). apply Hf.
Qed.

(** The engine calls of a running thread, on the slot they concern. *)
Lemma on_cpu_notify_one t w w' sl0 wl c e addr ty src sink region :
  on_cpu t w -> calm (w_eng w) e ->
  slot_get w sl0 = Some (wl, Some c) -> wl <> 0 -> 0 < c ->
  w_eng w' = klee_thread_notify wl addr ty 0 src sink c region e ->
  (forall sl, sl <> sl0 -> slot_get w' sl = slot_get w sl) ->
  slot_get w' sl0 = Some (wl, Some (c - 1)) ->
  on_cpu t w'.
Proof.
  intros [Hinv Hcur Hfree] Hcalm Hslot Hnz Hpos He Hother Hnew.
  assert (c = Z.of_nat (size (eng_waiters e wl))) as Hsz.
  { destruct (wl_slots w Hinv _ _ _ Hslot) as [[? _]|(_ & _ & Hn)]; [done|].
    rewrite (calm_waiters _ _ Hcalm). auto. }
  destruct (law_notify e wl addr ty 0 src sink c region (calm_wf _ _ Hcalm (wl_wf w Hinv))
    (or_intror Hsz)) as (_ & Hcur' & _ & _ & Hone & Hvo & _).
  destruct (Hone eq_refl) as (u & _ & Hvw).
  { intros Hemp. rewrite Hemp, size_empty in Hsz. lia. }
  split.
  - by eapply (wl_inv_notify_one w w' sl0 wl c e addr ty src sink region).
  - rewrite He, Hcur', (calm_current _ _ Hcalm). done.
  - intros x. rewrite He. destruct (decide (x = wl)) as [->|Hx].
    + rewrite Hvw, (calm_waiters _ _ Hcalm). specialize (Hfree wl). by intros [? _]%elem_of_difference.
    + rewrite Hvo, (calm_waiters _ _ Hcalm) by done. apply Hfree.
Qed.

Lemma on_cpu_notify_all t w w' sl0 wl n n' e addr ty all src sink expected region :
  on_cpu t w -> calm (w_eng w) e ->
  slot_get w sl0 = Some (wl, n) -> wl <> 0 -> all <> 0 -> expected = -1 \/ n = Some expected ->
  w_eng w' = klee_thread_notify wl addr ty all src sink expected region e ->
  (forall sl, sl <> sl0 -> slot_get w' sl = slot_get w sl) ->
  slot_get w' sl0 = Some (wl, n') -> n' = None \/ n' = Some 0 ->
  on_cpu t w'.
Proof.
  intros [Hinv Hcur Hfree] Hcalm Hslot Hnz Hall Hexp He Hother Hnew Hn'.
  assert (expected = -1 \/ expected = Z.of_nat (size (eng_waiters e wl))) as Hexp'.
  { destruct Hexp as [|Hs]; [by left|right].
    destruct (wl_slots w Hinv _ _ _ Hslot) as [[? _]|(_ & _ & Hn)]; [done|].
    rewrite (calm_waiters _ _ Hcalm). auto. }
  destruct (law_notify e wl addr ty all src sink expected region
    (calm_wf _ _ Hcalm (wl_wf w Hinv)) Hexp') as (_ & Hcur' & Hv0 & _ & _ & Hvo & _).
  split.
  - by eapply (wl_inv_notify_all w w' sl0 wl n n' e addr ty all).
  - rewrite He, Hcur', (calm_current _ _ Hcalm). done.
  - intros x. rewrite He. destruct (decide (x = wl)) as [->|Hx].
    + rewrite (Hv0 Hall). set_solver.
    + rewrite Hvo, (calm_waiters _ _ Hcalm) by done. apply Hfree.
Qed.

Lemma on_cpu_fresh t w w' sl0 n0 e :
  on_cpu t w -> calm (w_eng w) e -> w_eng w' = (klee_get_wlist e).2 ->
  (forall sl, sl <> sl0 -> slot_get w' sl = slot_get w sl) ->
  slot_get w' sl0 = Some ((klee_get_wlist e).1, n0) -> n0 = None \/ n0 = Some 0 ->
  on_cpu t w'.
Proof.
  intros [Hinv Hcur Hfree] Hcalm He Hother Hnew Hn.
  assert (calm (w_eng w) (klee_get_wlist e).2) as Hc2.
  { etrans; [exact Hcalm|]. apply get_wlist_calm, (calm_wf _ _ Hcalm), Hinv. }
  split.
  - by eapply (wl_inv_fresh w w' sl0 n0 e).
  - rewrite He, (calm_current _ _ Hc2). done.
  - intros x. rewrite He, (calm_waiters _ _ Hc2). apply Hfree.
Qed.

(** Threads of a list that nobody counts. *)
Lemma on_cpu_notify_uncounted t w w' wl e addr ty all src sink region :
  on_cpu t w -> calm (w_eng w) e -> (forall sl n, wl <> 0 -> slot_get w sl = Some (wl, n) -> n = None) ->
  w_eng w' = klee_thread_notify wl addr ty all src sink (-1) region e ->
  (forall sl, slot_get w' sl = slot_get w sl) ->
  on_cpu t w'.
Proof.
  intros [Hinv Hcur Hfree] Hcalm Hslot He Hs.
  destruct (law_notify e wl addr ty all src sink (-1) region (calm_wf _ _ Hcalm (wl_wf w Hinv))
    (or_introl eq_refl)) as (Hw & Hcur' & Hall & Hnone & Hone & Hvo & Ha & _).
  assert (eng_waiters (w_eng w') wl ⊆ eng_waiters (w_eng w) wl) as Hsub.
  { rewrite He, <- (calm_waiters _ _ Hcalm). destruct (decide (all = 0)) as [H0|H0].
    - destruct (decide (eng_waiters e wl = ∅)) as [H1|H1]; [rewrite (Hnone H0 H1); set_solver|].
      destruct (Hone H0 H1) as (u & _ & ->). set_solver.
    - rewrite (Hall H0). set_solver. }
  assert (forall x, x <> wl -> eng_waiters (w_eng w') x = eng_waiters (w_eng w) x) as Hvo'
    by (intros x Hx; by rewrite He, Hvo, (calm_waiters _ _ Hcalm)).
  split; [split| |].
  - by rewrite He.
  - intros sl x n Hx. rewrite Hs in Hx. destruct (wl_slots w Hinv _ _ _ Hx) as [H0|(Hz & Hal & Hc)]; [by left|right].
    split; [done|]. split; [rewrite He; apply Ha; by apply (calm_allocated _ _ Hcalm)|].
    intros c ->. destruct (decide (x = wl)) as [->|Hne]; [by apply Hslot in Hx|]. rewrite Hvo' by done. auto.
  - intros sl1 sl2 x n1 n2 Hz H1 H2. rewrite Hs in H1, H2. by eapply (wl_inj w Hinv).
  - by rewrite He, Hcur', (calm_current _ _ Hcalm).
  - intros x. destruct (decide (x = wl)) as [->|Hx]; [specialize (Hfree wl); set_solver|].
    rewrite Hvo' by done. apply Hfree.
Qed.

(** The list of a slot without a counter. *)
Lemma uncounted_slot w sl0 wl :
  wl_inv w -> slot_get w sl0 = Some (wl, None) ->
  forall sl n, wl <> 0 -> slot_get w sl = Some (wl, n) -> n = None.
Proof.
  intros Hinv H0 sl n Hz Hs. assert (sl = sl0) as -> by (by eapply (wl_inj w Hinv)). congruence.
Qed.

(** Two fresh lists at once. *)
Lemma on_cpu_fresh2 t w w' sl1 sl2 n1 n2 e :
  on_cpu t w -> calm (w_eng w) e -> sl1 <> sl2 ->
  let e1 := (klee_get_wlist e).2 in
  w_eng w' = (klee_get_wlist e1).2 ->
  (forall sl, sl <> sl1 -> sl <> sl2 -> slot_get w' sl = slot_get w sl) ->
  slot_get w' sl1 = Some ((klee_get_wlist e).1, n1) -> n1 = None \/ n1 = Some 0 ->
  slot_get w' sl2 = Some ((klee_get_wlist e1).1, n2) -> n2 = None \/ n2 = Some 0 ->
  on_cpu t w'.
Proof.
  intros [Hinv Hcur Hfree] Hcalm Hne e1 He Hother Hs1 Hn1 Hs2 Hn2.
  pose proof (calm_wf _ _ Hcalm (wl_wf w Hinv)) as Hwf.
  destruct (law_get_wlist e Hwf) as (Hwf1 & Hz1 & Hf1 & Ha1 & Hc1 & Hv1 & _).
  destruct (law_get_wlist e1 Hwf1) as (Hwf2 & Hz2 & Hf2 & Ha2 & Hc2 & Hv2 & _).
  fold e1 in Ha1, Hc1, Hv1. set (i1 := (klee_get_wlist e).1) in *. set (i2 := (klee_get_wlist e1).1) in *.
  assert (forall x, eng_waiters (w_eng w') x = eng_waiters (w_eng w) x) as Hv
    by (intros x; by rewrite He, Hv2, Hv1, (calm_waiters _ _ Hcalm)).
  assert (forall sl wl n, slot_get w sl = Some (wl, n) -> wl <> 0 -> wl <> i1 /\ wl <> i2) as Hold.
  { intros sl wl n Hs Hz. destruct (wl_slots w Hinv _ _ _ Hs) as [[? _]|(_ & Hal & _)]; [done|].
    apply (calm_allocated _ _ Hcalm) in Hal. split; intros ->; [done|]. by apply Hf2, Ha1; right. }
  assert (i1 <> i2) as Hi by (intros Heq; apply Hf2; rewrite <- Heq; apply Ha1; by left).
  assert (forall i n, i <> 0 -> eng_allocated (w_eng w') i -> ~ eng_allocated e i ->
    n = None \/ n = Some 0 -> slot_ok (w_eng w') i n) as Hnew.
  { intros i n Hi0 Hal Hna Hn. right. split; [done|]. split; [done|]. intros c ->.
    destruct Hn as [|[= ->]]; [done|].
    by rewrite Hv, <- (calm_waiters _ _ Hcalm), (law_waiters_alloc e) by done. }
  split; [split| |].
  - by rewrite He.
  - intros sl wl n Hs. destruct (decide (sl = sl1)) as [->|H1]; [|destruct (decide (sl = sl2)) as [->|H2]].
    + rewrite Hs1 in Hs. simplify_eq. apply Hnew; try done. rewrite He. apply Ha2. right. apply Ha1. by left.
    + rewrite Hs2 in Hs. simplify_eq. apply Hnew; try done; [rewrite He; apply Ha2; by left|].
      intros Hx. apply Hf2, Ha1. by right.
    + rewrite Hother in Hs by done. destruct (wl_slots w Hinv _ _ _ Hs) as [H0|(Hz & Hal & Hc)]; [by left|right].
      split; [done|]. split; [|intros c Hcn; rewrite Hv; auto].
      rewrite He. apply Ha2. right. apply Ha1. right. by apply (calm_allocated _ _ Hcalm).
  - intros sla slb wl na nb Hz Ha Hb.
    destruct (decide (sla = sl1)) as [->|]; [|destruct (decide (sla = sl2)) as [->|]];
    (destruct (decide (slb = sl1)) as [->|]; [|destruct (decide (slb = sl2)) as [->|]]);
    rewrite ?Hs1, ?Hs2 in Ha; rewrite ?Hs1, ?Hs2 in Hb; rewrite ?Hother in Ha by done;
    rewrite ?Hother in Hb by done; simplify_eq; try done;
    try (by destruct (Hold _ _ _ Ha Hz)); try (by destruct (Hold _ _ _ Hb Hz)).
    by apply (wl_inj w Hinv _ _ wl na nb).
  - by rewrite He, Hc2, Hc1, (calm_current _ _ Hcalm).
  - intros x. rewrite Hv. apply Hfree.
Qed.

(** Scheduling points: the invariant is given up and taken back. *)
Lemma preempt_safe t y w :
  on_cpu t w -> always t wl_inv (fun _ w' => on_cpu t w') (__thread_preempt y w).
Proof.
  intros Hon. split; [apply Hon|]. intros w' Hinv Hrun.
  apply on_cpu_enter; [by eapply on_cpu_tid|done|done].
Qed.

(** The usual ending of an API function: [if (res == 0) preempt; return res]. *)
Definition finish_if_ok (res : Z) : M W Z :=
  (if res =? 0 then __thread_preempt 0 else mret tt);; mret res.

Lemma finish_if_ok_safe t res w :
  on_cpu t w -> always t wl_inv (fun _ w' => on_cpu t w') (finish_if_ok res w).
Proof.
  intros Hon. unfold finish_if_ok. apply always_mbind. destruct (res =? 0); [|done].
  eapply always_mono; [|by apply preempt_safe]. done.
Qed.

Lemma safe_of_on_cpu {A} t (c : M W A) w :
  tid_ok t ->
  (forall w', on_cpu t w' -> always t wl_inv (fun _ w'' => on_cpu t w'') (c w')) ->
  wl_inv w -> runnable t w ->
  always t wl_inv (fun _ w' => wl_inv w') (c (switch_to t w)).
Proof.
  intros Ht Hc Hinv Hrun. eapply always_mono; [|by apply Hc, on_cpu_enter].
  intros a w' Hon. apply Hon.
Qed.
End Segments.

(** ** Symbolic execution on a store with a distinguished object *)

(** Heaps are independent of each other and of the engine. *)
Class StoredOk (T : Type) `{!Stored T} : Prop := {
  so_get_set {E U} (h : gmap Z T) (w : world E U) : heap_get (heap_set h w) = h;
  so_set_set {E U} (h h' : gmap Z T) (w : world E U) : heap_set h (heap_set h' w) = heap_set h w;
  so_set_get {E U} (w : world E U) : heap_set (heap_get w) w = w;
  so_get_eng {E U} (e : E) (w : world E U) : heap_get (w_set_eng e w) = heap_get w;
  so_eng_set {E U} (h : gmap Z T) (w : world E U) : w_eng (heap_set h w) = w_eng w;
  so_set_eng {E U} (h : gmap Z T) (e : E) (w : world E U) :
    w_set_eng e (heap_set h w) = heap_set h (w_set_eng e w)
}.

#[export] Instance so_mutex : StoredOk pthread_mutex_t. Proof. split; by try intros ?? []. Qed.
#[export] Instance so_cond : StoredOk pthread_cond_t. Proof. split; by try intros ?? []. Qed.
#[export] Instance so_barrier : StoredOk pthread_barrier_t. Proof. split; by try intros ?? []. Qed.
#[export] Instance so_rwlock : StoredOk pthread_rwlock_t. Proof. split; by try intros ?? []. Qed.
#[export] Instance so_sem : StoredOk sem_t. Proof. split; by try intros ?? []. Qed.
#[export] Instance so_cleanup : StoredOk _pthread_cleanup_buffer. Proof. split; by try intros ?? []. Qed.
#[export] Instance so_cell : StoredOk Z. Proof. split; by try intros ?? []. Qed.

Lemma bind_done {W A B} (c : M W A) (f : A -> M W B) w a w' :
  c w = Done a w' -> (c ≫= f) w = f a w'.
Proof. unfold mbind, M_bind. by intros ->. Qed.

Section Run.
Context {E U : Type} `{!KleeEngine E} {T : Type} `{!Stored T, !StoredOk T}.
Abbreviation W := (world E U).
Implicit Types (w : W) (e : E) (v : T).

Lemma put_self a v w : heap_get w !! a = Some v -> put a v (w_eng w) w = w.
Proof.
  intros Hv. unfold put. rewrite insert_id by done.
  replace (w_set_eng (w_eng w) w) with w by (by destruct w). apply so_set_get.
Qed.

Lemma put_put a v v' e e' w : put a v e (put a v' e' w) = put a v e w.
Proof.
  unfold put. rewrite so_set_eng, so_set_set, so_get_set, insert_insert_eq.
  by destruct w.
Qed.

Lemma w_eng_put a v e w : w_eng (put a v e w) = e.
Proof. unfold put. by rewrite so_eng_set. Qed.

Lemma lookup_put a v e w : heap_get (put a v e w) !! a = Some v.
Proof. unfold put. by rewrite so_get_set, lookup_insert_eq. Qed.

Lemma set_eng_put a v e e' w : w_set_eng e' (put a v e w) = put a v e' w.
Proof. unfold put. rewrite so_set_eng. by destruct w. Qed.

Lemma load_put a v e w : load a (put a v e w) = Done v (put a v e w).
Proof. unfold load. by rewrite lookup_put. Qed.

Lemma modify_put a f v e w : modify a f (put a v e w) = Done tt (put a (f v) e w).
Proof.
  unfold modify, mbind, M_bind. rewrite load_put. simpl. unfold store. rewrite lookup_put.
  f_equal. unfold put. rewrite so_get_set, so_set_set, insert_insert_eq. done.
Qed.

Lemma tell_put a f v e w : tell f (put a v e w) = Done tt (put a v (f e) w).
Proof. unfold tell. by rewrite set_eng_put, w_eng_put. Qed.

Lemma ask_put {A} a (f : E -> A) v e w : ask f (put a v e w) = Done (f e) (put a v e w).
Proof. unfold ask. by rewrite w_eng_put. Qed.

Lemma call_put {A} a (f : E -> A * E) v e w :
  call f (put a v e w) = Done (f e).1 (put a v (f e).2 w).
Proof. unfold call. by rewrite set_eng_put, w_eng_put. Qed.

Lemma sleep_put a v e w wl addr ty :
  __thread_sleep wl addr ty (put a v e w) =
  Sleep wl (put a v (klee_thread_sleep wl addr (SyncOpType_to_Z ty) e) w) (fun w' => Done tt w').
Proof. unfold __thread_sleep, __canonical_wlist_addr. by rewrite set_eng_put, w_eng_put. Qed.

Lemma make_hbnode_from_put a v e w from :
  __thread_make_hbnode_from from (put a v e w) =
  Done (klee_add_hbnode e).1
    (put a v (klee_add_hbedge (u64 (s32 from)) (klee_add_hbnode e).1 (klee_add_hbnode e).2) w).
Proof.
  unfold __thread_make_hbnode_from. erewrite bind_done by apply call_put.
  by erewrite bind_done by apply tell_put.
Qed.
End Run.

Lemma bind_ret {W A B} (a : A) (f : A -> M W B) w : (mret a ≫= f) w = f a w.
Proof. done. Qed.

Lemma bind_halt {W A B} (c : M W A) (f : A -> M W B) w r w' :
  c w = Halt r w' -> (c ≫= f) w = Halt r w'.
Proof. unfold mbind, M_bind. by intros ->. Qed.

Lemma load_halt {E U T} `{!Stored T} a (w : world E U) :
  heap_get w !! a = None -> load a w = Halt StopMemory w.
Proof. unfold load. by intros ->. Qed.

(** One step of the code at the head of a bind. *)
Ltac kstep :=
  first
    [ erewrite bind_done by (first [ apply load_put | apply modify_put | apply tell_put | apply ask_put
                                   | apply call_put | apply make_hbnode_from_put ])
    | rewrite bind_ret
    | rewrite modify_put | rewrite tell_put | rewrite load_put ];
  cbn beta iota; fields.

Ltac krun := repeat kstep.

(** ** Objects with one waiting list *)

(** What the operations of the different objects have in common: the slot of
    the object, its list id and its counter. *)
Class Queued (T : Type) `{!Stored T} := {
  q_slot : Z -> slot;
  q_wlist : T -> Z;
  q_count : T -> option Z;
  q_set_wlist : Z -> T -> T;
  q_slot_put {E U} a (v : T) (e : E) (w : world E U) :
    slot_get (put a v e w) (q_slot a) = Some (q_wlist v, q_count v);
  q_slot_put_ne {E U} a (v : T) (e : E) (w : world E U) sl :
    sl <> q_slot a -> slot_get (put a v e w) sl = slot_get w sl;
  q_set_wlist_wlist wl (v : T) : q_wlist (q_set_wlist wl v) = wl;
  q_set_wlist_count wl (v : T) : wl <> 0 -> q_count v = None \/ q_count v = Some 0 ->
    q_count (q_set_wlist wl v) = q_count v;
  q_set_wlist_id (v : T) : q_set_wlist (q_wlist v) v = v
}.

Ltac solve_queued :=
  intros; unfold put; simpl;
  match goal with
  | |- _ <$> <[?a := _]> _ !! ?a = _ => by rewrite lookup_insert_eq
  | sl : slot |- _ => destruct sl; simpl; by rewrite ?lookup_insert_ne by congruence
  | v : _ |- _ => by destruct v
  | |- _ => done
  end.

#[export] Instance queued_mutex : Queued pthread_mutex_t.
Proof.
  refine {| q_slot := SlMutex; q_wlist := m_wlist; q_count m := Some (m_queued m);
            q_set_wlist := m_set_wlist |}; solve_queued.
Defined.
#[export] Instance queued_cond : Queued pthread_cond_t.
Proof.
  refine {| q_slot := SlCond; q_wlist := c_wlist; q_count c := Some (c_queued c);
            q_set_wlist := c_set_wlist |}; solve_queued.
Defined.
#[export] Instance queued_barrier : Queued pthread_barrier_t.
Proof.
  refine {| q_slot := SlBarrier; q_wlist := b_wlist;
            q_count b := Some (b_arrived b); q_set_wlist := b_set_wlist |}; solve_queued.
Defined.
#[export] Instance queued_sem : Queued sem_t.
Proof.
  refine {| q_slot := SlSem; q_wlist := s_wlist; q_count s := must_exist (s_wlist s);
            q_set_wlist := s_set_wlist |}; try solve [solve_queued].
  intros wl v Hwl. unfold must_exist. simpl. apply Z.eqb_neq in Hwl as ->.
  destruct (s_wlist v =? 0); [|done]. by intros [|].
Defined.

Section QueuedObjects.
Context {E U : Type} `{!KleeEngine E, !KleeView E, !KleeLaws E}.
Context {T : Type} `{!Stored T, !StoredOk T, !Queued T}.
Abbreviation W := (world E U).
Implicit Types (w : W) (e : E) (v : T).

Lemma q_slot_get w a v : heap_get w !! a = Some v -> slot_get w (q_slot a) = Some (q_wlist v, q_count v).
Proof. intros Hv. rewrite <- (put_self a v w Hv). apply q_slot_put. Qed.

(** Changes to an object that keep its list and counter. *)
Lemma on_cpu_put t a v v' e w :
  on_cpu t w -> heap_get w !! a = Some v -> calm (w_eng w) e ->
  q_wlist v' = q_wlist v -> q_count v' = q_count v -> on_cpu t (put a v' e w).
Proof.
  intros Hon Hv Hcalm Hwl Hq. apply (on_cpu_calm t w); [done|by rewrite w_eng_put|].
  intros sl. destruct (decide (sl = q_slot a)) as [->|Hne].
  - rewrite q_slot_put, (q_slot_get _ _ _ Hv). congruence.
  - by apply q_slot_put_ne.
Qed.

Lemma q_bound t a v w c :
  on_cpu t w -> heap_get w !! a = Some v -> q_count v = Some c -> 0 <= c <= KLEE_MAX_THREADS.
Proof.
  intros Hon Hv Hc. eapply (wl_inv_count_bound w (q_slot a) (q_wlist v)); [apply Hon|].
  rewrite (q_slot_get w a v Hv). congruence.
Qed.

(** Going to sleep on the object's list. *)
Lemma sleep_inv t a v v' e w wl addr ty :
  on_cpu t w -> heap_get w !! a = Some v -> calm (w_eng w) e ->
  q_wlist v = wl -> wl <> 0 -> q_wlist v' = wl ->
  (forall c', q_count v' = Some c' -> exists c, q_count v = Some c /\ c' = c + 1) ->
  wl_inv (put a v' (klee_thread_sleep wl addr ty e) w).
Proof.
  intros [Hinv Hcur Hfree] Hv Hcalm Hwl Hnz Hwl' Hc.
  eapply (wl_inv_sleep w _ (q_slot a) wl (q_count v) (q_count v') e addr ty); auto.
  - by rewrite Hcur.
  - rewrite (q_slot_get w a v Hv). congruence.
  - by rewrite w_eng_put.
  - intros sl Hne. by apply q_slot_put_ne.
  - rewrite q_slot_put. congruence.
Qed.

(** A thread that goes to sleep is on the list. *)
Lemma q_sleep_in t a v w wl e addr ty :
  on_cpu t w -> heap_get w !! a = Some v -> q_wlist v = wl -> wl <> 0 -> calm (w_eng w) e ->
  t ∈ eng_waiters (klee_thread_sleep wl addr ty e) wl.
Proof.
  intros Hon Hv <- Hnz Hcalm.
  destruct (wl_slots _ (cpu_inv _ _ Hon) _ _ _ (q_slot_get w a v Hv)) as [[? _]|(_ & Hal & _)]; [done|].
  destruct (law_sleep e (q_wlist v) addr ty) as (_ & _ & -> & _).
  - apply (calm_wf _ _ Hcalm), Hon.
  - by apply (calm_allocated _ _ Hcalm).
  - rewrite (calm_current _ _ Hcalm), (cpu_current _ _ Hon). set_solver.
Qed.

(** Waking up one thread of a counted, non-empty list. *)
Lemma notify_one_on_cpu t a v v' e w wl c addr ty src sink region :
  on_cpu t w -> heap_get w !! a = Some v -> calm (w_eng w) e ->
  q_wlist v = wl -> wl <> 0 -> q_count v = Some c -> 0 < c ->
  q_wlist v' = wl -> q_count v' = Some (c - 1) ->
  on_cpu t (put a v' (klee_thread_notify wl addr ty 0 src sink c region e) w).
Proof.
  intros Hon Hv Hcalm Hwl Hnz Hc Hpos Hwl' Hc'.
  eapply (on_cpu_notify_one t w _ (q_slot a) wl c e addr ty src sink region); auto.
  - rewrite (q_slot_get w a v Hv). congruence.
  - by rewrite w_eng_put.
  - intros sl Hne. by apply q_slot_put_ne.
  - rewrite q_slot_put. congruence.
Qed.

(** Exactly one waiter left a list. *)
Definition one_woken (wl_old : Z) e (wl_new : Z) e' : Prop :=
  exists u : Z, u ∈ eng_waiters e wl_old /\ eng_waiters e' wl_new = eng_waiters e wl_old ∖ {[u]}.

Lemma q_nonzero t a v w c :
  on_cpu t w -> heap_get w !! a = Some v -> q_count v = Some c -> 0 < c ->
  q_wlist v <> 0 /\ c = Z.of_nat (size (eng_waiters (w_eng w) (q_wlist v))).
Proof.
  intros Hon Hv Hq Hpos.
  destruct (wl_slots _ (cpu_inv _ _ Hon) _ _ _ (q_slot_get w a v Hv)) as [[Hz [?|?]]|(Hnz & _ & Hc)].
  - congruence.
  - rewrite Hq in *. simplify_eq. lia.
  - auto.
Qed.

(** The engine's side of waking one thread of a counted, non-empty list. *)
Lemma q_notify_one t a v w c e addr ty src sink region :
  on_cpu t w -> heap_get w !! a = Some v -> q_count v = Some c -> 0 < c -> calm (w_eng w) e ->
  let e' := klee_thread_notify (q_wlist v) addr ty 0 src sink c region e in
  (forall u, eng_lockset e' u = eng_lockset e u) /\ one_woken (q_wlist v) (w_eng w) (q_wlist v) e'.
Proof.
  intros Hon Hv Hq Hpos Hcalm. destruct (q_nonzero t a v w c Hon Hv Hq Hpos) as [Hnz Hc].
  unfold one_woken. rewrite <- (calm_waiters _ _ Hcalm) in Hc |- *.
  destruct (law_notify e (q_wlist v) addr ty 0 src sink c region
    (calm_wf _ _ Hcalm (wl_wf _ (cpu_inv _ _ Hon))) (or_intror Hc))
    as (_ & _ & _ & _ & Hone & _ & _ & _ & Hlock).
  split; [exact Hlock|]. apply Hone; [done|].
  intros Hemp. rewrite Hemp, size_empty in Hc. lia.
Qed.

(** Waking up every thread of a list. *)
Lemma notify_all_on_cpu t a v v' e w wl addr ty all src sink expected region :
  on_cpu t w -> heap_get w !! a = Some v -> calm (w_eng w) e ->
  q_wlist v = wl -> wl <> 0 -> all <> 0 -> expected = -1 \/ q_count v = Some expected ->
  q_wlist v' = wl -> q_count v' = None \/ q_count v' = Some 0 ->
  on_cpu t (put a v' (klee_thread_notify wl addr ty all src sink expected region e) w).
Proof.
  intros Hon Hv Hcalm Hwl Hnz Hall Hexp Hwl' Hc'.
  eapply (on_cpu_notify_all t w _ (q_slot a) wl (q_count v) (q_count v') e addr ty all); eauto.
  - rewrite (q_slot_get w a v Hv). congruence.
  - by rewrite w_eng_put.
  - intros sl Hne. by apply q_slot_put_ne.
  - rewrite q_slot_put. congruence.
Qed.

(** A fresh list id for the object. *)
Lemma fresh_on_cpu t a v v' e w :
  on_cpu t w -> heap_get w !! a = Some v -> calm (w_eng w) e ->
  q_wlist v' = (klee_get_wlist e).1 -> q_count v' = None \/ q_count v' = Some 0 ->
  on_cpu t (put a v' (klee_get_wlist e).2 w).
Proof.
  intros Hon Hv Hcalm Hwl Hc.
  eapply (on_cpu_fresh t w _ (q_slot a) (q_count v') e); eauto.
  - by rewrite w_eng_put.
  - intros sl Hne. by apply q_slot_put_ne.
  - rewrite q_slot_put. congruence.
Qed.
End QueuedObjects.

(** Composes the safety of a call with that of the rest of the code. *)
Tactic Notation "then_safe" uconstr(L) :=
  apply always_mbind; eapply always_mono; [|by eapply L]; intros; cbn beta in *.
