(* ===== verification/SyncUtil.v ===== *)
(** * Utilities shared by the synchronization objects
    ([runtime/POSIX/threadsync.c], lines 86-108)

    Besides the three helpers of the source, the shape that the [*_check_init]
    functions of mutexes, condition variables and barriers share, with the
    lemma that executes it. *)

From stdpp Require Import base gmap list fin_maps.
From Stdlib Require Import ZArith Lia.
From S2P Require Import Prelude PthreadTypes Klee Interleave WaitLists.

Section Util.
Context {E U : Type} `{!KleeEngine E}.
Abbreviation W := (world E U).

Definition should_init_symbolic (type : SyncOpType) (hbnode_addr hbnode_val : Z) : M W InitState :=
  if DISABLE_KLEE_SYNC_INVARIANTS then mret AlreadyInit
  else call (klee_fork_for_concrete_initialization (SyncOpType_to_Z type) hbnode_addr hbnode_val).

Definition startInternal : M W unit :=
  tell (klee_set_option KLEE_OPTION_BRANCH_COUNTER_ENABLED 0).

Definition endInternal : M W unit :=
  tell (klee_set_option KLEE_OPTION_BRANCH_COUNTER_ENABLED 1).

(** The body of a [*_check_init] function for an object with one list;
    [off] is the offset of the field that tells whether the object was
    initialized, [hb] its value. *)
Definition check_init_shape {T} `{!Stored T, !Queued T} (type : SyncOpType) (off : Z) (hb : T -> Z)
    (init_symbolic : Z -> bool -> M W unit) (a : Z) : M W unit :=
  startInternal;;
  v ← load a;
  st ← should_init_symbolic type (a + off) (hb v);
  (match st with
   | AlreadyInit =>
       v ← load a;
       sym ← ask (klee_is_symbolic (q_wlist v));
       if negb sym && (q_wlist v =? 0) then
         wl ← call klee_get_wlist; modify a (q_set_wlist wl)
       else mret tt
   | NeedsSymbolicInitAliased => init_symbolic a false
   | NeedsSymbolicInitUnique => init_symbolic a true
   end);;
  endInternal.
End Util.

Section UtilRun.
Context {E U : Type} `{!KleeEngine E, !KleeView E, !KleeLaws E}.
Context {T : Type} `{!Stored T, !StoredOk T, !Queued T}.
Abbreviation W := (world E U).
Implicit Types (w : W) (e : E) (v : T).

(** The result of a [*_check_init]: the object has a list, and neither its
    other fields nor the scheduling state changed. *)
Record init_done (t a : Z) v w (wl : Z) e' : Prop := InitDone {
  id_on_cpu : on_cpu t (put a (q_set_wlist wl v) e' w);
  id_calm : calm (w_eng w) e';
  id_nonzero : wl <> 0;
  id_same : q_wlist v <> 0 -> wl = q_wlist v;
  id_lockset : forall u, eng_lockset e' u = eng_lockset (w_eng w) u
}.

Lemma check_init_run type off hb init_symbolic t w a v :
  on_cpu t w -> heap_get w !! a = Some v ->
  exists wl e',
    check_init_shape type off hb init_symbolic a w = Done tt (put a (q_set_wlist wl v) e' w) /\
    init_done t a v w wl e'.
Proof.
  intros Hon Hv. pose proof (put_self a v w Hv) as Hw.
  set (e1 := klee_set_option KLEE_OPTION_BRANCH_COUNTER_ENABLED 0 (w_eng w)).
  assert (quiet (w_eng w) e1) as Hq1 by apply law_set_option.
  assert (check_init_shape type off hb init_symbolic a w =
          check_init_shape type off hb init_symbolic a (put a v (w_eng w) w)) as -> by (by rewrite Hw).
  unfold check_init_shape, startInternal, endInternal.
  kstep. kstep. unfold should_init_symbolic, DISABLE_KLEE_SYNC_INVARIANTS.
  rewrite bind_ret. cbn beta iota.
  destruct (Z.eqb_spec (q_wlist v) 0) as [Hz|Hnz].
  - pose proof (calm_wf _ _ (quiet_calm _ _ Hq1) (wl_wf w (cpu_inv _ _ Hon))) as Hwf1.
    destruct (law_get_wlist e1 Hwf1) as (_ & Hwl & _ & _ & _ & _ & _ & Hl).
    exists (klee_get_wlist e1).1,
      (klee_set_option KLEE_OPTION_BRANCH_COUNTER_ENABLED 1 (klee_get_wlist e1).2).
    split.
    { erewrite bind_done; [apply tell_put|]. krun.
      rewrite law_is_symbolic, Hz. simpl. krun. done. }
    assert (q_count v = None \/ q_count v = Some 0) as Hc0.
    { destruct (wl_slots w (cpu_inv _ _ Hon) _ _ _ (q_slot_get _ _ _ Hv)) as [[_ ?]|[? _]]; done. }
    pose proof (fresh_on_cpu t a v (q_set_wlist (klee_get_wlist e1).1 v) e1 w Hon Hv
      (quiet_calm _ _ Hq1) (q_set_wlist_wlist _ _)
      ltac:(by rewrite q_set_wlist_count by done)) as Hon'.
    assert (calm (w_eng w) (klee_get_wlist e1).2) as Hc2
      by (etrans; [apply quiet_calm, Hq1|by apply get_wlist_calm]).
    split; [|etrans; [exact Hc2|apply quiet_calm, law_set_option]|done|done|].
    + rewrite <- (put_put _ _ (q_set_wlist (klee_get_wlist e1).1 v) _ (klee_get_wlist e1).2).
      eapply on_cpu_put; [exact Hon'|apply lookup_put| |done|done].
      rewrite w_eng_put. apply quiet_calm, law_set_option.
    + intros u. rewrite (q_lockset _ _ (law_set_option _ _ _)), Hl. apply Hq1.
  - exists (q_wlist v), (klee_set_option KLEE_OPTION_BRANCH_COUNTER_ENABLED 1 e1).
    rewrite q_set_wlist_id.
    assert (quiet (w_eng w) (klee_set_option KLEE_OPTION_BRANCH_COUNTER_ENABLED 1 e1)) as Hq
      by (etrans; [exact Hq1|apply law_set_option]).
    split.
    { erewrite bind_done; [apply tell_put|]. krun.
      rewrite law_is_symbolic, (proj2 (Z.eqb_neq _ _) Hnz). done. }
    split; [|by apply quiet_calm|done|done|apply Hq].
    rewrite q_set_wlist_id. eapply on_cpu_put; eauto using quiet_calm.
Qed.
(** On an address without an object the path ends. *)
Lemma check_init_halt type off hb init_symbolic w a :
  heap_get w !! a = None ->
  exists w', check_init_shape (T := T) type off hb init_symbolic a w = Halt StopMemory w'.
Proof.
  intros Hv. unfold check_init_shape, startInternal. eexists.
  erewrite bind_done by reflexivity. eapply bind_halt, load_halt. by rewrite so_get_eng.
Qed.
End UtilRun.
