(* ===== verification/SimEngine.v ===== *)
(** * A small concrete engine

    An executable instance of [KleeEngine] that satisfies [KleeLaws].  It is
    not a translation of the symbolic engine: it shows that the laws the
    runtime relies on can be met, and the witnesses run the model on it. *)

From stdpp Require Import base gmap list fin_maps.
From Stdlib Require Import ZArith Lia.
From S2P Require Import Prelude PthreadTypes Klee Interleave.

Record sim := Sim {
  sim_cur : Z;
  sim_next_wl : Z;                       (* next waiting list id *)
  sim_waiters : gmap Z (gset Z);
  sim_last_node : gmap Z Z;              (* last node, by thread *)
  sim_next_node : Z;
  sim_edges : gset (Z * Z);
  sim_locks : gmap Z (gset Z);
  sim_branch_counter : Z
}.

Definition sim_init : sim := Sim 0 1 ∅ ∅ 1 ∅ ∅ 1.

Definition sim_wait (e : sim) (wl : Z) : gset Z := default ∅ (sim_waiters e !! wl).
Definition sim_lock (e : sim) (t : Z) : gset Z := default ∅ (sim_locks e !! t).

Definition sim_set_waiters (h : gmap Z (gset Z)) (e : sim) : sim :=
  Sim (sim_cur e) (sim_next_wl e) h (sim_last_node e) (sim_next_node e) (sim_edges e)
    (sim_locks e) (sim_branch_counter e).
Definition sim_add_edges (s : gset (Z * Z)) (e : sim) : sim :=
  Sim (sim_cur e) (sim_next_wl e) (sim_waiters e) (sim_last_node e) (sim_next_node e)
    (s ∪ sim_edges e) (sim_locks e) (sim_branch_counter e).
Definition sim_set_locks (h : gmap Z (gset Z)) (e : sim) : sim :=
  Sim (sim_cur e) (sim_next_wl e) (sim_waiters e) (sim_last_node e) (sim_next_node e)
    (sim_edges e) h (sim_branch_counter e).

(** The threads a notification wakes: all of them, or the first one. *)
Definition sim_woken (all : Z) (s : gset Z) : gset Z :=
  if all =? 0 then list_to_set (take 1 (elements s)) else s.

#[export] Instance sim_engine : KleeEngine sim := {
  klee_get_wlist e :=
    (sim_next_wl e,
     Sim (sim_cur e) (sim_next_wl e + 1) (sim_waiters e) (sim_last_node e) (sim_next_node e)
       (sim_edges e) (sim_locks e) (sim_branch_counter e));
  klee_thread_sleep wl _ _ e :=
    sim_set_waiters (<[wl := {[sim_cur e]} ∪ sim_wait e wl]> (sim_waiters e)) e;
  klee_thread_notify wl _ _ all _ _ _ _ e :=
    sim_set_waiters (<[wl := sim_wait e wl ∖ sim_woken all (sim_wait e wl)]> (sim_waiters e)) e;
  klee_thread_create _ _ _ e := e;
  klee_thread_terminate e := e;
  klee_get_symbolic_thread_context e := sim_cur e;
  klee_get_symbolic_thread_context_for t _ := t;
  klee_get_concrete_thread_context e := sim_cur e;
  klee_get_concrete_thread_context_for t _ := t;
  klee_add_hbnode e :=
    let n := sim_next_node e mod (2 ^ 31 - 1) + 1 in
    (n, Sim (sim_cur e) (sim_next_wl e) (sim_waiters e) (<[sim_cur e := n]> (sim_last_node e)) n
          (sim_edges e) (sim_locks e) (sim_branch_counter e));
  klee_last_hbnode e := default 0 (sim_last_node e !! sim_cur e);
  klee_add_hbedge a b e := sim_add_edges {[(a, b)]} e;
  klee_add_hbedge_from_threads_last_hbnode t b e :=
    sim_add_edges {[(default 0 (sim_last_node e !! t), b)]} e;
  klee_add_hbnode_to_hbgroup _ _ e := e;
  klee_add_hbedges_from_hbgroup _ _ e := e;
  klee_remove_hbgroup _ e := e;
  klee_set_option o v e :=
    Sim (sim_cur e) (sim_next_wl e) (sim_waiters e) (sim_last_node e) (sim_next_node e)
      (sim_edges e) (sim_locks e)
      (if o =? KLEE_OPTION_BRANCH_COUNTER_ENABLED then v else sim_branch_counter e);
  klee_get_option o e := if o =? KLEE_OPTION_BRANCH_COUNTER_ENABLED then sim_branch_counter e else 0;
  klee_lockset_add a e :=
    sim_set_locks (<[sim_cur e := {[a]} ∪ sim_lock e (sim_cur e)]> (sim_locks e)) e;
  klee_lockset_remove a e :=
    sim_set_locks (<[sim_cur e := sim_lock e (sim_cur e) ∖ {[a]}]> (sim_locks e)) e;
  klee_is_symbolic _ _ := false;
  klee_fork_for_concrete_initialization _ _ _ e := (AlreadyInit, e);
  klee_enumerate_possible_lock_owners _ _ _ e := (0, e);
  klee_enumerate_possible_barrier_init_counts _ _ n e := ((0, n), e);
  klee_enumerate_possible_waiters wl _ _ e :=
    let n := Z.of_nat (size (sim_wait e wl)) in ((n, n), e);
  klee_enumerate_threads e := (true :: repeat false 15, repeat false 16);
  klee_load8_oob _ _ := 0;
  klee_switch_to t e :=
    Sim t (sim_next_wl e) (sim_waiters e) (sim_last_node e) (sim_next_node e)
      (sim_edges e) (sim_locks e) (sim_branch_counter e)
}.

Definition sim_wf (e : sim) : Prop :=
  tid_ok (sim_cur e) /\ 0 < sim_next_wl e /\
  (forall wl t, t ∈ sim_wait e wl -> tid_ok t) /\
  (forall wl, ~ (0 < wl < sim_next_wl e) -> sim_wait e wl = ∅).

#[export] Instance sim_view : KleeView sim := {
  eng_wf := sim_wf;
  eng_current := sim_cur;
  eng_waiters := sim_wait;
  eng_allocated e wl := 0 < wl < sim_next_wl e;
  eng_edges := sim_edges;
  eng_lockset := sim_lock;
  eng_symid t := t
}.

Lemma sim_woken_sub all s : sim_woken all s ⊆ s.
Proof.
  unfold sim_woken. destruct (all =? 0); [|done].
  intros t Ht. apply elem_of_list_to_set, elem_of_take in Ht as (i & Hi & _).
  apply elem_of_elements. eapply list_elem_of_lookup_2, Hi.
Qed.

Lemma sim_woken_one s : s <> ∅ -> exists t, t ∈ s /\ sim_woken 0 s = {[t]}.
Proof.
  intros Hs. unfold sim_woken; simpl. destruct (elements s) as [|t l] eqn:El.
  { destruct Hs. by apply leibniz_equiv, elements_empty_inv. }
  exists t. split; [apply elem_of_elements; rewrite El; by left|]. simpl. set_solver.
Qed.

Lemma sim_wait_set h e wl : sim_wait (sim_set_waiters h e) wl = default ∅ (h !! wl).
Proof. done. Qed.

Lemma sim_notify_wf e wl all :
  sim_wf e ->
  sim_wf (sim_set_waiters (<[wl := sim_wait e wl ∖ sim_woken all (sim_wait e wl)]> (sim_waiters e)) e).
Proof.
  intros (Hc & Hn & Hw & Ha). split; [done|]. split; [done|]. split.
  - intros x t. rewrite sim_wait_set. destruct (decide (x = wl)) as [->|Hne]; simplify_map_eq.
    + intros [Ht _]%elem_of_difference. by apply (Hw wl).
    + by apply (Hw x).
  - intros x Hx. rewrite sim_wait_set. destruct (decide (x = wl)) as [->|Hne]; simplify_map_eq;
      [rewrite (Ha wl) by done; set_solver|by apply Ha].
Qed.

Lemma sim_sleep_wf e wl :
  sim_wf e -> 0 < wl < sim_next_wl e ->
  sim_wf (sim_set_waiters (<[wl := {[sim_cur e]} ∪ sim_wait e wl]> (sim_waiters e)) e).
Proof.
  intros (Hc & Hn & Hw & Ha) Hwl. split; [done|]. split; [done|]. split.
  - intros x t. rewrite sim_wait_set. destruct (decide (x = wl)) as [->|Hne]; simplify_map_eq.
    + intros [->%elem_of_singleton|Ht]%elem_of_union; [done|by apply (Hw wl)].
    + by apply (Hw x).
  - intros x Hx. rewrite sim_wait_set. simpl in Hx. rewrite lookup_insert_ne by (intros ->; lia).
    by apply Ha.
Qed.

#[export] Instance sim_laws : KleeLaws sim.
Proof.
  split; simpl; try done; try (intros; by repeat split).
  - intros e (Hc & _). exact Hc.
  - intros e wl t (_ & _ & Hw & _). apply Hw.
  - intros e wl (_ & _ & _ & Ha). apply Ha.
  - intros e (Hc & Hn & Hw & Ha).
    split; [|repeat split; simpl; try done; lia].
    split; [done|]. split; [simpl; lia|]. split; [done|].
    intros wl Hwl. apply Ha. simpl in Hwl. lia.
  - intros e wl addr ty Hwf Hwl. split; [by apply sim_sleep_wf|]. split; [done|].
    split; [by rewrite sim_wait_set, lookup_insert_eq|].
    split; [intros x Hx; by rewrite sim_wait_set, lookup_insert_ne by done|]. by split_and!.
  - intros e wl addr ty all src sink expected region Hwf _.
    split; [by apply sim_notify_wf|]. split; [done|].
    rewrite sim_wait_set, lookup_insert_eq. simpl.
    split; [intros Hall; unfold sim_woken; rewrite (proj2 (Z.eqb_neq _ _) Hall); set_solver|].
    split; [intros _ ->; set_solver|].
    split; [intros -> Hs; destruct (sim_woken_one _ Hs) as (t & Ht & ->); eauto|].
    split; [intros x Hx; by rewrite sim_wait_set, lookup_insert_ne by done|]. by split_and!.
  - intros e t (Hc & Hn & Hw & Ha) Ht. by split_and!.
  - intros e. by rewrite lookup_insert_eq.
  - intros e. pose proof (Z.mod_pos_bound (sim_next_node e) (2 ^ 31 - 1)). lia.
  - intros e a b. split; [split; simpl; [done..|set_solver]|done].
  - intros e a b Hab. set_solver.
  - intros e a b. split; [split; simpl; [done..|set_solver]|done].
  - intros e a. split; [by split|]. unfold sim_lock; simpl. split.
    + by rewrite lookup_insert_eq.
    + intros t Ht. by rewrite lookup_insert_ne.
  - intros e a. split; [by split|]. unfold sim_lock; simpl. split.
    + by rewrite lookup_insert_eq.
    + intros t Ht. by rewrite lookup_insert_ne.
Qed.
