(* ===== verification/Demo.v ===== *)
(** * A concrete world for witnesses

    One statically initialized object of each kind that has a static
    initializer, on the concrete engine, thread 0 running. *)

From stdpp Require Import base gmap list fin_maps relations.
From Stdlib Require Import ZArith Lia.
From S2P Require Import Prelude PthreadTypes Klee Interleave WaitLists SimEngine.

(** The thread table as [klee_init_env] leaves it: list 1 is for
    [pthread_joinall], list 2 belongs to the main thread. *)
Definition demo_eng : sim := (klee_get_wlist (klee_get_wlist sim_init).2).2.

Definition demo_tsync : tsync_data_t :=
  Tsync (ThreadData 2 0 0 1 0 1 0 :: replicate 15 thread_data_zero) 1 0 1.

Lemma demo_eng_wf : sim_wf demo_eng.
Proof.
  split; [unfold tid_ok; vm_compute; split; congruence|]. split; [by vm_compute|].
  split; [intros wl t Ht; unfold sim_wait in Ht; simpl in Ht; rewrite lookup_empty in Ht; set_solver|].
  intros wl _. unfold sim_wait. simpl. by rewrite lookup_empty.
Qed.

(** Addresses: mutex 100, condition variable 200, barrier 300 (for two
    threads, without a list yet), read-write lock 400, plain integer 600. *)
Definition demo_world {U} (m : pthread_mutex_t) (u : U) : world sim U :=
  World {[100 := m]} {[200 := PTHREAD_COND_INITIALIZER]} {[300 := Barrier 0 2 2 0]}
    {[400 := PTHREAD_RWLOCK_INITIALIZER]} ∅ ∅ {[600 := 0]} demo_tsync 0 demo_eng u.

(** The only lists in use are those of the thread table. *)
Lemma demo_slots {U} m (u : U) sl wl n :
  m_wlist m = 0 -> m_queued m = 0 -> slot_get (demo_world m u) sl = Some (wl, n) ->
  (wl = 0 /\ (n = None \/ n = Some 0)) \/
  (n = None /\ ((sl = SlJoinAll /\ wl = 1) \/ (sl = SlJoin 0 /\ wl = 2))).
Proof.
  intros Hwl Hq. destruct sl; simpl; rewrite ?lookup_empty; try done.
  - destruct (decide (a = 100)) as [->|]; simplify_map_eq; [|done].
    intros [= <- <-]. rewrite Hq. auto.
  - destruct (decide (a = 200)) as [->|]; simplify_map_eq; [|done]. intros [= <- <-]. auto.
  - destruct (decide (a = 300)) as [->|]; simplify_map_eq; [|done]. intros [= <- <-]. auto.
  - destruct (decide (a = 400)) as [->|]; simplify_map_eq; [|done]. intros [= <- <-]. auto.
  - destruct (decide (a = 400)) as [->|]; simplify_map_eq; [|done]. intros [= <- <-]. auto.
  - intros (d & Hd & [= -> ->])%fmap_Some_1. destruct i as [|i].
    + injection Hd as <-. right. auto.
    + change (replicate 15 thread_data_zero !! i = Some d) in Hd.
      apply lookup_replicate in Hd as [-> Hi]. left. split; [done|]. left. unfold td_list.
      rewrite (proj2 (Z.leb_gt _ _)); [done|]. unfold KLEE_MAX_THREADS. lia.
  - intros [= <- <-]. right. auto.
Qed.

(** With a mutex that has no list yet (taken or not) the invariant holds. *)
Lemma demo_on_cpu {U} m (u : U) : m_wlist m = 0 -> m_queued m = 0 -> on_cpu 0 (demo_world m u).
Proof.
  intros Hwl Hq. split; [split; [apply demo_eng_wf| |]|done|].
  - intros sl wl n Hs. destruct (demo_slots m u sl wl n Hwl Hq Hs) as [?|(-> & [[_ ->]|[_ ->]])]; [by left|right|right];
      (split; [done|]; split; [by vm_compute|done]).
  - intros sl1 sl2 wl n1 n2 Hz H1 H2. apply demo_slots in H1; [|done|done]. apply demo_slots in H2; [|done|done].
    destruct H1 as [[? _]|(_ & [[-> H1]|[-> H1]])]; [done| |];
      (destruct H2 as [[? _]|(_ & [[-> H2]|[-> H2]])]; [done| |]); congruence.
  - intros x. simpl. unfold sim_wait. simpl. rewrite lookup_empty. simpl. set_solver.
Qed.

(** ** Running a schedule

    The interleaving semantics on the concrete engine, as a function: the list
    says which thread runs its next segment. *)

Definition sim_runnableb (t : Z) (e : sim) : bool :=
  bool_decide (map_Forall (fun _ s => t ∉ s) (sim_waiters e)).

Definition run_segment {U} (t : Z) (c : config (E := sim) (U := U)) : option (config (E := sim) (U := U)) :=
  match cf_threads c !! t with
  | Some (Suspended k) =>
      if sim_runnableb t (w_eng (cf_world c))
      then after_segment t (cf_threads c) (k (switch_to t (cf_world c)))
      else None
  | _ => None
  end.

Fixpoint run_schedule {U} (s : list Z) (c : config (E := sim) (U := U)) : option (config (E := sim) (U := U)) :=
  match s with
  | [] => Some c
  | t :: s => match run_segment t c with Some c' => run_schedule s c' | None => None end
  end.

Lemma sim_runnableb_spec {U} t (w : world sim U) : sim_runnableb t (w_eng w) = true -> runnable t w.
Proof.
  intros H%bool_decide_eq_true wl. simpl. unfold sim_wait.
  destruct (sim_waiters (w_eng w) !! wl) as [s|] eqn:Hs; simpl; [|set_solver].
  by apply (H wl).
Qed.

Lemma run_schedule_rtc {U} allowed s (c c' : config (E := sim) (U := U)) :
  run_schedule s c = Some c' -> rtc (pool_step allowed) c c'.
Proof.
  revert c. induction s as [|t s IH]; intros c; simpl; [intros [= ->]; apply rtc_refl|].
  unfold run_segment. destruct (cf_threads c !! t) as [[k|]|] eqn:Ht; try done.
  destruct (sim_runnableb t (w_eng (cf_world c))) eqn:Hr; [|done].
  destruct (after_segment t (cf_threads c) (k (switch_to t (cf_world c)))) as [c1|] eqn:Ha; [|done].
  intros Hs. eapply rtc_l; [|by apply IH]. eapply step_run; eauto using sim_runnableb_spec.
Qed.

(** What a schedule leads to is reachable; [f] is the part that is observed. *)
Lemma run_schedule_reaches {U X} allowed s (c : config (E := sim) (U := U)) (f : config -> X) x :
  option_map f (run_schedule s c) = Some x -> exists c', rtc (pool_step allowed) c c' /\ f c' = x.
Proof.
  destruct (run_schedule s c) as [c'|] eqn:Hr; simpl; [|done].
  intros [= Hx]. eauto using run_schedule_rtc.
Qed.
