(* ===== verification/Mutex.v ===== *)
(** * Mutexes ([runtime/POSIX/threadsync.c], lines 110-280)

    The mutex attributes and the mutex operations:
    initialization, [atomic_mutex_lock], [atomic_mutex_unlock] and the
    [pthread_mutex_*] entry points. *)

From stdpp Require Import base gmap list fin_maps relations.
From Stdlib Require Import ZArith Lia.
From S2P Require Import Prelude PthreadTypes Klee Interleave WaitLists SyncUtil SimEngine Demo.

Section MutexOps.
Context {E U : Type} `{!KleeEngine E}.
Abbreviation W := (world E U).

(** ** Mutex attributes *)

Definition pthread_mutexattr_init (attr : Z) : M W Z := mret 0.
Definition pthread_mutexattr_destroy (attr : Z) : M W Z := mret 0.
Definition pthread_mutexattr_setpshared (attr pshared : Z) : M W Z := mret 0.
Definition pthread_mutexattr_settype (attr type : Z) : M W Z := mret 0.
Definition pthread_mutexattr_getpshared (attr pshared : Z) : M W Z :=
  store pshared PTHREAD_PROCESS_PRIVATE;; mret 0.
Definition pthread_mutexattr_gettype (attr type : Z) : M W Z :=
  store type PTHREAD_MUTEX_NORMAL;; mret 0.

(** ** Mutexes *)

Definition mutex_init (mutex : Z) : M W unit :=
  wl ← call klee_get_wlist;
  modify mutex (m_set_wlist wl);;
  modify mutex (m_set_last_hbnode 0);;
  modify mutex (m_set_taken 0);;
  modify mutex (m_set_owner 0);;
  modify mutex (m_set_queued 0).

Definition mutex_init_symbolic (mutex : Z) (unique : bool) : M W unit :=
  (if unique then modify mutex (m_set_last_hbnode 0) else mret tt);;
  m ← load mutex;
  owners ← call (klee_enumerate_possible_lock_owners mutex (m_taken m) (u32 (m_owner m)));
  (if owners =? 0 then modify mutex (m_set_taken 0) else mret tt);;
  m ← load mutex;
  '(may, must) ← __enumerate_possible_waiters (m_wlist m) mutex SyncOpMutex;
  m ← load mutex;
  klee_assume (must <=? m_queued m);;
  klee_assume (m_queued m <=? may).

(** [&mutex->last_hbnode] is 8 bytes into the struct. *)
Definition mutex_check_init (mutex : Z) : M W unit :=
  startInternal;;
  m ← load mutex;
  st ← should_init_symbolic SyncOpMutex (mutex + 8) (m_last_hbnode m);
  (match st with
   | AlreadyInit =>
       m ← load mutex;
       sym ← ask (klee_is_symbolic (m_wlist m));
       if negb sym && (m_wlist m =? 0) then
         wl ← call klee_get_wlist; modify mutex (m_set_wlist wl)
       else mret tt
   | NeedsSymbolicInitAliased => mutex_init_symbolic mutex false
   | NeedsSymbolicInitUnique => mutex_init_symbolic mutex true
   end);;
  endInternal.

(** The acquisition at the end of [atomic_mutex_lock]. *)
Definition mutex_take (mutex hbnode : Z) : M W Z :=
  modify mutex (m_set_taken 1);;
  self ← ask klee_get_symbolic_thread_context;
  modify mutex (m_set_owner self);;
  modify mutex (m_set_last_hbnode hbnode);;
  tell (klee_lockset_add mutex);;
  mret 0.

(** What a woken waiter does. *)
Definition mutex_wakeup (mutex : Z) : M W Z :=
  mutex_check_init mutex;;
  hbnode ← ask klee_last_hbnode;
  mutex_take mutex hbnode.

Definition atomic_mutex_lock (mutex : Z) (try : bool) : M W Z :=
  mutex_check_init mutex;;
  m ← load mutex;
  hbnode ← __thread_make_hbnode_from (m_last_hbnode m);
  m ← load mutex;
  let mustWait := klee_expr_or (negb (m_taken m =? 0)) (0 <? m_queued m) in
  if mustWait then
    if try then mret EBUSY
    else
      modify mutex (m_set_queued (u32 (m_queued m + 1)));;
      __thread_sleep (m_wlist m) mutex SyncOpMutex;;
      mutex_wakeup mutex
  else mutex_take mutex hbnode.

Definition atomic_mutex_unlock (mutex : Z) : M W Z :=
  mutex_check_init mutex;;
  m ← load mutex;
  self ← ask klee_get_symbolic_thread_context;
  let isDataRace := klee_expr_or (m_taken m =? 0) (negb (m_owner m =? self)) in
  if isDataRace then mret EPERM
  else
    modify mutex (m_set_taken 0);;
    n ← __thread_make_hbnode;
    modify mutex (m_set_last_hbnode n);;
    tell (klee_lockset_remove mutex);;
    m ← load mutex;
    (if 0 <? m_queued m then
       __thread_notify_one_with_expected (m_wlist m) mutex SyncOpMutex (m_queued m);;
       modify mutex (m_set_queued (u32 (m_queued m - 1)))
     else mret tt);;
    mret 0.

Definition pthread_mutex_init (mutex attr : Z) : M W Z := mutex_init mutex;; mret 0.
Definition pthread_mutex_destroy (mutex : Z) : M W Z := mret 0.
Definition pthread_mutex_lock (mutex : Z) : M W Z :=
  res ← atomic_mutex_lock mutex false; finish_if_ok res.
Definition pthread_mutex_trylock (mutex : Z) : M W Z :=
  res ← atomic_mutex_lock mutex true; finish_if_ok res.
Definition pthread_mutex_unlock (mutex : Z) : M W Z :=
  res ← atomic_mutex_unlock mutex;
  __thread_preempt (if ENABLE_KLEE_PTHREAD_ALWAYS_PREEMPT_UNLOCK then 1 else 0);;
  mret res.

(** uClibc's internal locks go through the same functions. *)
Definition __uClibc_wrap_pthread_mutex_lock (m : Z) : M W Z := pthread_mutex_lock m.
Definition __uClibc_wrap_pthread_mutex_trylock (m : Z) : M W Z := pthread_mutex_trylock m.
Definition __uClibc_wrap_pthread_mutex_unlock (m : Z) : M W Z := pthread_mutex_unlock m.
End MutexOps.

(** ** Executing the mutex code *)

Section MutexRun.
Context {E U : Type} `{!KleeEngine E, !KleeView E, !KleeLaws E}.
Abbreviation W := (world E U).
Implicit Types (w : W) (e : E) (m : pthread_mutex_t).

Lemma mutex_check_init_run t w a m :
  on_cpu t w -> w_mutexes w !! a = Some m ->
  exists wl e', mutex_check_init a w = Done tt (put a (m_set_wlist wl m) e' w) /\
    init_done t a m w wl e'.
Proof. exact (check_init_run (T := pthread_mutex_t) SyncOpMutex 8 m_last_hbnode mutex_init_symbolic t w a m). Qed.

Lemma mutex_check_init_halt w a :
  w_mutexes w !! a = None -> exists w', mutex_check_init a w = Halt StopMemory w'.
Proof. exact (check_init_halt (T := pthread_mutex_t) SyncOpMutex 8 m_last_hbnode mutex_init_symbolic w a). Qed.

Lemma mutex_take_run a m e w hbnode :
  mutex_take a hbnode (put a m e w) =
  Done 0 (put a (Mutex (m_wlist m) hbnode (klee_get_symbolic_thread_context e) (m_queued m) 1)
            (klee_lockset_add a e) w).
Proof. unfold mutex_take. by krun. Qed.

Lemma mutex_take_on_cpu t a m e w hbnode :
  on_cpu t w -> heap_get w !! a = Some m -> calm (w_eng w) e ->
  on_cpu t (put a (Mutex (m_wlist m) hbnode (klee_get_symbolic_thread_context e) (m_queued m) 1)
              (klee_lockset_add a e) w).
Proof. intros Hon Hm Hc. eapply on_cpu_put; [done|exact Hm|calm_tac|done|done]. Qed.

Lemma mutex_wakeup_safe t a w :
  on_cpu t w -> always t wl_inv (fun _ w' => on_cpu t w') (mutex_wakeup a w).
Proof.
  intros Hon. unfold mutex_wakeup. destruct (w_mutexes w !! a) as [m|] eqn:Hm.
  - destruct (mutex_check_init_run t w a m Hon Hm) as (wl & e' & Hrun & Hid).
    rewrite (bind_done _ _ _ _ _ Hrun). krun. rewrite mutex_take_run.
    rewrite <- (put_put _ _ (m_set_wlist wl m) _ e').
    apply (mutex_take_on_cpu t a (m_set_wlist wl m) e'); [apply Hid|apply lookup_put|].
    by rewrite w_eng_put.
  - destruct (mutex_check_init_halt w a Hm) as [w' Hh]. by rewrite (bind_halt _ _ _ _ _ Hh).
Qed.

Lemma atomic_mutex_lock_safe t a try w :
  on_cpu t w -> always t wl_inv (fun _ w' => on_cpu t w') (atomic_mutex_lock a try w).
Proof.
  intros Hon. unfold atomic_mutex_lock. destruct (w_mutexes w !! a) as [m|] eqn:Hm.
  2:{ destruct (mutex_check_init_halt w a Hm) as [w' Hh]. by rewrite (bind_halt _ _ _ _ _ Hh). }
  destruct (mutex_check_init_run t w a m Hon Hm) as (wl & e' & Hrun & [Hon' Hcalm Hnz _ _]).
  rewrite (bind_done _ _ _ _ _ Hrun). krun.
  set (e2 := klee_add_hbedge _ _ _).
  assert (calm e' e2) as Hc2 by (unfold e2; calm_tac).
  assert (heap_get (put a (m_set_wlist wl m) e' w) !! a = Some (m_set_wlist wl m)) as Hm'
    by apply lookup_put.
  destruct (klee_expr_or _ _).
  - destruct try.
    + simpl. rewrite <- (put_put _ _ (m_set_wlist wl m) _ e').
      eapply on_cpu_put; [exact Hon'|exact Hm'|by rewrite w_eng_put|done|done].
    + kstep. apply always_mbind. rewrite sleep_put. simpl. split.
      * rewrite <- (put_put _ _ (m_set_wlist wl m) _ e').
        eapply (sleep_inv t a (m_set_wlist wl m)); [exact Hon'|exact Hm'|by rewrite w_eng_put|done..|].
        intros c' [= <-]. exists (m_queued m). split; [done|].
        apply u32_succ. pose proof (q_bound t a _ _ (m_queued m) Hon' Hm' eq_refl).
        unfold KLEE_MAX_THREADS in *; lia.
      * intros w' Hinv Hrunb. apply mutex_wakeup_safe.
        apply on_cpu_enter; [by eapply on_cpu_tid|done|done].
  - rewrite mutex_take_run. simpl. rewrite <- (put_put _ _ (m_set_wlist wl m) _ e').
    apply (mutex_take_on_cpu t a (m_set_wlist wl m)); [exact Hon'|exact Hm'|by rewrite w_eng_put].
Qed.

(** Unlocking has no scheduling point, and changes nothing but the mutex and
    the engine. *)
Lemma atomic_mutex_unlock_done t a w :
  on_cpu t w ->
  (exists w', atomic_mutex_unlock a w = Halt StopMemory w') \/
  (exists r m' e', atomic_mutex_unlock a w = Done r (put a m' e' w) /\ on_cpu t (put a m' e' w)).
Proof.
  intros Hon. unfold atomic_mutex_unlock. destruct (w_mutexes w !! a) as [m|] eqn:Hm.
  2:{ left. destruct (mutex_check_init_halt w a Hm) as [w' Hh]. exists w'. by rewrite (bind_halt _ _ _ _ _ Hh). }
  right. destruct (mutex_check_init_run t w a m Hon Hm) as (wl & e' & Hrun & [Hon' Hcalm Hnz _ _]).
  rewrite (bind_done _ _ _ _ _ Hrun). krun.
  destruct (klee_expr_or _ _); [by eauto|]. unfold __thread_make_hbnode. krun.
  set (e2 := klee_lockset_remove _ _).
  assert (calm e' e2) as Hc2 by (unfold e2; calm_tac).
  assert (heap_get (put a (m_set_wlist wl m) e' w) !! a = Some (m_set_wlist wl m)) as Hm'
    by apply lookup_put.
  pose proof (q_bound t a _ _ (m_queued m) Hon' Hm' eq_refl) as Hb. unfold KLEE_MAX_THREADS in Hb.
  fields. destruct (Z.ltb_spec 0 (m_queued m)) as [Hpos|Hzero].
  - erewrite bind_done; [|unfold __thread_notify_one_with_expected; krun; reflexivity].
    eexists _, _, _. split; [reflexivity|].
    rewrite <- (put_put _ _ (m_set_wlist wl m) _ e'). unfold __canonical_wlist_addr.
    eapply (notify_one_on_cpu t a (m_set_wlist wl m)); try done.
    simpl. f_equal. apply u32_pred; lia.
  - eexists _, _, _. split; [reflexivity|]. rewrite <- (put_put _ _ (m_set_wlist wl m) _ e').
    eapply on_cpu_put; [exact Hon'|exact Hm'|by rewrite w_eng_put|done|done].
Qed.

Lemma atomic_mutex_unlock_safe t a w :
  on_cpu t w -> always t wl_inv (fun _ w' => on_cpu t w') (atomic_mutex_unlock a w).
Proof.
  intros Hon. by destruct (atomic_mutex_unlock_done t a w Hon) as [(w' & ->)|(r & m' & e' & -> & ?)].
Qed.

Lemma pthread_mutex_init_safe t a attr w :
  on_cpu t w -> always t wl_inv (fun _ w' => on_cpu t w') (pthread_mutex_init a attr w).
Proof.
  intros Hon. unfold pthread_mutex_init. apply always_mbind. unfold mutex_init.
  destruct (w_mutexes w !! a) as [m|] eqn:Hm.
  - pose proof (put_self (T := pthread_mutex_t) a m w Hm) as Hw. rewrite <- Hw. krun. simpl.
    eapply fresh_on_cpu; [done|exact Hm|calm_tac|done|by right].
  - erewrite bind_done by reflexivity. unfold modify at 1.
    erewrite bind_halt; [done|]. eapply bind_halt, load_halt. done.
Qed.

Lemma pthread_mutex_lock_safe t a w :
  on_cpu t w -> always t wl_inv (fun _ w' => on_cpu t w') (pthread_mutex_lock a w).
Proof. intros Hon. then_safe atomic_mutex_lock_safe. by apply finish_if_ok_safe. Qed.

Lemma pthread_mutex_trylock_safe t a w :
  on_cpu t w -> always t wl_inv (fun _ w' => on_cpu t w') (pthread_mutex_trylock a w).
Proof. intros Hon. then_safe atomic_mutex_lock_safe. by apply finish_if_ok_safe. Qed.

Lemma pthread_mutex_unlock_safe t a w :
  on_cpu t w -> always t wl_inv (fun _ w' => on_cpu t w') (pthread_mutex_unlock a w).
Proof.
  intros Hon. then_safe atomic_mutex_unlock_safe. then_safe preempt_safe. done.
Qed.
End MutexRun.

(** ** What the operations do *)

Section MutexSpec.
Context {E U : Type} `{!KleeEngine E, !KleeView E, !KleeLaws E}.
Abbreviation W := (world E U).
Implicit Types (w : W) (e : E) (m : pthread_mutex_t).

(** The mutex at [a] and nobody else's changed. *)
Definition others_same a w w' : Prop := forall b, b <> a -> w_mutexes w' !! b = w_mutexes w !! b.

Lemma others_same_put a m e w : others_same a w (put a m e w).
Proof. intros b Hb. unfold put; simpl. by rewrite lookup_insert_ne. Qed.

Lemma lookup_put_mutex a m e w : w_mutexes (put a m e w) !! a = Some m.
Proof. exact (lookup_put (T := pthread_mutex_t) a m e w). Qed.

(** A free mutex is taken at once. *)
Lemma mutex_lock_free_run t w a m try :
  on_cpu t w -> w_mutexes w !! a = Some m -> m_taken m = 0 -> m_queued m = 0 ->
  exists wl hb e',
    let m' := Mutex wl hb (eng_symid t) 0 1 in
    atomic_mutex_lock a try w = Done 0 (put a m' e' w) /\
    on_cpu t (put a m' e' w) /\ a ∈ eng_lockset e' t /\
    (0 < m_last_hbnode m < 2 ^ 31 -> (m_last_hbnode m, hb) ∈ eng_edges e').
Proof.
  intros Hon Hm Ht Hq.
  destruct (mutex_check_init_run t w a m Hon Hm) as (wl & e1 & Hrun & [Hon1 Hcalm Hnz _ _]).
  set (n := (klee_add_hbnode e1).1).
  set (e2 := klee_add_hbedge (u64 (s32 (m_last_hbnode m))) n (klee_add_hbnode e1).2).
  assert (calm e1 e2) as Hc2 by (unfold e2; calm_tac).
  assert (eng_current e1 = t) as Hcur1.
  { rewrite (calm_current _ _ Hcalm). apply Hon. }
  assert (eng_current e2 = t) as Hcur by (by rewrite (calm_current _ _ Hc2)).
  destruct (law_lockset_add e2 a) as (Hfr & Hlk & _).
  exists wl, n, (klee_lockset_add a e2). simpl. rewrite <- Hcur, <- (law_symbolic_context e2).
  split; [|split; [|split]].
  - unfold atomic_mutex_lock. rewrite (bind_done _ _ _ _ _ Hrun). krun.
    rewrite Ht, Hq. simpl. rewrite mutex_take_run. by rewrite <- Hq.
  - rewrite Hcur. rewrite <- (put_put _ _ (m_set_wlist wl m) _ e1).
    pose proof (mutex_take_on_cpu t a (m_set_wlist wl m) e2 (put a (m_set_wlist wl m) e1 w) n Hon1) as H.
    rewrite w_eng_put in H. cbn [m_wlist m_queued m_set_wlist] in H. rewrite Hq in H.
    apply H; [apply lookup_put|done].
  - rewrite Hlk. set_solver.
  - intros Hr. apply (fr_edges _ _ Hfr). unfold e2.
    replace (u64 (s32 (m_last_hbnode m))) with (m_last_hbnode m)
      by (rewrite s32_small, u64_small; lia).
    apply law_add_hbedge_edge. lia.
Qed.

(** [pthread_mutex_lock] on a free mutex succeeds without sleeping: the
    mutex ends up taken by the calling thread, nobody queued, it is in the
    thread's lockset, other mutexes are untouched, and the happens-before
    graph has an edge from the node of the last release to the node of this
    acquisition. *)
Theorem pthread_mutex_lock_free t w a m :
  on_cpu t w -> w_mutexes w !! a = Some m -> m_taken m = 0 -> m_queued m = 0 ->
  exists w' m',
    pthread_mutex_lock a w = Preempt 0 w' (fun w'' => Done 0 w'') /\
    on_cpu t w' /\ others_same a w w' /\
    w_mutexes w' !! a = Some m' /\
    m_taken m' = 1 /\ m_owner m' = eng_symid t /\ m_queued m' = 0 /\
    a ∈ eng_lockset (w_eng w') t /\
    (0 < m_last_hbnode m < 2 ^ 31 -> (m_last_hbnode m, m_last_hbnode m') ∈ eng_edges (w_eng w')).
Proof.
  intros Hon Hm Ht Hq.
  destruct (mutex_lock_free_run t w a m false Hon Hm Ht Hq) as (wl & hb & e' & Hrun & Hon' & Hlk & Hed).
  eexists _, _. unfold pthread_mutex_lock. rewrite (bind_done _ _ _ _ _ Hrun).
  split; [reflexivity|]. split; [exact Hon'|]. split; [apply others_same_put|].
  split; [apply lookup_put_mutex|]. rewrite w_eng_put. by repeat split.
Qed.

(** The mutex is still held by the same thread, with [d] more waiters. *)
Definition still_held (m : pthread_mutex_t) (d a : Z) w : Prop :=
  exists m', w_mutexes w !! a = Some m' /\ m_taken m' = m_taken m /\ m_owner m' = m_owner m /\
    m_queued m' = m_queued m + d.

(** C27: While a mutex is held it cannot be taken: [trylock] returns [EBUSY],
    [lock] puts the caller to sleep on the waiting list, and [unlock] by a
    thread other than the owner returns [EPERM]; in all three cases the
    owner is unchanged. *)
Theorem pthread_mutex_held_excludes t w a m :
  on_cpu t w -> w_mutexes w !! a = Some m -> m_taken m <> 0 ->
  (exists w', pthread_mutex_trylock a w = Done EBUSY w' /\ still_held m 0 a w') /\
  (exists wl w' k, pthread_mutex_lock a w = Sleep wl w' k /\ still_held m 1 a w' /\
     t ∈ eng_waiters (w_eng w') wl) /\
  (m_owner m <> eng_symid t ->
     exists w', pthread_mutex_unlock a w = Preempt 0 w' (fun w'' => Done EPERM w'') /\
       still_held m 0 a w').
Proof.
  intros Hon Hm Ht.
  destruct (mutex_check_init_run t w a m Hon Hm) as (wl & e1 & Hrun & [Hon1 Hcalm Hnz _ _]).
  assert (eng_current e1 = t) as Hcur1 by (rewrite (calm_current _ _ Hcalm); apply Hon).
  assert (forall m' d e, m_taken m' = m_taken m -> m_owner m' = m_owner m -> m_queued m' = m_queued m + d ->
    still_held m d a (put a m' e w)) as Hheld.
  { intros m' d e H1 H2 H3. exists m'. split; [apply lookup_put_mutex|done]. }
  pose proof (q_bound t a _ _ (m_queued m) Hon (Hm : heap_get w !! a = Some m) eq_refl) as Hb.
  unfold KLEE_MAX_THREADS in Hb.
  split; [|split].
  - eexists. unfold pthread_mutex_trylock, atomic_mutex_lock, mbind, M_bind.
    rewrite Hrun. cbn [out_bind].
    erewrite load_put. cbn [out_bind]. rewrite make_hbnode_from_put. cbn [out_bind].
    rewrite load_put. cbn [out_bind]. fields. rewrite (proj2 (Z.eqb_neq _ _) Ht).
    split; [reflexivity|]. apply Hheld; fields; lia.
  - eexists _, _, _. unfold pthread_mutex_lock, atomic_mutex_lock, mbind, M_bind.
    rewrite Hrun. cbn [out_bind].
    erewrite load_put. cbn [out_bind]. rewrite make_hbnode_from_put. cbn [out_bind].
    rewrite load_put. cbn [out_bind]. fields. rewrite (proj2 (Z.eqb_neq _ _) Ht).
    unfold klee_expr_or at 1. cbn [negb orb]. rewrite modify_put. cbn [out_bind]. rewrite sleep_put. cbn [out_bind].
    split; [reflexivity|]. split; [apply Hheld; fields; [done|done|apply u32_succ; lia]|].
    rewrite w_eng_put. set (e2 := klee_add_hbedge _ _ _).
    assert (calm e1 e2) as Hc2 by (unfold e2; calm_tac).
    destruct (wl_slots _ (cpu_inv _ _ Hon1) _ _ _ (q_slot_put a (m_set_wlist wl m) e1 w))
      as [[? _]|(_ & Hal & _)]; [done|]. rewrite w_eng_put in Hal.
    destruct (law_sleep e2 wl a (SyncOpType_to_Z SyncOpMutex)) as (_ & _ & -> & _).
    + apply (calm_wf _ _ Hc2), (calm_wf _ _ Hcalm), Hon.
    + by apply (calm_allocated _ _ Hc2).
    + rewrite (calm_current _ _ Hc2), Hcur1. set_solver.
  - intros Ho. eexists. unfold pthread_mutex_unlock, atomic_mutex_unlock, mbind, M_bind.
    rewrite Hrun. cbn [out_bind]. rewrite load_put. cbn [out_bind].
    rewrite ask_put. cbn [out_bind]. fields.
    rewrite law_symbolic_context, Hcur1, (proj2 (Z.eqb_neq _ _) Ht), (proj2 (Z.eqb_neq _ _) Ho).
    split; [reflexivity|]. apply Hheld; fields; lia.
Qed.
End MutexSpec.

Section MutexUnlock.
Context {E U : Type} `{!KleeEngine E, !KleeView E, !KleeLaws E}.
Abbreviation W := (world E U).
Implicit Types (w : W) (e : E) (m : pthread_mutex_t).

Lemma mutex_unlock_owner_run t w a m :
  on_cpu t w -> w_mutexes w !! a = Some m -> m_taken m <> 0 -> m_owner m = eng_symid t ->
  exists wl hb q e',
    atomic_mutex_unlock a w = Done 0 (put a (Mutex wl hb (m_owner m) q 0) e' w) /\
    q = Z.max 0 (m_queued m - 1) /\ a ∉ eng_lockset e' t /\
    (0 < m_queued m -> one_woken (m_wlist m) (w_eng w) wl e').
Proof.
  intros Hon Hm Ht Ho.
  destruct (mutex_check_init_run t w a m Hon Hm) as (wl & e1 & Hrun & [Hon1 Hcalm Hnz Hsame _]).
  assert (eng_current e1 = t) as Hcur1 by (rewrite (calm_current _ _ Hcalm); apply Hon).
  assert ((m_owner m =? eng_symid t) = true) as Hob by (by apply Z.eqb_eq).
  set (e2 := klee_lockset_remove a (klee_add_hbnode e1).2).
  assert (calm (w_eng w) e2) as Hc2 by (etrans; [exact Hcalm|]; unfold e2; calm_tac).
  assert (a ∉ eng_lockset e2 t) as Hl2.
  { destruct (law_lockset_remove (klee_add_hbnode e1).2 a) as (_ & Hlk & _).
    rewrite (fr_current _ _ (q_frame _ _ (law_add_hbnode e1))), Hcur1 in Hlk.
    unfold e2. rewrite Hlk. set_solver. }
  assert (heap_get w !! a = Some m) as Hm0 by exact Hm.
  assert (q_count m = Some (m_queued m)) as Hqc by done.
  pose proof (q_bound t a _ _ (m_queued m) Hon Hm0 Hqc) as Hb.
  unfold KLEE_MAX_THREADS in Hb.
  unfold atomic_mutex_unlock. rewrite (bind_done _ _ _ _ _ Hrun). krun.
  rewrite law_symbolic_context, Hcur1, Hob, (proj2 (Z.eqb_neq _ _) Ht).
  unfold klee_expr_or; cbn [negb orb]. unfold __thread_make_hbnode. krun. fold e2.
  destruct (Z.ltb_spec 0 (m_queued m)) as [Hpos|Hzero].
  - destruct (q_nonzero t a m w (m_queued m) Hon Hm0 Hqc Hpos) as [Hwnz _].
    destruct (q_notify_one t a m w (m_queued m) e2 (__canonical_wlist_addr a SyncOpMutex)
      (SyncOpType_to_Z SyncOpMutex) 0 0 0 Hon Hm0 Hqc Hpos Hc2) as (Hlock & Hwoken).
    rewrite (Hsame Hwnz). eexists _, _, (u32 (m_queued m - 1)), _. split.
    { erewrite bind_done; [|unfold __thread_notify_one_with_expected; krun; reflexivity]. reflexivity. }
    split; [rewrite u32_pred; lia|]. rewrite Hlock. done.
  - eexists _, _, (m_queued m), e2. split; [reflexivity|]. split; [lia|]. split; [done|lia].
Qed.

(** Unlocking a mutex that is free or somebody else's changes nothing. *)
Lemma mutex_unlock_refused t w a m :
  on_cpu t w -> w_mutexes w !! a = Some m -> m_taken m = 0 \/ m_owner m <> eng_symid t ->
  exists m' e', atomic_mutex_unlock a w = Done EPERM (put a m' e' w) /\ on_cpu t (put a m' e' w).
Proof.
  intros Hon Hm Herr.
  destruct (mutex_check_init_run t w a m Hon Hm) as (wl & e1 & Hrun & [Hon1 Hcalm _ _ _]).
  assert (eng_current e1 = t) as Hcur1 by (rewrite (calm_current _ _ Hcalm); apply Hon).
  exists (m_set_wlist wl m), e1. split; [|done].
  unfold atomic_mutex_unlock. rewrite (bind_done _ _ _ _ _ Hrun). krun.
  rewrite law_symbolic_context, Hcur1. unfold klee_expr_or.
  destruct Herr as [-> |Ho%Z.eqb_neq]; [done|]. by rewrite Ho, orb_true_r.
Qed.

(** [pthread_mutex_unlock] by the owner frees the mutex, takes it out of
    the lockset, and wakes exactly one waiter if there is one: the counter
    goes down by one together with the waiting list. *)
Theorem pthread_mutex_unlock_owner t w a m :
  on_cpu t w -> w_mutexes w !! a = Some m -> m_taken m <> 0 -> m_owner m = eng_symid t ->
  exists w' m',
    pthread_mutex_unlock a w = Preempt 0 w' (fun w'' => Done 0 w'') /\
    on_cpu t w' /\ others_same a w w' /\ w_mutexes w' !! a = Some m' /\
    m_taken m' = 0 /\ a ∉ eng_lockset (w_eng w') t /\
    m_queued m' = Z.max 0 (m_queued m - 1) /\
    (0 < m_queued m -> one_woken (m_wlist m) (w_eng w) (m_wlist m') (w_eng w')).
Proof.
  intros Hon Hm Ht Ho.
  destruct (mutex_unlock_owner_run t w a m Hon Hm Ht Ho) as (wl & hb & q & e' & Hrun & Hq & Hl & Hw).
  pose proof (atomic_mutex_unlock_safe t a w Hon) as Hsafe. rewrite Hrun in Hsafe.
  unfold pthread_mutex_unlock. rewrite (bind_done _ _ _ _ _ Hrun). eexists _, _.
  split; [reflexivity|]. split; [exact Hsafe|]. split; [apply others_same_put|].
  split; [apply lookup_put_mutex|]. fields. rewrite w_eng_put. done.
Qed.
End MutexUnlock.

(** ** Witnesses and a run that breaks mutual exclusion *)

Lemma pthread_mutex_lock_free_witness :
  exists w' m',
    pthread_mutex_lock 100 (demo_world PTHREAD_MUTEX_INITIALIZER tt) = Preempt 0 w' (fun w'' => Done 0 w'') /\
    w_mutexes w' !! 100 = Some m' /\ m_taken m' = 1 /\ m_owner m' = 0.
Proof.
  destruct (pthread_mutex_lock_free 0 (demo_world PTHREAD_MUTEX_INITIALIZER tt) 100
    PTHREAD_MUTEX_INITIALIZER) as (w' & m' & H1 & _ & _ & H2 & H3 & H4 & _);
    [by apply demo_on_cpu|reflexivity|reflexivity|reflexivity|].
  exists w', m'. split; [exact H1|]. split; [exact H2|]. split; [exact H3|exact H4].
Defined.

Lemma pthread_mutex_held_excludes_witness :
  exists w', pthread_mutex_trylock 100 (demo_world (Mutex 0 0 5 0 1) tt) = Done EBUSY w'.
Proof.
  destruct (pthread_mutex_held_excludes 0 (demo_world (Mutex 0 0 5 0 1) tt) 100 (Mutex 0 0 5 0 1))
    as ((w' & H1 & _) & _); [by apply demo_on_cpu|reflexivity|discriminate|].
  exists w'. exact H1.
Defined.

Lemma pthread_mutex_unlock_owner_witness :
  exists w' m', pthread_mutex_unlock 100 (demo_world (Mutex 0 0 0 0 1) tt) = Preempt 0 w' (fun w'' => Done 0 w'') /\
    w_mutexes w' !! 100 = Some m' /\ m_taken m' = 0.
Proof.
  destruct (pthread_mutex_unlock_owner 0 (demo_world (Mutex 0 0 0 0 1) tt) 100 (Mutex 0 0 0 0 1))
    as (w' & m' & H1 & _ & _ & H2 & H3 & _); [by apply demo_on_cpu|reflexivity|discriminate|reflexivity|].
  exists w', m'. split; [exact H1|]. split; [exact H2|exact H3].
Defined.

(** Thread code for the run: [enter] locks the mutex and, when the call returns
    0, writes its name into the log; nobody who entered ever unlocks. *)
Definition enter (t : Z) : M (world sim (list Z)) unit :=
  r ← pthread_mutex_lock 100;
  if r =? 0 then (l ← get_user; put_user (t :: l)) else mret tt.

Definition lock_then_unlock : M (world sim (list Z)) unit :=
  pthread_mutex_lock 100;; pthread_mutex_unlock 100;; mret tt.

Definition barging_pool : config (E := sim) (U := list Z) :=
  Config (demo_world PTHREAD_MUTEX_INITIALIZER [])
    {[0 := Suspended lock_then_unlock; 1 := Suspended (enter 1); 2 := Suspended (enter 2)]}.

(** C34: The waiter that [unlock] wakes does not check that the mutex is still
    free.  Thread 0 locks, thread 1 queues, thread 0 unlocks (waking thread 1
    and setting "taken" and "queued" to 0), thread 2 locks the free mutex
    before thread 1 runs again, and then thread 1 returns from its lock call as
    well: both are inside, and neither ever unlocked. *)
Theorem pthread_mutex_wakeup_barging :
  exists c, rtc (pool_step (fun _ _ => False)) barging_pool c /\ w_user (cf_world c) = [1; 2].
Proof.
  apply (run_schedule_reaches _ [0; 1; 0; 2; 2; 1; 1] barging_pool (fun c => w_user (cf_world c))).
  vm_compute. reflexivity.
Qed.
