(* ===== verification/Cond.v ===== *)
(** * Condition variables ([runtime/POSIX/threadsync.c], lines 286-406) *)

From stdpp Require Import base gmap list fin_maps relations.
From Stdlib Require Import ZArith Lia.
From S2P Require Import Prelude PthreadTypes Klee Interleave WaitLists SyncUtil SimEngine Demo Mutex.

Section CondOps.
Context {E U : Type} `{!KleeEngine E}.
Abbreviation W := (world E U).

Definition cond_init (cond attr : Z) : M W unit :=
  wl ← call klee_get_wlist;
  modify cond (c_set_wlist wl);;
  modify cond (c_set_mutex 0);;
  modify cond (c_set_queued 0);;
  modify cond (c_set_fake_initialized 0).

Definition cond_init_symbolic (cond : Z) (unique : bool) : M W unit :=
  (if unique then modify cond (c_set_fake_initialized 0) else mret tt);;
  c ← load cond;
  '(may, must) ← __enumerate_possible_waiters (c_wlist c) cond SyncOpCondvar;
  c ← load cond;
  klee_assume (must <=? c_queued c);;
  klee_assume (c_queued c <=? may).

(** [&cond->fake_initialized] is 24 bytes into the struct. *)
Definition cond_check_init (cond : Z) : M W unit :=
  startInternal;;
  c ← load cond;
  st ← should_init_symbolic SyncOpCondvar (cond + 24) (c_fake_initialized c);
  (match st with
   | AlreadyInit =>
       c ← load cond;
       sym ← ask (klee_is_symbolic (c_wlist c));
       if negb sym && (c_wlist c =? 0) then
         wl ← call klee_get_wlist; modify cond (c_set_wlist wl)
       else mret tt
   | NeedsSymbolicInitAliased => cond_init_symbolic cond false
   | NeedsSymbolicInitUnique => cond_init_symbolic cond true
   end);;
  endInternal.

(** What a waiter does once it is notified. *)
Definition cond_wakeup (cond mutex : Z) : M W Z :=
  cond_check_init cond;;
  r ← atomic_mutex_lock mutex false;
  if negb (r =? 0) then mret EPERM else mret 0.

(** The second half of [atomic_cond_wait]. *)
Definition cond_release_and_sleep (cond mutex : Z) : M W Z :=
  r ← atomic_mutex_unlock mutex;
  if negb (r =? 0) then mret EPERM
  else
    c ← load cond;
    modify cond (c_set_queued (u32 (c_queued c + 1)));;
    __thread_sleep (c_wlist c) cond SyncOpCondvar;;
    cond_wakeup cond mutex.

Definition atomic_cond_wait (cond mutex : Z) : M W Z :=
  cond_check_init cond;;
  c ← load cond;
  (if 0 <? c_queued c then klee_assert (c_mutex c =? mutex)
   else modify cond (c_set_mutex mutex));;
  cond_release_and_sleep cond mutex.

Definition atomic_cond_notify (cond : Z) (all : bool) : M W Z :=
  cond_check_init cond;;
  hbnode ← call klee_add_hbnode;
  c ← load cond;
  (if 0 <? c_queued c then
     if all then
       __thread_notify_all_with_extras (c_wlist c) cond SyncOpCondvar hbnode 0 (c_queued c) 0;;
       modify cond (c_set_queued 0)
     else
       __thread_notify_one_with_extras (c_wlist c) cond SyncOpCondvar hbnode 0 (c_queued c) 0;;
       modify cond (c_set_queued (u32 (c_queued c - 1)))
   else mret tt);;
  mret 0.

Definition pthread_cond_init (cond attr : Z) : M W Z := cond_init cond attr;; mret 0.
Definition pthread_cond_destroy (cond : Z) : M W Z := mret 0.
Definition pthread_cond_timedwait (cond mutex abstime : Z) : M W Z := FUNCTION_NOT_IMPLEMENTED.
Definition pthread_cond_wait (cond mutex : Z) : M W Z :=
  res ← atomic_cond_wait cond mutex; finish_if_ok res.
Definition pthread_cond_broadcast (cond : Z) : M W Z :=
  res ← atomic_cond_notify cond true; finish_if_ok res.
Definition pthread_cond_signal (cond : Z) : M W Z :=
  res ← atomic_cond_notify cond false; finish_if_ok res.
End CondOps.

Section CondRun.
Context {E U : Type} `{!KleeEngine E, !KleeView E, !KleeLaws E}.
Abbreviation W := (world E U).
Implicit Types (w : W) (e : E) (c : pthread_cond_t).

Lemma cond_check_init_run t w a c :
  on_cpu t w -> w_conds w !! a = Some c ->
  exists wl e', cond_check_init a w = Done tt (put a (c_set_wlist wl c) e' w) /\
    init_done t a c w wl e'.
Proof. exact (check_init_run (T := pthread_cond_t) SyncOpCondvar 24 c_fake_initialized cond_init_symbolic t w a c). Qed.

Lemma cond_check_init_halt w a :
  w_conds w !! a = None -> exists w', cond_check_init a w = Halt StopMemory w'.
Proof. exact (check_init_halt (T := pthread_cond_t) SyncOpCondvar 24 c_fake_initialized cond_init_symbolic w a). Qed.

Lemma cond_check_init_safe t a w :
  on_cpu t w -> always t wl_inv (fun _ w' => on_cpu t w') (cond_check_init a w).
Proof.
  intros Hon. destruct (w_conds w !! a) as [c|] eqn:Hc.
  - destruct (cond_check_init_run t w a c Hon Hc) as (wl & e' & -> & Hid). apply Hid.
  - by destruct (cond_check_init_halt w a Hc) as [w' ->].
Qed.

Lemma cond_wakeup_safe t cond mutex w :
  on_cpu t w -> always t wl_inv (fun _ w' => on_cpu t w') (cond_wakeup cond mutex w).
Proof.
  intros Hon. unfold cond_wakeup. then_safe cond_check_init_safe.
  then_safe atomic_mutex_lock_safe. by destruct (negb _).
Qed.

(** The code of [atomic_cond_wait] after the mutex was released, on the
    condition variable [c] that has a list. *)
Lemma cond_sleep_safe t cond mutex c e w :
  on_cpu t (put cond c e w) -> c_wlist c <> 0 ->
  always t wl_inv (fun _ w' => on_cpu t w')
    ((c ← load cond;
      modify cond (c_set_queued (u32 (c_queued c + 1)));;
      __thread_sleep (c_wlist c) cond SyncOpCondvar;;
      cond_wakeup cond mutex) (put cond c e w)).
Proof.
  intros Hon Hnz. krun. apply always_mbind. rewrite sleep_put. simpl.
  assert (heap_get (put cond c e w) !! cond = Some c) as Hc by apply lookup_put.
  split.
  - rewrite <- (put_put _ _ c _ e).
    eapply (sleep_inv t cond c); [done|done|by rewrite w_eng_put|done..|].
    intros c' [= <-]. exists (c_queued c). split; [done|]. apply u32_succ.
    pose proof (q_bound t cond c _ (c_queued c) Hon Hc eq_refl). unfold KLEE_MAX_THREADS in *; lia.
  - intros w' Hinv Hrunb. apply cond_wakeup_safe. apply on_cpu_enter; [by eapply on_cpu_tid|done|done].
Qed.

(** A mutex update leaves the condition variables alone. *)
Lemma put_mutex_cond mutex (m : pthread_mutex_t) e' cond c e w :
  put mutex m e' (put cond c e w) = put cond c e' (put mutex m e' w).
Proof. unfold put; simpl. done. Qed.

Lemma cond_set_mutex_on_cpu t cond mutex c e w :
  on_cpu t (put cond c e w) -> on_cpu t (put cond (c_set_mutex mutex c) e w).
Proof.
  intros Hon. rewrite <- (put_put _ _ c _ e).
  eapply on_cpu_put; [exact Hon|apply lookup_put|by rewrite w_eng_put|done|done].
Qed.

(** The first half: the mutex is recorded, or has to be the recorded one. *)
Lemma atomic_cond_wait_run t w cond mutex c :
  on_cpu t w -> w_conds w !! cond = Some c ->
  exists wl e1, wl <> 0 /\ calm (w_eng w) e1 /\
  let c1 := Cond wl mutex (c_queued c) (c_fake_initialized c) in
  if (0 <? c_queued c) && negb (c_mutex c =? mutex)
  then atomic_cond_wait cond mutex w = Halt StopAssert (put cond (c_set_wlist wl c) e1 w)
  else atomic_cond_wait cond mutex w = cond_release_and_sleep cond mutex (put cond c1 e1 w) /\
       on_cpu t (put cond c1 e1 w).
Proof.
  intros Hon Hc. destruct (cond_check_init_run t w cond c Hon Hc) as (wl & e1 & Hrun & [Hon1 Hcalm Hnz _ _]).
  exists wl, e1. split; [done|]. split; [done|]. unfold atomic_cond_wait.
  rewrite (bind_done _ _ _ _ _ Hrun). krun. unfold klee_assert.
  destruct (0 <? c_queued c); simpl.
  - destruct (Z.eqb_spec (c_mutex c) mutex) as [<-|]; simpl; [|done]. krun. split; [done|].
    by destruct c.
  - kstep. split; [done|]. by apply (cond_set_mutex_on_cpu t cond mutex (c_set_wlist wl c)).
Qed.

Lemma atomic_cond_wait_safe t cond mutex w :
  on_cpu t w -> always t wl_inv (fun _ w' => on_cpu t w') (atomic_cond_wait cond mutex w).
Proof.
  intros Hon. destruct (w_conds w !! cond) as [c|] eqn:Hc.
  2:{ unfold atomic_cond_wait. destruct (cond_check_init_halt w cond Hc) as [w' Hh].
      by rewrite (bind_halt _ _ _ _ _ Hh). }
  destruct (atomic_cond_wait_run t w cond mutex c Hon Hc) as (wl & e1 & Hnz & _ & Hcase).
  cbn zeta in Hcase. destruct (_ && _); [by rewrite Hcase|]. destruct Hcase as [-> Hon1].
  unfold cond_release_and_sleep.
  destruct (atomic_mutex_unlock_done t mutex _ Hon1) as [(w' & Hh)|(r & m' & e2 & Hd & Hon2)].
  - by rewrite (bind_halt _ _ _ _ _ Hh).
  - rewrite (bind_done _ _ _ _ _ Hd). destruct (negb (r =? 0)); [done|].
    rewrite put_mutex_cond in Hon2 |- *. by apply cond_sleep_safe.
Qed.
End CondRun.

(** ** Signalling *)

Section CondNotify.
Context {E U : Type} `{!KleeEngine E, !KleeView E, !KleeLaws E}.
Abbreviation W := (world E U).
Implicit Types (w : W) (e : E) (c : pthread_cond_t).

(** What a notification does to the counter and the list. *)
Definition notified (all : bool) c w (c' : pthread_cond_t) w' : Prop :=
  c_mutex c' = c_mutex c /\
  (c_queued c = 0 -> c_queued c' = 0 /\ forall x, eng_waiters (w_eng w') x = eng_waiters (w_eng w) x) /\
  (0 < c_queued c -> c_wlist c' = c_wlist c /\
     if all then c_queued c' = 0 /\ eng_waiters (w_eng w') (c_wlist c) = ∅
     else c_queued c' = c_queued c - 1 /\ one_woken (c_wlist c) (w_eng w) (c_wlist c) (w_eng w')).

(** The engine's side of waking every thread of the list. *)
Lemma cond_notify_all_waiters t a c w e src sink addr ty :
  on_cpu t w -> heap_get w !! a = Some c -> 0 < c_queued c -> calm (w_eng w) e ->
  eng_waiters (klee_thread_notify (c_wlist c) addr ty 1 src sink (c_queued c) 0 e) (c_wlist c) = ∅.
Proof.
  intros Hon Hc Hpos Hcalm.
  assert (q_count c = Some (c_queued c)) as Hqc by done.
  destruct (q_nonzero t a c w (c_queued c) Hon Hc Hqc Hpos) as [Hnz Hsz].
  rewrite <- (calm_waiters _ _ Hcalm) in Hsz.
  destruct (law_notify e (c_wlist c) addr ty 1 src sink (c_queued c) 0
    (calm_wf _ _ Hcalm (wl_wf _ (cpu_inv _ _ Hon))) (or_intror Hsz)) as (_ & _ & Hv & _).
  by apply Hv.
Qed.

Lemma atomic_cond_notify_run t w a c all :
  on_cpu t w -> w_conds w !! a = Some c ->
  exists c' e',
    atomic_cond_notify a all w = Done 0 (put a c' e' w) /\
    on_cpu t (put a c' e' w) /\ notified all c w c' (put a c' e' w).
Proof.
  intros Hon Hc0. assert (heap_get w !! a = Some c) as Hc by exact Hc0.
  assert (q_count c = Some (c_queued c)) as Hqc by done.
  destruct (cond_check_init_run t w a c Hon Hc) as (wl & e1 & Hrun & [Hon1 Hcalm Hnz Hsame _]).
  set (e2 := (klee_add_hbnode e1).2).
  assert (calm e1 e2) as Hc2 by (unfold e2; calm_tac).
  assert (calm (w_eng w) e2) as Hcw by (by etrans).
  assert (heap_get (put a (c_set_wlist wl c) e1 w) !! a = Some (c_set_wlist wl c)) as Hc' by apply lookup_put.
  pose proof (q_bound t a _ _ (c_queued c) Hon Hc Hqc) as Hb. unfold KLEE_MAX_THREADS in Hb.
  unfold atomic_cond_notify. rewrite (bind_done _ _ _ _ _ Hrun). krun. fold e2.
  unfold notified. destruct (Z.ltb_spec 0 (c_queued c)) as [Hpos|Hzero].
  - destruct (q_nonzero t a c w (c_queued c) Hon Hc Hqc Hpos) as [Hwnz _].
    assert (wl = c_wlist c) as -> by (by apply Hsame). destruct all.
    + eexists _, _. erewrite bind_done; [|unfold __thread_notify_all_with_extras; krun; reflexivity].
      split; [reflexivity|]. unfold __canonical_wlist_addr. split.
      * rewrite <- (put_put _ _ (c_set_wlist (c_wlist c) c) _ e1).
        eapply (notify_all_on_cpu t a (c_set_wlist (c_wlist c) c)); try done; by right.
      * fields. rewrite w_eng_put. repeat split; try lia.
        by apply (cond_notify_all_waiters t a c w).
    + eexists _, _. erewrite bind_done; [|unfold __thread_notify_one_with_extras; krun; reflexivity].
      split; [reflexivity|]. unfold __canonical_wlist_addr. split.
      * rewrite <- (put_put _ _ (c_set_wlist (c_wlist c) c) _ e1).
        eapply (notify_one_on_cpu t a (c_set_wlist (c_wlist c) c)); try done.
        simpl. f_equal. apply u32_pred; lia.
      * fields. rewrite w_eng_put. repeat split; try lia.
        { apply u32_pred; lia. }
        exact (proj2 (q_notify_one t a c w (c_queued c) e2 a _ _ _ _ Hon Hc Hqc Hpos Hcw)).
  - eexists _, _. split; [reflexivity|]. split.
    + rewrite <- (put_put _ _ (c_set_wlist wl c) _ e1).
      eapply on_cpu_put; [exact Hon1|exact Hc'|by rewrite w_eng_put|done|done].
    + fields. rewrite w_eng_put. repeat split; try lia. apply Hcw.
Qed.

Lemma atomic_cond_notify_safe t a all w :
  on_cpu t w -> always t wl_inv (fun _ w' => on_cpu t w') (atomic_cond_notify a all w).
Proof.
  intros Hon. destruct (w_conds w !! a) as [c|] eqn:Hc.
  - destruct (atomic_cond_notify_run t w a c all Hon Hc) as (c' & e' & -> & H & _). done.
  - unfold atomic_cond_notify. destruct (cond_check_init_halt w a Hc) as [w' Hh].
    by rewrite (bind_halt _ _ _ _ _ Hh).
Qed.

Lemma pthread_cond_init_safe t a attr w :
  on_cpu t w -> always t wl_inv (fun _ w' => on_cpu t w') (pthread_cond_init a attr w).
Proof.
  intros Hon. unfold pthread_cond_init. apply always_mbind. unfold cond_init.
  destruct (w_conds w !! a) as [c|] eqn:Hc.
  - pose proof (put_self (T := pthread_cond_t) a c w Hc) as Hw. rewrite <- Hw. krun. simpl.
    eapply fresh_on_cpu; [done|exact Hc|calm_tac|done|by right].
  - erewrite bind_done by reflexivity. unfold modify at 1.
    erewrite bind_halt; [done|]. eapply bind_halt, load_halt. done.
Qed.

Lemma pthread_cond_wait_safe t cond mutex w :
  on_cpu t w -> always t wl_inv (fun _ w' => on_cpu t w') (pthread_cond_wait cond mutex w).
Proof. intros Hon. then_safe atomic_cond_wait_safe. by apply finish_if_ok_safe. Qed.

Lemma pthread_cond_notify_safe t cond w :
  on_cpu t w ->
  always t wl_inv (fun _ w' => on_cpu t w') (pthread_cond_broadcast cond w) /\
  always t wl_inv (fun _ w' => on_cpu t w') (pthread_cond_signal cond w).
Proof. split; then_safe atomic_cond_notify_safe; by apply finish_if_ok_safe. Qed.

(** [pthread_cond_signal] on a condition variable with waiters takes
    exactly one of them off the list, [pthread_cond_broadcast] takes all of
    them, and without waiters neither wakes anybody; the counter always
    agrees with the list, and the calls succeed. *)
Theorem pthread_cond_notify_spec t w a c :
  on_cpu t w -> w_conds w !! a = Some c ->
  (exists w' c', pthread_cond_signal a w = Preempt 0 w' (fun w'' => Done 0 w'') /\
     on_cpu t w' /\ w_conds w' !! a = Some c' /\ notified false c w c' w') /\
  (exists w' c', pthread_cond_broadcast a w = Preempt 0 w' (fun w'' => Done 0 w'') /\
     on_cpu t w' /\ w_conds w' !! a = Some c' /\ notified true c w c' w').
Proof.
  intros Hon Hc. split.
  - destruct (atomic_cond_notify_run t w a c false Hon Hc) as (c' & e' & Hrun & Hon' & Hn).
    exists (put a c' e' w), c'. unfold pthread_cond_signal. rewrite (bind_done _ _ _ _ _ Hrun).
    split; [done|]. split; [done|]. split; [|done]. exact (lookup_put (T := pthread_cond_t) a c' e' w).
  - destruct (atomic_cond_notify_run t w a c true Hon Hc) as (c' & e' & Hrun & Hon' & Hn).
    exists (put a c' e' w), c'. unfold pthread_cond_broadcast. rewrite (bind_done _ _ _ _ _ Hrun).
    split; [done|]. split; [done|]. split; [|done]. exact (lookup_put (T := pthread_cond_t) a c' e' w).
Qed.
End CondNotify.

(** ** Waiting *)

Section CondWait.
Context {E U : Type} `{!KleeEngine E, !KleeView E, !KleeLaws E}.
Abbreviation W := (world E U).
Implicit Types (w : W) (e : E) (c : pthread_cond_t) (m : pthread_mutex_t).

(** C28: [pthread_cond_wait] by the owner of the mutex releases the mutex and
    joins the waiting list in one step, with no scheduling point between the
    two, so no signal can be lost: at the first scheduling point the mutex is
    free, the caller is on the list of the condition variable, its counter
    went up by one, and one waiter of the mutex was woken if there was one. *)
Theorem pthread_cond_wait_atomic t w cond mutex c m :
  on_cpu t w -> w_conds w !! cond = Some c -> w_mutexes w !! mutex = Some m ->
  m_taken m <> 0 -> m_owner m = eng_symid t -> c_queued c = 0 \/ c_mutex c = mutex ->
  exists wl w' k c' m',
    pthread_cond_wait cond mutex w = Sleep wl w' k /\ wl_inv w' /\
    w_conds w' !! cond = Some c' /\ c_wlist c' = wl /\ c_mutex c' = mutex /\
    c_queued c' = c_queued c + 1 /\ t ∈ eng_waiters (w_eng w') wl /\
    w_mutexes w' !! mutex = Some m' /\ m_taken m' = 0 /\
    m_queued m' = Z.max 0 (m_queued m - 1).
Proof.
  intros Hon Hc Hm Ht Ho Hmu.
  pose proof (pthread_cond_wait_safe t cond mutex w Hon) as Hsafe.
  destruct (atomic_cond_wait_run t w cond mutex c Hon Hc) as (wl & e1 & Hnz & _ & Hcase).
  assert ((0 <? c_queued c) && negb (c_mutex c =? mutex) = false) as Hb.
  { destruct Hmu as [->| ->]; [done|]. rewrite Z.eqb_refl. apply andb_false_r. }
  cbn zeta in Hcase. rewrite Hb in Hcase. destruct Hcase as [Hrun Hon1].
  destruct (mutex_unlock_owner_run t _ mutex m Hon1 Hm Ht Ho) as (mwl & hb & q & e2 & Hunl & -> & _).
  pose proof (atomic_mutex_unlock_safe t mutex _ Hon1) as Hon2. rewrite Hunl in Hon2. simpl in Hon2.
  rewrite put_mutex_cond in Hunl, Hon2.
  unfold pthread_cond_wait, mbind, M_bind in *. rewrite Hrun in Hsafe |- *.
  unfold cond_release_and_sleep, mbind, M_bind in *. rewrite Hunl in Hsafe |- *.
  cbn [out_bind negb Z.eqb] in Hsafe |- *. rewrite load_put in Hsafe |- *. cbn [out_bind] in Hsafe |- *.
  rewrite modify_put in Hsafe |- *. cbn [out_bind] in Hsafe |- *.
  rewrite sleep_put in Hsafe |- *. cbn [out_bind always] in Hsafe |- *. fields.
  eexists _, _, _, _, _. split; [reflexivity|]. split; [apply Hsafe|].
  split; [unfold put; cbn; apply lookup_insert_eq|]. fields.
  split; [done|]. split; [done|]. split.
  { apply u32_succ. assert (heap_get w !! cond = Some c) as Hc0 by exact Hc.
    assert (q_count c = Some (c_queued c)) as Hqc by done.
    pose proof (q_bound t cond c w _ Hon Hc0 Hqc). unfold KLEE_MAX_THREADS in *; lia. }
  split.
  { rewrite w_eng_put. eapply (q_sleep_in (T := pthread_cond_t) t cond); [exact Hon2|apply lookup_put|done|done|].
    by rewrite w_eng_put. }
  split; [unfold put; cbn; apply lookup_insert_eq|]. done.
Qed.

(** [pthread_cond_wait] reports misuse: with threads queued under another
    mutex the path ends in an assertion failure, and a caller that does not
    hold the mutex gets [EPERM] without being queued. *)
Theorem pthread_cond_wait_errors t w cond mutex c m :
  on_cpu t w -> w_conds w !! cond = Some c -> w_mutexes w !! mutex = Some m ->
  (0 < c_queued c -> c_mutex c <> mutex ->
     exists w', pthread_cond_wait cond mutex w = Halt StopAssert w') /\
  (c_queued c = 0 \/ c_mutex c = mutex -> m_taken m = 0 \/ m_owner m <> eng_symid t ->
     exists w' c', pthread_cond_wait cond mutex w = Done EPERM w' /\ on_cpu t w' /\
       w_conds w' !! cond = Some c' /\ c_queued c' = c_queued c).
Proof.
  intros Hon Hc Hm. destruct (atomic_cond_wait_run t w cond mutex c Hon Hc) as (wl & e1 & Hnz & _ & Hcase).
  cbn zeta in Hcase. unfold pthread_cond_wait, mbind, M_bind. split.
  - intros Hq Hne. rewrite (proj2 (Z.ltb_lt _ _) Hq), (proj2 (Z.eqb_neq _ _) Hne) in Hcase.
    simpl in Hcase. rewrite Hcase. by eexists.
  - intros Hmu Herr. assert ((0 <? c_queued c) && negb (c_mutex c =? mutex) = false) as Hb.
    { destruct Hmu as [->| ->]; [done|]. rewrite Z.eqb_refl. apply andb_false_r. }
    rewrite Hb in Hcase. destruct Hcase as [-> Hon1].
    destruct (mutex_unlock_refused t _ mutex m Hon1 Hm Herr) as (m' & e' & Hunl & Hon2).
    unfold cond_release_and_sleep, mbind, M_bind. rewrite Hunl. simpl.
    eexists _, _. split; [reflexivity|]. split; [exact Hon2|]. rewrite put_mutex_cond.
    split; [unfold put; cbn; apply lookup_insert_eq|done].
Qed.
End CondWait.

(** ** Witnesses *)

Lemma pthread_cond_notify_spec_witness :
  exists w' c', pthread_cond_signal 200 (demo_world PTHREAD_MUTEX_INITIALIZER tt) =
    Preempt 0 w' (fun w'' => Done 0 w'') /\ w_conds w' !! 200 = Some c' /\
    notified false PTHREAD_COND_INITIALIZER (demo_world PTHREAD_MUTEX_INITIALIZER tt) c' w'.
Proof.
  destruct (pthread_cond_notify_spec 0 (demo_world PTHREAD_MUTEX_INITIALIZER tt) 200
    PTHREAD_COND_INITIALIZER) as [(w' & c' & H1 & _ & H2 & H3) _];
    [by apply demo_on_cpu|reflexivity|].
  exists w', c'. split; [exact H1|]. split; [exact H2|exact H3].
Defined.

Lemma pthread_cond_wait_atomic_witness :
  exists wl w' k m', pthread_cond_wait 200 100 (demo_world (Mutex 0 0 0 0 1) tt) = Sleep wl w' k /\
    0 ∈ eng_waiters (w_eng w') wl /\ w_mutexes w' !! 100 = Some m' /\ m_taken m' = 0.
Proof.
  destruct (pthread_cond_wait_atomic 0 (demo_world (Mutex 0 0 0 0 1) tt) 200 100
    PTHREAD_COND_INITIALIZER (Mutex 0 0 0 0 1))
    as (wl & w' & k & c' & m' & H1 & _ & _ & _ & _ & _ & H2 & H3 & H4 & _);
    [by apply demo_on_cpu|reflexivity|reflexivity|discriminate|reflexivity|by left|].
  exists wl, w', k, m'. split; [exact H1|]. split; [exact H2|]. split; [exact H3|exact H4].
Defined.

Lemma pthread_cond_wait_errors_witness :
  exists w', pthread_cond_wait 200 100 (demo_world PTHREAD_MUTEX_INITIALIZER tt) = Done EPERM w'.
Proof.
  destruct (pthread_cond_wait_errors 0 (demo_world PTHREAD_MUTEX_INITIALIZER tt) 200 100
    PTHREAD_COND_INITIALIZER PTHREAD_MUTEX_INITIALIZER) as [_ H];
    [by apply demo_on_cpu|reflexivity|reflexivity|].
  destruct H as (w' & _ & H & _); [by left|by left|]. exists w'. exact H.
Defined.
