(* ===== verification/Barrier.v ===== *)
(** * Barriers ([runtime/POSIX/threadsync.c], lines 412-506) *)

From stdpp Require Import base gmap list fin_maps relations.
From Stdlib Require Import ZArith Lia.
From S2P Require Import Prelude PthreadTypes Klee Interleave WaitLists SyncUtil SimEngine Demo.

Section BarrierOps.
Context {E U : Type} `{!KleeEngine E}.
Abbreviation W := (world E U).

Definition barrier_init (barrier attr count : Z) : M W unit :=
  wl ← call klee_get_wlist;
  modify barrier (b_set_wlist wl);;
  modify barrier (b_set_init_count count);;
  modify barrier (b_set_left count);;
  modify barrier (b_set_fake_initialized 0).

(** The two assumptions are those of the code; [init_count - must] and
    [init_count - may] are unsigned differences. *)
Definition barrier_init_symbolic (barrier : Z) (unique : bool) : M W unit :=
  (if unique then modify barrier (b_set_fake_initialized 0) else mret tt);;
  b ← load barrier;
  '(counts, uniqueCount) ←
    call (klee_enumerate_possible_barrier_init_counts barrier (b_init_count b) 1);
  (if counts =? 1 then modify barrier (b_set_init_count uniqueCount) else mret tt);;
  b ← load barrier;
  '(may, must) ← __enumerate_possible_waiters (b_wlist b) barrier SyncOpBarrier;
  b ← load barrier;
  klee_assume (u32 (b_init_count b - must) <=? b_left b);;
  klee_assume (b_left b <=? u32 (b_init_count b - may)).

(** [&barrier->fake_initialized] is 16 bytes into the struct. *)
Definition barrier_check_init (barrier : Z) : M W unit :=
  startInternal;;
  b ← load barrier;
  st ← should_init_symbolic SyncOpBarrier (barrier + 16) (b_fake_initialized b);
  (match st with
   | AlreadyInit =>
       b ← load barrier;
       sym ← ask (klee_is_symbolic (b_wlist b));
       if negb sym && (b_wlist b =? 0) then
         wl ← call klee_get_wlist; modify barrier (b_set_wlist wl)
       else mret tt
   | NeedsSymbolicInitAliased => barrier_init_symbolic barrier false
   | NeedsSymbolicInitUnique => barrier_init_symbolic barrier true
   end);;
  endInternal.

Definition pthread_barrier_init (barrier attr count : Z) : M W Z :=
  if u32 count =? 0 then mret EINVAL
  else barrier_init barrier attr (u32 count);; mret 0.

Definition pthread_barrier_destroy (barrier : Z) : M W Z := mret 0.

Definition pthread_barrier_wait (barrier : Z) : M W Z :=
  barrier_check_init barrier;;
  b ← load barrier;
  if b_init_count b =? 0 then mret EINVAL
  else
    modify barrier (b_set_left (u32 (b_left b - 1)));;
    b ← load barrier;
    if b_left b =? 0 then
      modify barrier (b_set_left (b_init_count b));;
      let expected := s32 (u32 (b_init_count b - 1)) in
      serial ← call klee_add_hbnode;
      __thread_notify_all_with_extras (b_wlist b) barrier SyncOpBarrier serial serial expected 1;;
      barrier_check_init barrier;;
      mret PTHREAD_BARRIER_SERIAL_THREAD
    else
      __thread_sleep (b_wlist b) barrier SyncOpBarrier;;
      barrier_check_init barrier;;
      mret 0.
End BarrierOps.

Section BarrierRun.
Context {E U : Type} `{!KleeEngine E, !KleeView E, !KleeLaws E}.
Abbreviation W := (world E U).
Implicit Types (w : W) (e : E) (b : pthread_barrier_t).

Lemma barrier_check_init_run t w a b :
  on_cpu t w -> w_barriers w !! a = Some b ->
  exists wl e', barrier_check_init a w = Done tt (put a (b_set_wlist wl b) e' w) /\
    init_done t a b w wl e'.
Proof. exact (check_init_run (T := pthread_barrier_t) SyncOpBarrier 16 b_fake_initialized barrier_init_symbolic t w a b). Qed.

Lemma barrier_check_init_halt w a :
  w_barriers w !! a = None -> exists w', barrier_check_init a w = Halt StopMemory w'.
Proof. exact (check_init_halt (T := pthread_barrier_t) SyncOpBarrier 16 b_fake_initialized barrier_init_symbolic w a). Qed.

Lemma barrier_check_init_safe t a w :
  on_cpu t w -> always t wl_inv (fun _ w' => on_cpu t w') (barrier_check_init a w).
Proof.
  intros Hon. destruct (w_barriers w !! a) as [b|] eqn:Hb.
  - destruct (barrier_check_init_run t w a b Hon Hb) as (wl & e' & -> & Hid). apply Hid.
  - by destruct (barrier_check_init_halt w a Hb) as [w' ->].
Qed.

(** What the invariant says of a barrier that was initialized. *)
Lemma barrier_counts t a b w :
  on_cpu t w -> w_barriers w !! a = Some b -> b_init_count b <> 0 ->
  1 <= b_left b <= b_init_count b /\ b_init_count b < 2 ^ 32 /\
  b_arrived b = b_init_count b - b_left b /\ b_init_count b - b_left b <= KLEE_MAX_THREADS.
Proof.
  intros Hon Hb Hi. assert (heap_get w !! a = Some b) as Hb0 by exact Hb.
  assert (q_count b = Some (b_arrived b)) as Hq by done.
  pose proof (q_bound t a b w _ Hon Hb0 Hq) as Hbd. unfold b_arrived in *.
  apply Z.eqb_neq in Hi. rewrite Hi in *. simpl in *.
  destruct ((1 <=? b_left b) && (b_left b <=? b_init_count b) && (b_init_count b <? 2 ^ 32)) eqn:Hc.
  - apply andb_prop in Hc as [[H1 H2]%andb_prop H3]. lia.
  - lia.
Qed.

Lemma b_arrived_range wl i l f :
  1 <= l <= i -> i < 2 ^ 32 -> b_arrived (Barrier wl i l f) = i - l.
Proof.
  intros Hl Hi. unfold b_arrived; simpl. rewrite (proj2 (Z.eqb_neq i 0)) by lia. simpl.
  by rewrite (proj2 (Z.leb_le 1 l)), (proj2 (Z.leb_le l i)), (proj2 (Z.ltb_lt i _)) by lia.
Qed.

(** An arrival that is not the last one. *)
Lemma barrier_wait_early t w a b :
  on_cpu t w -> w_barriers w !! a = Some b -> b_init_count b <> 0 -> b_left b <> 1 ->
  exists wl e' k,
    let b' := Barrier wl (b_init_count b) (b_left b - 1) (b_fake_initialized b) in
    pthread_barrier_wait a w = Sleep wl (put a b' e' w) k /\
    wl_inv (put a b' e' w) /\ eng_current e' = t /\
    (forall x, eng_waiters e' x = if decide (x = wl) then {[t]} ∪ eng_waiters (w_eng w) wl
                                  else eng_waiters (w_eng w) x) /\
    (forall w'', on_cpu t w'' -> always t wl_inv (fun _ w3 => on_cpu t w3) (k w'')) /\
    (forall w'' b'', on_cpu t w'' -> w_barriers w'' !! a = Some b'' -> exists w3, k w'' = Done 0 w3).
Proof.
  intros Hon Hb Hi Hl. destruct (barrier_counts t a b w Hon Hb Hi) as (Hr & Hlt & Har & Hmax).
  destruct (barrier_check_init_run t w a b Hon Hb) as (wl & e1 & Hrun & [Hon1 Hcalm Hnz Hsame _]).
  assert (heap_get (put a (b_set_wlist wl b) e1 w) !! a = Some (b_set_wlist wl b)) as Hb' by apply lookup_put.
  unfold pthread_barrier_wait. rewrite (bind_done _ _ _ _ _ Hrun).
  kstep. rewrite (proj2 (Z.eqb_neq _ _) Hi). krun.
  rewrite u32_pred by lia. rewrite (proj2 (Z.eqb_neq (b_left b - 1) 0)) by lia.
  unfold mbind, M_bind. rewrite sleep_put. cbn [out_bind]. fields.
  eexists wl, (klee_thread_sleep wl a (SyncOpType_to_Z SyncOpBarrier) e1), _. split; [reflexivity|].
  destruct (wl_slots _ (cpu_inv _ _ Hon1) _ _ _ (q_slot_put a (b_set_wlist wl b) e1 w))
    as [[? _]|(_ & Hal & _)]; [done|]. rewrite w_eng_put in Hal.
  destruct (law_sleep e1 wl a (SyncOpType_to_Z SyncOpBarrier) (calm_wf _ _ Hcalm (wl_wf _ (cpu_inv _ _ Hon))) Hal)
    as (_ & Hc & Hv & Hvo & _).
  rewrite (calm_current _ _ Hcalm), (cpu_current _ _ Hon) in Hc, Hv.
  split; [|split; [done|split; [|split]]].
  - rewrite <- (put_put _ _ (b_set_wlist wl b) _ e1).
    eapply (sleep_inv t a (b_set_wlist wl b)); [exact Hon1|exact Hb'|by rewrite w_eng_put|done..|].
    intros c' [= <-]. exists (b_arrived b). split; [by destruct b|].
    rewrite b_arrived_range by lia. lia.
  - intros x. destruct (decide (x = wl)) as [->|Hx]; [by rewrite Hv, (calm_waiters _ _ Hcalm)|].
    by rewrite Hvo, (calm_waiters _ _ Hcalm).
  - intros w'' Hon''. cbv beta. apply always_bind. eapply always_mono; [|by apply barrier_check_init_safe]. done.
  - intros w'' b'' Hon'' Hb''. destruct (barrier_check_init_run t w'' a b'' Hon'' Hb'') as (? & ? & Hr2 & _).
    exists (put a (b_set_wlist x b'') x0 w''). by rewrite Hr2.
Qed.
(** The last arrival. *)
Lemma barrier_wait_last t w a b :
  on_cpu t w -> w_barriers w !! a = Some b -> b_init_count b <> 0 -> b_left b = 1 ->
  exists wl e',
    let b' := Barrier wl (b_init_count b) (b_init_count b) (b_fake_initialized b) in
    pthread_barrier_wait a w = Done PTHREAD_BARRIER_SERIAL_THREAD (put a b' e' w) /\
    on_cpu t (put a b' e' w) /\ eng_waiters e' wl = ∅ /\ (b_wlist b <> 0 -> wl = b_wlist b) /\
    (forall x, x <> wl -> eng_waiters e' x = eng_waiters (w_eng w) x).
Proof.
  intros Hon Hb Hi Hl. destruct (barrier_counts t a b w Hon Hb Hi) as (Hr & Hlt & Har & Hmax).
  unfold KLEE_MAX_THREADS in Hmax.
  destruct (barrier_check_init_run t w a b Hon Hb) as (wl & e1 & Hrun & [Hon1 Hcalm Hnz Hsame _]).
  assert (heap_get (put a (b_set_wlist wl b) e1 w) !! a = Some (b_set_wlist wl b)) as Hb' by apply lookup_put.
  unfold pthread_barrier_wait. rewrite (bind_done _ _ _ _ _ Hrun).
  kstep. rewrite (proj2 (Z.eqb_neq _ _) Hi). krun. rewrite Hl. cbn [u32 Z.eqb].
  change (u32 (1 - 1) =? 0) with true. cbv iota. unfold __thread_notify_all_with_extras. krun.
  rewrite (u32_small (b_init_count b - 1)), s32_small by lia. unfold __canonical_wlist_addr.
  set (e2 := (klee_add_hbnode e1).2). set (n := (klee_add_hbnode e1).1).
  set (e3 := klee_thread_notify _ _ _ _ _ _ _ _ _).
  set (b1 := Barrier wl (b_init_count b) (b_init_count b) (b_fake_initialized b)).
  match goal with |- context [put a ?v e3 w] => change v with b1 end.
  assert (calm e1 e2) as Hc2 by (unfold e2; calm_tac).
  assert (q_count (b_set_wlist wl b) = Some (b_init_count b - 1)) as Hq.
  { change (Some (b_arrived b) = Some (b_init_count b - 1)). by rewrite Har, Hl. }
  assert (on_cpu t (put a b1 e3 w)) as Hon3.
  { rewrite <- (put_put _ _ (b_set_wlist wl b) _ e1). unfold e3.
    eapply (notify_all_on_cpu t a (b_set_wlist wl b)); try done; [by right|].
    right. change (Some (b_arrived b1) = Some 0). f_equal. unfold b1. rewrite b_arrived_range by lia. lia. }
  assert (w_barriers (put a b1 e3 w) !! a = Some b1) as Hb1
    by exact (lookup_put (T := pthread_barrier_t) a b1 e3 w).
  destruct (barrier_check_init_run t _ a b1 Hon3 Hb1) as (wl' & e4 & Hrun4 & [Hon4 Hcalm4 Hnz4 Hsame4 _]).
  rewrite (bind_done _ _ _ _ _ Hrun4). rewrite put_put in Hon4 |- *. rewrite w_eng_put in Hcalm4.
  assert (wl' = wl) as -> by (by apply Hsame4).
  assert (b_init_count b - 1 = Z.of_nat (size (eng_waiters e2 wl))) as Hsz.
  { destruct (wl_slots _ (cpu_inv _ _ Hon1) _ _ _ (q_slot_get _ a _ Hb')) as [[? _]|(_ & _ & Hc)]; [done|].
    rewrite (calm_waiters _ _ Hc2). apply Hc in Hq. by rewrite w_eng_put in Hq. }
  destruct (law_notify e2 wl a (SyncOpType_to_Z SyncOpBarrier) 1 n n (b_init_count b - 1) 1
    (calm_wf _ _ Hc2 (calm_wf _ _ Hcalm (wl_wf _ (cpu_inv _ _ Hon)))) (or_intror Hsz))
    as (_ & _ & Hv & _ & _ & Hvo & _).
  exists wl, e4. split; [reflexivity|]. split; [exact Hon4|]. rewrite (calm_waiters _ _ Hcalm4).
  split; [by apply Hv|]. split; [exact Hsame|].
  intros x Hx. rewrite (calm_waiters _ _ Hcalm4). unfold e3. rewrite Hvo by done.
  by rewrite (calm_waiters _ _ Hc2), (calm_waiters _ _ Hcalm).
Qed.

Lemma pthread_barrier_wait_safe t a w :
  on_cpu t w -> always t wl_inv (fun _ w' => on_cpu t w') (pthread_barrier_wait a w).
Proof.
  intros Hon. destruct (w_barriers w !! a) as [b|] eqn:Hb.
  2:{ unfold pthread_barrier_wait. destruct (barrier_check_init_halt w a Hb) as [w' Hh].
      by rewrite (bind_halt _ _ _ _ _ Hh). }
  destruct (Z.eq_dec (b_init_count b) 0) as [Hi|Hi].
  - destruct (barrier_check_init_run t w a b Hon Hb) as (wl & e1 & Hrun & [Hon1 _ _ _ _]).
    unfold pthread_barrier_wait. rewrite (bind_done _ _ _ _ _ Hrun). kstep. by rewrite Hi.
  - destruct (Z.eq_dec (b_left b) 1) as [Hl|Hl].
    + destruct (barrier_wait_last t w a b Hon Hb Hi Hl) as (wl & e' & -> & H & _). done.
    + destruct (barrier_wait_early t w a b Hon Hb Hi Hl) as (wl & e' & k & -> & Hw & _ & _ & Hk & _).
      split; [done|]. intros w' Hinv Hrun. apply Hk. apply on_cpu_enter; [by eapply on_cpu_tid|done|done].
Qed.

Lemma pthread_barrier_init_safe t a attr count w :
  on_cpu t w -> always t wl_inv (fun _ w' => on_cpu t w') (pthread_barrier_init a attr count w).
Proof.
  intros Hon. unfold pthread_barrier_init. destruct (Z.eqb_spec (u32 count) 0) as [|Hc]; [done|].
  apply always_mbind. unfold barrier_init. destruct (w_barriers w !! a) as [b|] eqn:Hb.
  - pose proof (put_self (T := pthread_barrier_t) a b w Hb) as Hw. rewrite <- Hw. krun. simpl.
    pose proof (u32_range count) as Hr.
    eapply fresh_on_cpu; [done|exact Hb|calm_tac|done|right].
    match goal with |- q_count ?v = _ => change (q_count v) with (Some (b_arrived v)) end.
    f_equal. etrans; [apply (b_arrived_range (klee_get_wlist (w_eng w)).1 (u32 count) (u32 count) 0); lia|lia].
  - erewrite bind_done by reflexivity. unfold modify at 1.
    erewrite bind_halt; [done|]. eapply bind_halt, load_halt. done.
Qed.
End BarrierRun.

(** ** What a barrier does *)

Section BarrierSpec.
Context {E U : Type} `{!KleeEngine E, !KleeView E, !KleeLaws E}.
Abbreviation W := (world E U).
Implicit Types (w : W) (e : E) (b : pthread_barrier_t).

Lemma lookup_put_barrier a b e w : w_barriers (put a b e w) !! a = Some b.
Proof. exact (lookup_put (T := pthread_barrier_t) a b e w). Qed.

(** [pthread_barrier_wait] on every branch: [EINVAL] on a barrier that was
    not initialized; a thread that is not the last goes to sleep on the list
    and "left" goes down by one without ever wrapping; the last thread gets
    [PTHREAD_BARRIER_SERIAL_THREAD], every sleeper is woken, and "left" is
    reset to the full count. *)
Theorem pthread_barrier_wait_spec t w a b :
  on_cpu t w -> w_barriers w !! a = Some b ->
  (b_init_count b = 0 -> exists w', pthread_barrier_wait a w = Done EINVAL w' /\ on_cpu t w') /\
  (b_init_count b <> 0 ->
   (b_left b <> 1 ->
      exists wl w' k, pthread_barrier_wait a w = Sleep wl w' k /\ wl_inv w' /\
        w_barriers w' !! a = Some (Barrier wl (b_init_count b) (b_left b - 1) (b_fake_initialized b)) /\
        0 < b_left b - 1 /\ t ∈ eng_waiters (w_eng w') wl) /\
   (b_left b = 1 ->
      exists wl w', pthread_barrier_wait a w = Done PTHREAD_BARRIER_SERIAL_THREAD w' /\ on_cpu t w' /\
        w_barriers w' !! a = Some (Barrier wl (b_init_count b) (b_init_count b) (b_fake_initialized b)) /\
        eng_waiters (w_eng w') wl = ∅)).
Proof.
  intros Hon Hb. split; [|intros Hi; split].
  - intros Hi. destruct (barrier_check_init_run t w a b Hon Hb) as (wl & e1 & Hrun & [Hon1 _ _ _ _]).
    eexists. unfold pthread_barrier_wait. rewrite (bind_done _ _ _ _ _ Hrun). kstep. by rewrite Hi.
  - intros Hl. destruct (barrier_counts t a b w Hon Hb Hi) as (Hr & _).
    destruct (barrier_wait_early t w a b Hon Hb Hi Hl) as (wl & e' & k & -> & Hw & _ & Hv & _).
    eexists _, _, _. split; [reflexivity|]. split; [done|]. split; [apply lookup_put_barrier|].
    split; [lia|]. rewrite w_eng_put, Hv, decide_True by done. set_solver.
  - intros Hl. destruct (barrier_wait_last t w a b Hon Hb Hi Hl) as (wl & e' & -> & Hw & Hv & _).
    eexists _, _. split; [reflexivity|]. split; [done|]. split; [apply lookup_put_barrier|].
    by rewrite w_eng_put.
Qed.

(** The threads of a list arrive one after the other; the result is what the
    last one returns, with the state it leaves. *)
Fixpoint arrive_all (a : Z) (ts : list Z) w : option (Z * W) :=
  match ts with
  | [] => None
  | t :: ts' =>
      match pthread_barrier_wait a (switch_to t w), ts' with
      | Done r w', [] => Some (r, w')
      | Sleep _ w' _, _ :: _ => arrive_all a ts' w'
      | _, _ => None
      end
  end.

Lemma arrive_all_run a ts w b :
  wl_inv w -> NoDup ts -> Forall tid_ok ts -> Forall (fun t => runnable t w) ts ->
  w_barriers w !! a = Some b -> b_init_count b <> 0 -> b_left b = Z.of_nat (length ts) ->
  exists wl w', arrive_all a ts w = Some (PTHREAD_BARRIER_SERIAL_THREAD, w') /\ wl_inv w' /\
    w_barriers w' !! a = Some (Barrier wl (b_init_count b) (b_init_count b) (b_fake_initialized b)) /\
    eng_waiters (w_eng w') wl = ∅.
Proof.
  revert w b. induction ts as [|t ts IH]; intros w b Hinv Hnd Hok Hrn Hb Hi Hl.
  - apply Forall_nil in Hok.
    destruct (wl_slots w Hinv (SlBarrier a) (b_wlist b) (Some (b_arrived b))) as [[_ [?|?]]|(_ & _ & Hc)];
      [by simpl; rewrite Hb|done| |].
    + unfold b_arrived in *. apply Z.eqb_neq in Hi. rewrite Hi, Hl in *. by simpl in *.
    + specialize (Hc _ eq_refl). unfold b_arrived in *. apply Z.eqb_neq in Hi. rewrite Hi, Hl in *.
      simpl in *. lia.
  - apply NoDup_cons in Hnd as [Hnt Hnd]. apply Forall_cons in Hok as [Ht Hok].
    apply Forall_cons in Hrn as [Hrt Hrn].
    pose proof (on_cpu_enter t w Ht Hinv Hrt) as Hon. simpl arrive_all. destruct ts as [|t' ts].
    + destruct (barrier_wait_last t _ a b Hon Hb Hi Hl) as (wl & e' & -> & Hw & Hv & _).
      eexists _, _. split; [reflexivity|]. split; [apply Hw|]. split; [apply lookup_put_barrier|].
      by rewrite w_eng_put.
    + simpl in Hl. destruct (barrier_wait_early t _ a b Hon Hb Hi) as (wl & e' & k & -> & Hw & _ & Hv & _); [lia|].
      apply (IH _ (Barrier wl (b_init_count b) (b_left b - 1) (b_fake_initialized b)) Hw Hnd Hok);
        [|apply lookup_put_barrier|done|simpl; lia].
      apply Forall_forall. intros u Hu x. rewrite w_eng_put, Hv.
      destruct (law_switch (w_eng w) t (wl_wf w Hinv) Ht) as (_ & _ & Hsw & _). simpl. rewrite !Hsw.
      pose proof (proj1 (Forall_forall _ _) Hrn u Hu) as Hru. assert (u <> t) by (by intros ->).
      destruct (decide (x = wl)) as [->|]; [|apply Hru]. specialize (Hru wl). set_solver.
Qed.

(** C29: A full round of a barrier for [n] threads: when [n] different
    threads arrive in any order, all but the last sleep, the last one returns
    [PTHREAD_BARRIER_SERIAL_THREAD], nobody is left waiting, and the barrier
    is ready for the next round. *)
Theorem barrier_round a ts w b :
  wl_inv w -> NoDup ts -> Forall tid_ok ts -> Forall (fun t => runnable t w) ts ->
  w_barriers w !! a = Some b -> b_init_count b = Z.of_nat (length ts) -> ts <> [] ->
  b_left b = b_init_count b ->
  exists wl w' b', arrive_all a ts w = Some (PTHREAD_BARRIER_SERIAL_THREAD, w') /\ wl_inv w' /\
    w_barriers w' !! a = Some b' /\ b_init_count b' = b_init_count b /\ b_left b' = b_init_count b /\
    b_wlist b' = wl /\ eng_waiters (w_eng w') wl = ∅.
Proof.
  intros Hinv Hnd Hok Hrn Hb Hi Hne Hl.
  destruct (arrive_all_run a ts w b) as (wl & w' & H1 & H2 & H3 & H4); try done; [|lia|].
  { rewrite Hi. destruct ts; [done|simpl; lia]. }
  eexists wl, w', _. by split.
Qed.
End BarrierSpec.

(** ** Witnesses *)

Lemma pthread_barrier_wait_spec_witness :
  exists wl w' k, pthread_barrier_wait 300 (demo_world PTHREAD_MUTEX_INITIALIZER tt) = Sleep wl w' k /\
    w_barriers w' !! 300 = Some (Barrier wl 2 1 0).
Proof.
  destruct (pthread_barrier_wait_spec 0 (demo_world PTHREAD_MUTEX_INITIALIZER tt) 300 (Barrier 0 2 2 0))
    as [_ H]; [by apply demo_on_cpu|reflexivity|].
  destruct H as [H _]; [discriminate|].
  destruct H as (wl & w' & k & H1 & _ & H2 & _); [discriminate|].
  exists wl, w', k. split; [exact H1|exact H2].
Defined.

Lemma barrier_round_witness :
  exists w', arrive_all 300 [3; 5] (demo_world PTHREAD_MUTEX_INITIALIZER tt) =
    Some (PTHREAD_BARRIER_SERIAL_THREAD, w').
Proof.
  destruct (barrier_round 300 [3; 5] (demo_world PTHREAD_MUTEX_INITIALIZER tt) (Barrier 0 2 2 0))
    as (wl & w' & b' & H1 & _).
  - by apply (demo_on_cpu PTHREAD_MUTEX_INITIALIZER tt).
  - apply (bool_decide_unpack _). vm_compute. exact I.
  - repeat constructor; by vm_compute.
  - repeat constructor; intros wl; simpl; unfold sim_wait; simpl; rewrite lookup_empty; simpl; set_solver.
  - reflexivity.
  - reflexivity.
  - discriminate.
  - reflexivity.
  - exists w'. exact H1.
Defined.
