(* ===== verification/RwLock.v ===== *)
(** * Read-write locks ([runtime/POSIX/threadsync.c], lines 513-699)

    A read-write lock has two waiting lists, one for readers and one for
    writers, each with its counter. *)

From stdpp Require Import base gmap list fin_maps relations.
From Stdlib Require Import ZArith Lia.
From S2P Require Import Prelude PthreadTypes Klee Interleave WaitLists SyncUtil SimEngine Demo.

Section RwLockOps.
Context {E U : Type} `{!KleeEngine E}.
Abbreviation W := (world E U).

Definition rwlock_init (rwlock attr : Z) : M W unit :=
  wl ← call klee_get_wlist;
  modify rwlock (rw_set_wlist_readers wl);;
  wl ← call klee_get_wlist;
  modify rwlock (rw_set_wlist_writers wl);;
  modify rwlock (rw_set_last_reader_hbgroup 0);;
  modify rwlock (rw_set_last_writer_hbnode 0);;
  modify rwlock (rw_set_nr_readers 0);;
  modify rwlock (rw_set_nr_readers_queued 0);;
  modify rwlock (rw_set_nr_writers_queued 0);;
  modify rwlock (rw_set_writer 0).

Definition rwlock_init_symbolic (rwlock : Z) (unique : bool) : M W unit :=
  wl ← call klee_get_wlist;
  modify rwlock (rw_set_wlist_readers wl);;
  wl ← call klee_get_wlist;
  modify rwlock (rw_set_wlist_writers wl);;
  if unique then
    modify rwlock (rw_set_last_reader_hbgroup 0);;
    modify rwlock (rw_set_last_writer_hbnode 0)
  else mret tt.

(** [&rwlock->last_reader_hbgroup] is 16 bytes into the struct. *)
Definition rwlock_check_init (rwlock : Z) : M W unit :=
  startInternal;;
  r ← load rwlock;
  st ← should_init_symbolic SyncOpRwlock (rwlock + 16) (rw_last_reader_hbgroup r);
  (match st with
   | AlreadyInit =>
       r ← load rwlock;
       sym ← ask (klee_is_symbolic (rw_wlist_readers r));
       if negb sym && (rw_wlist_readers r =? 0) then
         wl ← call klee_get_wlist;
         modify rwlock (rw_set_wlist_readers wl);;
         wl ← call klee_get_wlist;
         modify rwlock (rw_set_wlist_writers wl)
       else mret tt
   | NeedsSymbolicInitAliased => rwlock_init_symbolic rwlock false
   | NeedsSymbolicInitUnique => rwlock_init_symbolic rwlock true
   end);;
  endInternal.

(** The end of [atomic_rwlock_rdlock]: one more reader. *)
Definition rwlock_enter_reader (rwlock : Z) : M W Z :=
  r ← load rwlock;
  modify rwlock (rw_set_nr_readers (u32 (rw_nr_readers r + 1)));;
  r ← load rwlock;
  if rw_nr_readers r =? 0 then
    modify rwlock (rw_set_nr_readers (u32 (rw_nr_readers r - 1)));;
    mret EAGAIN
  else
    __thread_make_hbnode_from (rw_last_writer_hbnode r);;
    mret 0.

Definition atomic_rwlock_rdlock (rwlock : Z) (try : bool) : M W Z :=
  rwlock_check_init rwlock;;
  r ← load rwlock;
  if negb (rw_writer r =? 0) || negb (rw_nr_writers_queued r =? 0) then
    if try then mret EBUSY
    else
      modify rwlock (rw_set_nr_readers_queued (u32 (rw_nr_readers_queued r + 1)));;
      r ← load rwlock;
      if rw_nr_readers_queued r =? 0 then
        modify rwlock (rw_set_nr_readers_queued (u32 (rw_nr_readers_queued r - 1)));;
        mret EAGAIN
      else
        __thread_sleep (rw_wlist_readers r) rwlock SyncOpRwlock;;
        rwlock_check_init rwlock;;
        rwlock_enter_reader rwlock
  else rwlock_enter_reader rwlock.

(** The end of [atomic_rwlock_wrlock]: the caller is the writer. *)
Definition rwlock_enter_writer (rwlock : Z) : M W Z :=
  modify rwlock (rw_set_writer 1);;
  n ← __thread_make_hbnode;
  r ← load rwlock;
  (if negb (rw_last_reader_hbgroup r =? 0) then
     tell (klee_add_hbedges_from_hbgroup (rw_last_reader_hbgroup r) n);;
     tell (klee_remove_hbgroup (rw_last_reader_hbgroup r));;
     modify rwlock (rw_set_last_reader_hbgroup 0)
   else tell (klee_add_hbedge (rw_last_writer_hbnode r) n));;
  mret 0.

(** [&rwlock->wlist_writers] is 8 bytes into the struct. *)
Definition atomic_rwlock_wrlock (rwlock : Z) (try : bool) : M W Z :=
  rwlock_check_init rwlock;;
  r ← load rwlock;
  if negb (rw_writer r =? 0) || negb (rw_nr_readers r =? 0) then
    if try then mret EBUSY
    else
      modify rwlock (rw_set_nr_writers_queued (u32 (rw_nr_writers_queued r + 1)));;
      r ← load rwlock;
      if rw_nr_writers_queued r =? 0 then
        modify rwlock (rw_set_nr_writers_queued (u32 (rw_nr_writers_queued r - 1)));;
        mret EAGAIN
      else
        __thread_sleep (rw_wlist_writers r) (rwlock + 8) SyncOpRwlock;;
        rwlock_check_init rwlock;;
        rwlock_enter_writer rwlock
  else rwlock_enter_writer rwlock.

(** The first half of [atomic_rwlock_unlock]: giving the lock up. *)
Definition rwlock_release (rwlock : Z) : M W unit :=
  r ← load rwlock;
  if negb (rw_writer r =? 0) then
    modify rwlock (rw_set_writer 0);;
    n ← __thread_make_hbnode;
    modify rwlock (rw_set_last_writer_hbnode n)
  else
    modify rwlock (rw_set_nr_readers (u32 (rw_nr_readers r - 1)));;
    n ← __thread_make_hbnode;
    (if rw_last_reader_hbgroup r =? 0 then modify rwlock (rw_set_last_reader_hbgroup n) else mret tt);;
    r ← load rwlock;
    tell (klee_add_hbnode_to_hbgroup n (rw_last_reader_hbgroup r)).

(** The second half: waking the waiters. *)
Definition rwlock_notify (rwlock : Z) : M W unit :=
  r ← load rwlock;
  if (rw_nr_readers r =? 0) && negb (rw_nr_writers_queued r =? 0) then
    __thread_notify_one_with_expected (rw_wlist_writers r) (rwlock + 8) SyncOpRwlock (rw_nr_writers_queued r);;
    modify rwlock (rw_set_nr_writers_queued (u32 (rw_nr_writers_queued r - 1)))
  else if negb (rw_nr_readers_queued r =? 0) then
    __thread_notify_all_with_expected (rw_wlist_readers r) rwlock SyncOpRwlock (rw_nr_readers_queued r);;
    modify rwlock (rw_set_nr_readers_queued 0)
  else mret tt.

Definition atomic_rwlock_unlock (rwlock : Z) : M W Z :=
  r ← load rwlock;
  if (rw_writer r =? 0) && (rw_nr_readers r =? 0) then mret EPERM
  else
    rwlock_release rwlock;;
    rwlock_notify rwlock;;
    mret 0.

Definition pthread_rwlock_init (rwlock attr : Z) : M W Z := rwlock_init rwlock attr;; mret 0.
Definition pthread_rwlock_destroy (rwlock : Z) : M W Z := mret 0.
Definition pthread_rwlock_rdlock (rwlock : Z) : M W Z :=
  res ← atomic_rwlock_rdlock rwlock false; finish_if_ok res.
Definition pthread_rwlock_tryrdlock (rwlock : Z) : M W Z :=
  res ← atomic_rwlock_rdlock rwlock true; finish_if_ok res.
Definition pthread_rwlock_wrlock (rwlock : Z) : M W Z :=
  res ← atomic_rwlock_wrlock rwlock false; finish_if_ok res.
Definition pthread_rwlock_trywrlock (rwlock : Z) : M W Z :=
  res ← atomic_rwlock_wrlock rwlock true; finish_if_ok res.
Definition pthread_rwlock_unlock (rwlock : Z) : M W Z :=
  res ← atomic_rwlock_unlock rwlock; finish_if_ok res.
End RwLockOps.

(** ** The two slots of a lock *)

Section RwLockRun.
Context {E U : Type} `{!KleeEngine E, !KleeView E, !KleeLaws E}.
Abbreviation W := (world E U).
Implicit Types (w : W) (e : E) (r : pthread_rwlock_t).

Lemma rw_slot_readers a r e w :
  slot_get (put a r e w) (SlReaders a) = Some (rw_wlist_readers r, Some (rw_nr_readers_queued r)).
Proof. unfold put; simpl. by rewrite lookup_insert_eq. Qed.

Lemma rw_slot_writers a r e w :
  slot_get (put a r e w) (SlWriters a) = Some (rw_wlist_writers r, Some (rw_writers_waiting r)).
Proof. unfold put; simpl. by rewrite lookup_insert_eq. Qed.

Lemma rw_slot_other a r e w sl :
  sl <> SlReaders a -> sl <> SlWriters a -> slot_get (put a r e w) sl = slot_get w sl.
Proof.
  intros H1 H2. unfold put. destruct sl; simpl; try done; by rewrite lookup_insert_ne by congruence.
Qed.

(** The same lists and counters. *)
Definition rw_same_queues r r' : Prop :=
  rw_wlist_readers r' = rw_wlist_readers r /\ rw_nr_readers_queued r' = rw_nr_readers_queued r /\
  rw_wlist_writers r' = rw_wlist_writers r /\ rw_nr_writers_queued r' = rw_nr_writers_queued r.

Lemma rw_same_waiting r r' : rw_same_queues r r' -> rw_writers_waiting r' = rw_writers_waiting r.
Proof. intros (H1 & _ & H3 & H4). unfold rw_writers_waiting. by rewrite H1, H3, H4. Qed.

Lemma rw_on_cpu t a r r' e e' w :
  on_cpu t (put a r e w) -> calm e e' -> rw_same_queues r r' -> on_cpu t (put a r' e' w).
Proof.
  intros Hon Hc Hs. apply (on_cpu_calm t (put a r e w)); [done|by rewrite !w_eng_put|].
  intros sl. destruct (decide (sl = SlReaders a)) as [->|H1].
  { rewrite !rw_slot_readers. destruct Hs as (-> & -> & _). done. }
  destruct (decide (sl = SlWriters a)) as [->|H2].
  { rewrite !rw_slot_writers, (rw_same_waiting _ _ Hs). destruct Hs as (_ & _ & -> & _). done. }
  by rewrite !rw_slot_other.
Qed.

(** Both lists exist. *)
Definition rw_ready r : Prop := rw_wlist_readers r <> 0 /\ rw_wlist_writers r <> 0.

Lemma rw_waiting_eq t a r e w :
  on_cpu t (put a r e w) ->
  rw_writers_waiting r = rw_nr_writers_queued r /\
  (rw_wlist_readers r = 0 <-> rw_wlist_writers r = 0) /\
  (rw_wlist_readers r = 0 -> rw_nr_readers_queued r = 0 /\ rw_nr_writers_queued r = 0) /\
  0 <= rw_nr_readers_queued r <= KLEE_MAX_THREADS /\ 0 <= rw_nr_writers_queued r <= KLEE_MAX_THREADS.
Proof.
  intros Hon. pose proof (wl_inv_count_bound _ _ _ _ (cpu_inv _ _ Hon) (rw_slot_readers a r e w)) as H1.
  pose proof (wl_inv_count_bound _ _ _ _ (cpu_inv _ _ Hon) (rw_slot_writers a r e w)) as H2.
  pose proof (wl_slots _ (cpu_inv _ _ Hon) _ _ _ (rw_slot_readers a r e w)) as H3.
  pose proof (wl_slots _ (cpu_inv _ _ Hon) _ _ _ (rw_slot_writers a r e w)) as H4.
  unfold slot_ok, rw_writers_waiting in *.
  destruct (Z.eqb_spec (rw_wlist_readers r) 0), (Z.eqb_spec (rw_wlist_writers r) 0); simpl in *; try lia.
  destruct H3 as [[_ [?|[= ->]]]|[? _]], H4 as [[_ [?|[= ->]]]|[? _]]; done.
Qed.
(** [rwlock_check_init] gives the lock its lists and changes nothing else. *)
Lemma rwlock_check_init_run t w a r :
  on_cpu t w -> w_rwlocks w !! a = Some r ->
  exists r' e', rwlock_check_init a w = Done tt (put a r' e' w) /\
    on_cpu t (put a r' e' w) /\ rw_ready r' /\ calm (w_eng w) e' /\
    (rw_wlist_readers r <> 0 -> r' = r) /\
    exists x y, r' = rw_set_wlist_writers y (rw_set_wlist_readers x r).
Proof.
  intros Hon Hr. pose proof (put_self (T := pthread_rwlock_t) a r w Hr) as Hw.
  set (e1 := klee_set_option KLEE_OPTION_BRANCH_COUNTER_ENABLED 0 (w_eng w)).
  assert (quiet (w_eng w) e1) as Hq1 by apply law_set_option.
  assert (on_cpu t (put a r (w_eng w) w)) as Hon0 by (by rewrite Hw).
  destruct (rw_waiting_eq t a r _ w Hon0) as (Hweq & Hpair & Hzero & _).
  assert (rwlock_check_init a w = rwlock_check_init a (put a r (w_eng w) w)) as -> by (by rewrite Hw).
  unfold rwlock_check_init, startInternal, endInternal. kstep. kstep.
  unfold should_init_symbolic, DISABLE_KLEE_SYNC_INVARIANTS. rewrite bind_ret. cbn beta iota.
  destruct (Z.eqb_spec (rw_wlist_readers r) 0) as [Hz|Hnz].
  - destruct (Hzero Hz) as [Hqr Hqw].
    pose proof (calm_wf _ _ (quiet_calm _ _ Hq1) (wl_wf w (cpu_inv _ _ Hon))) as Hwf1.
    destruct (law_get_wlist e1 Hwf1) as (Hwf2 & Hx & _).
    destruct (law_get_wlist (klee_get_wlist e1).2 Hwf2) as (_ & Hy & _).
    set (e2 := (klee_get_wlist e1).2) in *. set (x := (klee_get_wlist e1).1) in *.
    set (e3 := (klee_get_wlist e2).2) in *. set (y := (klee_get_wlist e2).1) in *.
    assert (calm (w_eng w) e3) as Hc3.
    { etrans; [apply quiet_calm, Hq1|]. etrans; [by apply get_wlist_calm|]. by apply get_wlist_calm. }
    exists (rw_set_wlist_writers y (rw_set_wlist_readers x r)),
      (klee_set_option KLEE_OPTION_BRANCH_COUNTER_ENABLED 1 e3).
    split; [|split; [|split; [|split; [|split; [done|by exists x, y]]]]].
    + erewrite bind_done; [apply tell_put|]. krun. rewrite law_is_symbolic, Hz. simpl. by krun.
    + eapply (rw_on_cpu t a _ _ e3); [|apply quiet_calm, law_set_option|done].
      eapply (on_cpu_fresh2 t w _ (SlReaders a) (SlWriters a) (Some 0) (Some 0) e1);
        [done|by apply quiet_calm|done|by rewrite w_eng_put| | |by right| |by right].
      * intros sl H1 H2. by apply rw_slot_other.
      * rewrite rw_slot_readers. simpl. by rewrite Hqr.
      * rewrite rw_slot_writers. unfold rw_writers_waiting; simpl.
        by rewrite (proj2 (Z.eqb_neq _ _) Hx), (proj2 (Z.eqb_neq _ _) Hy), Hqw.
    + by split.
    + etrans; [exact Hc3|apply quiet_calm, law_set_option].
  - assert (quiet (w_eng w) (klee_set_option KLEE_OPTION_BRANCH_COUNTER_ENABLED 1 e1)) as Hq
      by (etrans; [exact Hq1|apply law_set_option]).
    exists r, (klee_set_option KLEE_OPTION_BRANCH_COUNTER_ENABLED 1 e1).
    split; [|split; [|split; [|split; [by apply quiet_calm|split; [done|]]]]].
    + erewrite bind_done; [apply tell_put|]. krun.
      by rewrite law_is_symbolic, (proj2 (Z.eqb_neq _ _) Hnz).
    + eapply (rw_on_cpu t a r r (w_eng w)); [done|by apply quiet_calm|done].
    + split; [done|tauto].
    + exists (rw_wlist_readers r), (rw_wlist_writers r). by destruct r.
Qed.

Lemma rwlock_check_init_halt w a :
  w_rwlocks w !! a = None -> exists w', rwlock_check_init a w = Halt StopMemory w'.
Proof.
  intros Hv. unfold rwlock_check_init, startInternal. eexists.
  erewrite bind_done by reflexivity. eapply bind_halt, load_halt. done.
Qed.

Lemma rwlock_enter_reader_safe t a r e w :
  on_cpu t (put a r e w) ->
  exists res r' e', rwlock_enter_reader a (put a r e w) = Done res (put a r' e' w) /\
    on_cpu t (put a r' e' w).
Proof.
  intros Hon. unfold rwlock_enter_reader. krun. destruct (_ =? 0); krun.
  - eexists _, _, _. split; [reflexivity|]. by eapply rw_on_cpu.
  - eexists _, _, _. split; [reflexivity|]. eapply rw_on_cpu; [done|calm_tac|done].
Qed.

Lemma rwlock_enter_writer_safe t a r e w :
  on_cpu t (put a r e w) ->
  exists r' e', rwlock_enter_writer a (put a r e w) = Done 0 (put a r' e' w) /\
    on_cpu t (put a r' e' w) /\ rw_writer r' = 1 /\ rw_nr_readers r' = rw_nr_readers r /\
    rw_same_queues r r'.
Proof.
  intros Hon. unfold rwlock_enter_writer, __thread_make_hbnode. krun. destruct (negb _).
  - eexists _, _. erewrite bind_done; [|krun; reflexivity]. split; [reflexivity|].
    split; [|done]. eapply rw_on_cpu; [done|calm_tac|done].
  - eexists _, _. krun. split; [reflexivity|]. split; [|done]. eapply rw_on_cpu; [done|calm_tac|done].
Qed.
End RwLockRun.

(** ** Sleeping and waking *)

Section RwLockQueues.
Context {E U : Type} `{!KleeEngine E, !KleeView E, !KleeLaws E}.
Abbreviation W := (world E U).
Implicit Types (w : W) (e : E) (r : pthread_rwlock_t).

(** One more queued reader; the other slots keep their contents. *)
Lemma rw_put_readers_slots a r r' e e' w sl :
  sl <> SlReaders a -> rw_wlist_readers r' = rw_wlist_readers r ->
  rw_wlist_writers r' = rw_wlist_writers r -> rw_nr_writers_queued r' = rw_nr_writers_queued r ->
  slot_get (put a r' e' w) sl = slot_get (put a r e w) sl.
Proof.
  intros H1 Hr Hw Hq. destruct (decide (sl = SlWriters a)) as [->|H2].
  - rewrite !rw_slot_writers. unfold rw_writers_waiting. by rewrite Hr, Hw, Hq.
  - by rewrite !rw_slot_other.
Qed.

Lemma rw_put_writers_slots a r r' e e' w sl :
  sl <> SlWriters a -> rw_wlist_readers r' = rw_wlist_readers r ->
  rw_nr_readers_queued r' = rw_nr_readers_queued r ->
  slot_get (put a r' e' w) sl = slot_get (put a r e w) sl.
Proof.
  intros H1 Hr Hq. destruct (decide (sl = SlReaders a)) as [->|H2].
  - rewrite !rw_slot_readers. by rewrite Hr, Hq.
  - by rewrite !rw_slot_other.
Qed.

Lemma rw_sleep_reader t a r e w addr ty :
  on_cpu t (put a r e w) -> rw_ready r ->
  let q := rw_nr_readers_queued r + 1 in
  u32 q = q /\ q <> 0 /\
  wl_inv (put a (rw_set_nr_readers_queued q r) (klee_thread_sleep (rw_wlist_readers r) addr ty e) w).
Proof.
  intros Hon [Hnr Hnw]. destruct (rw_waiting_eq t a r e w Hon) as (_ & _ & _ & Hb & _).
  unfold KLEE_MAX_THREADS in Hb. split; [apply u32_succ; lia|]. split; [lia|].
  eapply (wl_inv_sleep (put a r e w) _ (SlReaders a) (rw_wlist_readers r) (Some (rw_nr_readers_queued r))
    (Some (rw_nr_readers_queued r + 1)) e addr ty);
    [apply Hon| | |by rewrite rw_slot_readers|done| | |by rewrite rw_slot_readers|].
  - rewrite w_eng_put. reflexivity.
  - rewrite (cpu_current _ _ Hon). apply Hon.
  - by rewrite w_eng_put.
  - intros sl Hsl. by apply rw_put_readers_slots.
  - intros c' [= <-]. eauto.
Qed.

Lemma rw_sleep_writer t a r e w addr ty :
  on_cpu t (put a r e w) -> rw_ready r ->
  let q := rw_nr_writers_queued r + 1 in
  u32 q = q /\ q <> 0 /\
  wl_inv (put a (rw_set_nr_writers_queued q r) (klee_thread_sleep (rw_wlist_writers r) addr ty e) w).
Proof.
  intros Hon [Hnr Hnw]. destruct (rw_waiting_eq t a r e w Hon) as (Hw & _ & _ & _ & Hb).
  unfold KLEE_MAX_THREADS in Hb. split; [apply u32_succ; lia|]. split; [lia|].
  eapply (wl_inv_sleep (put a r e w) _ (SlWriters a) (rw_wlist_writers r) (Some (rw_writers_waiting r))
    (Some (rw_nr_writers_queued r + 1)) e addr ty);
    [apply Hon| | |by rewrite rw_slot_writers|done| | | |].
  - rewrite w_eng_put. reflexivity.
  - rewrite (cpu_current _ _ Hon). apply Hon.
  - by rewrite w_eng_put.
  - intros sl Hsl. by apply rw_put_writers_slots.
  - rewrite rw_slot_writers. unfold rw_writers_waiting; simpl.
    apply Z.eqb_neq in Hnr, Hnw. by rewrite Hnr, Hnw.
  - intros c' [= <-]. exists (rw_writers_waiting r). by rewrite Hw.
Qed.

(** Whom [rwlock_notify] wakes. *)
Definition rw_woken r e r' e' : Prop :=
  if (rw_nr_readers r =? 0) && negb (rw_nr_writers_queued r =? 0) then
    rw_nr_writers_queued r' = rw_nr_writers_queued r - 1 /\
    rw_nr_readers_queued r' = rw_nr_readers_queued r /\
    one_woken (rw_wlist_writers r) e (rw_wlist_writers r) e'
  else if negb (rw_nr_readers_queued r =? 0) then
    rw_nr_readers_queued r' = 0 /\ rw_nr_writers_queued r' = rw_nr_writers_queued r /\
    eng_waiters e' (rw_wlist_readers r) = ∅
  else rw_same_queues r r' /\ e' = e.

Lemma rw_notify_writer t a r e w :
  on_cpu t (put a r e w) -> rw_nr_writers_queued r <> 0 ->
  let e' := klee_thread_notify (rw_wlist_writers r) (a + 8) (SyncOpType_to_Z SyncOpRwlock) 0 0 0
              (rw_nr_writers_queued r) 0 e in
  let r' := rw_set_nr_writers_queued (u32 (rw_nr_writers_queued r - 1)) r in
  u32 (rw_nr_writers_queued r - 1) = rw_nr_writers_queued r - 1 /\
  on_cpu t (put a r' e' w) /\ one_woken (rw_wlist_writers r) e (rw_wlist_writers r) e'.
Proof.
  intros Hon Hq. destruct (rw_waiting_eq t a r e w Hon) as (Hw & Hpair & Hz & Hbr & Hb).
  unfold KLEE_MAX_THREADS in Hb. simpl. rewrite u32_pred by lia. split; [done|].
  pose proof (rw_slot_writers a r e w) as Hslot. rewrite Hw in Hslot.
  assert (rw_wlist_readers r <> 0) as Hnr by (intros H0; destruct (Hz H0); lia).
  assert (rw_wlist_writers r <> 0) as Hnz by tauto.
  split.
  - eapply (on_cpu_notify_one t (put a r e w) _ (SlWriters a)); [done| |exact Hslot|done|lia| | |].
    + rewrite w_eng_put. reflexivity.
    + by rewrite w_eng_put.
    + intros sl Hsl. by apply rw_put_writers_slots.
    + rewrite rw_slot_writers. unfold rw_writers_waiting; simpl. apply Z.eqb_neq in Hnr, Hnz. by rewrite Hnr, Hnz.
  - destruct (wl_slots _ (cpu_inv _ _ Hon) _ _ _ Hslot) as [[? _]|(_ & _ & Hc)]; [done|].
    specialize (Hc _ eq_refl). rewrite w_eng_put in Hc.
    pose proof (wl_wf _ (cpu_inv _ _ Hon)) as Hwf. rewrite w_eng_put in Hwf.
    destruct (law_notify e (rw_wlist_writers r) (a + 8) (SyncOpType_to_Z SyncOpRwlock) 0 0 0 _ 0 Hwf (or_intror Hc))
      as (_ & _ & _ & _ & Hone & _). apply Hone; [done|].
    intros Hemp. rewrite Hemp, size_empty in Hc. lia.
Qed.

Lemma rw_notify_readers t a r e w :
  on_cpu t (put a r e w) -> rw_nr_readers_queued r <> 0 ->
  let e' := klee_thread_notify (rw_wlist_readers r) a (SyncOpType_to_Z SyncOpRwlock) 1 0 0
              (rw_nr_readers_queued r) 0 e in
  on_cpu t (put a (rw_set_nr_readers_queued 0 r) e' w) /\ eng_waiters e' (rw_wlist_readers r) = ∅.
Proof.
  intros Hon Hq. destruct (rw_waiting_eq t a r e w Hon) as (_ & _ & Hz & _).
  assert (rw_wlist_readers r <> 0) as Hnr by (intros H0; destruct (Hz H0); lia). simpl.
  pose proof (rw_slot_readers a r e w) as Hslot. split.
  - eapply (on_cpu_notify_all t (put a r e w) _ (SlReaders a) (rw_wlist_readers r) (Some (rw_nr_readers_queued r))
    (Some 0) e a (SyncOpType_to_Z SyncOpRwlock) 1 0 0 (rw_nr_readers_queued r) 0);
    [done| |exact Hslot|done|done|by right| | |by rewrite rw_slot_readers|by right].
    + rewrite w_eng_put. reflexivity.
    + by rewrite w_eng_put.
    + intros sl Hsl. by apply rw_put_readers_slots.
  - destruct (wl_slots _ (cpu_inv _ _ Hon) _ _ _ Hslot) as [[? _]|(_ & _ & Hc)]; [done|].
    specialize (Hc _ eq_refl). rewrite w_eng_put in Hc.
    pose proof (wl_wf _ (cpu_inv _ _ Hon)) as Hwf. rewrite w_eng_put in Hwf.
    destruct (law_notify e (rw_wlist_readers r) a (SyncOpType_to_Z SyncOpRwlock) 1 0 0 _ 0 Hwf (or_intror Hc))
      as (_ & _ & Hv & _). by apply Hv.
Qed.

Lemma rwlock_notify_run t a r e w :
  on_cpu t (put a r e w) ->
  exists r' e', rwlock_notify a (put a r e w) = Done tt (put a r' e' w) /\ on_cpu t (put a r' e' w) /\
    rw_writer r' = rw_writer r /\ rw_nr_readers r' = rw_nr_readers r /\ rw_woken r e r' e'.
Proof.
  intros Hon. unfold rwlock_notify, rw_woken. krun.
  destruct (_ && _) eqn:Hc1; [|destruct (negb (rw_nr_readers_queued r =? 0)) eqn:Hc2].
  - apply andb_prop in Hc1 as [_ Hq%negb_true_iff%Z.eqb_neq].
    destruct (rw_notify_writer t a r e w Hon Hq) as (Hu & Hon' & Hone).
    unfold __thread_notify_one_with_expected. krun. eexists _, _. split; [reflexivity|]. done.
  - apply negb_true_iff, Z.eqb_neq in Hc2. destruct (rw_notify_readers t a r e w Hon Hc2) as (Hon' & Hemp).
    unfold __thread_notify_all_with_expected. krun. eexists _, _. split; [reflexivity|]. done.
  - by eexists _, _.
Qed.
End RwLockQueues.

(** ** The operations *)

Section RwLockSpec.
Context {E U : Type} `{!KleeEngine E, !KleeView E, !KleeLaws E}.
Abbreviation W := (world E U).
Implicit Types (w : W) (e : E) (r : pthread_rwlock_t).

Definition rd_blocked r : bool := negb (rw_writer r =? 0) || negb (rw_nr_writers_queued r =? 0).
Definition wr_blocked r : bool := negb (rw_writer r =? 0) || negb (rw_nr_readers r =? 0).

(** The lock without its list ids. *)
Definition rw_same_state r r' : Prop := exists x y, r' = rw_set_wlist_writers y (rw_set_wlist_readers x r).

Lemma rdlock_cases t w a r try :
  on_cpu t w -> w_rwlocks w !! a = Some r ->
  exists r1 e1, on_cpu t (put a r1 e1 w) /\ rw_ready r1 /\ rw_same_state r r1 /\
  atomic_rwlock_rdlock a try w =
    if rd_blocked r then
      if try then Done EBUSY (put a r1 e1 w)
      else Sleep (rw_wlist_readers r1)
             (put a (rw_set_nr_readers_queued (rw_nr_readers_queued r + 1) r1)
                (klee_thread_sleep (rw_wlist_readers r1) a (SyncOpType_to_Z SyncOpRwlock) e1) w)
             (fun w' => (rwlock_check_init a;; rwlock_enter_reader a) w')
    else rwlock_enter_reader a (put a r1 e1 w).
Proof.
  intros Hon Hr. destruct (rwlock_check_init_run t w a r Hon Hr) as (r1 & e1 & Hrun & Hon1 & Hrd & _ & _ & Hs).
  exists r1, e1. split; [done|]. split; [done|]. split; [done|].
  destruct (rw_sleep_reader t a r1 e1 w a (SyncOpType_to_Z SyncOpRwlock) Hon1 Hrd) as (Hu & Hq & _).
  unfold atomic_rwlock_rdlock. rewrite (bind_done _ _ _ _ _ Hrun). kstep.
  destruct Hs as (x & y & ->). unfold rd_blocked. fields. destruct (_ || _); [|done]. destruct try; [done|].
  krun. revert Hu Hq. fields. intros Hu Hq. rewrite Hu, (proj2 (Z.eqb_neq _ _) Hq).
  unfold mbind at 1, M_bind at 1. rewrite sleep_put. done.
Qed.

Lemma wrlock_cases t w a r try :
  on_cpu t w -> w_rwlocks w !! a = Some r ->
  exists r1 e1, on_cpu t (put a r1 e1 w) /\ rw_ready r1 /\ rw_same_state r r1 /\
  atomic_rwlock_wrlock a try w =
    if wr_blocked r then
      if try then Done EBUSY (put a r1 e1 w)
      else Sleep (rw_wlist_writers r1)
             (put a (rw_set_nr_writers_queued (rw_nr_writers_queued r + 1) r1)
                (klee_thread_sleep (rw_wlist_writers r1) (a + 8) (SyncOpType_to_Z SyncOpRwlock) e1) w)
             (fun w' => (rwlock_check_init a;; rwlock_enter_writer a) w')
    else rwlock_enter_writer a (put a r1 e1 w).
Proof.
  intros Hon Hr. destruct (rwlock_check_init_run t w a r Hon Hr) as (r1 & e1 & Hrun & Hon1 & Hrd & _ & _ & Hs).
  exists r1, e1. split; [done|]. split; [done|]. split; [done|].
  destruct (rw_sleep_writer t a r1 e1 w (a + 8) (SyncOpType_to_Z SyncOpRwlock) Hon1 Hrd) as (Hu & Hq & _).
  unfold atomic_rwlock_wrlock. rewrite (bind_done _ _ _ _ _ Hrun). kstep.
  destruct Hs as (x & y & ->). unfold wr_blocked. fields. destruct (_ || _); [|done]. destruct try; [done|].
  krun. revert Hu Hq. fields. intros Hu Hq. rewrite Hu, (proj2 (Z.eqb_neq _ _) Hq).
  unfold mbind at 1, M_bind at 1. rewrite sleep_put. done.
Qed.

(** A woken thread enters the lock. *)
Lemma rwlock_wakeup_safe t a (enter : Z -> M W Z) w :
  (forall r e w', on_cpu t (put a r e w') -> exists res r' e',
     enter a (put a r e w') = Done res (put a r' e' w') /\ on_cpu t (put a r' e' w')) ->
  on_cpu t w -> always t wl_inv (fun _ w' => on_cpu t w') ((rwlock_check_init a;; enter a) w).
Proof.
  intros Henter Hon. destruct (w_rwlocks w !! a) as [r|] eqn:Hr.
  - destruct (rwlock_check_init_run t w a r Hon Hr) as (r1 & e1 & Hrun & Hon1 & _).
    rewrite (bind_done _ _ _ _ _ Hrun). destruct (Henter r1 e1 w Hon1) as (res & r' & e' & -> & H). done.
  - destruct (rwlock_check_init_halt w a Hr) as [w' Hh]. by rewrite (bind_halt _ _ _ _ _ Hh).
Qed.

Lemma atomic_rwlock_rdlock_safe t a try w :
  on_cpu t w -> always t wl_inv (fun _ w' => on_cpu t w') (atomic_rwlock_rdlock a try w).
Proof.
  intros Hon. destruct (w_rwlocks w !! a) as [r|] eqn:Hr.
  2:{ unfold atomic_rwlock_rdlock. destruct (rwlock_check_init_halt w a Hr) as [w' Hh].
      by rewrite (bind_halt _ _ _ _ _ Hh). }
  destruct (rdlock_cases t w a r try Hon Hr) as (r1 & e1 & Hon1 & Hrd & (x & y & ->) & ->).
  destruct (rd_blocked r); [destruct try; [done|]|].
  - split; [by apply (rw_sleep_reader t a _ e1 w a (SyncOpType_to_Z SyncOpRwlock) Hon1 Hrd)|].
    intros w' Hinv Hrun. apply rwlock_wakeup_safe; [apply rwlock_enter_reader_safe|].
    apply on_cpu_enter; [by eapply on_cpu_tid|done|done].
  - by destruct (rwlock_enter_reader_safe t a _ _ _ Hon1) as (res & r' & e' & -> & H).
Qed.

Lemma atomic_rwlock_wrlock_safe t a try w :
  on_cpu t w -> always t wl_inv (fun _ w' => on_cpu t w') (atomic_rwlock_wrlock a try w).
Proof.
  intros Hon. destruct (w_rwlocks w !! a) as [r|] eqn:Hr.
  2:{ unfold atomic_rwlock_wrlock. destruct (rwlock_check_init_halt w a Hr) as [w' Hh].
      by rewrite (bind_halt _ _ _ _ _ Hh). }
  destruct (wrlock_cases t w a r try Hon Hr) as (r1 & e1 & Hon1 & Hrd & (x & y & ->) & ->).
  destruct (wr_blocked r); [destruct try; [done|]|].
  - split; [by apply (rw_sleep_writer t a _ e1 w (a + 8) (SyncOpType_to_Z SyncOpRwlock) Hon1 Hrd)|].
    intros w' Hinv Hrun. apply rwlock_wakeup_safe.
    + intros r' e' w'' H. destruct (rwlock_enter_writer_safe t a _ _ _ H) as (r2 & e2 & -> & H2 & _). eauto.
    + apply on_cpu_enter; [by eapply on_cpu_tid|done|done].
  - by destruct (rwlock_enter_writer_safe t a _ _ _ Hon1) as (r' & e' & -> & H & _).
Qed.

Lemma rwlock_release_run t a r e w :
  on_cpu t (put a r e w) ->
  exists r' e', rwlock_release a (put a r e w) = Done tt (put a r' e' w) /\ on_cpu t (put a r' e' w) /\
    rw_same_queues r r' /\ calm e e' /\
    if rw_writer r =? 0 then rw_writer r' = 0 /\ rw_nr_readers r' = u32 (rw_nr_readers r - 1)
    else rw_writer r' = 0 /\ rw_nr_readers r' = rw_nr_readers r.
Proof.
  intros Hon. unfold rwlock_release, __thread_make_hbnode. krun.
  destruct (Z.eqb_spec (rw_writer r) 0) as [Hw|Hw]; simpl.
  - krun. fields. destruct (rw_last_reader_hbgroup r =? 0).
    + krun. eexists _, _. split; [reflexivity|]. split; [eapply rw_on_cpu; [done|calm_tac|done]|].
      split; [done|]. split; [calm_tac|done].
    + krun. eexists _, _. split; [reflexivity|]. split; [eapply rw_on_cpu; [done|calm_tac|done]|].
      split; [done|]. split; [calm_tac|done].
  - krun. eexists _, _. split; [reflexivity|]. split; [eapply rw_on_cpu; [done|calm_tac|done]|].
    split; [done|]. split; [calm_tac|done].
Qed.

Lemma atomic_rwlock_unlock_run t w a r :
  on_cpu t w -> w_rwlocks w !! a = Some r ->
  if (rw_writer r =? 0) && (rw_nr_readers r =? 0) then atomic_rwlock_unlock a w = Done EPERM w
  else exists r1 e1 r' e', atomic_rwlock_unlock a w = Done 0 (put a r' e' w) /\ on_cpu t (put a r' e' w) /\
    rw_same_queues r r1 /\ calm (w_eng w) e1 /\ rw_woken r1 e1 r' e' /\
    rw_writer r' = 0 /\ rw_nr_readers r' = rw_nr_readers r1 /\
    rw_nr_readers r1 = if rw_writer r =? 0 then u32 (rw_nr_readers r - 1) else rw_nr_readers r.
Proof.
  intros Hon Hr. pose proof (put_self (T := pthread_rwlock_t) a r w Hr) as Hw.
  assert (on_cpu t (put a r (w_eng w) w)) as Hon0 by (by rewrite Hw).
  assert (atomic_rwlock_unlock a w = atomic_rwlock_unlock a (put a r (w_eng w) w)) as -> by (by rewrite Hw).
  unfold atomic_rwlock_unlock. kstep. destruct (_ && _); [by rewrite Hw|].
  destruct (rwlock_release_run t a r (w_eng w) w Hon0) as (r1 & e1 & Hrel & Hon1 & Hsq & Hc1 & Hst).
  destruct (rwlock_notify_run t a r1 e1 w Hon1) as (r' & e' & Hnot & Hon' & Hwr & Hrd & Hwk).
  rewrite (bind_done _ _ _ _ _ Hrel), (bind_done _ _ _ _ _ Hnot).
  exists r1, e1, r', e'. rewrite Hwr, Hrd. destruct (rw_writer r =? 0); destruct Hst as [Hst1 Hst2];
    do 7 (split; [first [reflexivity|assumption]|]); assumption.
Qed.

Lemma atomic_rwlock_unlock_safe t a w :
  on_cpu t w -> always t wl_inv (fun _ w' => on_cpu t w') (atomic_rwlock_unlock a w).
Proof.
  intros Hon. destruct (w_rwlocks w !! a) as [r|] eqn:Hr.
  - pose proof (atomic_rwlock_unlock_run t w a r Hon Hr) as H. destruct (_ && _); [by rewrite H|].
    by destruct H as (r1 & e1 & r' & e' & -> & Hon' & _).
  - unfold atomic_rwlock_unlock. erewrite bind_halt; [done|]. by apply load_halt.
Qed.

Lemma pthread_rwlock_init_safe t a attr w :
  on_cpu t w -> always t wl_inv (fun _ w' => on_cpu t w') (pthread_rwlock_init a attr w).
Proof.
  intros Hon. unfold pthread_rwlock_init. apply always_mbind. unfold rwlock_init.
  destruct (w_rwlocks w !! a) as [r|] eqn:Hr.
  - pose proof (put_self (T := pthread_rwlock_t) a r w Hr) as Hw. rewrite <- Hw. krun. simpl.
    pose proof (wl_wf _ (cpu_inv _ _ Hon)) as Hwf.
    destruct (law_get_wlist (w_eng w) Hwf) as (Hwf2 & Hx & _).
    destruct (law_get_wlist _ Hwf2) as (_ & Hy & _).
    eapply (on_cpu_fresh2 t w _ (SlReaders a) (SlWriters a) (Some 0) (Some 0) (w_eng w));
      [done|reflexivity|done|by rewrite w_eng_put| |by rewrite rw_slot_readers|by right| |by right].
    + intros sl H1 H2. by apply rw_slot_other.
    + rewrite rw_slot_writers. unfold rw_writers_waiting; simpl.
      by rewrite (proj2 (Z.eqb_neq _ _) Hx), (proj2 (Z.eqb_neq _ _) Hy).
  - erewrite bind_done by reflexivity. unfold modify at 1.
    erewrite bind_halt; [done|]. eapply bind_halt, load_halt. done.
Qed.

Lemma pthread_rwlock_lock_safe t a w (c : M W Z) :
  c = pthread_rwlock_rdlock a \/ c = pthread_rwlock_tryrdlock a \/ c = pthread_rwlock_wrlock a \/
    c = pthread_rwlock_trywrlock a \/ c = pthread_rwlock_unlock a ->
  on_cpu t w -> always t wl_inv (fun _ w' => on_cpu t w') (c w).
Proof.
  intros [->|[->|[->|[->| ->]]]] Hon; apply always_mbind; (eapply always_mono;
    [|first [by apply atomic_rwlock_rdlock_safe|by apply atomic_rwlock_wrlock_safe|by apply atomic_rwlock_unlock_safe]]);
    intros; by apply finish_if_ok_safe.
Qed.
End RwLockSpec.

(** ** Properties *)

Section RwLockProps.
Context {E U : Type} `{!KleeEngine E, !KleeView E, !KleeLaws E}.
Abbreviation W := (world E U).
Implicit Types (w : W) (e : E) (r : pthread_rwlock_t).

Lemma lookup_put_rwlock a r e w : w_rwlocks (put a r e w) !! a = Some r.
Proof. exact (lookup_put (T := pthread_rwlock_t) a r e w). Qed.

(** The state of the lock after the call: readers, writer, queued readers and
    queued writers. *)
Definition rw_holds a w (readers writer rq wq : Z) : Prop :=
  exists r, w_rwlocks w !! a = Some r /\ rw_nr_readers r = readers /\ rw_writer r = writer /\
    rw_nr_readers_queued r = rq /\ rw_nr_writers_queued r = wq.

Lemma rwlock_enter_reader_run a r e w :
  0 <= rw_nr_readers r < 2 ^ 32 ->
  if rw_nr_readers r =? 2 ^ 32 - 1
  then rwlock_enter_reader a (put a r e w) = Done EAGAIN (put a r e w)
  else exists e', rwlock_enter_reader a (put a r e w) =
         Done 0 (put a (rw_set_nr_readers (rw_nr_readers r + 1) r) e' w).
Proof.
  intros Hb. unfold rwlock_enter_reader. krun. destruct (Z.eqb_spec (rw_nr_readers r) (2 ^ 32 - 1)) as [Hr|Hne].
  - rewrite Hr. change (u32 (2 ^ 32 - 1 + 1) =? 0) with true. krun.
    change (u32 (u32 (2 ^ 32 - 1 + 1) - 1)) with (2 ^ 32 - 1). rewrite <- Hr.
    kstep. f_equal. f_equal. by destruct r.
  - rewrite u32_succ by lia. rewrite (proj2 (Z.eqb_neq (rw_nr_readers r + 1) 0)) by lia. krun. by eexists.
Qed.

(** A read lock is granted at once if nobody writes or waits to write: the
    number of readers goes up by one ([EAGAIN], and no change, if the
    counter is full); otherwise [tryrdlock] returns [EBUSY] and [rdlock]
    joins the list of readers. *)
Theorem pthread_rwlock_rdlock_spec t w a r :
  on_cpu t w -> w_rwlocks w !! a = Some r -> 0 <= rw_nr_readers r < 2 ^ 32 ->
  let st := rw_holds a in
  if rd_blocked r then
    (exists w', pthread_rwlock_tryrdlock a w = Done EBUSY w' /\
       st w' (rw_nr_readers r) (rw_writer r) (rw_nr_readers_queued r) (rw_nr_writers_queued r)) /\
    (exists wl w' k, pthread_rwlock_rdlock a w = Sleep wl w' k /\ wl_inv w' /\
       st w' (rw_nr_readers r) (rw_writer r) (rw_nr_readers_queued r + 1) (rw_nr_writers_queued r))
  else if rw_nr_readers r =? 2 ^ 32 - 1 then
    exists w', pthread_rwlock_rdlock a w = Done EAGAIN w' /\
       st w' (rw_nr_readers r) 0 (rw_nr_readers_queued r) 0
  else
    exists w', pthread_rwlock_rdlock a w = Preempt 0 w' (fun w'' => Done 0 w'') /\ on_cpu t w' /\
       st w' (rw_nr_readers r + 1) 0 (rw_nr_readers_queued r) 0.
Proof.
  intros Hon Hr Hb st. destruct (rd_blocked r) eqn:Hbl.
  - split.
    + destruct (rdlock_cases t w a r true Hon Hr) as (r1 & e1 & _ & _ & (x & y & ->) & Hc).
      rewrite Hbl in Hc. unfold pthread_rwlock_tryrdlock. rewrite (bind_done _ _ _ _ _ Hc).
      eexists. split; [reflexivity|]. eexists. split; [apply lookup_put_rwlock|done].
    + destruct (rdlock_cases t w a r false Hon Hr) as (r1 & e1 & Hon1 & Hrd & (x & y & ->) & Hc).
      rewrite Hbl in Hc. unfold pthread_rwlock_rdlock, mbind, M_bind. rewrite Hc. cbn [out_bind].
      eexists _, _, _. split; [reflexivity|].
      split; [by apply (rw_sleep_reader t a _ e1 w a (SyncOpType_to_Z SyncOpRwlock) Hon1 Hrd)|].
      eexists. split; [apply lookup_put_rwlock|done].
  - destruct (rdlock_cases t w a r false Hon Hr) as (r1 & e1 & Hon1 & Hrd & (x & y & ->) & Hc).
    rewrite Hbl in Hc. apply orb_false_iff in Hbl as [Hw%negb_false_iff%Z.eqb_eq Hq%negb_false_iff%Z.eqb_eq].
    pose proof (atomic_rwlock_rdlock_safe t a false w Hon) as Hsafe.
    pose proof (rwlock_enter_reader_run a (rw_set_wlist_writers y (rw_set_wlist_readers x r)) e1 w Hb) as Hen.
    change (rw_nr_readers (rw_set_wlist_writers y (rw_set_wlist_readers x r))) with (rw_nr_readers r) in Hen.
    destruct (rw_nr_readers r =? 2 ^ 32 - 1).
    + unfold pthread_rwlock_rdlock. rewrite Hen in Hc. rewrite (bind_done _ _ _ _ _ Hc).
      eexists. split; [reflexivity|]. eexists. split; [apply lookup_put_rwlock|done].
    + destruct Hen as [e' Hen]. rewrite Hen in Hc. rewrite Hc in Hsafe.
      unfold pthread_rwlock_rdlock. rewrite (bind_done _ _ _ _ _ Hc).
      eexists. split; [reflexivity|]. split; [exact Hsafe|]. eexists. split; [apply lookup_put_rwlock|done].
Qed.

(** A write lock is granted at once if nobody holds the lock; otherwise
    [trywrlock] returns [EBUSY] and [wrlock] joins the list of writers. *)
Theorem pthread_rwlock_wrlock_spec t w a r :
  on_cpu t w -> w_rwlocks w !! a = Some r ->
  let st := rw_holds a in
  if wr_blocked r then
    (exists w', pthread_rwlock_trywrlock a w = Done EBUSY w' /\
       st w' (rw_nr_readers r) (rw_writer r) (rw_nr_readers_queued r) (rw_nr_writers_queued r)) /\
    (exists wl w' k, pthread_rwlock_wrlock a w = Sleep wl w' k /\ wl_inv w' /\
       st w' (rw_nr_readers r) (rw_writer r) (rw_nr_readers_queued r) (rw_nr_writers_queued r + 1))
  else
    exists w', pthread_rwlock_wrlock a w = Preempt 0 w' (fun w'' => Done 0 w'') /\ on_cpu t w' /\
       st w' 0 1 (rw_nr_readers_queued r) (rw_nr_writers_queued r).
Proof.
  intros Hon Hr st. destruct (wr_blocked r) eqn:Hbl.
  - split.
    + destruct (wrlock_cases t w a r true Hon Hr) as (r1 & e1 & _ & _ & (x & y & ->) & Hc).
      rewrite Hbl in Hc. unfold pthread_rwlock_trywrlock. rewrite (bind_done _ _ _ _ _ Hc).
      eexists. split; [reflexivity|]. eexists. split; [apply lookup_put_rwlock|done].
    + destruct (wrlock_cases t w a r false Hon Hr) as (r1 & e1 & Hon1 & Hrd & (x & y & ->) & Hc).
      rewrite Hbl in Hc. unfold pthread_rwlock_wrlock, mbind, M_bind. rewrite Hc. cbn [out_bind].
      eexists _, _, _. split; [reflexivity|].
      split; [by apply (rw_sleep_writer t a _ e1 w (a + 8) (SyncOpType_to_Z SyncOpRwlock) Hon1 Hrd)|].
      eexists. split; [apply lookup_put_rwlock|done].
  - destruct (wrlock_cases t w a r false Hon Hr) as (r1 & e1 & Hon1 & Hrd & (x & y & ->) & Hc).
    rewrite Hbl in Hc. apply orb_false_iff in Hbl as [Hw%negb_false_iff%Z.eqb_eq Hq%negb_false_iff%Z.eqb_eq].
    destruct (rwlock_enter_writer_safe t a _ _ _ Hon1) as (r' & e' & Hen & Hon' & Hwr & Hnr & Hs).
    rewrite Hen in Hc. unfold pthread_rwlock_wrlock. rewrite (bind_done _ _ _ _ _ Hc).
    eexists. split; [reflexivity|]. split; [exact Hon'|]. eexists. split; [apply lookup_put_rwlock|].
    destruct Hs as (_ & Hs1 & _ & Hs2). rewrite Hwr, Hnr, Hs1, Hs2. done.
Qed.

(** C21: [pthread_rwlock_unlock] returns [EPERM] on a free lock.  Otherwise it
    gives up the write lock, or one read lock, and then wakes exactly one
    queued writer if no reader is left, else every queued reader, else
    nobody. *)
Theorem pthread_rwlock_unlock_spec t w a r :
  on_cpu t w -> w_rwlocks w !! a = Some r -> 0 <= rw_nr_readers r < 2 ^ 32 ->
  if (rw_writer r =? 0) && (rw_nr_readers r =? 0) then pthread_rwlock_unlock a w = Done EPERM w
  else
    let left := if rw_writer r =? 0 then rw_nr_readers r - 1 else rw_nr_readers r in
    exists w', pthread_rwlock_unlock a w = Preempt 0 w' (fun w'' => Done 0 w'') /\ on_cpu t w' /\
      if (left =? 0) && negb (rw_nr_writers_queued r =? 0) then
        rw_holds a w' left 0 (rw_nr_readers_queued r) (rw_nr_writers_queued r - 1) /\
        one_woken (rw_wlist_writers r) (w_eng w) (rw_wlist_writers r) (w_eng w')
      else if negb (rw_nr_readers_queued r =? 0) then
        rw_holds a w' left 0 0 (rw_nr_writers_queued r) /\
        eng_waiters (w_eng w') (rw_wlist_readers r) = ∅
      else rw_holds a w' left 0 (rw_nr_readers_queued r) (rw_nr_writers_queued r) /\
        forall x, eng_waiters (w_eng w') x = eng_waiters (w_eng w) x.
Proof.
  intros Hon Hr Hb. pose proof (atomic_rwlock_unlock_run t w a r Hon Hr) as H.
  destruct (_ && _) eqn:Hfree.
  { unfold pthread_rwlock_unlock. by rewrite (bind_done _ _ _ _ _ H). }
  destruct H as (r1 & e1 & r' & e' & Hrun & Hon' & (Hq1 & Hq2 & Hq3 & Hq4) & Hcalm & Hwk & Hwr & Hnr & Hn1).
  assert (rw_nr_readers r1 = if rw_writer r =? 0 then rw_nr_readers r - 1 else rw_nr_readers r) as Hleft.
  { rewrite Hn1. destruct (rw_writer r =? 0); [|done]. simpl in Hfree. apply Z.eqb_neq in Hfree.
    apply u32_small. lia. }
  cbv zeta. rewrite <- Hleft. eexists. unfold pthread_rwlock_unlock. rewrite (bind_done _ _ _ _ _ Hrun).
  split; [reflexivity|]. split; [exact Hon'|]. rewrite w_eng_put.
  unfold rw_woken in Hwk. rewrite Hq1, Hq2, Hq3, Hq4 in Hwk.
  destruct ((rw_nr_readers r1 =? 0) && _); [|destruct (negb _)].
  - destruct Hwk as (H1 & H2 & H3). split.
    + eexists. split; [apply lookup_put_rwlock|]. by rewrite Hwr, Hnr, H1, H2.
    + unfold one_woken in *. by rewrite (calm_waiters _ _ Hcalm) in H3.
  - destruct Hwk as (H1 & H2 & H3). split; [|done].
    eexists. split; [apply lookup_put_rwlock|]. by rewrite Hwr, Hnr, H1, H2.
  - destruct Hwk as ((_ & H1 & _ & H2) & ->). split.
    + eexists. split; [apply lookup_put_rwlock|]. by rewrite Hwr, Hnr, H1, H2, Hq2, Hq4.
    + intros x. apply Hcalm.
Qed.
End RwLockProps.

(** ** Witnesses, and a run with a reader and a writer inside *)

Lemma pthread_rwlock_rdlock_spec_witness :
  exists w', pthread_rwlock_rdlock 400 (demo_world PTHREAD_MUTEX_INITIALIZER tt) =
    Preempt 0 w' (fun w'' => Done 0 w'') /\ rw_holds 400 w' 1 0 0 0.
Proof.
  pose proof (pthread_rwlock_rdlock_spec 0 (demo_world PTHREAD_MUTEX_INITIALIZER tt) 400
    PTHREAD_RWLOCK_INITIALIZER (demo_on_cpu PTHREAD_MUTEX_INITIALIZER tt eq_refl eq_refl) eq_refl
    ltac:(vm_compute; split; congruence)) as H. hnf in H. destruct H as (w' & H1 & _ & H2).
  exists w'. split; [exact H1|exact H2].
Defined.

Lemma pthread_rwlock_wrlock_spec_witness :
  exists w', pthread_rwlock_wrlock 400 (demo_world PTHREAD_MUTEX_INITIALIZER tt) =
    Preempt 0 w' (fun w'' => Done 0 w'') /\ rw_holds 400 w' 0 1 0 0.
Proof.
  pose proof (pthread_rwlock_wrlock_spec 0 (demo_world PTHREAD_MUTEX_INITIALIZER tt) 400
    PTHREAD_RWLOCK_INITIALIZER (demo_on_cpu PTHREAD_MUTEX_INITIALIZER tt eq_refl eq_refl) eq_refl) as H.
  hnf in H. destruct H as (w' & H1 & _ & H2).
  exists w'. split; [exact H1|exact H2].
Defined.

Lemma pthread_rwlock_unlock_spec_witness :
  pthread_rwlock_unlock 400 (demo_world PTHREAD_MUTEX_INITIALIZER tt) =
    Done EPERM (demo_world PTHREAD_MUTEX_INITIALIZER tt).
Proof.
  exact (pthread_rwlock_unlock_spec 0 (demo_world PTHREAD_MUTEX_INITIALIZER tt) 400
    PTHREAD_RWLOCK_INITIALIZER (demo_on_cpu PTHREAD_MUTEX_INITIALIZER tt eq_refl eq_refl) eq_refl
    ltac:(vm_compute; split; congruence)).
Defined.

(** Thread 0 takes and gives up a read lock, 1 wants to write, 2 wants to read;
    each that gets in writes its name into the log and stays inside. *)
Definition rw_enter (lock : Z -> M (world sim (list Z)) Z) (t : Z) : M (world sim (list Z)) unit :=
  r ← lock 400;
  if r =? 0 then (l ← get_user; put_user (t :: l)) else mret tt.

Definition read_then_unlock : M (world sim (list Z)) unit :=
  pthread_rwlock_rdlock 400;; pthread_rwlock_unlock 400;; mret tt.

Definition rw_barging_pool : config (E := sim) (U := list Z) :=
  Config (demo_world PTHREAD_MUTEX_INITIALIZER [])
    {[0 := Suspended read_then_unlock; 1 := Suspended (rw_enter pthread_rwlock_wrlock 1);
      2 := Suspended (rw_enter pthread_rwlock_rdlock 2)]}.

(** The writer that [unlock] wakes does not check again that the lock is
    free: thread 0 reads, thread 1 queues for writing, thread 0 unlocks (waking
    thread 1), thread 2 gets a read lock before thread 1 runs again, and then
    thread 1 becomes the writer while thread 2 is still reading. *)
Theorem pthread_rwlock_wakeup_barging :
  exists c, rtc (pool_step (fun _ _ => False)) rw_barging_pool c /\
    (w_user (cf_world c), option_map (fun r => (rw_writer r, rw_nr_readers r)) (w_rwlocks (cf_world c) !! 400))
    = ([1; 2], Some (1, 1)).
Proof.
  apply (run_schedule_reaches _ [0; 1; 0; 2; 2; 1; 1] rw_barging_pool (fun c => (w_user (cf_world c),
    option_map (fun r => (rw_writer r, rw_nr_readers r)) (w_rwlocks (cf_world c) !! 400)))).
  vm_compute. reflexivity.
Qed.
