(* ===== verification/Semaphore.v ===== *)
(** * Semaphores ([runtime/POSIX/threadsync.c], lines 708-807)

    A semaphore counts no waiters; its list is created by [sem_init] and by
    nothing else, so in the store only initialized semaphores are present. *)

From stdpp Require Import base gmap list fin_maps relations.
From Stdlib Require Import ZArith Lia.
From S2P Require Import Prelude PthreadTypes Klee Interleave WaitLists SyncUtil SimEngine Demo.

Section SemOps.
Context {E U : Type} `{!KleeEngine E}.
Abbreviation W := (world E U).

Definition sem_init_symbolic (sem : Z) (unique : bool) : M W unit :=
  (if unique then modify sem (s_set_last_hbnode 0) else mret tt);;
  s ← load sem;
  klee_assume (s_count s <? SEM_VALUE_MAX).

(** [&sem->last_hbnode] is 8 bytes into the struct. *)
Definition sem_check_init (sem : Z) : M W unit :=
  startInternal;;
  s ← load sem;
  st ← should_init_symbolic SyncOpSem (sem + 8) (s_last_hbnode s);
  (match st with
   | AlreadyInit => mret tt
   | NeedsSymbolicInitAliased => sem_init_symbolic sem false
   | NeedsSymbolicInitUnique => sem_init_symbolic sem true
   end);;
  endInternal.

(** The end of [atomic_sem_down]. *)
Definition sem_take (sem hbnode : Z) : M W Z :=
  s ← load sem;
  modify sem (s_set_count (u32 (s_count s - 1)));;
  modify sem (s_set_last_hbnode hbnode);;
  mret 0.

(** What a woken waiter does. *)
Definition sem_wakeup (sem : Z) : M W Z :=
  sem_check_init sem;;
  hbnode ← ask klee_last_hbnode;
  sem_take sem hbnode.

Definition atomic_sem_down (sem : Z) (try : bool) : M W Z :=
  sem_check_init sem;;
  s ← load sem;
  hbnode ← __thread_make_hbnode_from (s_last_hbnode s);
  s ← load sem;
  if s_count s =? 0 then
    if try then set_errno EAGAIN;; mret (-1)
    else
      __thread_sleep (s_wlist s) sem SyncOpSem;;
      sem_wakeup sem
  else sem_take sem hbnode.

Definition atomic_sem_up (sem : Z) : M W Z :=
  sem_check_init sem;;
  s ← load sem;
  modify sem (s_set_count (u32 (s_count s + 1)));;
  s ← load sem;
  n ← __thread_make_hbnode_from (s_last_hbnode s);
  modify sem (s_set_last_hbnode n);;
  s ← load sem;
  __thread_notify_one (s_wlist s) sem SyncOpSem;;
  mret 0.

(** The three assignments of [sem_init]; every field is written, so the
    previous contents of the memory do not matter. *)
Definition sem_assign (sem : Z) (s : sem_t) : M W unit := fun w =>
  Done tt (heap_set (<[sem := s]> (heap_get w)) w).

Definition sem_init (sem pshared value : Z) : M W Z :=
  if SEM_VALUE_MAX <? u32 value then set_errno EINVAL;; mret (-1)
  else
    wl ← call klee_get_wlist;
    sem_assign sem (Sem wl 0 (u32 value));;
    mret 0.

Definition sem_destroy (sem : Z) : M W Z := mret 0.
Definition sem_wait (sem : Z) : M W Z := res ← atomic_sem_down sem false; finish_if_ok res.
Definition sem_trywait (sem : Z) : M W Z := res ← atomic_sem_down sem true; finish_if_ok res.
Definition sem_post (sem : Z) : M W Z :=
  res ← atomic_sem_up sem;
  __thread_preempt (if ENABLE_KLEE_PTHREAD_ALWAYS_PREEMPT_UNLOCK then 1 else 0);;
  mret res.
End SemOps.

Section SemRun.
Context {E U : Type} `{!KleeEngine E, !KleeView E, !KleeLaws E}.
Abbreviation W := (world E U).
Implicit Types (w : W) (e : E) (s : sem_t).

Lemma sem_check_init_run t w a s :
  on_cpu t w -> w_sems w !! a = Some s ->
  exists e', sem_check_init a w = Done tt (put a s e' w) /\ on_cpu t (put a s e' w) /\
    calm (w_eng w) e' /\ s_wlist s <> 0.
Proof.
  intros Hon Hs0. assert (heap_get w !! a = Some s) as Hs by exact Hs0.
  pose proof (put_self a s w Hs) as Hw.
  assert (sem_check_init a w = sem_check_init a (put a s (w_eng w) w)) as -> by (by rewrite Hw).
  unfold sem_check_init, startInternal, endInternal, should_init_symbolic, DISABLE_KLEE_SYNC_INVARIANTS.
  krun. eexists. split; [reflexivity|]. split; [|split; [calm_tac|]].
  - eapply on_cpu_put; [done|exact Hs|calm_tac|done|done].
  - intros H0. destruct (wl_slots w (cpu_inv _ _ Hon) _ _ _ (q_slot_get w a s Hs)) as [[_ H]|[? _]]; [|done].
    simpl in H. unfold must_exist in H. rewrite H0 in H. by destruct H.
Qed.

Lemma sem_check_init_halt w a :
  w_sems w !! a = None -> exists w', sem_check_init a w = Halt StopMemory w'.
Proof.
  intros Hv. unfold sem_check_init, startInternal. eexists.
  erewrite bind_done by reflexivity. eapply bind_halt, load_halt. done.
Qed.

(** Changing the count and the node of a semaphore. *)
Lemma sem_on_cpu t a s s' e e' w :
  on_cpu t (put a s e w) -> calm e e' -> s_wlist s' = s_wlist s -> on_cpu t (put a s' e' w).
Proof.
  intros Hon Hc Hwl. rewrite <- (put_put _ _ s _ e).
  eapply on_cpu_put; [exact Hon|apply lookup_put|by rewrite w_eng_put|done|simpl; by rewrite Hwl].
Qed.

Lemma sem_take_run a s e w hbnode :
  sem_take a hbnode (put a s e w) = Done 0 (put a (Sem (s_wlist s) hbnode (u32 (s_count s - 1))) e w).
Proof. unfold sem_take. by krun. Qed.

Lemma sem_wakeup_safe t a w :
  on_cpu t w -> always t wl_inv (fun _ w' => on_cpu t w') (sem_wakeup a w).
Proof.
  intros Hon. unfold sem_wakeup. destruct (w_sems w !! a) as [s|] eqn:Hs.
  - destruct (sem_check_init_run t w a s Hon Hs) as (e' & Hrun & Hon' & _).
    rewrite (bind_done _ _ _ _ _ Hrun). krun. rewrite sem_take_run. by eapply sem_on_cpu.
  - destruct (sem_check_init_halt w a Hs) as [w' Hh]. by rewrite (bind_halt _ _ _ _ _ Hh).
Qed.

Lemma sem_down_cases t w a s try :
  on_cpu t w -> w_sems w !! a = Some s ->
  exists hb e1, on_cpu t (put a s e1 w) /\ s_wlist s <> 0 /\
  atomic_sem_down a try w =
    if s_count s =? 0 then
      if try then Done (-1) (w_set_errno EAGAIN (put a s e1 w))
      else Sleep (s_wlist s)
             (put a s (klee_thread_sleep (s_wlist s) a (SyncOpType_to_Z SyncOpSem) e1) w)
             (fun w' => sem_wakeup a w')
    else Done 0 (put a (Sem (s_wlist s) hb (u32 (s_count s - 1))) e1 w).
Proof.
  intros Hon Hs. destruct (sem_check_init_run t w a s Hon Hs) as (e' & Hrun & Hon' & Hcalm & Hnz).
  unfold atomic_sem_down. rewrite (bind_done _ _ _ _ _ Hrun). krun. eexists _, _.
  split; [eapply sem_on_cpu; [exact Hon'| |done]|split; [done|]]; cycle 1.
  { destruct (s_count s =? 0); [destruct try; [reflexivity|]|by rewrite sem_take_run].
    unfold mbind, M_bind. by rewrite sleep_put. }
  calm_tac.
Qed.

Lemma on_cpu_errno t n w : on_cpu t w -> on_cpu t (w_set_errno n w).
Proof. intros Hon. by apply (on_cpu_calm t w). Qed.

Lemma atomic_sem_down_safe t a try w :
  on_cpu t w -> always t wl_inv (fun _ w' => on_cpu t w') (atomic_sem_down a try w).
Proof.
  intros Hon. destruct (w_sems w !! a) as [s|] eqn:Hs.
  2:{ unfold atomic_sem_down. destruct (sem_check_init_halt w a Hs) as [w' Hh].
      by rewrite (bind_halt _ _ _ _ _ Hh). }
  destruct (sem_down_cases t w a s try Hon Hs) as (hb & e1 & Hon1 & Hnz & ->).
  destruct (s_count s =? 0); [destruct try|].
  - by apply on_cpu_errno.
  - split.
    + rewrite <- (put_put _ _ s _ e1).
      eapply (sleep_inv t a s); [exact Hon1|apply lookup_put|by rewrite w_eng_put|done..|].
      intros c'. simpl. unfold must_exist. apply Z.eqb_neq in Hnz. by rewrite Hnz.
    + intros w' Hinv Hrun. apply sem_wakeup_safe. apply on_cpu_enter; [by eapply on_cpu_tid|done|done].
  - by eapply sem_on_cpu.
Qed.
End SemRun.

Section SemSpec.
Context {E U : Type} `{!KleeEngine E, !KleeView E, !KleeLaws E}.
Abbreviation W := (world E U).
Implicit Types (w : W) (e : E) (s : sem_t).

Lemma lookup_put_sem a s e w : w_sems (put a s e w) !! a = Some s.
Proof. exact (lookup_put (T := sem_t) a s e w). Qed.

Lemma sem_up_run t w a s :
  on_cpu t w -> w_sems w !! a = Some s ->
  exists hb e1 e2,
    let s' := Sem (s_wlist s) hb (u32 (s_count s + 1)) in
    atomic_sem_up a w = Done 0 (put a s' e2 w) /\ on_cpu t (put a s' e2 w) /\
    calm (w_eng w) e1 /\ e2 = klee_thread_notify (s_wlist s) a (SyncOpType_to_Z SyncOpSem) 0 0 0 (-1) 0 e1.
Proof.
  intros Hon Hs. destruct (sem_check_init_run t w a s Hon Hs) as (e' & Hrun & Hon' & Hcalm & Hnz).
  unfold atomic_sem_up. rewrite (bind_done _ _ _ _ _ Hrun). krun.
  unfold __thread_notify_one, __canonical_wlist_addr. krun.
  set (e1 := klee_add_hbedge _ _ _). assert (calm e' e1) as Hc1 by (unfold e1; calm_tac).
  eexists _, e1, _. split; [reflexivity|]. split; [|split; [by etrans|done]].
  match goal with |- on_cpu t (put a ?v _ w) => set (s' := v) end.
  assert (on_cpu t (put a s' e1 w)) as Hon1 by (by eapply sem_on_cpu).
  eapply (on_cpu_notify_uncounted t (put a s' e1 w) _ (s_wlist s)); [done| | |by rewrite w_eng_put|].
  - rewrite w_eng_put. reflexivity.
  - apply (uncounted_slot _ (SlSem a)); [apply Hon1|]. unfold put; simpl. rewrite lookup_insert_eq. simpl.
    unfold must_exist. apply Z.eqb_neq in Hnz. by rewrite Hnz.
  - intros sl. destruct (decide (sl = SlSem a)) as [->|Hne].
    + unfold put; simpl. by rewrite !lookup_insert_eq.
    + by rewrite !(q_slot_put_ne (T := sem_t)).
Qed.

Lemma atomic_sem_up_safe t a w :
  on_cpu t w -> always t wl_inv (fun _ w' => on_cpu t w') (atomic_sem_up a w).
Proof.
  intros Hon. destruct (w_sems w !! a) as [s|] eqn:Hs.
  - destruct (sem_up_run t w a s Hon Hs) as (hb & e1 & e2 & -> & H & _). done.
  - unfold atomic_sem_up. destruct (sem_check_init_halt w a Hs) as [w' Hh].
    by rewrite (bind_halt _ _ _ _ _ Hh).
Qed.

Lemma sem_init_safe t a pshared value w :
  on_cpu t w -> always t wl_inv (fun _ w' => on_cpu t w') (sem_init a pshared value w).
Proof.
  intros Hon. unfold sem_init. destruct (_ <? _); [by apply on_cpu_errno|]. simpl.
  pose proof (wl_wf _ (cpu_inv _ _ Hon)) as Hwf.
  destruct (law_get_wlist (w_eng w) Hwf) as (_ & Hx & _).
  eapply (on_cpu_fresh t w _ (SlSem a) None (w_eng w)); [done|reflexivity|done| | |by left].
  - intros sl Hsl. destruct sl; try done. simpl. by rewrite lookup_insert_ne by congruence.
  - simpl. rewrite lookup_insert_eq. simpl. unfold must_exist. apply Z.eqb_neq in Hx. by rewrite Hx.
Qed.

Lemma sem_wait_safe t a w :
  on_cpu t w -> always t wl_inv (fun _ w' => on_cpu t w') (sem_wait a w).
Proof. intros Hon. then_safe atomic_sem_down_safe. by apply finish_if_ok_safe. Qed.

Lemma sem_trywait_safe t a w :
  on_cpu t w -> always t wl_inv (fun _ w' => on_cpu t w') (sem_trywait a w).
Proof. intros Hon. then_safe atomic_sem_down_safe. by apply finish_if_ok_safe. Qed.

Lemma sem_post_safe t a w :
  on_cpu t w -> always t wl_inv (fun _ w' => on_cpu t w') (sem_post a w).
Proof. intros Hon. then_safe atomic_sem_up_safe. then_safe preempt_safe. done. Qed.

(** [sem_wait] and [sem_trywait] on a positive count succeed at once and
    take one unit, never going below zero; on a zero count [sem_trywait]
    returns -1 with [EAGAIN] and changes nothing, and [sem_wait] puts the
    caller on the waiting list of the semaphore. *)
Theorem sem_down_spec t w a s :
  on_cpu t w -> w_sems w !! a = Some s -> 0 <= s_count s < 2 ^ 32 ->
  (s_count s <> 0 -> exists w' s',
     sem_wait a w = Preempt 0 w' (fun w'' => Done 0 w'') /\
     sem_trywait a w = Preempt 0 w' (fun w'' => Done 0 w'') /\ on_cpu t w' /\
     w_sems w' !! a = Some s' /\ s_count s' = s_count s - 1) /\
  (s_count s = 0 ->
     (exists w', sem_trywait a w = Done (-1) w' /\ w_errno w' = EAGAIN /\ w_sems w' !! a = Some s) /\
     (exists w' k, sem_wait a w = Sleep (s_wlist s) w' k /\ wl_inv w' /\
        w_sems w' !! a = Some s /\ t ∈ eng_waiters (w_eng w') (s_wlist s))).
Proof.
  intros Hon Hs Hb. pose proof (sem_wait_safe t a w Hon) as Hsafe.
  destruct (sem_down_cases t w a s false Hon Hs) as (hb & e1 & Hon1 & Hnz & Hc).
  destruct (sem_down_cases t w a s true Hon Hs) as (hb' & e1' & Hon1' & _ & Hc').
  split; intros Hcnt.
  - rewrite (proj2 (Z.eqb_neq _ _) Hcnt) in Hc.
    assert (atomic_sem_down a true w = atomic_sem_down a false w) as Heq.
    { clear Hsafe Hc Hc'. destruct (sem_check_init_run t w a s Hon Hs) as (e' & Hrun & _).
      unfold atomic_sem_down. rewrite !(bind_done _ _ _ _ _ Hrun). krun.
      by rewrite (proj2 (Z.eqb_neq _ _) Hcnt). }
    unfold sem_wait, sem_trywait in *. unfold mbind, M_bind in *. rewrite Heq, Hc in *. cbn [out_bind] in *.
    eexists _, _. split; [reflexivity|]. split; [reflexivity|]. split; [eapply sem_on_cpu; [exact Hon1|reflexivity|done]|].
    split; [apply lookup_put_sem|]. simpl. apply u32_pred. lia.
  - rewrite Hcnt in Hc, Hc'. simpl in Hc, Hc'. split.
    + unfold sem_trywait. rewrite (bind_done _ _ _ _ _ Hc'). eexists. split; [reflexivity|].
      split; [done|]. apply (lookup_put_sem a s e1' w).
    + unfold sem_wait in *. unfold mbind, M_bind in *. rewrite Hc in *. cbn [out_bind always] in *.
      eexists _, _. split; [reflexivity|]. split; [apply Hsafe|]. split; [apply lookup_put_sem|].
      rewrite w_eng_put. eapply (q_sleep_in (T := sem_t) t a); [exact Hon1|apply lookup_put|done|done|].
      by rewrite w_eng_put.
Qed.

(** [sem_post] adds one unit and takes one thread off the waiting list if
    there is one. *)
Theorem sem_post_spec t w a s :
  on_cpu t w -> w_sems w !! a = Some s -> 0 <= s_count s < 2 ^ 32 - 1 ->
  exists w' s', sem_post a w = Preempt 0 w' (fun w'' => Done 0 w'') /\ on_cpu t w' /\
    w_sems w' !! a = Some s' /\ s_count s' = s_count s + 1 /\ s_wlist s' = s_wlist s /\
    (eng_waiters (w_eng w) (s_wlist s) = ∅ -> eng_waiters (w_eng w') (s_wlist s) = ∅) /\
    (eng_waiters (w_eng w) (s_wlist s) <> ∅ -> one_woken (s_wlist s) (w_eng w) (s_wlist s) (w_eng w')).
Proof.
  intros Hon Hs Hb. destruct (sem_up_run t w a s Hon Hs) as (hb & e1 & e2 & Hrun & Hon' & Hcalm & ->).
  unfold sem_post. rewrite (bind_done _ _ _ _ _ Hrun). eexists _, _. split; [reflexivity|].
  split; [exact Hon'|]. split; [apply lookup_put_sem|]. rewrite w_eng_put. fields.
  split; [by apply u32_succ|]. split; [done|]. unfold one_woken. rewrite <- !(calm_waiters _ _ Hcalm).
  destruct (law_notify e1 (s_wlist s) a (SyncOpType_to_Z SyncOpSem) 0 0 0 (-1) 0
    (calm_wf _ _ Hcalm (wl_wf _ (cpu_inv _ _ Hon))) (or_introl eq_refl)) as (_ & _ & _ & Hnone & Hone & _).
  split; [by apply Hnone|by apply Hone].
Qed.
End SemSpec.

(** ** Witnesses, and a run that wraps the count *)

(** The demo world after [sem_init(500, 0, n)]. *)
Definition demo_sem {U} (n : Z) (u : U) : world sim U :=
  match sem_init 500 0 n (demo_world PTHREAD_MUTEX_INITIALIZER u) with
  | Done _ w => w
  | _ => demo_world PTHREAD_MUTEX_INITIALIZER u
  end.

Lemma demo_sem_on_cpu {U} n (u : U) : 0 <= n <= SEM_VALUE_MAX -> on_cpu 0 (demo_sem n u).
Proof.
  intros Hn. unfold demo_sem.
  pose proof (sem_init_safe 0 500 0 n _ (demo_on_cpu PTHREAD_MUTEX_INITIALIZER u eq_refl eq_refl)) as H.
  unfold sem_init in *. rewrite (u32_small n) in * by (unfold SEM_VALUE_MAX in Hn; lia).
  rewrite (proj2 (Z.ltb_ge _ _)) in * by lia. exact H.
Qed.

Lemma sem_down_spec_witness :
  exists w' s', sem_wait 500 (demo_sem 2 tt) = Preempt 0 w' (fun w'' => Done 0 w'') /\
    w_sems w' !! 500 = Some s' /\ s_count s' = 1.
Proof.
  destruct (sem_down_spec 0 (demo_sem 2 tt) 500 (Sem 3 0 2)) as [H _];
    [apply demo_sem_on_cpu; vm_compute; split; congruence|reflexivity|vm_compute; split; congruence|].
  destruct H as (w' & s' & H1 & _ & _ & H2 & H3); [discriminate|].
  exists w', s'. split; [exact H1|]. split; [exact H2|exact H3].
Defined.

Lemma sem_post_spec_witness :
  exists w' s', sem_post 500 (demo_sem 2 tt) = Preempt 0 w' (fun w'' => Done 0 w'') /\
    w_sems w' !! 500 = Some s' /\ s_count s' = 3.
Proof.
  destruct (sem_post_spec 0 (demo_sem 2 tt) 500 (Sem 3 0 2)) as (w' & s' & H1 & _ & H2 & H3 & _);
    [apply demo_sem_on_cpu; vm_compute; split; congruence|reflexivity|vm_compute; split; congruence|].
  exists w', s'. split; [exact H1|]. split; [exact H2|exact H3].
Defined.

Definition sem_barging_pool : config (E := sim) (U := unit) :=
  Config (demo_sem 0 tt)
    {[0 := Suspended (sem_post 500;; mret tt); 1 := Suspended (sem_wait 500;; mret tt);
      2 := Suspended (sem_trywait 500;; mret tt)]}.

(** The waiter that [sem_post] wakes takes its unit without looking at the
    count: with count 0, thread 1 waits, thread 0 posts once (waking thread 1),
    thread 2 takes the unit with [sem_trywait] before thread 1 runs, and then
    thread 1 decrements 0: the count becomes 2^32-1. *)
Theorem sem_wakeup_wraps :
  exists c, rtc (pool_step (fun _ _ => False)) sem_barging_pool c /\
    option_map s_count (w_sems (cf_world c) !! 500) = Some (2 ^ 32 - 1).
Proof.
  apply (run_schedule_reaches _ [1; 0; 2; 1; 1] sem_barging_pool
    (fun c => option_map s_count (w_sems (cf_world c) !! 500))).
  vm_compute. reflexivity.
Qed.
