(* ===== verification/Threads.v ===== *)
(** * Threads ([runtime/POSIX/threads.c])

    The thread table [__tsync] and the operations on it: creating, ending,
    joining and detaching threads, [pthread_once] and the cleanup handlers.
    User code that the runtime calls (cleanup routines, the routine of
    [pthread_once]) is a parameter.  The two loops that wait for other threads
    take the number of times they may be woken as an argument. *)

From stdpp Require Import base gmap list fin_maps relations.
From Stdlib Require Import ZArith Lia.
From S2P Require Import Prelude PthreadTypes Klee Interleave WaitLists SimEngine Demo.

(** Where the loader put [__tsync]: the addresses of [threads[idx].data.wlist]
    and of [joinall_wlist]. *)
Class TsyncLayout := { addr_of_tdata : Z -> Z; addr_of_joinall : Z }.

(** [STATIC_LIST_ALLOC]: the first free slot is marked; the length of the array
    if there is none. *)
Fixpoint STATIC_LIST_ALLOC (l : list thread_data_t) : nat * list thread_data_t :=
  match l with
  | [] => (0%nat, [])
  | d :: l' =>
      if td_allocated d =? 0 then (0%nat, td_set_allocated 1 d :: l')
      else let (i, l'') := STATIC_LIST_ALLOC l' in (S i, d :: l'')
  end.

(** The element of an array at an index that may be out of range. *)
Definition thread_at (ts : tsync_data_t) (idx : Z) : option thread_data_t :=
  if 0 <=? idx then ts_threads ts !! Z.to_nat idx else None.

Definition set_thread (idx : Z) (d : thread_data_t) (ts : tsync_data_t) : tsync_data_t :=
  ts_set_threads (<[Z.to_nat idx := d]> (ts_threads ts)) ts.

Section ThreadOps.
Context {E U : Type} `{!KleeEngine E} {L : TsyncLayout}.
Abbreviation W := (world E U).

(** [tdata->...] for [tdata = &__tsync.threads[idx].data]. *)
Definition get_thread (idx : Z) : M W thread_data_t := fun w =>
  match thread_at (w_tsync w) idx with
  | Some d => Done d w
  | None => Halt StopMemory w
  end.

Definition mod_thread (idx : Z) (f : thread_data_t -> thread_data_t) : M W unit := fun w =>
  match thread_at (w_tsync w) idx with
  | Some d => Done tt (w_set_tsync (set_thread idx (f d) (w_tsync w)) w)
  | None => Halt StopMemory w
  end.

Definition mod_tsync (f : tsync_data_t -> tsync_data_t) : M W unit := fun w =>
  Done tt (w_set_tsync (f (w_tsync w)) w).

(** [STATIC_LIST_CLEAR(__tsync.threads, idx)] *)
Definition STATIC_LIST_CLEAR (idx : Z) : M W unit := mod_thread idx (fun _ => thread_data_zero).

(** [__tsync.last_hbnode = __thread_make_hbnode_from(__tsync.last_hbnode)],
    which serializes thread operations in the happens-before graph. *)
Definition serialize : M W unit :=
  ts ← get_tsync;
  n ← __thread_make_hbnode_from (ts_last_hbnode ts);
  mod_tsync (ts_set_last_hbnode n).

Definition pthread_self : M W Z := ask klee_get_symbolic_thread_context.

Definition pthread_create (thread attr start_routine arg : Z) : M W Z :=
  serialize;;
  ts ← get_tsync;
  let newIdx := Z.of_nat (STATIC_LIST_ALLOC (ts_threads ts)).1 in
  mod_tsync (ts_set_threads (STATIC_LIST_ALLOC (ts_threads ts)).2);;
  if newIdx =? KLEE_MAX_THREADS then mret EAGAIN
  else
    mod_thread newIdx (td_set_terminated 0);;
    mod_thread newIdx (td_set_joinable 1);;
    mod_thread newIdx (td_set_hasjoiner 0);;
    wl ← call klee_get_wlist;
    mod_thread newIdx (td_set_wlist wl);;
    mod_tsync (fun ts => ts_set_live_threads (u32 (ts_live_threads ts + 1)) ts);;
    tell (klee_thread_create newIdx start_routine arg);;
    tid ← ask (klee_get_symbolic_thread_context_for newIdx);
    store thread tid;;
    mret 0.

(** The loop of [pthread_exit] over the cleanup handlers; [run] calls a
    function pointer with its argument. *)
Fixpoint run_cleanups (run : Z -> Z -> M W unit) (fuel : nat) (idx : Z) : M W unit :=
  d ← get_thread idx;
  if td_cleanup_stack d =? 0 then mret tt
  else
    match fuel with
    | O => halt StopFuel
    | S fuel =>
        let b := td_cleanup_stack d in
        buf ← load b;
        run (__routine buf) (__arg buf);;
        buf ← load b;
        mod_thread idx (td_set_cleanup_stack (__prev buf));;
        run_cleanups run fuel idx
    end.

(** What happens to the slot of a thread that ends. *)
Definition exit_slot (idx value_ptr : Z) : M W unit :=
  old ← ask (klee_get_option KLEE_OPTION_BRANCH_COUNTER_ENABLED);
  tell (klee_set_option KLEE_OPTION_BRANCH_COUNTER_ENABLED 0);;
  d ← get_thread idx;
  if negb (td_joinable d =? 0) then
    mod_thread idx (td_set_terminated 1);;
    mod_thread idx (td_set_return_value value_ptr);;
    tell (klee_set_option KLEE_OPTION_BRANCH_COUNTER_ENABLED old);;
    d ← get_thread idx;
    ts ← get_tsync;
    __thread_notify_all_with_hbedges (td_wlist d) (addr_of_tdata idx) SyncOpJoinThread
      (ts_last_hbnode ts) 0
  else
    tell (klee_set_option KLEE_OPTION_BRANCH_COUNTER_ENABLED old);;
    STATIC_LIST_CLEAR idx.

(** [klee_thread_terminate] does not return. *)
Definition end_thread : M W unit := fun w => ThreadExit w.

Definition pthread_exit (run : Z -> Z -> M W unit) (fuel : nat) (value_ptr : Z) : M W unit :=
  idx ← ask klee_get_concrete_thread_context;
  run_cleanups run fuel idx;;
  serialize;;
  exit_slot idx value_ptr;;
  mod_tsync (fun ts => ts_set_live_threads (u32 (ts_live_threads ts - 1)) ts);;
  ts ← get_tsync;
  __thread_notify_all_with_hbedges (ts_joinall_wlist ts) addr_of_joinall SyncOpJoinAllThreads
    (ts_last_hbnode ts) 0;;
  tell klee_thread_terminate;;
  end_thread.

(** [klee_load8_no_boundscheck] of a field of [threads[idx]]. *)
Definition load_tdata (idx : Z) (field : thread_data_t -> Z) : M W Z := fun w =>
  match thread_at (w_tsync w) idx with
  | Some d => Done (field d) w
  | None => Done (klee_load8_oob idx (w_eng w)) w
  end.

(** The error cases of [pthread_join], merged into one expression. *)
Definition join_retval (thread self isAllocated isJoinable hasJoiner : Z) : Z :=
  klee_expr_select (KLEE_MAX_THREADS <=? thread) ESRCH
    (klee_expr_select (thread =? self) EDEADLK
      (klee_expr_select (isAllocated =? 0) ESRCH
        (klee_expr_select (klee_expr_or (isJoinable =? 0) (negb (hasJoiner =? 0))) EINVAL 0))).

(** The end of [pthread_join]. *)
Definition join_collect (idx value_ptr : Z) : M W Z :=
  (if negb (value_ptr =? 0) then
     d ← get_thread idx;
     store value_ptr (td_return_value d)
   else mret tt);;
  STATIC_LIST_CLEAR idx;;
  mret 0.

Definition pthread_join (thread value_ptr : Z) : M W Z :=
  serialize;;
  idx ← ask (klee_get_concrete_thread_context_for thread);
  isAllocated ← load_tdata idx td_allocated;
  isJoinable ← load_tdata idx td_joinable;
  hasJoiner ← load_tdata idx td_hasjoiner;
  self ← pthread_self;
  let retval := join_retval thread self isAllocated isJoinable hasJoiner in
  if negb (retval =? 0) then mret retval
  else
    mod_thread idx (td_set_hasjoiner 1);;
    d ← get_thread idx;
    if td_terminated d =? 0 then
      __thread_sleep (td_wlist d) (addr_of_tdata idx) SyncOpJoinThread;;
      join_collect idx value_ptr
    else
      n ← __thread_make_hbnode;
      tell (klee_add_hbedge_from_threads_last_hbnode thread n);;
      join_collect idx value_ptr.

(** The loop of [pthread_joinall]; [fuel] bounds how often it is woken. *)
Fixpoint joinall_loop (fuel : nat) : M W Z :=
  ts ← get_tsync;
  if 1 <? ts_live_threads ts then
    match fuel with
    | O => halt StopFuel
    | S fuel =>
        __thread_sleep (ts_joinall_wlist ts) addr_of_joinall SyncOpJoinAllThreads;;
        joinall_loop fuel
    end
  else mret 0.

Definition pthread_joinall (fuel : nat) : M W Z :=
  serialize;;
  joinall_loop fuel.

Definition pthread_detach (thread : Z) : M W Z :=
  if KLEE_MAX_THREADS <=? thread then mret ESRCH
  else
    serialize;;
    idx ← ask (klee_get_concrete_thread_context_for thread);
    d ← get_thread idx;
    if td_allocated d =? 0 then mret ESRCH
    else if td_joinable d =? 0 then mret EINVAL
    else
      (if negb (td_terminated d =? 0) then STATIC_LIST_CLEAR idx
       else mod_thread idx (td_set_joinable 0));;
      mret 0.

Definition pthread_attr_init (attr : Z) : M W Z := mret 0.
Definition pthread_attr_destroy (attr : Z) : M W Z := mret 0.

(** Waiting for the routine of [pthread_once] that another thread runs. *)
Fixpoint once_wait (fuel : nat) (once_control : Z) : M W Z :=
  v ← load once_control;
  if v =? -1 then
    match fuel with
    | O => halt StopFuel
    | S fuel => __thread_preempt 1;; once_wait fuel once_control
    end
  else
    __thread_make_hbnode_from v;;
    mret 0.

(** [pthread_once_t] is an [int]. *)
Definition pthread_once (fuel : nat) (once_control : Z) (init_routine : M W unit) : M W Z :=
  v ← load once_control;
  if v =? 0 then
    store once_control (-1);;
    init_routine;;
    n ← __thread_make_hbnode;
    store once_control (s32 n);;
    mret 0
  else once_wait fuel once_control.

Definition pthread_equal (thread1 thread2 : Z) : M W Z := mret (Z_of_bool (thread1 =? thread2)).
Definition pthread_yield : M W Z := __thread_preempt 1;; mret 0.
Definition sched_yield : M W Z := __thread_preempt 1;; mret 0.

Definition pthread_setcancelstate (state oldstate : Z) : M W Z := mret 0.
Definition pthread_setcanceltype (type oldtype : Z) : M W Z := mret 0.
Definition pthread_cancel (thread : Z) : M W Z := FUNCTION_NOT_IMPLEMENTED.
Definition pthread_testcancel : M W Z := FUNCTION_NOT_IMPLEMENTED.
Definition pthread_key_create (key dtor : Z) : M W Z := FUNCTION_NOT_IMPLEMENTED.
Definition pthread_key_delete (key : Z) : M W Z := FUNCTION_NOT_IMPLEMENTED.
Definition pthread_getspecific (key : Z) : M W Z := FUNCTION_NOT_IMPLEMENTED.
Definition pthread_setspecific (key ptr : Z) : M W Z := FUNCTION_NOT_IMPLEMENTED.

Definition _pthread_cleanup_push (buffer routine arg : Z) : M W unit :=
  idx ← ask klee_get_concrete_thread_context;
  modify buffer (fun b => CleanupBuffer routine (__arg b) (__canceltype b) (__prev b));;
  modify buffer (fun b => CleanupBuffer (__routine b) arg (__canceltype b) (__prev b));;
  d ← get_thread idx;
  modify buffer (fun b => CleanupBuffer (__routine b) (__arg b) (__canceltype b) (td_cleanup_stack d));;
  mod_thread idx (td_set_cleanup_stack buffer).

Definition _pthread_cleanup_pop (run : Z -> Z -> M W unit) (buffer execute : Z) : M W unit :=
  idx ← ask klee_get_concrete_thread_context;
  (if negb (execute =? 0) then b ← load buffer; run (__routine b) (__arg b) else mret tt);;
  b ← load buffer;
  mod_thread idx (td_set_cleanup_stack (__prev b)).

Definition _pthread_cleanup_push_defer (buffer routine arg : Z) : M W unit :=
  _pthread_cleanup_push buffer routine arg.
Definition _pthread_cleanup_pop_restore (run : Z -> Z -> M W unit) (buffer execute : Z) : M W unit :=
  _pthread_cleanup_pop run buffer execute.

Definition pthread_initialize : M W unit := mret tt.
End ThreadOps.

(** ** Executing code on the thread table *)

(** A new thread table and a new engine state. *)
Definition tput {E U} (ts : tsync_data_t) (e : E) (w : world E U) : world E U :=
  w_set_eng e (w_set_tsync ts w).
Arguments tput : simpl never.

Section ThreadRun.
Context {E U : Type} `{!KleeEngine E} {L : TsyncLayout}.
Abbreviation W := (world E U).
Implicit Types (w : W) (e : E) (ts : tsync_data_t) (d : thread_data_t).

Lemma tput_self w : tput (w_tsync w) (w_eng w) w = w.
Proof. by destruct w. Qed.

Lemma tput_tput ts e ts' e' w : tput ts e (tput ts' e' w) = tput ts e w.
Proof. done. Qed.

Lemma w_eng_tput ts e w : w_eng (tput ts e w) = e.
Proof. done. Qed.

Lemma get_tsync_tput ts e w : get_tsync (tput ts e w) = Done ts (tput ts e w).
Proof. done. Qed.

Lemma mod_tsync_tput f ts e w : mod_tsync f (tput ts e w) = Done tt (tput (f ts) e w).
Proof. done. Qed.

Lemma tell_tput f ts e w : tell f (tput ts e w) = Done tt (tput ts (f e) w).
Proof. done. Qed.

Lemma ask_tput {A} (f : E -> A) ts e w : ask f (tput ts e w) = Done (f e) (tput ts e w).
Proof. done. Qed.

Lemma call_tput {A} (f : E -> A * E) ts e w :
  call f (tput ts e w) = Done (f e).1 (tput ts (f e).2 w).
Proof. done. Qed.

Lemma get_thread_tput idx ts e w d :
  thread_at ts idx = Some d -> get_thread idx (tput ts e w) = Done d (tput ts e w).
Proof. intros Hd. unfold get_thread. simpl. by rewrite Hd. Qed.

Lemma mod_thread_tput idx f ts e w d :
  thread_at ts idx = Some d -> mod_thread idx f (tput ts e w) = Done tt (tput (set_thread idx (f d) ts) e w).
Proof. intros Hd. unfold mod_thread. simpl. by rewrite Hd. Qed.

Lemma serialize_tput ts e w :
  serialize (tput ts e w) =
  let n := (klee_add_hbnode e).1 in
  Done tt (tput (ts_set_last_hbnode n ts)
             (klee_add_hbedge (u64 (s32 (ts_last_hbnode ts))) n (klee_add_hbnode e).2) w).
Proof. done. Qed.

Lemma thread_at_nonneg ts idx d : thread_at ts idx = Some d -> 0 <= idx /\ ts_threads ts !! Z.to_nat idx = Some d.
Proof. unfold thread_at. destruct (Z.leb_spec 0 idx); [done|done]. Qed.

Lemma thread_at_set ts idx d d' :
  thread_at ts idx = Some d -> thread_at (set_thread idx d' ts) idx = Some d'.
Proof.
  intros [Hi Hd]%thread_at_nonneg. unfold thread_at, set_thread; simpl.
  rewrite (proj2 (Z.leb_le 0 idx)) by lia. apply list_lookup_insert_eq. by eapply lookup_lt_Some.
Qed.

Lemma set_thread_set idx d d' ts : set_thread idx d (set_thread idx d' ts) = set_thread idx d ts.
Proof. unfold set_thread, ts_set_threads; simpl. by rewrite list_insert_insert_eq. Qed.
End ThreadRun.

(** ** The invariant *)

Section ThreadInv.
Context {E U : Type} `{!KleeEngine E, !KleeView E, !KleeLaws E} {L : TsyncLayout}.
Abbreviation W := (world E U).
Implicit Types (w : W) (e : E) (ts : tsync_data_t) (d : thread_data_t).

(** Slots may lose their list. *)
Lemma on_cpu_drop t w w' :
  on_cpu t w -> calm (w_eng w) (w_eng w') ->
  (forall sl, slot_get w' sl = slot_get w sl \/ slot_get w' sl = Some (0, None)) -> on_cpu t w'.
Proof.
  intros [Hinv Hcur Hfree] Hcalm Hs. split; [split| |].
  - by apply (calm_wf _ _ Hcalm), Hinv.
  - intros sl wl n Hg. destruct (Hs sl) as [H|H]; rewrite H in Hg; [|simplify_eq; left; auto].
    destruct (wl_slots w Hinv _ _ _ Hg) as [H0|(Hz & Hal & Hc)]; [by left|right].
    split; [done|]. split; [by apply (calm_allocated _ _ Hcalm)|].
    intros c Hcn. rewrite (calm_waiters _ _ Hcalm). auto.
  - intros sl1 sl2 wl n1 n2 Hz H1 H2.
    destruct (Hs sl1) as [Ha|Ha], (Hs sl2) as [Hb|Hb]; rewrite Ha in H1; rewrite Hb in H2; simplify_eq.
    by eapply (wl_inj w Hinv).
  - by rewrite (calm_current _ _ Hcalm).
  - intros x. rewrite (calm_waiters _ _ Hcalm). apply Hfree.
Qed.

Lemma slot_tput_other ts e w sl :
  (forall i, sl <> SlJoin i) -> sl <> SlJoinAll -> slot_get (tput ts e w) sl = slot_get w sl.
Proof. intros H1 H2. destruct sl; try done. by destruct (H1 i). Qed.

Definition td_view (ts : tsync_data_t) (i : nat) : option (Z * option Z) :=
  (fun d => (td_wlist d, td_list i d)) <$> ts_threads ts !! i.

(** The lists of the table stay, except for those of cleared slots. *)
Definition table_kept ts ts' : Prop :=
  ts_joinall_wlist ts' = ts_joinall_wlist ts /\
  forall i, td_view ts' i = td_view ts i \/ td_view ts' i = Some (0, None).

#[global] Instance table_kept_refl : Reflexive table_kept.
Proof. intros ts. split; [done|]. by left. Qed.

Lemma tput_on_cpu t ts ts' e e' w :
  on_cpu t (tput ts e w) -> calm e e' -> table_kept ts ts' -> on_cpu t (tput ts' e' w).
Proof.
  intros Hon Hc [Hj Ht]. apply (on_cpu_drop t (tput ts e w)); [done|done|].
  intros sl. destruct sl; try (by left).
  - apply Ht.
  - left. simpl. by rewrite Hj.
Qed.

(** The table has at most [KLEE_MAX_THREADS] slots. *)
Lemma thread_at_bound t ts e w idx d :
  on_cpu t (tput ts e w) -> thread_at ts idx = Some d -> 0 <= idx < KLEE_MAX_THREADS.
Proof.
  intros Hon [Hi Hd]%thread_at_nonneg. split; [done|].
  destruct (Z.lt_ge_cases idx KLEE_MAX_THREADS) as [|Hge]; [done|].
  destruct (wl_slots _ (cpu_inv _ _ Hon) (SlJoin (Z.to_nat idx)) (td_wlist d) (Some (-1)))
    as [[_ [?|?]]|(_ & _ & Hc)]; try done.
  - simpl. rewrite Hd. simpl. unfold td_list. rewrite (proj2 (Z.leb_le _ _)); [done|lia].
  - specialize (Hc _ eq_refl). lia.
Qed.

Lemma td_list_eq i d :
  0 <= Z.of_nat i < KLEE_MAX_THREADS ->
  td_list i d = if td_allocated d =? 0 then None else must_exist (td_wlist d).
Proof. intros Hi. unfold td_list. by rewrite (proj2 (Z.leb_gt _ _)) by lia. Qed.

Lemma table_kept_set t ts e w idx d d' :
  on_cpu t (tput ts e w) -> thread_at ts idx = Some d ->
  (td_wlist d' = td_wlist d /\ td_allocated d' = td_allocated d) \/ d' = thread_data_zero ->
  table_kept ts (set_thread idx d' ts).
Proof.
  intros Hon Ht Hcase. pose proof (thread_at_bound t ts e w idx d Hon Ht) as Hb.
  apply thread_at_nonneg in Ht as [Hi Hd]. split; [done|]. intros i. unfold td_view. simpl.
  destruct (decide (i = Z.to_nat idx)) as [->|Hne].
  - rewrite list_lookup_insert_eq by (by eapply lookup_lt_Some). rewrite Hd. simpl.
    rewrite !td_list_eq by lia. destruct Hcase as [[-> ->]| ->]; auto.
  - left. by rewrite list_lookup_insert_ne.
Qed.

(** Changing one slot of the table. *)
Lemma set_thread_on_cpu t ts e e' w idx d d' :
  on_cpu t (tput ts e w) -> calm e e' -> thread_at ts idx = Some d ->
  (td_wlist d' = td_wlist d /\ td_allocated d' = td_allocated d) \/ d' = thread_data_zero ->
  on_cpu t (tput (set_thread idx d' ts) e' w).
Proof. intros Hon Hc Ht Hd. eapply tput_on_cpu; [done|done|]. by eapply table_kept_set. Qed.

Lemma serialize_on_cpu t ts e w :
  on_cpu t (tput ts e w) ->
  exists n e', serialize (tput ts e w) = Done tt (tput (ts_set_last_hbnode n ts) e' w) /\
    on_cpu t (tput (ts_set_last_hbnode n ts) e' w) /\ calm e e'.
Proof.
  intros Hon. rewrite serialize_tput. eexists _, _. split; [reflexivity|]. split; [|calm_tac].
  eapply tput_on_cpu; [done|calm_tac|]. split; [done|]. by left.
Qed.
End ThreadInv.

Section ThreadSafe.
Context {E U : Type} `{!KleeEngine E, !KleeView E, !KleeLaws E} {L : TsyncLayout}.
Abbreviation W := (world E U).
Implicit Types (w : W) (e : E) (ts : tsync_data_t) (d : thread_data_t).

(** The first free slot. *)
Lemma STATIC_LIST_ALLOC_spec (l : list thread_data_t) :
  let (i, l') := STATIC_LIST_ALLOC l in
  (i = length l /\ l' = l /\ Forall (fun d => td_allocated d <> 0) l) \/
  (exists d, l !! i = Some d /\ td_allocated d = 0 /\ l' = <[i := td_set_allocated 1 d]> l /\
     Forall (fun d => td_allocated d <> 0) (take i l)).
Proof.
  induction l as [|d l IH]; simpl; [left; by split|].
  destruct (Z.eqb_spec (td_allocated d) 0) as [H0|H0].
  - right. exists d. simpl. repeat split; auto.
  - destruct (STATIC_LIST_ALLOC l) as [i l'].
    destruct IH as [(-> & -> & Hf)|(d' & Hd & Ha & -> & Hf)].
    + left. repeat split; auto.
    + right. exists d'. simpl. repeat split; auto.
Qed.

Lemma on_cpu_cells t (h : gmap Z Z) w : on_cpu t w -> on_cpu t (heap_set h w).
Proof. intros Hon. apply (on_cpu_calm t w); [done|reflexivity|]. by intros []. Qed.

Lemma on_cpu_cleanups t (h : gmap Z _pthread_cleanup_buffer) w : on_cpu t w -> on_cpu t (heap_set h w).
Proof. intros Hon. apply (on_cpu_calm t w); [done|reflexivity|]. by intros []. Qed.

Lemma store_cell_safe t a (v : Z) w :
  on_cpu t w -> always t wl_inv (fun _ w' => on_cpu t w') (store a v w).
Proof. intros Hon. unfold store. destruct (_ !! a); [|done]. by apply on_cpu_cells. Qed.

Lemma serialize_safe t w :
  on_cpu t w -> always t wl_inv (fun _ w' => on_cpu t w') (serialize w).
Proof.
  intros Hon. rewrite <- (tput_self w) in Hon |- *.
  by destruct (serialize_on_cpu t _ _ w Hon) as (n & e' & -> & H & _).
Qed.

(** A change of a slot that keeps its list or clears it. *)
Lemma mod_thread_safe t idx f w :
  on_cpu t w ->
  (forall d, (td_wlist (f d) = td_wlist d /\ td_allocated (f d) = td_allocated d) \/ f d = thread_data_zero) ->
  always t wl_inv (fun _ w' => on_cpu t w') (mod_thread idx f w).
Proof.
  intros Hon Hf. rewrite <- (tput_self w) in Hon |- *.
  destruct (thread_at (w_tsync w) idx) as [d|] eqn:Hd.
  - rewrite (mod_thread_tput _ _ _ _ _ d) by done. simpl. by eapply set_thread_on_cpu.
  - unfold mod_thread. simpl. by rewrite Hd.
Qed.

Lemma clear_safe t idx w :
  on_cpu t w -> always t wl_inv (fun _ w' => on_cpu t w') (STATIC_LIST_CLEAR idx w).
Proof. intros Hon. apply mod_thread_safe; [done|by right]. Qed.

Lemma get_thread_safe t idx w :
  on_cpu t w -> always t wl_inv (fun d w' => on_cpu t w' /\ thread_at (w_tsync w') idx = Some d) (get_thread idx w).
Proof. intros Hon. unfold get_thread. by destruct (thread_at (w_tsync w) idx) as [d|] eqn:Hd. Qed.

Lemma load_safe {T} `{!Stored T} t a w :
  on_cpu t w -> always t wl_inv (fun (_ : T) w' => on_cpu t w') (load a w).
Proof. intros Hon. unfold load. by destruct (heap_get w !! a). Qed.

Lemma tell_safe t f w :
  on_cpu t w -> (forall e, calm e (f e)) -> always t wl_inv (fun _ w' => on_cpu t w') (tell f w).
Proof. intros Hon Hf. by apply (on_cpu_calm t w). Qed.

Lemma join_collect_safe t idx value_ptr w :
  on_cpu t w -> always t wl_inv (fun _ w' => on_cpu t w') (join_collect idx value_ptr w).
Proof.
  intros Hon. unfold join_collect. apply always_mbind. destruct (negb _).
  - then_safe get_thread_safe. destruct H as [H _]. eapply always_mono; [|by apply store_cell_safe].
    intros ? w' Hon'. cbn beta in *. then_safe clear_safe. done.
  - simpl. then_safe clear_safe. done.
Qed.
End ThreadSafe.

(** ** Creating threads *)

Section ThreadCreate.
Context {E U : Type} `{!KleeEngine E, !KleeView E, !KleeLaws E} {L : TsyncLayout}.
Abbreviation W := (world E U).
Implicit Types (w : W) (e : E) (ts : tsync_data_t) (d : thread_data_t).

(** The slot of a new thread. *)
Definition new_thread (wl : Z) d : thread_data_t :=
  ThreadData wl (td_return_value d) (td_cleanup_stack d) 1 0 1 0.

(** Filling in the slot [i] that [STATIC_LIST_ALLOC] chose. *)
Lemma create_fill t ts e w i d :
  on_cpu t (tput ts e w) -> ts_threads ts !! i = Some d ->
  let e' := (klee_get_wlist e).2 in
  let ts' := ts_set_threads (<[i := new_thread (klee_get_wlist e).1 d]> (ts_threads ts)) ts in
  0 <= Z.of_nat i < KLEE_MAX_THREADS /\ on_cpu t (tput ts' e' w).
Proof.
  intros Hon Hd e' ts'.
  assert (0 <= Z.of_nat i < KLEE_MAX_THREADS) as Hb.
  { eapply (thread_at_bound t ts e w _ d); [done|]. unfold thread_at.
    rewrite (proj2 (Z.leb_le _ _)) by lia. by rewrite Nat2Z.id. }
  split; [done|]. pose proof (wl_wf _ (cpu_inv _ _ Hon)) as Hwf.
  destruct (law_get_wlist e Hwf) as (_ & Hnz & _).
  eapply (on_cpu_fresh t (tput ts e w) _ (SlJoin i) None e); [done|reflexivity|done| | |by left].
  - intros sl Hsl. destruct sl; try done. simpl. rewrite list_lookup_insert_ne by congruence. done.
  - simpl. rewrite list_lookup_insert_eq by (by eapply lookup_lt_Some). simpl.
    rewrite td_list_eq by done. simpl. unfold must_exist. apply Z.eqb_neq in Hnz. by rewrite Hnz.
Qed.

(** The whole call up to the store through [thread]. *)
Lemma pthread_create_run t w thread attr f arg :
  on_cpu t w ->
  let l := ts_threads (w_tsync w) in
  let i := (STATIC_LIST_ALLOC l).1 in
  if decide (i = length l) then
    exists e', on_cpu t (tput (ts_set_last_hbnode (klee_add_hbnode (w_eng w)).1 (w_tsync w)) e' w) /\
    pthread_create thread attr f arg w =
      if Z.of_nat i =? KLEE_MAX_THREADS
      then Done EAGAIN (tput (ts_set_last_hbnode (klee_add_hbnode (w_eng w)).1 (w_tsync w)) e' w)
      else Halt StopMemory (tput (ts_set_last_hbnode (klee_add_hbnode (w_eng w)).1 (w_tsync w)) e' w)
  else
    exists d wl n e', let ts' := Tsync (<[i := new_thread wl d]> l) (u32 (ts_live_threads (w_tsync w) + 1)) n
                              (ts_joinall_wlist (w_tsync w)) in
    l !! i = Some d /\ td_allocated d = 0 /\ Z.of_nat i < KLEE_MAX_THREADS /\ wl <> 0 /\
    on_cpu t (tput ts' e' w) /\
    pthread_create thread attr f arg w = (store thread (eng_symid (Z.of_nat i));; mret 0) (tput ts' e' w).
Proof.
  intros Hon l i. pose proof (STATIC_LIST_ALLOC_spec l) as Hspec.
  rewrite <- (tput_self w) in Hon.
  destruct (serialize_on_cpu t _ _ w Hon) as (n & e1 & Hser & Hon1 & Hc1).
  assert (n = (klee_add_hbnode (w_eng w)).1) as ->.
  { rewrite serialize_tput in Hser. by injection Hser. }
  assert (forall k : unit -> M W Z, (serialize ≫= k) w = k tt (tput (ts_set_last_hbnode (klee_add_hbnode (w_eng w)).1 (w_tsync w)) e1 w)) as Hs.
  { intros k. rewrite <- (tput_self w) at 1. by rewrite (bind_done _ _ _ _ _ Hser). }
  unfold pthread_create. rewrite Hs. erewrite bind_done by apply get_tsync_tput.
  change (ts_threads (ts_set_last_hbnode (klee_add_hbnode (w_eng w)).1 (w_tsync w))) with l.
  subst i. destruct (STATIC_LIST_ALLOC l) as [i l'] eqn:Hal. cbn [fst snd] in *.
  erewrite bind_done by apply mod_tsync_tput.
  destruct Hspec as [(-> & -> & _)|(d & Hd & Ha & -> & _)].
  - rewrite decide_True by done. exists e1. split; [done|].
    assert (ts_set_threads l (ts_set_last_hbnode (klee_add_hbnode (w_eng w)).1 (w_tsync w)) =
            ts_set_last_hbnode (klee_add_hbnode (w_eng w)).1 (w_tsync w)) as -> by done.
    destruct (_ =? KLEE_MAX_THREADS); [done|]. erewrite bind_halt; [done|].
    unfold mod_thread, thread_at. cbn. rewrite (proj2 (Z.leb_le _ _)) by lia. rewrite Nat2Z.id.
    change (w_tsync (tput ?a ?b ?c)) with a. cbn. fold l. by rewrite lookup_ge_None_2.
  - assert (i < length l)%nat as Hlt by (by eapply lookup_lt_Some).
    rewrite decide_False by lia. destruct (create_fill t _ e1 w i d Hon1 Hd) as [Hb Hon2].
    pose proof (wl_wf _ (cpu_inv _ _ Hon1)) as Hwf. destruct (law_get_wlist e1 Hwf) as (_ & Hnz & _).
    rewrite (proj2 (Z.eqb_neq _ _)) by lia.
    assert (forall ts e dd, ts_threads ts !! i = Some dd -> forall g,
      mod_thread (Z.of_nat i) g (tput ts e w) = Done tt (tput (set_thread (Z.of_nat i) (g dd) ts) e w)) as Hmod.
    { intros ts e dd Hdd g. apply mod_thread_tput. unfold thread_at.
      rewrite (proj2 (Z.leb_le _ _)) by lia. by rewrite Nat2Z.id. }
    repeat (erewrite bind_done by (apply Hmod; cbn; rewrite ?Nat2Z.id;
      rewrite list_lookup_insert_eq; [reflexivity|rewrite ?length_insert; exact Hlt])).
    erewrite bind_done by apply call_tput.
    repeat (erewrite bind_done by (apply Hmod; cbn; rewrite ?Nat2Z.id;
      rewrite list_lookup_insert_eq; [reflexivity|rewrite ?length_insert; exact Hlt])).
    erewrite bind_done by apply mod_tsync_tput. erewrite bind_done by apply tell_tput.
    erewrite bind_done by apply ask_tput. rewrite law_symbolic_context_for.
    eexists d, (klee_get_wlist e1).1, (klee_add_hbnode (w_eng w)).1, _.
    split; [done|]. split; [done|]. split; [lia|]. split; [done|]. split.
    2:{ f_equal. unfold tput, set_thread, ts_set_threads, ts_set_live_threads. cbn.
        rewrite ?Nat2Z.id, ?list_insert_insert_eq. reflexivity. }
    eapply tput_on_cpu; [exact Hon2|apply quiet_calm; by apply law_thread_create|].
    split; [done|]. by left.
Qed.
End ThreadCreate.

(** ** Ending, joining and detaching threads *)

Section ThreadEnd.
Context {E U : Type} `{!KleeEngine E, !KleeView E, !KleeLaws E} {L : TsyncLayout}.
Abbreviation W := (world E U).
Implicit Types (w : W) (e : E) (ts : tsync_data_t) (d : thread_data_t).

Lemma pthread_create_safe t w thread attr f arg :
  on_cpu t w -> always t wl_inv (fun _ w' => on_cpu t w') (pthread_create thread attr f arg w).
Proof.
  intros Hon. pose proof (pthread_create_run t w thread attr f arg Hon) as H. cbv zeta in H.
  destruct (decide _).
  - destruct H as (e' & Hon' & ->). by destruct (_ =? _).
  - destruct H as (d & wl & n' & e' & _ & _ & _ & _ & Hon' & ->).
    then_safe store_cell_safe. done.
Qed.

(** Waking the threads of a list of the thread table. *)
Lemma notify_table_list t ts e w wl addr ty src sink :
  on_cpu t (tput ts e w) ->
  wl = ts_joinall_wlist ts \/ (exists i d, ts_threads ts !! i = Some d /\ td_wlist d = wl) ->
  on_cpu t (tput ts (klee_thread_notify wl addr ty 1 src sink (-1) 0 e) w).
Proof.
  intros Hon Hwl. eapply (on_cpu_notify_uncounted t (tput ts e w) _ wl e); [done|reflexivity| |done|done].
  intros sl n Hz Hs. assert (exists sl0, slot_get (tput ts e w) sl0 = Some (wl, None)) as (sl0 & H0).
  { destruct Hwl as [->|(i & d & Hd & <-)].
    - exists SlJoinAll. simpl. unfold must_exist. apply Z.eqb_neq in Hz. by rewrite Hz.
    - exists (SlJoin i). simpl. rewrite Hd. simpl.
      rewrite td_list_eq.
      + apply Z.eqb_neq in Hz. unfold must_exist. rewrite Hz. by destruct (td_allocated d =? 0).
      + eapply (thread_at_bound t ts e w _ d); [done|]. unfold thread_at.
        rewrite (proj2 (Z.leb_le _ _)) by lia. by rewrite Nat2Z.id. }
  by eapply uncounted_slot; [apply Hon|exact H0| |exact Hs].
Qed.

Lemma run_cleanups_safe t run fuel idx w :
  (forall f x w', on_cpu t w' -> always t wl_inv (fun _ w'' => on_cpu t w'') (run f x w')) ->
  on_cpu t w -> always t wl_inv (fun _ w' => on_cpu t w') (run_cleanups run fuel idx w).
Proof.
  intros Hrun. revert w. induction fuel as [|fuel IH]; intros w Hon; cbn [run_cleanups];
    then_safe get_thread_safe; destruct H as [H _]; destruct (_ =? 0); try done.
  then_safe load_safe. then_safe Hrun. then_safe load_safe.
  apply always_mbind. eapply always_mono; [|apply mod_thread_safe; [done|intros; left; done]].
  intros ? w' Hon'. by apply IH.
Qed.

(** The slot of the ending thread: marked and its joiners woken, or freed. *)
Lemma exit_slot_run t ts e w idx v d :
  on_cpu t (tput ts e w) -> thread_at ts idx = Some d ->
  exists e', calm e e' /\
  if td_joinable d =? 0 then
    exit_slot idx v (tput ts e w) = Done tt (tput (set_thread idx thread_data_zero ts) e' w) /\
    on_cpu t (tput (set_thread idx thread_data_zero ts) e' w)
  else
    let d' := td_set_return_value v (td_set_terminated 1 d) in
    let e'' := klee_thread_notify (td_wlist d) (addr_of_tdata idx) (SyncOpType_to_Z SyncOpJoinThread) 1
                 (ts_last_hbnode ts) 0 (-1) 0 e' in
    exit_slot idx v (tput ts e w) = Done tt (tput (set_thread idx d' ts) e'' w) /\
    on_cpu t (tput (set_thread idx d' ts) e'' w).
Proof.
  intros Hon Hd.
  set (e1 := klee_set_option KLEE_OPTION_BRANCH_COUNTER_ENABLED 0 e).
  set (e2 := klee_set_option KLEE_OPTION_BRANCH_COUNTER_ENABLED
               (klee_get_option KLEE_OPTION_BRANCH_COUNTER_ENABLED e) e1).
  assert (calm e e2) as Hc by (unfold e2, e1; calm_tac).
  exists e2. split; [done|].
  unfold exit_slot. erewrite bind_done by apply ask_tput. erewrite bind_done by apply tell_tput.
  erewrite bind_done by (by apply get_thread_tput). fold e1.
  destruct (td_joinable d =? 0); cbn [negb].
  - erewrite bind_done by apply tell_tput. fold e2. unfold STATIC_LIST_CLEAR.
    rewrite (mod_thread_tput _ _ _ _ _ d) by done. split; [done|].
    eapply (set_thread_on_cpu t ts e e2 w idx d); auto.
  - set (d1 := td_set_terminated 1 d). set (d2 := td_set_return_value v d1).
    assert (thread_at (set_thread idx d1 ts) idx = Some d1) as Hd1 by (by eapply thread_at_set).
    assert (thread_at (set_thread idx d2 ts) idx = Some d2) as Hd2 by (by eapply thread_at_set).
    erewrite bind_done by (by apply mod_thread_tput). fold d1.
    erewrite bind_done by (by apply mod_thread_tput). fold d2. rewrite set_thread_set.
    erewrite bind_done by apply tell_tput. fold e2.
    erewrite bind_done by (by apply get_thread_tput). erewrite bind_done by apply get_tsync_tput.
    unfold __thread_notify_all_with_hbedges, __canonical_wlist_addr. rewrite tell_tput.
    split; [done|]. apply notify_table_list.
    + eapply (set_thread_on_cpu t ts e e2 w idx d); auto.
    + right. apply thread_at_nonneg in Hd2 as [_ Hd2]. eauto.
Qed.

Lemma thread_at_hbnode n ts idx : thread_at (ts_set_last_hbnode n ts) idx = thread_at ts idx.
Proof. done. Qed.

Lemma live_on_cpu t ts e w n :
  on_cpu t (tput ts e w) -> on_cpu t (tput (ts_set_live_threads n ts) e w).
Proof. intros Hon. eapply tput_on_cpu; [done|reflexivity|]. split; [done|]. by left. Qed.

(** The last part of [pthread_exit]. *)
Lemma pthread_exit_tail t ts e w :
  on_cpu t (tput ts e w) ->
  exists w',
    (mod_tsync (fun ts => ts_set_live_threads (u32 (ts_live_threads ts - 1)) ts);;
     ts ← get_tsync;
     __thread_notify_all_with_hbedges (ts_joinall_wlist ts) addr_of_joinall SyncOpJoinAllThreads
       (ts_last_hbnode ts) 0;;
     tell klee_thread_terminate;;
     end_thread) (tput ts e w) = ThreadExit w' /\ on_cpu t w' /\
    w_tsync w' = ts_set_live_threads (u32 (ts_live_threads ts - 1)) ts /\
    eng_waiters (w_eng w') (ts_joinall_wlist ts) = ∅ /\
    (forall x, x <> ts_joinall_wlist ts -> eng_waiters (w_eng w') x = eng_waiters e x) /\
    w_cells w' = w_cells w.
Proof.
  intros Hon. erewrite bind_done by apply mod_tsync_tput. erewrite bind_done by apply get_tsync_tput.
  unfold __thread_notify_all_with_hbedges, __canonical_wlist_addr.
  erewrite bind_done by apply tell_tput. erewrite bind_done by apply tell_tput.
  unfold end_thread. cbn [ts_joinall_wlist ts_set_live_threads].
  set (e1 := klee_thread_notify _ _ _ _ _ _ _ _ _).
  pose proof (live_on_cpu t ts e w (u32 (ts_live_threads ts - 1)) Hon) as Hon1.
  assert (on_cpu t (tput (ts_set_live_threads (u32 (ts_live_threads ts - 1)) ts) e1 w)) as Hon2
    by (apply notify_table_list; [done|by left]).
  eexists. split; [reflexivity|].
  destruct (law_thread_terminate e1) as [[_ _ Hv _ _] _].
  pose proof (wl_wf _ (cpu_inv _ _ Hon)) as Hwf.
  destruct (law_notify e (ts_joinall_wlist ts) addr_of_joinall (SyncOpType_to_Z SyncOpJoinAllThreads) 1
    (ts_last_hbnode ts) 0 (-1) 0 Hwf (or_introl eq_refl)) as (_ & _ & Hall & _ & _ & Hvo & _).
  split; [|split; [done|split; [|split; [|done]]]].
  - eapply tput_on_cpu; [exact Hon2|apply quiet_calm, law_thread_terminate|reflexivity].
  - rewrite w_eng_tput, Hv. by apply Hall.
  - intros x Hx. rewrite w_eng_tput, Hv. by apply Hvo.
Qed.
End ThreadEnd.

Section ThreadJoin.
Context {E U : Type} `{!KleeEngine E, !KleeView E, !KleeLaws E} {L : TsyncLayout}.
Abbreviation W := (world E U).
Implicit Types (w : W) (e : E) (ts : tsync_data_t) (d : thread_data_t).

(** The code after the cleanup handlers. *)
Lemma pthread_exit_rest t ts e w v d :
  on_cpu t (tput ts e w) -> thread_at ts t = Some d ->
  exists w',
    (serialize;; exit_slot t v;;
     mod_tsync (fun ts => ts_set_live_threads (u32 (ts_live_threads ts - 1)) ts);;
     ts ← get_tsync;
     __thread_notify_all_with_hbedges (ts_joinall_wlist ts) addr_of_joinall SyncOpJoinAllThreads
       (ts_last_hbnode ts) 0;;
     tell klee_thread_terminate;;
     end_thread) (tput ts e w) = ThreadExit w' /\ on_cpu t w' /\
    ts_live_threads (w_tsync w') = u32 (ts_live_threads ts - 1) /\
    ts_joinall_wlist (w_tsync w') = ts_joinall_wlist ts /\
    ts_threads (w_tsync w') = <[Z.to_nat t := if td_joinable d =? 0 then thread_data_zero
                                else td_set_return_value v (td_set_terminated 1 d)]> (ts_threads ts) /\
    eng_waiters (w_eng w') (ts_joinall_wlist ts) = ∅ /\
    (td_joinable d <> 0 -> eng_waiters (w_eng w') (td_wlist d) = ∅) /\ w_cells w' = w_cells w.
Proof.
  intros Hon Hd. destruct (serialize_on_cpu t ts e w Hon) as (n & e1 & Hser & Hon1 & _).
  rewrite (bind_done _ _ _ _ _ Hser).
  destruct (exit_slot_run t _ e1 w t v d Hon1 Hd) as (e2 & Hc2 & Hslot).
  destruct (Z.eqb_spec (td_joinable d) 0) as [Hj|Hj].
  - destruct Hslot as [Hrun Hon2]. rewrite (bind_done _ _ _ _ _ Hrun).
    destruct (pthread_exit_tail t _ e2 w Hon2) as (w' & Ht & Hon' & Hts & Hj1 & _ & Hcells).
    exists w'. rewrite Ht, Hts. by repeat split; try apply Hon'.
  - cbv zeta in Hslot. destruct Hslot as [Hrun Hon2]. rewrite (bind_done _ _ _ _ _ Hrun).
    destruct (pthread_exit_tail t _ _ w Hon2) as (w' & Ht & Hon' & Hts & Hj1 & Hj2 & Hcells).
    exists w'. rewrite Ht, Hts. split; [done|]. split; [done|]. split; [done|]. split; [done|]. split; [done|].
    split; [done|]. split; [|done]. intros _.
    destruct (decide (td_wlist d = ts_joinall_wlist ts)) as [Heq|Hne]; [by rewrite Heq|].
    rewrite Hj2 by done.
    pose proof (wl_wf _ (cpu_inv _ _ Hon1)) as Hwf. apply (calm_wf _ _ Hc2) in Hwf.
    match goal with |- eng_waiters (klee_thread_notify ?wl ?a ?ty 1 ?s 0 (-1) 0 ?ee) _ = _ =>
      destruct (law_notify ee wl a ty 1 s 0 (-1) 0 Hwf (or_introl eq_refl)) as (_ & _ & Hall & _) end.
    by apply Hall.
Qed.

Lemma pthread_exit_safe t run fuel v w :
  (forall f x w', on_cpu t w' -> always t wl_inv (fun _ w'' => on_cpu t w'') (run f x w')) ->
  on_cpu t w -> always t wl_inv (fun _ w' => on_cpu t w') (pthread_exit run fuel v w).
Proof.
  intros Hrun Hon. unfold pthread_exit. erewrite bind_done by reflexivity.
  rewrite law_concrete_context, (cpu_current _ _ Hon). then_safe run_cleanups_safe.
  rename w0 into w1. rewrite <- (tput_self w1) in H |- *.
  destruct (thread_at (w_tsync w1) t) as [d|] eqn:Hd.
  - destruct (pthread_exit_rest t _ _ w1 v d H Hd) as (w' & -> & Hon' & _). apply Hon'.
  - destruct (serialize_on_cpu t _ _ w1 H) as (n & e1 & Hser & Hon1 & _).
    rewrite (bind_done _ _ _ _ _ Hser). unfold exit_slot.
    erewrite bind_halt; [done|]. erewrite bind_done by apply ask_tput. erewrite bind_done by apply tell_tput.
    eapply bind_halt. unfold get_thread. change (w_tsync (tput ?a ?b ?c)) with a.
    by rewrite thread_at_hbnode, Hd.
Qed.

(** [pthread_create] uses the first free slot of the table: the new thread
    is joinable, not terminated, without a joiner, has a waiting list of its
    own, the number of live threads goes up by one and the caller gets the
    symbolic id of the slot; with all slots taken the call returns [EAGAIN]
    and no slot changes. *)
Theorem pthread_create_spec t w thread attr f arg old :
  on_cpu t w -> w_cells w !! thread = Some old -> length (ts_threads (w_tsync w)) = 16%nat ->
  let l := ts_threads (w_tsync w) in
  (Forall (fun d => td_allocated d <> 0) l ->
     exists w', pthread_create thread attr f arg w = Done EAGAIN w' /\ on_cpu t w' /\
       ts_threads (w_tsync w') = l /\ ts_live_threads (w_tsync w') = ts_live_threads (w_tsync w)) /\
  (forall i d, l !! i = Some d -> td_allocated d = 0 ->
     Forall (fun d => td_allocated d <> 0) (take i l) ->
     exists w' wl, pthread_create thread attr f arg w = Done 0 w' /\ on_cpu t w' /\ wl <> 0 /\
       ts_threads (w_tsync w') = <[i := new_thread wl d]> l /\
       ts_live_threads (w_tsync w') = u32 (ts_live_threads (w_tsync w) + 1) /\
       w_cells w' !! thread = Some (eng_symid (Z.of_nat i))).
Proof.
  intros Hon Hth Hlen l. pose proof (pthread_create_run t w thread attr f arg Hon) as H. cbv zeta in H. fold l in H.
  pose proof (STATIC_LIST_ALLOC_spec l) as Hspec. destruct (STATIC_LIST_ALLOC l) as [k l'] eqn:Hal.
  cbn [fst] in H. split.
  - intros Hall. destruct Hspec as [(-> & _)|(d & Hd & Ha & _)].
    + rewrite decide_True in H by done. destruct H as (e' & Hon' & ->). unfold l. rewrite Hlen. simpl.
      eexists. split; [reflexivity|]. done.
    + by destruct (proj1 (Forall_lookup _ _) Hall k d Hd).
  - intros i d Hd Ha Hbefore.
    assert (k = i /\ k <> length l) as [-> Hne].
    { pose proof (lookup_lt_Some _ _ _ Hd) as Hlt.
      destruct Hspec as [(_ & _ & Hall)|(d' & Hd' & Ha' & _ & Hf)];
        [by destruct (proj1 (Forall_lookup _ _) Hall i d Hd)|].
      pose proof (lookup_lt_Some _ _ _ Hd') as Hlt'. split; [|lia].
      destruct (Nat.lt_trichotomy k i) as [Hk|[Hk|Hk]]; [|done|].
      - destruct (proj1 (Forall_lookup _ _) Hbefore k d'); [|done]. by rewrite lookup_take_lt.
      - destruct (proj1 (Forall_lookup _ _) Hf i d); [|done]. by rewrite lookup_take_lt. }
    rewrite decide_False in H by done. destruct H as (d' & wl & n & e' & Hd' & _ & _ & Hnz & Hon' & ->).
    simplify_eq. unfold mbind, M_bind, store. change (heap_get (tput ?a ?b w)) with (w_cells w).
    simpl. rewrite Hth. simpl. eexists _, wl. split; [reflexivity|].
    split; [by apply (on_cpu_cells t _ (tput _ e' w))|]. split; [done|]. split; [done|]. split; [done|].
    simpl. by rewrite lookup_insert_eq.
Qed.
End ThreadJoin.

Section ThreadOther.
Context {E U : Type} `{!KleeEngine E, !KleeView E, !KleeLaws E} {L : TsyncLayout}.
Abbreviation W := (world E U).
Implicit Types (w : W) (e : E) (ts : tsync_data_t) (d : thread_data_t).

(** The checks of [pthread_join] for an id in range. *)
Lemma pthread_join_checks t w x value_ptr d :
  on_cpu t w -> tid_ok x -> thread_at (w_tsync w) x = Some d ->
  let r := join_retval (eng_symid x) (eng_symid t) (td_allocated d) (td_joinable d) (td_hasjoiner d) in
  let d1 := td_set_hasjoiner 1 d in
  exists n e1, calm (w_eng w) e1 /\
  let ts1 := ts_set_last_hbnode n (w_tsync w) in
  on_cpu t (tput ts1 e1 w) /\
  (r <> 0 -> pthread_join (eng_symid x) value_ptr w = Done r (tput ts1 e1 w)) /\
  (r = 0 -> on_cpu t (tput (set_thread x d1 ts1) e1 w) /\
     pthread_join (eng_symid x) value_ptr w =
     (if td_terminated d =? 0 then
        __thread_sleep (td_wlist d) (addr_of_tdata x) SyncOpJoinThread;;
        join_collect x value_ptr
      else
        n ← __thread_make_hbnode;
        tell (klee_add_hbedge_from_threads_last_hbnode (eng_symid x) n);;
        join_collect x value_ptr) (tput (set_thread x d1 ts1) e1 w)).
Proof.
  intros Hon Hx Hd r d1. pose proof Hon as Hon0. rewrite <- (tput_self w) in Hon0.
  destruct (serialize_on_cpu t _ _ w Hon0) as (n & e1 & Hser & Hon1 & Hc1).
  exists n, e1. split; [done|]. set (ts1 := ts_set_last_hbnode n (w_tsync w)) in *. split; [done|].
  assert (thread_at ts1 x = Some d) as Hd1 by done.
  assert (eng_current e1 = t) as Hcur by apply (cpu_current _ _ Hon1).
  assert (forall k : unit -> M W Z, (serialize ≫= k) w = k tt (tput ts1 e1 w)) as Hs.
  { intros k. rewrite <- (tput_self w) at 1. by rewrite (bind_done _ _ _ _ _ Hser). }
  assert (forall fld, load_tdata x fld (tput ts1 e1 w) = Done (fld d) (tput ts1 e1 w)) as Hload.
  { intros fld. unfold load_tdata. change (w_tsync (tput ts1 e1 w)) with ts1. by rewrite Hd1. }
  assert (forall k, (pthread_self ≫= k) (tput ts1 e1 w) = k (eng_symid t) (tput ts1 e1 w) :> out W Z) as Hself.
  { intros k. unfold pthread_self. erewrite bind_done by apply ask_tput.
    by rewrite law_symbolic_context, Hcur. }
  unfold pthread_join. rewrite Hs. erewrite bind_done by apply ask_tput.
  rewrite law_concrete_context_for by done.
  do 3 (erewrite bind_done by apply Hload). rewrite Hself. fold r.
  split; intros Hr.
  - by rewrite (proj2 (Z.eqb_neq _ _) Hr).
  - rewrite Hr. cbn [Z.eqb negb]. erewrite bind_done by (by apply mod_thread_tput).
    erewrite bind_done by (apply get_thread_tput; by eapply thread_at_set). split; [|done].
    eapply (set_thread_on_cpu t ts1 e1 e1 w x d); [done|reflexivity|done|by left].
Qed.

Lemma thread_list_nonzero t ts e w x d :
  on_cpu t (tput ts e w) -> thread_at ts x = Some d -> td_allocated d <> 0 ->
  td_wlist d <> 0 /\ slot_get (tput ts e w) (SlJoin (Z.to_nat x)) = Some (td_wlist d, None).
Proof.
  intros Hon Hd Ha. pose proof (thread_at_bound t ts e w x d Hon Hd) as Hb.
  apply thread_at_nonneg in Hd as [_ Hd].
  assert (slot_get (tput ts e w) (SlJoin (Z.to_nat x)) = Some (td_wlist d, must_exist (td_wlist d))) as Hs.
  { simpl. rewrite Hd. simpl. rewrite td_list_eq by lia. by rewrite (proj2 (Z.eqb_neq _ _) Ha). }
  assert (td_wlist d <> 0) as Hnz.
  { intros H0. rewrite H0 in Hs. destruct (wl_slots _ (cpu_inv _ _ Hon) _ _ _ Hs) as [[_ [?|?]]|[? _]]; done. }
  split; [done|]. rewrite Hs. unfold must_exist. apply Z.eqb_neq in Hnz. by rewrite Hnz.
Qed.

Lemma tput_sleep_inv t ts e w sl wl addr ty :
  on_cpu t (tput ts e w) -> slot_get (tput ts e w) sl = Some (wl, None) -> wl <> 0 ->
  wl_inv (tput ts (klee_thread_sleep wl addr ty e) w) /\
  t ∈ eng_waiters (klee_thread_sleep wl addr ty e) wl.
Proof.
  intros Hon Hs Hnz. split.
  - eapply (wl_inv_sleep (tput ts e w) _ sl wl None None e addr ty); [apply Hon|reflexivity| |done|done|done|done|done|done].
    rewrite (cpu_current _ _ Hon). apply Hon.
  - destruct (wl_slots _ (cpu_inv _ _ Hon) _ _ _ Hs) as [[? _]|(_ & Hal & _)]; [done|].
    destruct (law_sleep e wl addr ty (wl_wf _ (cpu_inv _ _ Hon)) Hal) as (_ & _ & -> & _).
    rewrite (cpu_current _ _ Hon : eng_current e = t). set_solver.
Qed.

(** Error cases that [join_retval] lets through. *)
Lemma join_retval_ok thread self al jo hj :
  join_retval thread self al jo hj = 0 -> al <> 0 /\ jo <> 0 /\ hj = 0 /\ thread <> self /\ thread < KLEE_MAX_THREADS.
Proof.
  unfold join_retval, klee_expr_select, klee_expr_or.
  destruct (Z.leb_spec KLEE_MAX_THREADS thread), (Z.eqb_spec thread self), (Z.eqb_spec al 0), (Z.eqb_spec jo 0),
    (Z.eqb_spec hj 0); by try (intros; repeat split; auto).
Qed.
End ThreadOther.

Section ThreadSafe2.
Context {E U : Type} `{!KleeEngine E, !KleeView E, !KleeLaws E} {L : TsyncLayout}.
Abbreviation W := (world E U).
Implicit Types (w : W) (e : E) (ts : tsync_data_t) (d : thread_data_t).

(** Sleeping on a list without a counter, then running [k]. *)
Lemma tsleep_safe {A} t ts e w sl wl addr ty (k : M W A) :
  on_cpu t (tput ts e w) -> slot_get (tput ts e w) sl = Some (wl, None) -> wl <> 0 ->
  (forall w', on_cpu t w' -> always t wl_inv (fun _ w'' => on_cpu t w'') (k w')) ->
  always t wl_inv (fun _ w' => on_cpu t w') ((__thread_sleep wl addr ty;; k) (tput ts e w)).
Proof.
  intros Hon Hs Hnz Hk. unfold mbind, M_bind, __thread_sleep, __canonical_wlist_addr. cbn [out_bind always].
  split; [by apply (tput_sleep_inv t ts e w sl wl addr (SyncOpType_to_Z ty))|].
  intros w' Hinv Hrun. apply Hk. apply on_cpu_enter; [by eapply on_cpu_tid|done|done].
Qed.

Lemma pthread_join_safe t thread value_ptr w :
  on_cpu t w -> always t wl_inv (fun _ w' => on_cpu t w') (pthread_join thread value_ptr w).
Proof.
  intros Hon. unfold pthread_join. then_safe serialize_safe. rename w0 into w1.
  erewrite bind_done by reflexivity. set (idx := klee_get_concrete_thread_context_for thread (w_eng w1)).
  assert (forall fld (k : Z -> M W Z), (load_tdata idx fld ≫= k) w1 =
    k (match thread_at (w_tsync w1) idx with Some d => fld d | None => klee_load8_oob idx (w_eng w1) end) w1) as Hl.
  { intros fld k. unfold mbind, M_bind, load_tdata. by destruct (thread_at _ idx). }
  rewrite !Hl. erewrite bind_done by reflexivity.
  destruct (negb _) eqn:Hr; [done|]. apply negb_false_iff, Z.eqb_eq, join_retval_ok in Hr as (Ha & _).
  rewrite <- (tput_self w1) in H |- *. destruct (thread_at (w_tsync w1) idx) as [d|] eqn:Hd.
  2:{ erewrite bind_halt; [done|]. unfold mod_thread. change (w_tsync (tput ?a ?b ?c)) with a. by rewrite Hd. }
  erewrite bind_done by (by apply mod_thread_tput).
  erewrite bind_done by (apply get_thread_tput; by eapply thread_at_set). cbn [td_terminated td_set_hasjoiner].
  set (ts1 := set_thread idx _ _).
  assert (on_cpu t (tput ts1 (w_eng w1) w1)) as Hon1
    by (eapply (set_thread_on_cpu t _ _ _ w1 idx d); [done|reflexivity|done|by left]).
  destruct (td_terminated d =? 0).
  - destruct (thread_list_nonzero t ts1 _ w1 idx (td_set_hasjoiner 1 d) Hon1) as [Hnz Hs];
      [by eapply thread_at_set|done|].
    apply (tsleep_safe t ts1 _ w1 _ _ _ _ _ Hon1 Hs Hnz). intros. by apply join_collect_safe.
  - unfold __thread_make_hbnode. erewrite bind_done by apply call_tput. erewrite bind_done by apply tell_tput.
    apply join_collect_safe. eapply tput_on_cpu; [exact Hon1|calm_tac|reflexivity].
Qed.

Lemma joinall_loop_safe t fuel w :
  on_cpu t w -> always t wl_inv (fun _ w' => on_cpu t w') (joinall_loop fuel w).
Proof.
  revert w. induction fuel as [|fuel IH]; intros w Hon; rewrite <- (tput_self w) in Hon |- *;
    cbn [joinall_loop]; erewrite bind_done by apply get_tsync_tput; destruct (1 <? _); try done.
  assert (slot_get (tput (w_tsync w) (w_eng w) w) SlJoinAll =
    Some (ts_joinall_wlist (w_tsync w), must_exist (ts_joinall_wlist (w_tsync w)))) as Hs by done.
  assert (ts_joinall_wlist (w_tsync w) <> 0) as Hnz.
  { intros H0. rewrite H0 in Hs. destruct (wl_slots _ (cpu_inv _ _ Hon) _ _ _ Hs) as [[_ [?|?]]|[? _]]; done. }
  unfold must_exist in Hs. rewrite (proj2 (Z.eqb_neq _ _) Hnz) in Hs.
  by apply (tsleep_safe t _ _ w SlJoinAll).
Qed.

Lemma pthread_joinall_safe t fuel w :
  on_cpu t w -> always t wl_inv (fun _ w' => on_cpu t w') (pthread_joinall fuel w).
Proof. intros Hon. then_safe serialize_safe. by apply joinall_loop_safe. Qed.

Lemma pthread_detach_safe t thread w :
  on_cpu t w -> always t wl_inv (fun _ w' => on_cpu t w') (pthread_detach thread w).
Proof.
  intros Hon. unfold pthread_detach. destruct (_ <=? thread); [done|]. then_safe serialize_safe.
  erewrite bind_done by reflexivity. then_safe get_thread_safe. destruct H0 as [H0 _].
  destruct (td_allocated a0 =? 0); [done|]. destruct (td_joinable a0 =? 0); [done|].
  apply always_mbind. destruct (negb _).
  - eapply always_mono; [|by apply clear_safe]. done.
  - eapply always_mono; [|apply mod_thread_safe; [done|by left]]. done.
Qed.

Lemma make_hbnode_safe t w :
  on_cpu t w -> always t wl_inv (fun _ w' => on_cpu t w') (__thread_make_hbnode w).
Proof. intros Hon. apply (on_cpu_calm t w); [done| |done]. simpl. apply quiet_calm, law_add_hbnode. Qed.

Lemma make_hbnode_from_safe t n w :
  on_cpu t w -> always t wl_inv (fun _ w' => on_cpu t w') (__thread_make_hbnode_from n w).
Proof.
  intros Hon. unfold __thread_make_hbnode_from. then_safe make_hbnode_safe.
  apply always_mbind. eapply always_mono; [|apply tell_safe; [done|]]; [done|].
  intros. apply quiet_calm, law_add_hbedge.
Qed.

Lemma once_wait_safe t fuel a w :
  on_cpu t w -> always t wl_inv (fun _ w' => on_cpu t w') (once_wait fuel a w).
Proof.
  revert w. induction fuel as [|fuel IH]; intros w Hon; cbn [once_wait]; then_safe load_safe;
    destruct (_ =? -1); try done.
  - then_safe make_hbnode_from_safe. done.
  - then_safe preempt_safe. by apply IH.
  - then_safe make_hbnode_from_safe. done.
Qed.

Lemma pthread_once_safe t fuel a (init : M W unit) w :
  (forall w', on_cpu t w' -> always t wl_inv (fun _ w'' => on_cpu t w'') (init w')) ->
  on_cpu t w -> always t wl_inv (fun _ w' => on_cpu t w') (pthread_once fuel a init w).
Proof.
  intros Hinit Hon. unfold pthread_once. then_safe load_safe. destruct (_ =? 0).
  - then_safe store_cell_safe. then_safe Hinit. then_safe make_hbnode_safe. then_safe store_cell_safe. done.
  - by apply once_wait_safe.
Qed.

Lemma modify_cleanup_safe t a (f : _pthread_cleanup_buffer -> _pthread_cleanup_buffer) w :
  on_cpu t w -> always t wl_inv (fun _ w' => on_cpu t w') (modify a f w).
Proof.
  intros Hon. unfold modify. then_safe load_safe. unfold store.
  destruct (heap_get _ !! a); [|done]. by apply on_cpu_cleanups.
Qed.

Lemma pthread_cleanup_push_safe t buffer routine arg w :
  on_cpu t w -> always t wl_inv (fun _ w' => on_cpu t w') (_pthread_cleanup_push buffer routine arg w).
Proof.
  intros Hon. unfold _pthread_cleanup_push. erewrite bind_done by reflexivity.
  then_safe modify_cleanup_safe. then_safe modify_cleanup_safe. then_safe get_thread_safe. destruct H1 as [H1 _].
  then_safe modify_cleanup_safe. apply mod_thread_safe; [done|by left].
Qed.

Lemma pthread_cleanup_pop_safe t run buffer execute w :
  (forall f x w', on_cpu t w' -> always t wl_inv (fun _ w'' => on_cpu t w'') (run f x w')) ->
  on_cpu t w -> always t wl_inv (fun _ w' => on_cpu t w') (_pthread_cleanup_pop run buffer execute w).
Proof.
  intros Hrun Hon. unfold _pthread_cleanup_pop. erewrite bind_done by reflexivity. apply always_mbind.
  eapply (always_mono _ _ (fun _ w' => on_cpu t w')).
  - intros ? w' Hon'. then_safe load_safe. apply mod_thread_safe; [done|by left].
  - destruct (negb _); [|done]. then_safe load_safe. by apply Hrun.
Qed.
End ThreadSafe2.
