(* ===== verification/ThreadSpec.v ===== *)
(** * What threads can rely on ([runtime/POSIX/threads.c])

    The functional properties of ending, joining and detaching threads, of the
    cleanup handlers and of [pthread_once], with witnesses on the concrete
    engine. *)

From stdpp Require Import base gmap list fin_maps relations.
From Stdlib Require Import ZArith Lia.
From S2P Require Import Prelude PthreadTypes Klee Interleave WaitLists SimEngine Demo Threads.

(** ** What threads can rely on *)

Section ThreadSpec.
Context {E U : Type} `{!KleeEngine E, !KleeView E, !KleeLaws E} {L : TsyncLayout}.
Abbreviation W := (world E U).
Implicit Types (w : W) (e : E) (ts : tsync_data_t) (d : thread_data_t).

(** Without cleanup handlers the loop does nothing. *)
Lemma run_cleanups_none run fuel idx w d :
  thread_at (w_tsync w) idx = Some d -> td_cleanup_stack d = 0 -> run_cleanups run fuel idx w = Done tt w.
Proof.
  intros Hd Hc. destruct fuel; cbn [run_cleanups]; unfold mbind, M_bind, get_thread; rewrite Hd;
    cbn [out_bind]; by rewrite Hc.
Qed.

Lemma pthread_exit_run t w run fuel v d :
  on_cpu t w -> thread_at (w_tsync w) t = Some d -> td_cleanup_stack d = 0 ->
  exists w', pthread_exit run fuel v w = ThreadExit w' /\ on_cpu t w' /\
    ts_live_threads (w_tsync w') = u32 (ts_live_threads (w_tsync w) - 1) /\
    ts_joinall_wlist (w_tsync w') = ts_joinall_wlist (w_tsync w) /\
    ts_threads (w_tsync w') = <[Z.to_nat t := if td_joinable d =? 0 then thread_data_zero
                                else td_set_return_value v (td_set_terminated 1 d)]> (ts_threads (w_tsync w)) /\
    eng_waiters (w_eng w') (ts_joinall_wlist (w_tsync w)) = ∅ /\
    (td_joinable d <> 0 -> eng_waiters (w_eng w') (td_wlist d) = ∅) /\ w_cells w' = w_cells w.
Proof.
  intros Hon Hd Hc. unfold pthread_exit. erewrite bind_done by reflexivity.
  rewrite law_concrete_context, (cpu_current _ _ Hon).
  erewrite bind_done by (by eapply run_cleanups_none).
  pose proof Hon as Hon0. rewrite <- (tput_self w) in Hon0.
  destruct (pthread_exit_rest t _ _ w v d Hon0 Hd) as (w' & Hrun & H). rewrite (tput_self w) in Hrun.
  exists w'. split; [exact Hrun|exact H].
Qed.

(** [pthread_exit] of a thread without cleanup handlers ends the thread:
    the number of live threads goes down by one, everybody in
    [pthread_joinall] is woken; a joinable thread leaves its return value and
    "terminated" in its slot and wakes its joiner, a detached one frees the
    slot. *)
Theorem pthread_exit_spec t w run fuel v d :
  on_cpu t w -> thread_at (w_tsync w) t = Some d -> td_cleanup_stack d = 0 ->
  exists w', pthread_exit run fuel v w = ThreadExit w' /\ wl_inv w' /\
    ts_live_threads (w_tsync w') = u32 (ts_live_threads (w_tsync w) - 1) /\
    eng_waiters (w_eng w') (ts_joinall_wlist (w_tsync w)) = ∅ /\
    (td_joinable d <> 0 ->
       thread_at (w_tsync w') t = Some (td_set_return_value v (td_set_terminated 1 d)) /\
       eng_waiters (w_eng w') (td_wlist d) = ∅) /\
    (td_joinable d = 0 -> thread_at (w_tsync w') t = Some thread_data_zero).
Proof.
  intros Hon Hd Hc.
  destruct (pthread_exit_run t w run fuel v d Hon Hd Hc) as (w' & Hr & Hon' & Hlive & _ & Hth & Hja & Hj & _).
  assert (thread_at (w_tsync w') t = Some (if td_joinable d =? 0 then thread_data_zero
    else td_set_return_value v (td_set_terminated 1 d))) as Hslot.
  { unfold thread_at. rewrite Hth. apply thread_at_nonneg in Hd as [H0 Hd].
    rewrite (proj2 (Z.leb_le 0 t)) by lia. apply list_lookup_insert_eq. by eapply lookup_lt_Some. }
  exists w'. split; [done|]. split; [apply Hon'|]. split; [done|]. split; [done|]. split.
  - intros Hn. rewrite (proj2 (Z.eqb_neq _ _) Hn) in Hslot. auto.
  - intros H0. by rewrite H0 in Hslot.
Qed.

(** The value of the merged error expression. *)
Lemma join_retval_cases t x al jo hj :
  tid_ok t -> tid_ok x ->
  join_retval (eng_symid x) (eng_symid t) al jo hj =
    if decide (x = t) then EDEADLK else if al =? 0 then ESRCH
    else if (jo =? 0) || negb (hj =? 0) then EINVAL else 0.
Proof.
  intros Ht Hx. destruct (law_symid_ok x Hx) as [_ Hlt].
  unfold join_retval, klee_expr_select, klee_expr_or. rewrite (proj2 (Z.leb_gt _ _)) by done.
  destruct (decide (x = t)) as [->|Hne]; [by rewrite Z.eqb_refl|].
  rewrite (proj2 (Z.eqb_neq _ _)); [done|]. intros Heq. by apply law_symid_inj in Heq.
Qed.

Lemma join_collect_run x value_ptr old d ts e w :
  thread_at ts x = Some d -> value_ptr <> 0 -> w_cells w !! value_ptr = Some old ->
  exists w', join_collect x value_ptr (tput ts e w) = Done 0 w' /\
    w_cells w' !! value_ptr = Some (td_return_value d) /\ w_tsync w' = set_thread x thread_data_zero ts.
Proof.
  intros Hd Hp Hv. unfold join_collect. rewrite (proj2 (Z.eqb_neq _ _) Hp). cbn [negb].
  unfold mbind, M_bind. rewrite (get_thread_tput _ _ _ _ d) by done. cbn [out_bind].
  unfold store. change (heap_get (tput ts e w)) with (w_cells w). rewrite Hv. cbn [out_bind].
  unfold STATIC_LIST_CLEAR, mod_thread.
  change (w_tsync (heap_set ?h (tput ts e w))) with ts. cbn. rewrite Hd. cbn.
  eexists. split; [reflexivity|]. split; [|done]. cbn. by rewrite lookup_insert_eq.
Qed.

(** An id out of range, whatever the reads behind the table return. *)
Lemma pthread_join_range t w y value_ptr :
  on_cpu t w -> KLEE_MAX_THREADS <= y ->
  exists w', pthread_join y value_ptr w = Done ESRCH w' /\ on_cpu t w' /\ ts_threads (w_tsync w') = ts_threads (w_tsync w).
Proof.
  intros Hon Hy. pose proof Hon as Hon0. rewrite <- (tput_self w) in Hon0.
  destruct (serialize_on_cpu t _ _ w Hon0) as (n & e1 & Hser & Hon1 & _). rewrite (tput_self w) in Hser.
  eexists. split; [|split; [exact Hon1|done]]. unfold pthread_join. rewrite (bind_done _ _ _ _ _ Hser).
  erewrite bind_done by apply ask_tput.
  assert (forall i fld w0, exists z, load_tdata i fld w0 = Done z w0) as Hld
    by (intros i fld w0; unfold load_tdata; destruct (thread_at _ i); by eexists).
  do 3 (edestruct Hld as [? Hz]; rewrite (bind_done _ _ _ _ _ Hz); clear Hz).
  unfold join_retval, klee_expr_select. by rewrite (proj2 (Z.leb_le _ _) Hy).
Qed.

(** C30: [pthread_join] reports an id out of range or a free slot ([ESRCH]), a
    thread joining itself ([EDEADLK]), and a detached thread or one that
    already has a joiner ([EINVAL]), leaving the thread table alone; on a
    thread that still runs the caller goes to sleep on that thread's list, and
    on one that has ended it gets the return value and frees the slot. *)
Theorem pthread_join_spec t w x value_ptr d old :
  on_cpu t w -> tid_ok x -> thread_at (w_tsync w) x = Some d ->
  value_ptr <> 0 -> w_cells w !! value_ptr = Some old ->
  (forall y, KLEE_MAX_THREADS <= y -> exists w', pthread_join y value_ptr w = Done ESRCH w' /\
     on_cpu t w' /\ ts_threads (w_tsync w') = ts_threads (w_tsync w)) /\
  (x = t \/ td_allocated d = 0 \/ td_joinable d = 0 \/ td_hasjoiner d <> 0 ->
     exists w', pthread_join (eng_symid x) value_ptr w =
         Done (if decide (x = t) then EDEADLK else if td_allocated d =? 0 then ESRCH else EINVAL) w' /\
       on_cpu t w' /\ ts_threads (w_tsync w') = ts_threads (w_tsync w)) /\
  (x <> t -> td_allocated d <> 0 -> td_joinable d <> 0 -> td_hasjoiner d = 0 ->
     (td_terminated d = 0 ->
        exists w' k, pthread_join (eng_symid x) value_ptr w = Sleep (td_wlist d) w' k /\ wl_inv w' /\
          t ∈ eng_waiters (w_eng w') (td_wlist d) /\
          thread_at (w_tsync w') x = Some (td_set_hasjoiner 1 d)) /\
     (td_terminated d <> 0 ->
        exists w', pthread_join (eng_symid x) value_ptr w = Done 0 w' /\ on_cpu t w' /\
          w_cells w' !! value_ptr = Some (td_return_value d) /\
          thread_at (w_tsync w') x = Some thread_data_zero)).
Proof.
  intros Hon Hx Hd Hp Hv. split; [intros y Hy; by apply pthread_join_range|].
  pose proof (pthread_join_safe t (eng_symid x) value_ptr w Hon) as Hsafe.
  destruct (pthread_join_checks t w x value_ptr d Hon Hx Hd) as (n & e1 & Hc & Hon1 & Herr & Hok).
  rewrite (join_retval_cases t x) in Herr, Hok by (done || by eapply on_cpu_tid). split.
  - intros Hcase. eexists. split; [|split; [exact Hon1|done]]. destruct (decide (x = t)) as [->|Hne]; [by apply Herr|].
    destruct (Z.eqb_spec (td_allocated d) 0) as [Ha|Ha]; [by apply Herr|].
    replace ((td_joinable d =? 0) || negb (td_hasjoiner d =? 0)) with true in Herr; [by apply Herr|].
    destruct Hcase as [?|[?|[->|Hj]]]; [done|done|done|].
    rewrite (proj2 (Z.eqb_neq _ _) Hj). by rewrite orb_true_r.
  - intros Hne Ha Hj Hh. rewrite decide_False, (proj2 (Z.eqb_neq _ _) Ha), (proj2 (Z.eqb_neq _ _) Hj), Hh in Hok by done.
    destruct (Hok eq_refl) as [Hon2 Hrun]. rewrite Hrun in Hsafe |- *.
    set (ts1 := ts_set_last_hbnode n (w_tsync w)) in *. set (d1 := td_set_hasjoiner 1 d) in *.
    assert (thread_at (set_thread x d1 ts1) x = Some d1) as Hd1 by (by eapply thread_at_set).
    split; intros Hterm.
    + rewrite Hterm in *. cbn [Z.eqb] in *.
      destruct (thread_list_nonzero t _ e1 w x d1 Hon2 Hd1) as [Hnz Hs]; [done|].
      destruct (tput_sleep_inv t _ e1 w _ _ (addr_of_tdata x) (SyncOpType_to_Z SyncOpJoinThread) Hon2 Hs Hnz)
        as [Hinv Hin].
      eexists _, _. split; [reflexivity|]. split; [exact Hinv|]. split; [exact Hin|exact Hd1].
    + rewrite (proj2 (Z.eqb_neq _ _) Hterm) in *. unfold __thread_make_hbnode in *.
      erewrite bind_done in Hsafe |- * by apply call_tput. erewrite bind_done in Hsafe |- * by apply tell_tput.
      match goal with |- context [join_collect x value_ptr (tput ?a ?b w)] =>
        destruct (join_collect_run x value_ptr old d1 a b w Hd1 Hp Hv) as (w' & Hjc & Hcell & Hts) end.
      rewrite Hjc in Hsafe |- *. exists w'. split; [done|]. split; [done|]. split; [done|].
      rewrite Hts. by eapply thread_at_set.
Qed.

(** The value a thread passes to [pthread_exit] is the one the joiner
    gets, and the slot is free again afterwards. *)
Theorem exit_join_roundtrip t x w run fuel v d value_ptr old w1 :
  on_cpu x w -> thread_at (w_tsync w) x = Some d -> td_cleanup_stack d = 0 ->
  td_allocated d <> 0 -> td_joinable d <> 0 -> td_hasjoiner d = 0 ->
  pthread_exit run fuel v w = ThreadExit w1 -> tid_ok t -> t <> x -> runnable t w1 ->
  value_ptr <> 0 -> w_cells w !! value_ptr = Some old ->
  exists w2, pthread_join (eng_symid x) value_ptr (switch_to t w1) = Done 0 w2 /\
    w_cells w2 !! value_ptr = Some v /\ thread_at (w_tsync w2) x = Some thread_data_zero.
Proof.
  intros Hon Hd Hc Ha Hj Hh Hex Ht Hne Hrt Hp Hv.
  destruct (pthread_exit_run x w run fuel v d Hon Hd Hc) as (w' & Hr & Hon' & _ & _ & Hth & _ & _ & Hcells).
  rewrite Hex in Hr. injection Hr as <-. rewrite (proj2 (Z.eqb_neq _ _) Hj) in Hth.
  assert (on_cpu t (switch_to t w1)) as Hon2 by (apply on_cpu_enter; [done|apply Hon'|done]).
  assert (thread_at (w_tsync (switch_to t w1)) x = Some (td_set_return_value v (td_set_terminated 1 d))) as Hd2.
  { change (w_tsync (switch_to t w1)) with (w_tsync w1). unfold thread_at. rewrite Hth.
    apply thread_at_nonneg in Hd as [H0 Hd]. rewrite (proj2 (Z.leb_le 0 x)) by lia.
    apply list_lookup_insert_eq. by eapply lookup_lt_Some. }
  pose proof (pthread_join_safe t (eng_symid x) value_ptr _ Hon2) as Hsafe.
  destruct (pthread_join_checks t _ x value_ptr _ Hon2 (on_cpu_tid _ _ Hon) Hd2) as (n & e1 & _ & Hon3 & _ & Hok).
  rewrite (join_retval_cases t x) in Hok by (done || by eapply on_cpu_tid).
  cbn in Hok. rewrite decide_False, (proj2 (Z.eqb_neq _ _) Ha), (proj2 (Z.eqb_neq _ _) Hj), Hh in Hok by done.
  destruct (Hok eq_refl) as [_ ->]. unfold __thread_make_hbnode.
  erewrite bind_done by apply call_tput. erewrite bind_done by apply tell_tput.
  match goal with |- context [join_collect x value_ptr (tput ?a ?b ?ww)] =>
    destruct (join_collect_run x value_ptr old _ a b ww (thread_at_set _ _ _ _ Hd2) Hp) as (w2 & Hjc & Hcell & Hts) end.
  { change (w_cells w1 !! value_ptr = Some old). by rewrite Hcells. }
  exists w2. split; [done|]. split; [done|]. rewrite Hts. eapply thread_at_set, thread_at_set, Hd2.
Qed.
End ThreadSpec.

(** ** Cleanup handlers *)

Section Cleanup.
Context {E : Type} `{!KleeEngine E, !KleeView E, !KleeLaws E} {L : TsyncLayout}.
Abbreviation W := (world E (list (Z * Z))).
Implicit Types (w : W) (e : E) (d : thread_data_t).

(** Running a handler means writing its name and argument into the log. *)
Definition log_run (f x : Z) : M W unit := l ← get_user; put_user (l ++ [(f, x)]).

(** Pushing handlers, given as buffer, routine and argument, in order. *)
Fixpoint push_all (fs : list (Z * Z * Z)) : M W unit :=
  match fs with
  | [] => mret tt
  | (b, f, x) :: fs => _pthread_cleanup_push b f x;; push_all fs
  end.

(** The linked list of buffers that starts at [p], top of the stack first. *)
Fixpoint chain (h : gmap Z _pthread_cleanup_buffer) (p : Z) (fs : list (Z * Z * Z)) : Prop :=
  match fs with
  | [] => p = 0
  | (b, f, x) :: fs =>
      p = b /\ b <> 0 /\ exists ct prev, h !! b = Some (CleanupBuffer f x ct prev) /\ chain h prev fs
  end.

Lemma chain_insert h p fs b buf : b ∉ fs.*1.*1 -> chain h p fs -> chain (<[b := buf]> h) p fs.
Proof.
  revert p. induction fs as [|[[b' f] x] fs IH]; intros p; [done|]. cbn [fmap list_fmap fst].
  rewrite not_elem_of_cons. intros [Hne Hnin] (-> & Hb & ct & prev & Hl & Hc).
  split; [done|]. split; [done|]. exists ct, prev. split; [by rewrite lookup_insert_ne|by apply IH].
Qed.

(** The part of the state that the handlers concern. *)
Record handlers (t : Z) w (fs : list (Z * Z * Z)) : Prop := Handlers {
  hd_current : eng_current (w_eng w) = t;
  hd_slot : exists d, thread_at (w_tsync w) t = Some d /\ chain (w_cleanups w) (td_cleanup_stack d) fs
}.

Lemma cleanup_push_run t w fs b f x buf :
  handlers t w fs -> b ∉ fs.*1.*1 -> b <> 0 -> w_cleanups w !! b = Some buf ->
  exists w', _pthread_cleanup_push b f x w = Done tt w' /\ handlers t w' ((b, f, x) :: fs) /\
    w_user w' = w_user w /\ dom (w_cleanups w') = dom (w_cleanups w).
Proof.
  intros [Hcur (d & Hd & Hc)] Hnin Hnz Hb. unfold _pthread_cleanup_push.
  erewrite bind_done by reflexivity. rewrite law_concrete_context, Hcur.
  assert (heap_get w !! b = Some buf) as Hb' by exact Hb.
  assert (forall (k : unit -> M W unit) (g : _pthread_cleanup_buffer -> _ ) (v : _pthread_cleanup_buffer) w0,
    heap_get w0 !! b = Some v -> (modify b g ≫= k) w0 = k tt (put b (g v) (w_eng w0) w0)) as Hmod.
  { intros k g v w0 Hv. rewrite <- (put_self b v w0 Hv) at 1.
    by erewrite bind_done by apply modify_put. }
  rewrite (Hmod _ _ _ _ Hb'). rewrite (Hmod _ _ _ _ (lookup_put _ _ _ _)).
  erewrite bind_done; [|unfold get_thread; change (w_tsync (put b ?v ?e ?w0)) with (w_tsync w0);
    change (w_tsync (put b ?v ?e ?w0)) with (w_tsync w0); rewrite Hd; reflexivity].
  rewrite (Hmod _ _ _ _ (lookup_put _ _ _ _)). rewrite !put_put, !w_eng_put. cbn.
  unfold mod_thread. change (w_tsync (put b ?v ?e ?w0)) with (w_tsync w0). rewrite Hd.
  eexists. split; [reflexivity|]. split; [split|split].
  - done.
  - exists (td_set_cleanup_stack b d). split; [by eapply thread_at_set|]. simpl.
    split; [done|]. split; [done|]. exists (__canceltype buf), (td_cleanup_stack d).
    unfold put; cbn. split; [by rewrite lookup_insert_eq|]. by apply chain_insert.
  - done.
  - unfold put; cbn. rewrite dom_insert_L. apply elem_of_dom_2 in Hb. set_solver.
Qed.

Lemma push_all_run t w fs fs0 :
  handlers t w fs0 -> NoDup (fs.*1.*1) -> (forall b, b ∈ fs.*1.*1 -> b <> 0 /\ b ∈ dom (w_cleanups w) /\ b ∉ fs0.*1.*1) ->
  exists w', push_all fs w = Done tt w' /\ handlers t w' (reverse fs ++ fs0) /\ w_user w' = w_user w.
Proof.
  revert w fs0. induction fs as [|[[b f] x] fs IH]; intros w fs0 Hh Hnd Hb; [by exists w|].
  cbn [fmap list_fmap fst] in *. apply NoDup_cons in Hnd as [Hni Hnd].
  destruct (Hb b) as (Hz & (buf & Hbuf)%elem_of_dom & Hn0); [set_solver|].
  destruct (cleanup_push_run t w fs0 b f x buf Hh Hn0 Hz Hbuf) as (w1 & H1 & Hh1 & Hu1 & Hdom).
  destruct (IH w1 ((b, f, x) :: fs0) Hh1 Hnd) as (w2 & H2 & Hh2 & Hu2).
  { intros b' Hb'. destruct (Hb b') as (Hz' & Hd' & Hn'); [set_solver|]. rewrite Hdom.
    split; [done|]. split; [done|]. cbn. apply not_elem_of_cons. split; [|done]. by intros ->. }
  exists w2. cbn [push_all]. rewrite (bind_done _ _ _ _ _ H1), H2.
  split; [done|]. rewrite reverse_cons, <- (assoc_L (++)). split; [done|]. congruence.
Qed.

Lemma run_cleanups_run t fs w :
  handlers t w fs ->
  exists w', run_cleanups log_run (length fs) t w = Done tt w' /\ handlers t w' [] /\
    w_user w' = w_user w ++ map (fun f => (f.1.2, f.2)) fs.
Proof.
  revert w. induction fs as [|[[b f] x] fs IH]; intros w [Hcur (d & Hd & Hc)].
  - cbn in Hc. exists w. split; [by apply (run_cleanups_none _ _ _ _ d)|]. split; [|by rewrite app_nil_r].
    split; [done|]. by exists d.
  - destruct Hc as (Hst & Hz & ct & prev & Hb & Hc). cbn [length run_cleanups].
    erewrite bind_done; [|unfold get_thread; by rewrite Hd]. rewrite Hst, (proj2 (Z.eqb_neq _ _) Hz).
    assert (forall w0 : W, w_cleanups w0 !! b = Some (CleanupBuffer f x ct prev) ->
      load b w0 = Done (CleanupBuffer f x ct prev) w0) as Hload.
    { intros w0 H0. unfold load. change (heap_get w0 !! b) with (w_cleanups w0 !! b). by rewrite H0. }
    erewrite bind_done by (by apply Hload). cbn [__routine __arg].
    erewrite bind_done by reflexivity. erewrite bind_done by (by apply Hload).
    set (w1 := w_set_user _ _). cbn [__prev].
    erewrite bind_done; [|unfold mod_thread; change (w_tsync w1) with (w_tsync w); rewrite Hd; reflexivity].
    destruct (IH (w_set_tsync (set_thread t (td_set_cleanup_stack prev d) (w_tsync w)) w1)) as (w2 & H2 & Hh2 & Hu2).
    { split; [done|]. exists (td_set_cleanup_stack prev d). split; [by eapply thread_at_set|done]. }
    exists w2. rewrite H2. split; [done|]. split; [done|]. rewrite Hu2. cbn. by rewrite <- (assoc_L (++)).
Qed.

(** Cleanup handlers run in the reverse of the order in which they were
    pushed, each exactly once, and leave an empty stack. *)
Theorem cleanup_handlers_lifo t w fs d :
  eng_current (w_eng w) = t -> thread_at (w_tsync w) t = Some d -> td_cleanup_stack d = 0 ->
  NoDup (fs.*1.*1) -> (forall b, b ∈ fs.*1.*1 -> b <> 0 /\ b ∈ dom (w_cleanups w)) ->
  exists w' d', (push_all fs;; run_cleanups log_run (length fs) t) w = Done tt w' /\
    w_user w' = w_user w ++ reverse (map (fun f => (f.1.2, f.2)) fs) /\
    thread_at (w_tsync w') t = Some d' /\ td_cleanup_stack d' = 0.
Proof.
  intros Hcur Hd Hst Hnd Hb.
  destruct (push_all_run t w fs []) as (w1 & H1 & Hh1 & Hu1); [split; [done|by exists d]|done| |].
  { intros b Hin. destruct (Hb b Hin). split; [done|]. split; [done|]. apply not_elem_of_nil. }
  rewrite app_nil_r in Hh1. destruct (run_cleanups_run t _ w1 Hh1) as (w2 & H2 & [_ (d' & Hd' & Hst')] & Hu2).
  exists w2, d'. rewrite (bind_done _ _ _ _ _ H1). rewrite length_reverse in H2. rewrite H2, Hu2, Hu1.
  split; [done|]. split; [|done]. by rewrite <- fmap_reverse.
Qed.
End Cleanup.

(** ** [pthread_once] *)

Section Once.
Context {E U : Type} `{!KleeEngine E, !KleeView E, !KleeLaws E}.
Abbreviation W := (world E U).
Implicit Types (w : W).

Lemma load_cell (a v : Z) w : w_cells w !! a = Some v -> load a w = Done v w.
Proof. intros Hv. unfold load. change (heap_get w !! a) with (w_cells w !! a). by rewrite Hv. Qed.

Lemma store_cell (a v v' : Z) w :
  w_cells w !! a = Some v -> store a v' w = Done tt (heap_set (<[a := v']> (w_cells w)) w).
Proof. intros Hv. unfold store. change (heap_get w) with (w_cells w). by rewrite Hv. Qed.

(** The first caller of [pthread_once] runs the routine, once, with the
    control set to -1 meanwhile; when the routine has returned, every later
    call returns 0 at once and changes nothing but the happens-before graph;
    a call that comes while the routine runs gives up the processor. *)
Theorem pthread_once_spec w w1 a (init : M W unit) fuel c :
  w_cells w !! a = Some 0 ->
  init (heap_set (<[a := -1]> (w_cells w)) w) = Done tt w1 -> w_cells w1 !! a = Some c ->
  (exists w2 n, pthread_once fuel a init w = Done 0 w2 /\
     w_cells w2 = <[a := n]> (w_cells w1) /\ w_user w2 = w_user w1 /\ 0 < n) /\
  (forall w' n fuel' init', w_cells w' !! a = Some n -> 0 < n ->
     exists e, pthread_once fuel' a init' w' = Done 0 (w_set_eng e w')) /\
  (forall w' fuel' init', w_cells w' !! a = Some (-1) ->
     pthread_once (S fuel') a init' w' = Preempt 1 w' (fun w'' => once_wait fuel' a w'')).
Proof.
  intros H0 Hinit H1. split; [|split].
  - unfold pthread_once. rewrite (bind_done _ _ _ _ _ (load_cell _ _ _ H0)). cbn [Z.eqb].
    rewrite (bind_done _ _ _ _ _ (store_cell _ _ _ _ H0)), (bind_done _ _ _ _ _ Hinit).
    erewrite bind_done by reflexivity.
    set (n := (klee_add_hbnode (w_eng w1)).1). set (w1' := w_set_eng _ w1).
    assert (w_cells w1' !! a = Some c) as H1' by exact H1.
    rewrite (bind_done _ _ _ _ _ (store_cell a c (s32 n) w1' H1')).
    pose proof (law_add_hbnode_range (w_eng w1)) as Hr. fold n in Hr.
    eexists _, (s32 n). split; [reflexivity|]. split; [done|]. split; [done|]. rewrite s32_small; lia.
  - intros w' n fuel' init' Hn Hpos. unfold pthread_once.
    rewrite (bind_done _ _ _ _ _ (load_cell _ _ _ Hn)). rewrite (proj2 (Z.eqb_neq n 0)) by lia.
    destruct fuel'; cbn [once_wait]; rewrite (bind_done _ _ _ _ _ (load_cell _ _ _ Hn));
      rewrite (proj2 (Z.eqb_neq n (-1))) by lia; by eexists.
  - intros w' fuel' init' Hn. unfold pthread_once.
    rewrite (bind_done _ _ _ _ _ (load_cell _ _ _ Hn)). cbn [Z.eqb once_wait].
    rewrite (bind_done _ _ _ _ _ (load_cell _ _ _ Hn)). done.
Qed.
End Once.

(** ** Witnesses *)

#[local] Instance demo_layout : TsyncLayout := {| addr_of_tdata i := 8000 + 48 * i; addr_of_joinall := 9000 |}.

Definition no_run {W} (f x : Z) : M W unit := mret tt.

Lemma pthread_create_spec_witness :
  exists w' wl, pthread_create 600 0 7 8 (demo_world PTHREAD_MUTEX_INITIALIZER tt) = Done 0 w' /\ wl <> 0 /\
    ts_live_threads (w_tsync w') = 2 /\ w_cells w' !! 600 = Some 1.
Proof.
  destruct (pthread_create_spec 0 (demo_world PTHREAD_MUTEX_INITIALIZER tt) 600 0 7 8 0) as [_ H];
    [by apply demo_on_cpu|reflexivity|reflexivity|].
  destruct (H 1%nat thread_data_zero) as (w' & wl & H1 & _ & H2 & _ & H3 & H4);
    [reflexivity|reflexivity|repeat constructor; discriminate|].
  exists w', wl. split; [exact H1|]. split; [exact H2|]. split; [exact H3|exact H4].
Defined.

Lemma pthread_exit_spec_witness :
  exists w', pthread_exit no_run 0 5 (demo_world PTHREAD_MUTEX_INITIALIZER tt) = ThreadExit w' /\
    thread_at (w_tsync w') 0 = Some (ThreadData 2 5 0 1 1 1 0).
Proof.
  destruct (pthread_exit_spec 0 (demo_world PTHREAD_MUTEX_INITIALIZER tt) no_run 0 5 (ThreadData 2 0 0 1 0 1 0))
    as (w' & H1 & _ & _ & _ & H2 & _); [by apply demo_on_cpu|reflexivity|reflexivity|].
  exists w'. split; [exact H1|]. apply H2. discriminate.
Defined.

Lemma pthread_join_spec_witness :
  (exists w', pthread_join 0 600 (demo_world PTHREAD_MUTEX_INITIALIZER tt) = Done EDEADLK w') /\
  exists w', pthread_join 16 600 (demo_world PTHREAD_MUTEX_INITIALIZER tt) = Done ESRCH w'.
Proof.
  destruct (pthread_join_spec 0 (demo_world PTHREAD_MUTEX_INITIALIZER tt) 0 600 (ThreadData 2 0 0 1 0 1 0) 0)
    as [Hr [H _]]; [by apply demo_on_cpu|by vm_compute|reflexivity|discriminate|reflexivity|]. split.
  - destruct H as (w' & H & _); [by left|]. exists w'. exact H.
  - destruct (Hr 16) as (w' & H' & _); [by vm_compute|]. exists w'. exact H'.
Defined.

(** The demo world after thread 0 called [pthread_exit(5)]. *)
Definition exited_world : world sim unit :=
  match pthread_exit no_run 0 5 (demo_world PTHREAD_MUTEX_INITIALIZER tt) with
  | ThreadExit w => w
  | _ => demo_world PTHREAD_MUTEX_INITIALIZER tt
  end.

Lemma exited_world_eq :
  pthread_exit no_run 0 5 (demo_world PTHREAD_MUTEX_INITIALIZER tt) = ThreadExit exited_world.
Proof.
  unfold exited_world. destruct (pthread_exit_run 0 (demo_world PTHREAD_MUTEX_INITIALIZER tt) no_run 0 5
    (ThreadData 2 0 0 1 0 1 0)) as (w' & -> & _); [by apply demo_on_cpu|reflexivity|reflexivity|reflexivity].
Qed.

Lemma exited_runnable : runnable 3 exited_world.
Proof. apply sim_runnableb_spec. vm_compute. reflexivity. Qed.

Lemma exit_join_roundtrip_witness :
  exists w2, pthread_join 0 600 (switch_to 3 exited_world) = Done 0 w2 /\ w_cells w2 !! 600 = Some 5.
Proof.
  destruct (exit_join_roundtrip 3 0 (demo_world PTHREAD_MUTEX_INITIALIZER tt) no_run 0 5
    (ThreadData 2 0 0 1 0 1 0) 600 0 exited_world (demo_on_cpu PTHREAD_MUTEX_INITIALIZER tt eq_refl eq_refl)
    eq_refl eq_refl ltac:(discriminate) ltac:(discriminate) eq_refl exited_world_eq
    ltac:(vm_compute; split; congruence) ltac:(discriminate) exited_runnable ltac:(discriminate) eq_refl)
    as (w2 & H1 & H2 & _).
  exists w2. split; [exact H1|exact H2].
Defined.

(** Two buffers, and the log of the handlers as user state. *)
Definition cleanup_world : world sim (list (Z * Z)) :=
  World ∅ ∅ ∅ ∅ ∅ {[700 := CleanupBuffer 0 0 0 0; 701 := CleanupBuffer 0 0 0 0]} ∅ demo_tsync 0 demo_eng [].

Lemma cleanup_handlers_lifo_witness :
  exists w', (push_all [(700, 10, 1); (701, 20, 2)];; run_cleanups log_run 2 0) cleanup_world = Done tt w' /\
    w_user w' = [(20, 2); (10, 1)].
Proof.
  destruct (cleanup_handlers_lifo 0 cleanup_world [(700, 10, 1); (701, 20, 2)] (ThreadData 2 0 0 1 0 1 0))
    as (w' & d' & H1 & H2 & _); [reflexivity|reflexivity|reflexivity| | |].
  - apply (bool_decide_unpack _). vm_compute. exact I.
  - intros b Hb. cbn in Hb. split; [set_solver|]. cbn. set_solver.
  - exists w'. split; [exact H1|exact H2].
Defined.

Lemma pthread_once_spec_witness :
  exists w2 n, pthread_once 0 600 (u ← get_user; put_user (u + 1)) (demo_world PTHREAD_MUTEX_INITIALIZER 0)
      = Done 0 w2 /\ w_user w2 = 1 /\ 0 < n /\ w_cells w2 !! 600 = Some n.
Proof.
  destruct (pthread_once_spec (demo_world PTHREAD_MUTEX_INITIALIZER 0)
    (w_set_user 1 (heap_set (<[600 := -1]> (w_cells (demo_world PTHREAD_MUTEX_INITIALIZER 0)))
       (demo_world PTHREAD_MUTEX_INITIALIZER 0))) 600 (u ← get_user; put_user (u + 1)) 0%nat (-1))
    as ((w2 & n & H1 & H2 & H3 & H4) & _); [reflexivity|reflexivity|reflexivity|].
  exists w2, n. split; [exact H1|]. split; [exact H3|]. split; [exact H4|]. rewrite H2. apply lookup_insert_eq.
Defined.

(** Thread 0 creates threads 1 and 2 and detaches 1, thread 2 joins thread 1,
    thread 1 ends. *)
Definition stranded_pool : config (E := sim) (U := unit) :=
  Config (demo_world PTHREAD_MUTEX_INITIALIZER tt)
    {[0 := Suspended (pthread_create 600 0 0 0;; pthread_create 600 0 0 0;; pthread_yield;; pthread_detach 1;; mret tt);
      1 := Suspended (pthread_exit no_run 0 5); 2 := Suspended (pthread_join 1 0;; mret tt)]}.

(** A thread that is detached while another one is joining it never wakes
    the joiner: thread 1 frees its slot without notifying its list (number 3),
    and thread 2 stays on it although no slot owns it any more. *)
Theorem detach_strands_joiner :
  exists c, rtc (pool_step (fun _ _ => False)) stranded_pool c /\
    (cf_threads c !! 1, bool_decide (2 ∈ sim_wait (w_eng (cf_world c)) 3),
     map td_wlist (take 3 (ts_threads (w_tsync (cf_world c))))) = (Some Ended, true, [2; 0; 4]).
Proof.
  apply (run_schedule_reaches _ [0; 2; 0; 1] stranded_pool (fun c => (cf_threads c !! 1,
    bool_decide (2 ∈ sim_wait (w_eng (cf_world c)) 3), map td_wlist (take 3 (ts_threads (w_tsync (cf_world c))))))).
  vm_compute. reflexivity.
Qed.
