(* ===== verification/Runtime.v ===== *)
(** * Programs on top of the runtime

    Client programs call the pthread API of [runtime/POSIX] in any order, with
    any arguments, and branch on the results; a pool of them runs under an
    arbitrary scheduler.  The invariant that ties every queue counter of the
    runtime to the waiting lists of the engine holds in every reachable
    state. *)

From stdpp Require Import base gmap list fin_maps relations.
From Stdlib Require Import ZArith Lia.
From S2P Require Import Prelude PthreadTypes Klee Interleave WaitLists SyncUtil SimEngine Demo.
From S2P Require Import Mutex Cond Barrier RwLock Semaphore Threads.

(** The calls of the API, by their C names. *)
Inductive api_call :=
| Api_mutex_init (m attr : Z) | Api_mutex_destroy (m : Z) | Api_mutex_lock (m : Z)
| Api_mutex_trylock (m : Z) | Api_mutex_unlock (m : Z)
| Api_cond_init (c attr : Z) | Api_cond_destroy (c : Z) | Api_cond_wait (c m : Z)
| Api_cond_timedwait (c m abstime : Z) | Api_cond_signal (c : Z) | Api_cond_broadcast (c : Z)
| Api_barrier_init (b attr count : Z) | Api_barrier_destroy (b : Z) | Api_barrier_wait (b : Z)
| Api_rwlock_init (r attr : Z) | Api_rwlock_destroy (r : Z) | Api_rwlock_rdlock (r : Z)
| Api_rwlock_tryrdlock (r : Z) | Api_rwlock_wrlock (r : Z) | Api_rwlock_trywrlock (r : Z)
| Api_rwlock_unlock (r : Z)
| Api_sem_init (s pshared value : Z) | Api_sem_destroy (s : Z) | Api_sem_wait (s : Z)
| Api_sem_trywait (s : Z) | Api_sem_post (s : Z)
| Api_self | Api_create (thread attr start arg : Z) | Api_exit (v : Z) | Api_join (thread value_ptr : Z)
| Api_joinall | Api_detach (thread : Z) | Api_once (once : Z) | Api_equal (a b : Z)
| Api_yield | Api_sched_yield | Api_cancel (thread : Z)
| Api_cleanup_push (buffer routine arg : Z) | Api_cleanup_pop (buffer execute : Z).

(** Client programs: calls whose result decides how to go on, and local work. *)
Inductive client (U : Type) :=
| CRet
| CCall (c : api_call) (k : Z -> client U)
| CLocal (f : U -> U) (k : U -> client U).
Arguments CRet {U}.
Arguments CCall {U}.
Arguments CLocal {U}.

Section Runtime.
Context {E U : Type} `{!KleeEngine E} {L : TsyncLayout}.
Abbreviation W := (world E U).

(** The bound on the waiting loops, and the routines that the runtime calls
    back, as their effect on the client's state. *)
Context (fuel : nat) (routine : Z -> Z -> U -> U).

Definition run_routine (f x : Z) : M W unit := u ← get_user; put_user (routine f x u).

Definition run_call (c : api_call) : M W Z :=
  match c with
  | Api_mutex_init m attr => pthread_mutex_init m attr
  | Api_mutex_destroy m => pthread_mutex_destroy m
  | Api_mutex_lock m => pthread_mutex_lock m
  | Api_mutex_trylock m => pthread_mutex_trylock m
  | Api_mutex_unlock m => pthread_mutex_unlock m
  | Api_cond_init c attr => pthread_cond_init c attr
  | Api_cond_destroy c => pthread_cond_destroy c
  | Api_cond_wait c m => pthread_cond_wait c m
  | Api_cond_timedwait c m a => pthread_cond_timedwait c m a
  | Api_cond_signal c => pthread_cond_signal c
  | Api_cond_broadcast c => pthread_cond_broadcast c
  | Api_barrier_init b attr n => pthread_barrier_init b attr n
  | Api_barrier_destroy b => pthread_barrier_destroy b
  | Api_barrier_wait b => pthread_barrier_wait b
  | Api_rwlock_init r attr => pthread_rwlock_init r attr
  | Api_rwlock_destroy r => pthread_rwlock_destroy r
  | Api_rwlock_rdlock r => pthread_rwlock_rdlock r
  | Api_rwlock_tryrdlock r => pthread_rwlock_tryrdlock r
  | Api_rwlock_wrlock r => pthread_rwlock_wrlock r
  | Api_rwlock_trywrlock r => pthread_rwlock_trywrlock r
  | Api_rwlock_unlock r => pthread_rwlock_unlock r
  | Api_sem_init s p v => sem_init s p v
  | Api_sem_destroy s => sem_destroy s
  | Api_sem_wait s => sem_wait s
  | Api_sem_trywait s => sem_trywait s
  | Api_sem_post s => sem_post s
  | Api_self => pthread_self
  | Api_create t a f x => pthread_create t a f x
  | Api_exit v => pthread_exit run_routine fuel v;; mret 0
  | Api_join t p => pthread_join t p
  | Api_joinall => pthread_joinall fuel
  | Api_detach t => pthread_detach t
  | Api_once o => pthread_once fuel o (run_routine o 0)
  | Api_equal a b => pthread_equal a b
  | Api_yield => pthread_yield
  | Api_sched_yield => sched_yield
  | Api_cancel t => pthread_cancel t
  | Api_cleanup_push b f x => _pthread_cleanup_push b f x;; mret 0
  | Api_cleanup_pop b x => _pthread_cleanup_pop run_routine b x;; mret 0
  end.

Fixpoint client_code (p : client U) : M W unit :=
  match p with
  | CRet => mret tt
  | CCall c k => r ← run_call c; client_code (k r)
  | CLocal f k => u ← get_user; put_user (f u);; client_code (k (f u))
  end.
End Runtime.

Section RuntimeInv.
Context {E U : Type} `{!KleeEngine E, !KleeView E, !KleeLaws E} {L : TsyncLayout}.
Context (fuel : nat) (routine : Z -> Z -> U -> U).
Abbreviation W := (world E U).
Implicit Types (w : W).

Lemma on_cpu_user t (u : U) w : on_cpu t w -> on_cpu t (w_set_user u w).
Proof. intros Hon. by apply (on_cpu_calm t w). Qed.

Lemma run_routine_safe t f x w :
  on_cpu t w -> always t wl_inv (fun _ w' => on_cpu t w') (run_routine routine f x w).
Proof. intros Hon. by apply on_cpu_user. Qed.

Lemma run_call_safe t c w :
  on_cpu t w -> always t wl_inv (fun _ w' => on_cpu t w') (run_call fuel routine c w).
Proof.
  intros Hon. destruct c; cbn [run_call].
  - apply pthread_mutex_init_safe. exact Hon.
  - exact Hon.
  - apply pthread_mutex_lock_safe. exact Hon.
  - apply pthread_mutex_trylock_safe. exact Hon.
  - apply pthread_mutex_unlock_safe. exact Hon.
  - apply pthread_cond_init_safe. exact Hon.
  - exact Hon.
  - apply pthread_cond_wait_safe. exact Hon.
  - exact I.
  - exact (proj2 (pthread_cond_notify_safe t c w Hon)).
  - exact (proj1 (pthread_cond_notify_safe t c w Hon)).
  - apply pthread_barrier_init_safe. exact Hon.
  - exact Hon.
  - apply pthread_barrier_wait_safe. exact Hon.
  - apply pthread_rwlock_init_safe. exact Hon.
  - exact Hon.
  - apply (pthread_rwlock_lock_safe t r); [tauto|exact Hon].
  - apply (pthread_rwlock_lock_safe t r); [tauto|exact Hon].
  - apply (pthread_rwlock_lock_safe t r); [tauto|exact Hon].
  - apply (pthread_rwlock_lock_safe t r); [tauto|exact Hon].
  - apply (pthread_rwlock_lock_safe t r); [tauto|exact Hon].
  - apply sem_init_safe. exact Hon.
  - exact Hon.
  - apply sem_wait_safe. exact Hon.
  - apply sem_trywait_safe. exact Hon.
  - apply sem_post_safe. exact Hon.
  - exact Hon.
  - apply pthread_create_safe. exact Hon.
  - apply always_mbind. eapply always_mono; [|apply pthread_exit_safe; [|exact Hon]]; [done|].
    intros; by apply run_routine_safe.
  - apply pthread_join_safe. exact Hon.
  - apply pthread_joinall_safe. exact Hon.
  - apply pthread_detach_safe. exact Hon.
  - apply pthread_once_safe; [|exact Hon]. intros; by apply run_routine_safe.
  - exact Hon.
  - then_safe preempt_safe. done.
  - then_safe preempt_safe. done.
  - exact I.
  - then_safe pthread_cleanup_push_safe. done.
  - apply always_mbind. eapply always_mono; [|apply pthread_cleanup_pop_safe; [|exact Hon]]; [done|].
    intros; by apply run_routine_safe.
Qed.

Lemma client_safe t (p : client U) w :
  on_cpu t w -> always t wl_inv (fun _ w' => on_cpu t w') (client_code fuel routine p w).
Proof.
  revert w. induction p as [|c k IH|f k IH]; intros w Hon; cbn [client_code]; [done| |].
  - then_safe run_call_safe. by apply IH.
  - erewrite bind_done by reflexivity. erewrite bind_done by reflexivity. apply IH. by apply on_cpu_user.
Qed.

(** Threads that run client programs, and nothing else. *)
Definition client_thread (t : Z) (k : M W unit) : Prop := exists p, k = client_code fuel routine p.

Lemma client_safe_code t k : tid_ok t -> client_thread t k -> safe_code wl_inv t k.
Proof.
  intros Ht [p ->] w Hinv Hrun. apply safe_of_on_cpu; [done| |done|done]. intros. by apply client_safe.
Qed.

(** C2: Whatever programs a pool of threads runs on the pthread API (any calls
    with any arguments, branching on the results), and however they are
    scheduled, in every reachable state each queue counter of a mutex,
    condition variable, barrier or read-write lock is exactly the number of
    threads on the waiting list the object owns, no two objects share a
    list, and every object that can be slept on has one. *)
Theorem runtime_queues_match c c' :
  wl_inv (cf_world c) ->
  (forall t s, cf_threads c !! t = Some s -> tid_ok t /\ (s = Ended \/ exists k, s = Suspended k /\ client_thread t k)) ->
  rtc (pool_step client_thread) c c' -> wl_inv (cf_world c').
Proof.
  intros Hinv Hth. apply pool_invariant; [apply client_safe_code|].
  split; [done|]. intros t k Ht. destruct (Hth t _ Ht) as (Hok & [?|(k' & [= ->] & Hk)]); [done|].
  by apply client_safe_code.
Qed.
End RuntimeInv.

#[local] Instance witness_layout : TsyncLayout := {| addr_of_tdata i := 8000 + 48 * i; addr_of_joinall := 9000 |}.

(** Two threads that lock and unlock the same mutex. *)
Definition lock_unlock : client unit :=
  CCall (Api_mutex_lock 100) (fun _ => CCall (Api_mutex_unlock 100) (fun _ => CRet)).

Definition two_clients : config (E := sim) (U := unit) :=
  Config (demo_world PTHREAD_MUTEX_INITIALIZER tt)
    {[0 := Suspended (client_code 0 (fun _ _ u => u) lock_unlock);
      1 := Suspended (client_code 0 (fun _ _ u => u) lock_unlock)]}.

(** Thread 0 takes the mutex and thread 1 queues for it. *)
Definition queued_config : config (E := sim) (U := unit) :=
  match run_schedule [0; 1] two_clients with Some c => c | None => two_clients end.

Lemma queued_reachable allowed : rtc (pool_step allowed) two_clients queued_config.
Proof.
  unfold queued_config. destruct (run_schedule [0; 1] two_clients) as [c|] eqn:Hr.
  - by eapply run_schedule_rtc.
  - apply rtc_refl.
Qed.

Lemma two_clients_ok t s :
  cf_threads two_clients !! t = Some s ->
  tid_ok t /\ (s = Ended \/ exists k, s = Suspended k /\ client_thread 0 (fun _ _ u => u) t k).
Proof.
  cbn. intros [[<- <-]|[_ [<- <-]%lookup_singleton_Some]]%lookup_insert_Some;
    (split; [vm_compute; split; congruence|right]);
    (eexists; split; [reflexivity|]); by exists lock_unlock.
Qed.

Lemma runtime_queues_match_witness :
  wl_inv (cf_world queued_config) /\
  option_map m_queued (w_mutexes (cf_world queued_config) !! 100) = Some 1.
Proof.
  split; [|vm_compute; reflexivity].
  apply (runtime_queues_match 0 (fun _ _ u => u) two_clients queued_config).
  - by apply (demo_on_cpu PTHREAD_MUTEX_INITIALIZER tt).
  - exact two_clients_ok.
  - apply queued_reachable.
Defined.
