(* ===== verification/InitEnv.v ===== *)
(** * Start-up of the runtime ([runtime/POSIX/init.c], thread table)

    [klee_init_env] builds the thread table of a program that starts at [main];
    [klee_init_system_for_new_symbolic_region] rebuilds it for a region that
    starts in the middle of an execution, from what the engine knows about the
    threads. *)

From stdpp Require Import base gmap list fin_maps.
From Stdlib Require Import ZArith Lia.
From S2P Require Import Prelude PthreadTypes Klee Interleave WaitLists SyncUtil Threads SimEngine Demo.

Definition DEFAULT_THREAD : Z := 0.

(** A [char] array zeroed by the caller and filled by the engine. *)
Definition flag (l : list bool) (tid : nat) : bool := default false (l !! tid).

Section Init.
Context {E U : Type} `{!KleeEngine E} {L : TsyncLayout}.
Abbreviation W := (world E U).

(** [ENABLE_KLEE_SEMAPHORES] is not defined: there is no semaphore table. *)
Definition klee_init_semaphores : M W unit := mret tt.

(** [memset] of the whole table. *)
Definition STATIC_LIST_INIT : M W unit :=
  mod_tsync (ts_set_threads (replicate (Z.to_nat KLEE_MAX_THREADS) thread_data_zero)).

Definition klee_init_default_thread : M W unit :=
  mod_thread DEFAULT_THREAD (td_set_allocated 1);;
  mod_thread DEFAULT_THREAD (td_set_joinable 1);;
  wl ← call klee_get_wlist;
  mod_thread DEFAULT_THREAD (td_set_wlist wl).

Definition klee_init_threads : M W unit :=
  STATIC_LIST_INIT;;
  mod_tsync (ts_set_live_threads 1);;
  mod_tsync (ts_set_last_hbnode 0);;
  wl ← call klee_get_wlist;
  mod_tsync (ts_set_joinall_wlist wl).

Definition klee_init_env (argc argv : Z) : M W unit :=
  klee_init_threads;;
  klee_init_default_thread;;
  klee_init_semaphores.

(** ** A new symbolic region *)

(** The block under [#ifndef DISABLE_KLEE_SYNC_INVARIANTS]: [hasjoiner] stays
    symbolic unless the engine can decide it. *)
Definition region_hasjoiner (tid : nat) : M W unit :=
  d ← get_thread (Z.of_nat tid);
  '(may, must) ← __enumerate_possible_waiters (td_wlist d) (addr_of_tdata (Z.of_nat tid)) SyncOpMutex;
  if 0 <? must then mod_thread (Z.of_nat tid) (td_set_hasjoiner 1)
  else if may =? 0 then mod_thread (Z.of_nat tid) (td_set_hasjoiner 0)
  else mret tt.

(** The body of the loop over the thread ids. *)
Definition region_thread (islive iszombie : list bool) (tid : nat) : M W unit :=
  if negb (flag islive tid) && negb (flag iszombie tid)
  then mod_thread (Z.of_nat tid) (td_set_allocated 0)
  else
    mod_thread (Z.of_nat tid) (td_set_cleanup_stack 0);;
    mod_thread (Z.of_nat tid) (td_set_allocated 1);;
    mod_thread (Z.of_nat tid) (td_set_joinable 1);;
    (if DISABLE_KLEE_SYNC_INVARIANTS then mret tt else region_hasjoiner tid);;
    if flag islive tid then
      mod_tsync (fun t => ts_set_live_threads (u32 (ts_live_threads t + 1)) t);;
      mod_thread (Z.of_nat tid) (td_set_return_value 0);;
      mod_thread (Z.of_nat tid) (td_set_terminated 0)
    else if flag iszombie tid then mod_thread (Z.of_nat tid) (td_set_terminated 1)
    else mret tt.

Fixpoint region_threads (islive iszombie : list bool) (n tid : nat) : M W unit :=
  match n with
  | O => mret tt
  | S n => region_thread islive iszombie tid;; region_threads islive iszombie n (S tid)
  end.

Definition klee_init_system_for_new_symbolic_region : M W unit :=
  klee_init_semaphores;;
  mod_tsync (ts_set_live_threads 0);;
  mod_tsync (ts_set_last_hbnode 0);;
  '(islive, iszombie) ← ask klee_enumerate_threads;
  region_threads islive iszombie (Z.to_nat KLEE_MAX_THREADS) 0.
End Init.

(** ** A program that starts at [main] *)

Section InitSpec.
Context {E U : Type} `{!KleeEngine E, !KleeView E, !KleeLaws E} {L : TsyncLayout}.
Implicit Types (w : world E U).

(** No object of the program has a waiting list yet, as its static initializer
    leaves it: the state of the store when [main] has not run. *)
Definition blank w : Prop :=
  forall sl wl n, slot_get w sl = Some (wl, n) -> (sl = SlJoinAll \/ exists i, sl = SlJoin i) \/
    (wl = 0 /\ (n = None \/ n = Some 0)).

(** The table right after start-up. *)
Definition first_table (joinall main_list : Z) : tsync_data_t :=
  Tsync (ThreadData main_list 0 0 1 0 1 0 :: replicate 15 thread_data_zero) 1 0 joinall.

Lemma klee_init_env_run argc argv w :
  let g1 := klee_get_wlist (w_eng w) in
  let g2 := klee_get_wlist g1.2 in
  klee_init_env argc argv w = Done tt (w_set_eng g2.2 (w_set_tsync (first_table g1.1 g2.1) w)).
Proof. reflexivity. Qed.

Lemma slot_get_set_tsync w e ts sl :
  sl <> SlJoinAll -> (forall i, sl <> SlJoin i) ->
  slot_get (w_set_eng e (w_set_tsync ts w)) sl = slot_get w sl.
Proof. intros H1 H2. destruct sl; try done. by destruct (H2 i). Qed.

Lemma first_table_lookup j m i d :
  ts_threads (first_table j m) !! i = Some d ->
  (i = 0%nat /\ td_wlist d = m /\ td_list i d = must_exist m) \/ (i <> 0%nat /\ td_wlist d = 0 /\ td_list i d = None).
Proof.
  destruct i as [|i]; [cbn; intros [= <-]; left; done|].
  change (replicate 15 thread_data_zero !! i = Some d -> (S i = 0%nat /\ td_wlist d = m /\ td_list (S i) d = must_exist m) \/
    (S i <> 0%nat /\ td_wlist d = 0 /\ td_list (S i) d = None)).
  intros Hi. apply lookup_replicate in Hi as [-> Hlt]. right. split; [done|]. split; [done|].
  unfold td_list. cbn. change KLEE_MAX_THREADS with 16. destruct (Z.leb_spec 16 (Z.of_nat (S i))); [lia|done].
Qed.

(** Every slot of the started world: the two fresh lists, or nothing. *)
Lemma started_slots w e j m sl wl n :
  blank w -> slot_get (w_set_eng e (w_set_tsync (first_table j m) w)) sl = Some (wl, n) ->
  (sl = SlJoinAll /\ wl = j /\ n = must_exist j) \/ (sl = SlJoin 0 /\ wl = m /\ n = must_exist m) \/
  (wl = 0 /\ (n = None \/ n = Some 0)).
Proof.
  intros Hb Hs. destruct (decide (sl = SlJoinAll)) as [->|Hne].
  { left. cbn in Hs. by simplify_eq. }
  destruct sl as [a|a|a|a|a|a|i|]; try done;
    try (rewrite slot_get_set_tsync in Hs by done; destruct (Hb _ _ _ Hs) as [[?|[? ?]]|?]; [done|done|by auto]).
  right. cbn in Hs. destruct (_ !! i) as [d|] eqn:Hd; [|done]. cbn in Hs. simplify_eq.
  destruct (first_table_lookup j m i d Hd) as [(-> & -> & ->)|(_ & -> & ->)]; auto.
Qed.

(** Start-up establishes what the invariant of the runtime needs: from a
    store whose objects have no waiting lists yet, [klee_init_env] finishes in
    a state where every counter matches its list and no list is shared, with
    one live thread, whose slot is the only one in use. *)
Theorem klee_init_env_establishes argc argv w :
  eng_wf (w_eng w) -> blank w -> (forall x, eng_current (w_eng w) ∉ eng_waiters (w_eng w) x) ->
  exists w', klee_init_env argc argv w = Done tt w' /\ on_cpu (eng_current (w_eng w)) w' /\
    ts_live_threads (w_tsync w') = 1 /\
    (forall i d, ts_threads (w_tsync w') !! i = Some d -> td_allocated d <> 0 <-> i = 0%nat) /\
    length (ts_threads (w_tsync w')) = Z.to_nat KLEE_MAX_THREADS.
Proof.
  intros Hwf Hblank Hfree. rewrite klee_init_env_run. eexists. split; [reflexivity|].
  destruct (law_get_wlist (w_eng w) Hwf) as (Hwf1 & Hz1 & _ & Ha1 & Hc1 & Hv1 & _).
  set (g1 := klee_get_wlist (w_eng w)) in *.
  destruct (law_get_wlist g1.2 Hwf1) as (Hwf2 & Hz2 & Hf2 & Ha2 & Hc2 & Hv2 & _).
  set (g2 := klee_get_wlist g1.2) in *.
  assert (g1.1 <> g2.1) as Hd by (intros Heq; apply Hf2; rewrite <- Heq; apply Ha1; by left).
  split; [split; [split|..]|split; [done|split]]; cbn.
  - done.
  - intros sl wl n Hs. apply started_slots in Hs as [(_ & -> & ->)|[(_ & -> & ->)|H]]; [..|by left|done];
      right; unfold must_exist; rewrite (proj2 (Z.eqb_neq _ _)) by done; (split; [done|split; [|done]]);
      rewrite !Ha2, ?Ha1; auto.
  - intros sl1 sl2 wl n1 n2 Hnz Hs1 Hs2.
    apply started_slots in Hs1; [|done]. apply started_slots in Hs2; [|done].
    destruct Hs1 as [(-> & -> & _)|[(-> & -> & _)|[? _]]], Hs2 as [(-> & ? & _)|[(-> & ? & _)|[? _]]]; congruence.
  - congruence.
  - intros x. rewrite Hv2, Hv1. apply Hfree.
  - intros [|i] d; [by intros [= <-]|]. intros Hi.
    apply (lookup_replicate 15 thread_data_zero) in Hi as [-> _]. done.
  - reflexivity.
Qed.

(** ** A region in the middle of an execution *)

Definition live_among (islive : list bool) (tid n : nat) : Z :=
  Z.of_nat (length (filter (fun i => flag islive i = true) (seq tid n))).

(** What the region start makes of one slot. *)
Definition region_slot (live zombie : bool) (d : thread_data_t) : thread_data_t :=
  if negb live && negb zombie then td_set_allocated 0 d
  else ThreadData (td_wlist d) (if live then 0 else td_return_value d) 0 1
         (if live then 0 else 1) 1 (td_hasjoiner d).

Lemma live_among_S islive tid n :
  live_among islive tid (S n) = (if flag islive tid then 1 else 0) + live_among islive (S tid) n.
Proof.
  unfold live_among. cbn [seq]. rewrite filter_cons.
  destruct (flag islive tid); [rewrite decide_True by done|rewrite decide_False by done]; cbn [length]; lia.
Qed.

Lemma live_among_bound islive tid n : 0 <= live_among islive tid n <= Z.of_nat n.
Proof. revert tid. induction n as [|n IH]; intros tid; [done|]. rewrite live_among_S. specialize (IH (S tid)). destruct (flag islive tid); lia. Qed.

(** One more update of a slot that was just written. *)
Lemma mod_thread_again idx f ts e w d0 d :
  thread_at ts idx = Some d0 ->
  mod_thread idx f (tput (set_thread idx d ts) e w) = Done tt (tput (set_thread idx (f d) ts) e w).
Proof.
  intros Hd. rewrite (mod_thread_tput _ _ _ _ _ d) by (by eapply thread_at_set).
  by rewrite set_thread_set.
Qed.

Lemma live_set_thread n i d ts :
  ts_set_live_threads n (set_thread i d ts) = set_thread i d (ts_set_live_threads n ts).
Proof. done. Qed.

(** One turn of the loop. *)
Lemma region_thread_run islive iszombie tid ts e w d :
  thread_at ts (Z.of_nat tid) = Some d ->
  let live := flag islive tid in
  region_thread islive iszombie tid (tput ts e w) =
    Done tt (tput (set_thread (Z.of_nat tid) (region_slot live (flag iszombie tid) d)
                     (if live then ts_set_live_threads (u32 (ts_live_threads ts + 1)) ts else ts)) e w).
Proof.
  intros Hd live. unfold region_thread, region_slot. fold live.
  destruct (negb live && negb (flag iszombie tid)) eqn:Hdead.
  { assert (live = false) as -> by (by destruct live). by erewrite mod_thread_tput. }
  erewrite bind_done; [|by apply mod_thread_tput].
  do 2 (erewrite bind_done; [|by apply (mod_thread_again _ _ _ _ _ d)]).
  unfold DISABLE_KLEE_SYNC_INVARIANTS. erewrite bind_done; [|done]. fields. destruct live eqn:Hlive.
  - erewrite bind_done; [|apply mod_tsync_tput].
    cbv beta. rewrite live_set_thread.
    erewrite bind_done; [|by apply (mod_thread_again _ _ (ts_set_live_threads _ ts) _ _ d)].
    by etrans; [apply (mod_thread_again _ _ (ts_set_live_threads _ ts) _ _ d)|].
  - destruct (flag iszombie tid); [|done]. by etrans; [apply (mod_thread_again _ _ ts _ _ d)|].
Qed.

(** The loop from [tid] on: each slot it covers is rebuilt, the others stay. *)
Lemma region_threads_run islive iszombie n tid ts e w :
  (tid + n <= length (ts_threads ts))%nat -> 0 <= ts_live_threads ts -> ts_live_threads ts + Z.of_nat n < 2 ^ 32 ->
  exists ts', region_threads islive iszombie n tid (tput ts e w) = Done tt (tput ts' e w) /\
    ts_live_threads ts' = ts_live_threads ts + live_among islive tid n /\
    ts_last_hbnode ts' = ts_last_hbnode ts /\ ts_joinall_wlist ts' = ts_joinall_wlist ts /\
    length (ts_threads ts') = length (ts_threads ts) /\
    forall i d, ts_threads ts !! i = Some d ->
      if decide (tid <= i < tid + n)%nat
      then ts_threads ts' !! i = Some (region_slot (flag islive i) (flag iszombie i) d)
      else ts_threads ts' !! i = Some d.
Proof.
  revert tid ts. induction n as [|n IH]; intros tid ts Hlen Hl0 Hl.
  { exists ts. change (live_among islive tid 0) with 0. repeat split; [lia|].
    intros i d Hi. by rewrite decide_False by lia. }
  destruct (lookup_lt_is_Some_2 (ts_threads ts) tid) as [d0 Hd0]; [lia|].
  assert (thread_at ts (Z.of_nat tid) = Some d0) as Hat.
  { unfold thread_at. rewrite (proj2 (Z.leb_le _ _)) by lia. by rewrite Nat2Z.id. }
  pose proof (region_thread_run islive iszombie tid ts e w d0 Hat) as Hrun.
  rewrite live_among_S. cbn [region_threads].
  erewrite bind_done; [|exact Hrun]. set (ts1 := set_thread _ _ _).
  assert (ts_live_threads ts1 = ts_live_threads ts + if flag islive tid then 1 else 0) as Hl1.
  { unfold ts1. destruct (flag islive tid); cbn; [apply u32_small|]; lia. }
  assert (ts_threads ts1 = <[tid := region_slot (flag islive tid) (flag iszombie tid) d0]> (ts_threads ts)) as Ht1.
  { unfold ts1, set_thread. cbn. rewrite Nat2Z.id. by destruct (flag islive tid). }
  assert (ts_last_hbnode ts1 = ts_last_hbnode ts /\ ts_joinall_wlist ts1 = ts_joinall_wlist ts) as [Hn1 Hj1].
  { unfold ts1. by destruct (flag islive tid). }
  destruct (IH (S tid) ts1) as (ts' & Hr & Hlive & Hn & Hj & Hlen' & Hs).
  { rewrite Ht1, length_insert. lia. } { destruct (flag islive tid); lia. } { destruct (flag islive tid); lia. }
  exists ts'. split; [exact Hr|]. split; [lia|]. split; [congruence|]. split; [congruence|].
  split; [by rewrite Hlen', Ht1, length_insert|].
  intros i d Hi. destruct (decide (i = tid)) as [->|Hne].
  - rewrite decide_True by lia. assert (d = d0) as -> by congruence.
    specialize (Hs tid). rewrite Ht1, list_lookup_insert_eq in Hs by lia. specialize (Hs _ eq_refl).
    by rewrite decide_False in Hs by lia.
  - specialize (Hs i d). rewrite Ht1, list_lookup_insert_ne in Hs by done. specialize (Hs Hi).
    destruct (decide (S tid <= i < S tid + n)%nat); [rewrite decide_True by lia|rewrite decide_False by lia]; done.
Qed.

Lemma new_region_start ts e w :
  klee_init_system_for_new_symbolic_region (tput ts e w) =
  region_threads (klee_enumerate_threads e).1 (klee_enumerate_threads e).2 (Z.to_nat KLEE_MAX_THREADS) 0
    (tput (ts_set_last_hbnode 0 (ts_set_live_threads 0 ts)) e w).
Proof.
  unfold klee_init_system_for_new_symbolic_region. erewrite bind_done; [|done].
  do 2 (erewrite bind_done; [|apply mod_tsync_tput]). erewrite bind_done; [|apply ask_tput].
  by destruct (klee_enumerate_threads e).
Qed.

(** A new symbolic region starts with a thread table that agrees with the
    engine: [live_threads] is the number of live threads, a slot is in use
    exactly when its thread is live or a zombie, and it is marked terminated
    exactly for a zombie, whose return value stays as it is; waiting lists and
    [hasjoiner] are left alone everywhere. *)
Theorem new_region_table w :
  length (ts_threads (w_tsync w)) = Z.to_nat KLEE_MAX_THREADS ->
  let islive := (klee_enumerate_threads (w_eng w)).1 in
  let iszombie := (klee_enumerate_threads (w_eng w)).2 in
  exists w', klee_init_system_for_new_symbolic_region w = Done tt w' /\
    ts_live_threads (w_tsync w') = live_among islive 0 (Z.to_nat KLEE_MAX_THREADS) /\
    forall i d, ts_threads (w_tsync w) !! i = Some d ->
      exists d', ts_threads (w_tsync w') !! i = Some d' /\
        td_wlist d' = td_wlist d /\ td_hasjoiner d' = td_hasjoiner d /\
        (td_allocated d' = if flag islive i || flag iszombie i then 1 else 0) /\
        (flag islive i = true -> td_terminated d' = 0 /\ td_return_value d' = 0) /\
        (flag islive i = false -> flag iszombie i = true ->
           td_terminated d' = 1 /\ td_return_value d' = td_return_value d).
Proof.
  intros Hlen islive iszombie.
  set (ts0 := ts_set_last_hbnode 0 (ts_set_live_threads 0 (w_tsync w))).
  destruct (region_threads_run islive iszombie (Z.to_nat KLEE_MAX_THREADS) 0 ts0 (w_eng w) w)
    as (ts' & Hrun & Hlive & _ & _ & _ & Hs); [|done|done|].
  { change (0 + Z.to_nat KLEE_MAX_THREADS <= length (ts_threads (w_tsync w)))%nat. by rewrite Hlen. }
  exists (tput ts' (w_eng w) w). split; [by rewrite <- (tput_self w) at 1; rewrite new_region_start|].
  split; [exact Hlive|]. intros i d Hi. specialize (Hs i d Hi).
  assert (i < length (ts_threads (w_tsync w)))%nat by (by eapply lookup_lt_Some).
  rewrite decide_True in Hs by lia. eexists. split; [exact Hs|]. unfold region_slot.
  destruct (flag islive i), (flag iszombie i); cbn; naive_solver.
Qed.
End InitSpec.

(** ** Witnesses *)

#[local] Instance init_layout : TsyncLayout := {| addr_of_tdata i := 8000 + 48 * i; addr_of_joinall := 9000 |}.

(** The store before [main]: one mutex, and a thread table with garbage in it. *)
Definition unborn_world : world sim unit :=
  World {[100 := PTHREAD_MUTEX_INITIALIZER]} ∅ ∅ ∅ ∅ ∅ ∅
    (Tsync (replicate 16 (ThreadData 77 5 5 1 1 1 1)) 9 9 55) 0 sim_init tt.

Lemma klee_init_env_establishes_witness :
  exists w', klee_init_env 0 0 unborn_world = Done tt w' /\ on_cpu 0 w'.
Proof.
  destruct (klee_init_env_establishes 0 0 unborn_world) as (w' & Hrun & Hcpu & _).
  - split; [unfold tid_ok; vm_compute; split; congruence|]. split; [by vm_compute|].
    split; [intros wl t Ht; unfold sim_wait in Ht; simpl in Ht; rewrite lookup_empty in Ht; set_solver|].
    intros wl _. unfold sim_wait. simpl. by rewrite lookup_empty.
  - intros sl wl n. destruct sl; simpl; rewrite ?lookup_empty; try done; eauto.
    destruct (decide (a = 100)) as [->|]; simplify_map_eq; [|done]. intros [= <- <-]. auto.
  - intros x. simpl. unfold sim_wait. simpl. rewrite lookup_empty. simpl. set_solver.
  - by exists w'.
Defined.

Lemma new_region_table_witness :
  exists w', klee_init_system_for_new_symbolic_region unborn_world = Done tt w' /\
    ts_live_threads (w_tsync w') = 1.
Proof.
  destruct (new_region_table unborn_world) as (w' & Hrun & Hlive & _); [reflexivity|].
  exists w'. split; [exact Hrun|exact Hlive].
Defined.
