(* ===== verification/Misc.v ===== *)
(** * Calls the runtime fakes or ignores ([runtime/POSIX/misc.c])

    The device number arithmetic, which is computed for real, and the system
    calls that are ignored with a fixed result. *)

From stdpp Require Import base gmap list fin_maps.
From Stdlib Require Import ZArith Lia.
From S2P Require Import Prelude PthreadTypes Klee Interleave WaitLists SimEngine Demo.

(** ** Device numbers *)

Definition gnu_dev_major (__dev : Z) : Z :=
  u32 (Z.lor (Z.land (Z.shiftr __dev 8) 0xfff) (Z.land (u32 (Z.shiftr __dev 32)) (u32 (Z.lnot 0xfff)))).

Definition gnu_dev_minor (__dev : Z) : Z :=
  u32 (Z.lor (Z.land __dev 0xff) (Z.land (u32 (Z.shiftr __dev 12)) (u32 (Z.lnot 0xff)))).

Definition gnu_dev_makedev (__major __minor : Z) : Z :=
  u64 (Z.lor (Z.lor (Z.lor (Z.land __minor 0xff) (u32 (Z.shiftl (Z.land __major 0xfff) 8)))
                    (Z.shiftl (Z.land __minor (u32 (Z.lnot 0xff))) 12))
             (Z.shiftl (Z.land __major (u32 (Z.lnot 0xfff))) 32)).

(** Bits of the building blocks. *)
Lemma testbit_u32 z n : 0 <= n -> Z.testbit (u32 z) n = (n <? 32) && Z.testbit z n.
Proof.
  intros Hn. unfold u32. destruct (Z.ltb_spec n 32); simpl.
  - by rewrite Z.mod_pow2_bits_low by lia.
  - by rewrite Z.mod_pow2_bits_high by lia.
Qed.

Lemma testbit_u64 z n : 0 <= n -> Z.testbit (u64 z) n = (n <? 64) && Z.testbit z n.
Proof.
  intros Hn. unfold u64. destruct (Z.ltb_spec n 64); simpl.
  - by rewrite Z.mod_pow2_bits_low by lia.
  - by rewrite Z.mod_pow2_bits_high by lia.
Qed.

Lemma testbit_fff n : 0 <= n -> Z.testbit 0xfff n = (n <? 12).
Proof. intros Hn. by apply (Z.testbit_ones_nonneg 12). Qed.

Lemma testbit_ff n : 0 <= n -> Z.testbit 0xff n = (n <? 8).
Proof. intros Hn. by apply (Z.testbit_ones_nonneg 8). Qed.

Lemma testbit_high z w n : 0 <= z < 2 ^ w -> 0 <= w <= n -> Z.testbit z n = false.
Proof.
  intros Hz Hn. rewrite <- (Z.mod_small z (2 ^ w)) by done. apply Z.mod_pow2_bits_high. lia.
Qed.

Ltac devbits :=
  repeat first
    [ rewrite Z.lor_spec | rewrite Z.land_spec | rewrite testbit_u32 by lia | rewrite testbit_u64 by lia
    | rewrite Z.shiftr_spec by lia | rewrite Z.shiftl_spec by lia | rewrite Z.lnot_spec by lia
    | rewrite testbit_fff by lia | rewrite testbit_ff by lia ].

(** Splits on the comparisons of a bit index, dropping the impossible cases. *)
Ltac split_index :=
  repeat match goal with
  | |- context [?a <? ?b] => destruct (Z.ltb_spec a b); try lia; simpl
  end;
  repeat match goal with |- context [Z.testbit ?a ?b] => destruct (Z.testbit a b) end;
  reflexivity.

Lemma makedev_bits major minor n :
  0 <= n -> 0 <= major < 2 ^ 32 -> 0 <= minor < 2 ^ 32 ->
  Z.testbit (gnu_dev_makedev major minor) n =
    if n <? 8 then Z.testbit minor n
    else if n <? 20 then Z.testbit major (n - 8)
    else if n <? 44 then Z.testbit minor (n - 12)
    else if n <? 64 then Z.testbit major (n - 32) else false.
Proof.
  intros Hn Hj Hi. unfold gnu_dev_makedev.
  rewrite testbit_u64, !Z.lor_spec, Z.land_spec, testbit_ff, testbit_u32, !Z.shiftl_spec by lia.
  assert (forall k, k < 0 -> Z.testbit (Z.land minor (u32 (Z.lnot 255))) k = false) as H1
    by (intros; by apply Z.testbit_neg_r).
  assert (forall k, k < 0 -> Z.testbit (Z.land major (u32 (Z.lnot 4095))) k = false) as H2
    by (intros; by apply Z.testbit_neg_r).
  assert (forall k, k < 0 -> Z.testbit (Z.land major 4095) k = false) as H3
    by (intros; by apply Z.testbit_neg_r).
  destruct (Z.ltb_spec n 8); [rewrite H1, H2, H3 by lia; split_index|].
  destruct (Z.ltb_spec n 20).
  { rewrite H2, (Z.land_spec major 4095), testbit_fff by lia.
    destruct (Z.ltb_spec n 12); [rewrite H1 by lia; split_index|].
    rewrite Z.land_spec, testbit_u32, Z.lnot_spec, testbit_ff by lia. split_index. }
  rewrite (Z.land_spec major 4095), testbit_fff by lia.
  rewrite (Z.land_spec minor (u32 _)), testbit_u32, Z.lnot_spec, testbit_ff by lia.
  destruct (Z.ltb_spec n 44).
  { destruct (Z.ltb_spec n 32); [rewrite H2 by lia; split_index|].
    rewrite (Z.land_spec major (u32 _)), testbit_u32, Z.lnot_spec, testbit_fff by lia. split_index. }
  rewrite (Z.land_spec major (u32 _)), testbit_u32, Z.lnot_spec, testbit_fff by lia.
  destruct (Z.ltb_spec n 64); split_index.
Qed.

(** Device numbers survive packing: for all 32-bit major and minor numbers,
    [gnu_dev_major] and [gnu_dev_minor] recover what [gnu_dev_makedev] packed. *)
Theorem gnu_dev_roundtrip major minor :
  0 <= major < 2 ^ 32 -> 0 <= minor < 2 ^ 32 ->
  gnu_dev_major (gnu_dev_makedev major minor) = major /\
  gnu_dev_minor (gnu_dev_makedev major minor) = minor.
Proof.
  intros Hj Hi. split; apply Z.bits_inj'; intros n Hn.
  - unfold gnu_dev_major. devbits. rewrite !makedev_bits by lia.
    destruct (Z.ltb_spec n 32); [|by rewrite (testbit_high major 32 n) by lia].
    replace (n + 8 - 8) with n by lia. replace (n + 32 - 32) with n by lia. split_index.
  - unfold gnu_dev_minor. devbits. rewrite !makedev_bits by lia.
    destruct (Z.ltb_spec n 32); [|by rewrite (testbit_high minor 32 n) by lia].
    replace (n + 12 - 12) with n by lia. split_index.
Qed.

Lemma gnu_dev_roundtrip_witness :
  gnu_dev_major (gnu_dev_makedev 0x12345 0xabcdef) = 0x12345 /\
  gnu_dev_minor (gnu_dev_makedev 0x12345 0xabcdef) = 0xabcdef.
Proof. apply (gnu_dev_roundtrip 0x12345 0xabcdef); lia. Defined.

(** ** Ignored calls *)

Section Ignored.
Context {E U : Type} `{!KleeEngine E}.
Abbreviation W := (world E U).

Definition IGNORED_SILENT : M W Z := mret 0.
Definition IGNORED_VOID : M W unit := mret tt.
Definition IGNORED_ERROR (ERR : Z) : M W Z := set_errno ERR;; mret (-1).

(** The list is a local variable of the function; its address is not used
    by anybody else, and stands as 0 here. *)
Definition IGNORED_SLEEP_FOREVER : M W Z :=
  wl ← call klee_get_wlist;
  __thread_sleep wl 0 SyncOpOther;;
  mret 0.

Definition getloadavg (loadavg nelem : Z) : M W Z := mret (-1).

Definition getpid : M W Z := IGNORED_SILENT.
Definition getppid : M W Z := IGNORED_SILENT.
Definition umask (mask : Z) : M W Z := IGNORED_SILENT.
Definition wait (status : Z) : M W Z := IGNORED_SILENT.
Definition waitpid (pid status options : Z) : M W Z := IGNORED_SILENT.
Definition waitid (idtype id infop options : Z) : M W Z := IGNORED_SILENT.
Definition __syscall_rt_sigaction (signum act oldact _something : Z) : M W Z := IGNORED_SILENT.
Definition __syscall_rt_sigreturn : M W unit := IGNORED_VOID.
Definition __syscall_sigreturn : M W unit := IGNORED_VOID.
Definition __syscall_sigaction (signum act oldact : Z) : M W Z := IGNORED_SILENT.
Definition sigaction (signum act oldact : Z) : M W Z := IGNORED_SILENT.
Definition signal (signum handler : Z) : M W Z := IGNORED_SILENT.
Definition sigset (sig disp : Z) : M W Z := IGNORED_SILENT.
Definition sighold (sig : Z) : M W Z := IGNORED_SILENT.
Definition sigrelse (sig : Z) : M W Z := IGNORED_SILENT.
Definition sigignore (sig : Z) : M W Z := IGNORED_SILENT.
Definition alarm (seconds : Z) : M W Z := IGNORED_SILENT.
Definition sigprocmask (how set oldset : Z) : M W Z := IGNORED_SILENT.
Definition sigwait (set sig : Z) : M W Z := IGNORED_SLEEP_FOREVER.
Definition mkdir (pathname mode : Z) : M W Z := IGNORED_ERROR EIO.
Definition mkfifo (pathname mode : Z) : M W Z := IGNORED_ERROR EIO.
Definition mknod (pathname mode dev : Z) : M W Z := IGNORED_ERROR EIO.
Definition link (oldpath newpath : Z) : M W Z := IGNORED_ERROR EPERM.
Definition symlink (oldpath newpath : Z) : M W Z := IGNORED_ERROR EPERM.
Definition rename (oldpath newpath : Z) : M W Z := IGNORED_ERROR EPERM.
Definition clock_settime (clk_id res : Z) : M W Z := IGNORED_ERROR EPERM.
Definition utime (filename buf : Z) : M W Z := IGNORED_ERROR EPERM.
Definition utimes (filename times : Z) : M W Z := IGNORED_ERROR EPERM.
Definition futimes (fd times : Z) : M W Z := IGNORED_ERROR EBADF.
Definition getuid : M W Z := IGNORED_SILENT.
Definition geteuid : M W Z := IGNORED_SILENT.
Definition getgid : M W Z := IGNORED_SILENT.
Definition getegid : M W Z := IGNORED_SILENT.
Definition euidaccess (pathname mode : Z) : M W Z := IGNORED_SILENT.
Definition eaccess (pathname mode : Z) : M W Z := IGNORED_SILENT.
Definition group_member (__gid : Z) : M W Z := IGNORED_SILENT.
Definition mount (source target filesystemtype mountflags data : Z) : M W Z := IGNORED_ERROR EPERM.
Definition umount (target : Z) : M W Z := IGNORED_ERROR EPERM.
Definition umount2 (target flags : Z) : M W Z := IGNORED_ERROR EPERM.
Definition swapon (path swapflags : Z) : M W Z := IGNORED_ERROR EPERM.
Definition swapoff (path : Z) : M W Z := IGNORED_ERROR EPERM.
Definition setgid (gid : Z) : M W Z := IGNORED_SILENT.
Definition setgroups (size list : Z) : M W Z := IGNORED_ERROR EPERM.
Definition sethostname (name len : Z) : M W Z := IGNORED_ERROR EPERM.
Definition setpgid (pid pgid : Z) : M W Z := IGNORED_ERROR EPERM.
Definition setpgrp : M W Z := IGNORED_ERROR EPERM.
Definition setpriority (which who prio : Z) : M W Z := IGNORED_ERROR EPERM.
Definition setresgid (rgid egid sgid : Z) : M W Z := IGNORED_ERROR EPERM.
Definition setresuid (ruid euid suid : Z) : M W Z := IGNORED_ERROR EPERM.
Definition getrlimit (resource rlim : Z) : M W Z := IGNORED_SILENT.
Definition setrlimit (resource rlim : Z) : M W Z := IGNORED_SILENT.
Definition setrlimit64 (resource rlim : Z) : M W Z := IGNORED_SILENT.
Definition getrusage (who usage : Z) : M W Z := IGNORED_SILENT.
Definition setsid : M W Z := IGNORED_ERROR EPERM.
Definition setuid (uid : Z) : M W Z := IGNORED_ERROR EPERM.
Definition reboot (flag : Z) : M W Z := IGNORED_ERROR EPERM.
Definition mlock (addr len : Z) : M W Z := IGNORED_ERROR EPERM.
Definition munlock (addr len : Z) : M W Z := IGNORED_ERROR EPERM.
Definition pause : M W Z := IGNORED_ERROR EPERM.
Definition readahead (fd offset count : Z) : M W Z := IGNORED_ERROR EPERM.
Definition openlog (ident option facility : Z) : M W unit := IGNORED_VOID.
Definition syslog (priority format : Z) : M W unit := IGNORED_VOID.
Definition closelog : M W unit := IGNORED_VOID.
Definition vsyslog (priority format ap : Z) : M W unit := IGNORED_VOID.
End Ignored.

Section SleepForever.
Context {E U : Type} `{!KleeEngine E, !KleeView E, !KleeLaws E}.
Abbreviation W := (world E U).
Implicit Types (w : W).

(** A fresh list belongs to no object. *)
Lemma fresh_no_slot w sl n : wl_inv w -> slot_get w sl <> Some ((klee_get_wlist (w_eng w)).1, n).
Proof.
  intros Hinv Hs. destruct (law_get_wlist (w_eng w) (wl_wf w Hinv)) as (_ & Hnz & Hna & _).
  destruct (wl_slots w Hinv _ _ _ Hs) as [[H0 _]|(_ & Hal & _)]; done.
Qed.

(** [sigwait] and the like put the caller to sleep on a list that no object
    of the runtime owns, so no notification can ever reach it; the runtime's
    invariant is kept. *)
Theorem sleep_forever_spec t w set sig :
  on_cpu t w ->
  exists wl w' k, sigwait set sig w = Sleep wl w' k /\ wl_inv w' /\
    t ∈ eng_waiters (w_eng w') wl /\ forall sl n, slot_get w' sl <> Some (wl, n).
Proof.
  intros Hon. pose proof (cpu_inv _ _ Hon) as Hinv. pose proof (wl_wf w Hinv) as Hwf.
  destruct (law_get_wlist (w_eng w) Hwf) as (Hwf1 & Hnz & Hna & Hal & Hcur & Hv & _).
  set (wl := (klee_get_wlist (w_eng w)).1) in *. set (e1 := (klee_get_wlist (w_eng w)).2) in *.
  assert (eng_allocated e1 wl) as Hal1 by (apply Hal; by left).
  destruct (law_sleep e1 wl 0 0 Hwf1 Hal1) as (Hwf2 & _ & Hin & Hvo & Hal2 & _).
  assert (forall sl n, slot_get w sl <> Some (wl, n)) as Hfresh by (intros; by apply fresh_no_slot).
  eexists wl, _, _. split; [reflexivity|]. split; [split; [done| |apply (wl_inj w Hinv)]|split; [|apply Hfresh]].
  - intros sl x n Hs. destruct (wl_slots w Hinv sl x n Hs) as [H0|(Hz & Ha & Hc)]; [by left|right].
    split; [done|]. split; [apply Hal2, Hal; by right|]. intros c ->.
    assert (x <> wl) as Hx by (intros ->; by apply (Hfresh sl (Some c))).
    change (c = Z.of_nat (size (eng_waiters (klee_thread_sleep wl 0 0 e1) x))).
    rewrite Hvo, Hv by done. auto.
  - change (t ∈ eng_waiters (klee_thread_sleep wl 0 0 e1) wl). rewrite Hin, Hcur, (cpu_current _ _ Hon). set_solver.
Qed.
End SleepForever.

Lemma sleep_forever_spec_witness :
  exists wl w' k, sigwait 0 0 (demo_world PTHREAD_MUTEX_INITIALIZER tt) = Sleep wl w' k /\
    0 ∈ eng_waiters (w_eng w') wl.
Proof.
  destruct (sleep_forever_spec 0 (demo_world PTHREAD_MUTEX_INITIALIZER tt) 0 0) as (wl & w' & k & H1 & _ & H2 & _);
    [by apply demo_on_cpu|].
  exists wl, w', k. split; [exact H1|exact H2].
Defined.
