(* ===== verification/IoModel.v ===== *)
(** * Input and output, time and process exit
    ([runtime/POSIX/io.c], [time.c], [processes.c])

    Inputs are symbolic: the engine chooses a value, and [klee_assume] cuts off
    the paths on which it does not fit.  One run of the model is one path. *)

From stdpp Require Import base gmap list fin_maps strings.
From Stdlib Require Import ZArith Lia String.
From S2P Require Import Prelude PthreadTypes Klee.

(** The engine calls of [klee.h] that create inputs, allocate memory and keep
    the clock. *)
Class KleeInput (E : Type) := {
  klee_fresh : string -> E -> Z * E;               (* klee_make_symbolic of a local integer *)
  klee_make_symbolic : Z -> Z -> string -> E -> E; (* address, bytes, name *)
  klee_malloc : Z -> Z -> Z -> Z -> E -> Z * E;    (* size, old pointer, zero, alignment *)
  klee_free : Z -> E -> E;
  klee_memset : Z -> Z -> Z -> E -> E;
  klee_memcpy : Z -> Z -> Z -> E -> E;
  klee_memmove : Z -> Z -> Z -> E -> E;
  klee_strdup : Z -> Z -> E -> Z * E;
  klee_get_time : E -> Z;
  klee_set_time : Z -> E -> E;
  klee_ics_region_marker : E -> E
}.

Section Io.
Context {E U : Type} `{!KleeEngine E, !KleeInput E}.
Abbreviation W := (world E U).

(** [_exit] and [abort] end the path; [__assert_fail] reports it. *)
Definition _exit (status : Z) : M W unit := halt StopProcess.
Definition _Exit (status : Z) : M W unit := halt StopProcess.
Definition abort : M W unit := halt StopProcess.
Definition __assert (expr file line func : Z) : M W unit := halt StopAssert.
Definition __assert_fail (expr file line func : Z) : M W unit := halt StopAssert.

(** ** Macros *)

Definition IGNORED : M W Z := mret 0.

(** The result and [errno], both chosen by the engine. *)
Definition ReadSyscallResult (op : string) : M W Z :=
  ret ← call (klee_fresh (op +:+ "_retval"));
  err ← call (klee_fresh (op +:+ "_errno"));
  set_errno err;;
  mret ret.

Definition DEFINE_INPUT_MODEL_SIMPLE (op : string) : M W Z :=
  ret ← ReadSyscallResult op;
  klee_assume (-1 <=? ret);;
  mret ret.

Definition DEFINE_DUMB_INPUT_MODEL (op : string) : M W Z := call (klee_fresh (op +:+ "_retval")).

(** ** File operations *)

Definition read (fd buf count : Z) : M W Z :=
  ret ← ReadSyscallResult "read";
  klee_assume (-1 <=? ret);;
  klee_assume (u64 ret <=? count);;
  let bytesRead := klee_expr_select (ret =? -1) 0 ret in
  tell (klee_make_symbolic buf bytesRead "read_buffer");;
  mret ret.

Definition write (fd buf count : Z) : M W Z :=
  ret ← ReadSyscallResult "write";
  klee_assume (-1 <=? ret);;
  klee_assume (u64 ret <=? count);;
  mret ret.

Definition open (pathname flags : Z) : M W Z := DEFINE_INPUT_MODEL_SIMPLE "open".
Definition creat (pathname mode : Z) : M W Z := DEFINE_INPUT_MODEL_SIMPLE "creat".
Definition close (fd : Z) : M W Z := DEFINE_INPUT_MODEL_SIMPLE "close".

(** [sizeof (struct stat)] is 144 on the target. *)
Definition do_stat (buf : Z) : M W Z :=
  ret ← ReadSyscallResult "stat";
  klee_assume (klee_expr_or (ret =? -1) (ret =? 0));;
  tell (klee_make_symbolic buf 144 "stat_buffer");;
  mret ret.

Definition fstat (fd buf : Z) : M W Z := do_stat buf.
Definition stat (path buf : Z) : M W Z := do_stat buf.
Definition lstat (path buf : Z) : M W Z := do_stat buf.

(** ** Memory mapping; [(void* )-1] is [2^64 - 1] *)

Definition do_mmap (length : Z) : M W Z :=
  ret ← ReadSyscallResult "mmap";
  ptr ← call (klee_malloc length 0 0 4096);
  klee_assume (negb (ptr =? 0));;
  klee_assume (klee_expr_or (ret =? 2 ^ 64 - 1) (ret =? ptr));;
  tell (klee_make_symbolic ptr length "map_buffer");;
  mret ret.

Definition mmap (addr length prot flags fd offset : Z) : M W Z := do_mmap length.
Definition mmap2 (addr length prot flags fd pgoffset : Z) : M W Z := do_mmap length.
Definition munmap (addr length : Z) : M W Z := DEFINE_INPUT_MODEL_SIMPLE "munmap".

(** ** Output *)

Definition printf (fmt : Z) : M W Z := DEFINE_DUMB_INPUT_MODEL "printf".
Definition fprintf (stream fmt : Z) : M W Z := DEFINE_DUMB_INPUT_MODEL "fprintf".
Definition vprintf (fmt arg : Z) : M W Z := DEFINE_DUMB_INPUT_MODEL "vprintf".
Definition strerror (errnum : Z) : M W Z := DEFINE_DUMB_INPUT_MODEL "strerror".
Definition fputc (c stream : Z) : M W Z := DEFINE_DUMB_INPUT_MODEL "fputc".
Definition __fputc_unlocked (c stream : Z) : M W Z := DEFINE_DUMB_INPUT_MODEL "__fputc_unlocked".
Definition fputs (s stream : Z) : M W Z := DEFINE_DUMB_INPUT_MODEL "fputs".
Definition putc (c stream : Z) : M W Z := DEFINE_DUMB_INPUT_MODEL "putc".
Definition putchar (c : Z) : M W Z := DEFINE_DUMB_INPUT_MODEL "putchar".
Definition puts (s : Z) : M W Z := DEFINE_DUMB_INPUT_MODEL "puts".
Definition fflush (stream : Z) : M W Z := DEFINE_DUMB_INPUT_MODEL "fflush".
Definition perror (s : Z) : M W unit := mret tt.
Definition exit (status : Z) : M W unit := _exit status.

(** ** [ftw]: the loop calls [fn] until the engine or [fn] ends the walk *)

Fixpoint ftw_loop (fuel : nat) (fn : Z -> Z -> Z -> M W Z) : M W Z :=
  match fuel with
  | O => halt StopFuel
  | S fuel =>
      tell klee_ics_region_marker;;
      typeflag ← call (klee_fresh "ftw_typeflag");
      if typeflag =? -1 then call (klee_fresh "ftw_retval")
      else
        fpath ← call (klee_fresh "ftw_fpath");
        statbuf ← call (klee_fresh "ftw_statbuf");
        ret ← fn fpath statbuf typeflag;
        if negb (ret =? 0) then call (klee_fresh "ftw_unused_retval");; mret ret
        else ftw_loop fuel fn
  end.

Definition ftw (fuel : nat) (dirpath : Z) (fn : Z -> Z -> Z -> M W Z) (nopenfd : Z) : M W Z :=
  ftw_loop fuel fn.

(** ** Ignored operations *)

Definition readv (fd iov iovcnt : Z) : M W Z := IGNORED.
Definition pread (fd buf count offset : Z) : M W Z := IGNORED.
Definition writev (fd iov iovcnt : Z) : M W Z := IGNORED.
Definition pwrite (fd buf count offset : Z) : M W Z := IGNORED.
Definition pipe (pipefd : Z) : M W Z := IGNORED.
Definition dup (oldfd : Z) : M W Z := IGNORED.
Definition dup2 (oldfd newfd : Z) : M W Z := IGNORED.
Definition dup3 (oldfd newfd flags : Z) : M W Z := IGNORED.
Definition socket (domain type protocol : Z) : M W Z := IGNORED.
Definition bind (sockfd addr addrlen : Z) : M W Z := IGNORED.
Definition getsockname (sockfd addr addrlen : Z) : M W Z := IGNORED.
Definition getpeername (sockfd addr addrlen : Z) : M W Z := IGNORED.
Definition listen (sockfd backlog : Z) : M W Z := IGNORED.
Definition connect (sockfd addr addrlen : Z) : M W Z := IGNORED.
Definition accept (sockfd addr addrlen : Z) : M W Z := IGNORED.
Definition accept4 (sockfd addr addrlen flags : Z) : M W Z := IGNORED.
Definition shutdown (sockfd how : Z) : M W Z := IGNORED.
Definition send (sockfd buf len flags : Z) : M W Z := IGNORED.
Definition sendto (fd buf count flags addr addr_len : Z) : M W Z := IGNORED.
Definition sendmsg (sockfd msg flags : Z) : M W Z := IGNORED.
Definition recv (sockfd buf len flags : Z) : M W Z := IGNORED.
Definition recvfrom (fd buf len flags addr addr_len : Z) : M W Z := IGNORED.
Definition recvmsg (sockfd msg flags : Z) : M W Z := IGNORED.
Definition getsockopt (sockfd level optname optval optlen : Z) : M W Z := IGNORED.
Definition setsockopt (sockfd level optname optval optlen : Z) : M W Z := IGNORED.
Definition socketpair (domain type protocol sv : Z) : M W Z := IGNORED.
Definition getnameinfo (sa salen host hostlen serv servlen flags : Z) : M W Z := IGNORED.
Definition getaddrinfo (node service hints res : Z) : M W Z := IGNORED.
Definition sendfile (out_fd in_fd offset count : Z) : M W Z := IGNORED.
Definition select (nfds readfds writefds exceptfds timeout : Z) : M W Z := IGNORED.
Definition fcntl (fd cmd : Z) : M W Z := IGNORED.
Definition ioctl (fd request : Z) : M W Z := IGNORED.
Definition getcwd (buf size : Z) : M W Z := IGNORED.
Definition lseek (fd offset whence : Z) : M W Z := IGNORED.
Definition chmod (path mode : Z) : M W Z := IGNORED.
Definition fchmod (fd mode : Z) : M W Z := IGNORED.
Definition getdents (fd dirp count : Z) : M W Z := IGNORED.
Definition getdents64 (fd dirp count : Z) : M W Z := IGNORED.
Definition rmdir (pathname : Z) : M W Z := IGNORED.
Definition readlink (pathname buf bufsize : Z) : M W Z := IGNORED.
Definition unlink (pathname : Z) : M W Z := IGNORED.
Definition chroot (pathname : Z) : M W Z := IGNORED.
Definition chown (pathname owner group : Z) : M W Z := IGNORED.
Definition lchown (pathname owner group : Z) : M W Z := IGNORED.
Definition chdir (pathname : Z) : M W Z := IGNORED.
Definition fsync (fd : Z) : M W Z := IGNORED.
Definition fdatasync (fd : Z) : M W Z := IGNORED.
Definition fchdir (fd : Z) : M W Z := IGNORED.
Definition fchown (fd owner group : Z) : M W Z := IGNORED.
Definition fstatfs (fd buf : Z) : M W Z := IGNORED.
Definition statfs (pathname buf : Z) : M W Z := IGNORED.
Definition ftruncate (fd length : Z) : M W Z := IGNORED.
Definition truncate (pathname length : Z) : M W Z := IGNORED.
Definition access (pathname mode : Z) : M W Z := IGNORED.
Definition freeaddrinfo (res : Z) : M W unit := mret tt.
Definition sync : M W unit := mret tt.

(** ** Time ([time.c]); the clock counts microseconds in a [uint64_t] *)

(** The code after the scheduling point. *)
Definition advance_clock (tstart delta : Z) : M W Z :=
  tend ← ask klee_get_time;
  (if u64 (tend - tstart) <? delta then tell (klee_set_time (u64 (tstart + delta))) else mret tt);;
  mret 0.

Definition usleep (usec : Z) : M W Z :=
  tstart ← ask klee_get_time;
  __thread_preempt 1;;
  advance_clock tstart usec.

Definition sleep (seconds : Z) : M W Z :=
  tstart ← ask klee_get_time;
  __thread_preempt 1;;
  advance_clock tstart (u64 (seconds * 1000000)).

Definition nanosleep (req rem : Z) : M W Z := __thread_preempt 1;; mret 0.

(** A [struct timeval] is two cells, at its address and 8 bytes on; a
    [struct timezone] two cells of 4 bytes. *)
Definition gettimeofday (tv tz : Z) : M W Z :=
  sec ← call (klee_fresh "gettimeofday_tv.sec");
  usec ← call (klee_fresh "gettimeofday_tv.usec");
  west ← call (klee_fresh "gettimeofday_tz.west");
  dst ← call (klee_fresh "gettimeofday_tz.dst");
  stv ← ask (klee_is_symbolic tv);
  (if stv || negb (tv =? 0) then store tv sec;; store (tv + 8) usec else mret tt);;
  stz ← ask (klee_is_symbolic tz);
  (if stz || negb (tz =? 0) then store tz west;; store (tz + 4) dst else mret tt);;
  mret 0.

Definition settimeofday (tv tz : Z) : M W Z :=
  (if negb (tv =? 0) then
     sec ← load tv;
     usec ← load (tv + 8);
     tell (klee_set_time (u64 (sec * 1000000 + usec)))
   else mret tt);;
  mret 0.

(** [tv] is the address of the local variable of the function. *)
Definition clock_gettime (tv clk_id res : Z) : M W Z :=
  gettimeofday tv 0;;
  sec ← load tv;
  usec ← load (tv + 8);
  store res sec;;
  store (res + 8) (s64 (usec * 1000));;
  mret 0.

Definition time (t : Z) : M W Z :=
  res ← call (klee_fresh "time");
  st ← ask (klee_is_symbolic t);
  (if st || negb (t =? 0) then store t res else mret tt);;
  mret res.

(** The four fields of [struct tms], 8 bytes each. *)
Definition times (buf : Z) : M W Z :=
  store buf 0;;
  store (buf + 8) 0;;
  store (buf + 16) 0;;
  store (buf + 24) 0;;
  mret 0.
End Io.

(** ** Results *)

Section IoSpec.
Context {E U : Type} `{!KleeEngine E, !KleeInput E}.
Abbreviation W := (world E U).
Implicit Types (w : W).

(** [read] as one step: the engine's choice and the assumption on it. *)
Lemma read_run fd buf count w :
  let r := (klee_fresh "read_retval" (w_eng w)).1 in
  let e1 := (klee_fresh "read_retval" (w_eng w)).2 in
  let w1 := w_set_errno (klee_fresh "read_errno" e1).1 (w_set_eng (klee_fresh "read_errno" e1).2 w) in
  read fd buf count w =
    if -1 <=? r then
      if u64 r <=? count
      then Done r (w_set_eng (klee_make_symbolic buf (if r =? -1 then 0 else r) "read_buffer" (w_eng w1)) w1)
      else Halt StopInfeasible w1
    else Halt StopInfeasible w1.
Proof.
  cbv zeta. unfold read, ReadSyscallResult, klee_assume, klee_expr_select, mbind, M_bind. cbn.
  destruct (-1 <=? _); cbn; [|done]. by destruct (u64 _ <=? count).
Qed.

Lemma write_run fd buf count w :
  let r := (klee_fresh "write_retval" (w_eng w)).1 in
  let e1 := (klee_fresh "write_retval" (w_eng w)).2 in
  let w1 := w_set_errno (klee_fresh "write_errno" e1).1 (w_set_eng (klee_fresh "write_errno" e1).2 w) in
  write fd buf count w =
    if (-1 <=? r) && (u64 r <=? count) then Done r w1 else Halt StopInfeasible w1.
Proof.
  cbv zeta. unfold write, ReadSyscallResult, klee_assume, mbind, M_bind. cbn.
  destruct (-1 <=? _); cbn; [|done]. by destruct (u64 _ <=? count).
Qed.

(** The second assumption, on the result read as unsigned, excludes -1. *)
Lemma assumed_size r count :
  -1 <= r < 2 ^ 63 -> 0 <= count < 2 ^ 64 - 1 -> u64 r <= count -> 0 <= r <= count.
Proof.
  intros Hr Hc Hu. destruct (Z.eq_dec r (-1)) as [->|Hn].
  - change (u64 (-1)) with (2 ^ 64 - 1) in Hu. lia.
  - rewrite u64_small in Hu by lia. lia.
Qed.

(** On every path that survives, [read] and [write] return a size between 0
    and the requested count, and [read] makes exactly that many bytes of the
    buffer symbolic: the failure result -1, which the code provides for, is cut
    off by the assumption that the result read as unsigned is at most the
    count. *)
Theorem read_write_never_fail fd buf count w :
  0 <= count < 2 ^ 64 - 1 -> (forall n e, - 2 ^ 63 <= (klee_fresh n e).1 < 2 ^ 63) ->
  (forall r w', read fd buf count w = Done r w' ->
     0 <= r <= count /\ exists e, w_eng w' = klee_make_symbolic buf r "read_buffer" e) /\
  (forall r w', write fd buf count w = Done r w' -> 0 <= r <= count).
Proof.
  intros Hc Hrange. split; intros r w'.
  - rewrite read_run. cbv zeta. pose proof (Hrange "read_retval" (w_eng w)) as Hr.
    set (v := (klee_fresh "read_retval" (w_eng w)).1) in *.
    destruct (Z.leb_spec (-1) v); [|done]. destruct (Z.leb_spec (u64 v) count); [|done].
    destruct (assumed_size v count) as [Hlo Hhi]; [lia|done|done|]. intros [= <- <-]. split; [done|].
    rewrite (proj2 (Z.eqb_neq v (-1))) by lia. by eexists.
  - rewrite write_run. cbv zeta. pose proof (Hrange "write_retval" (w_eng w)) as Hr.
    set (v := (klee_fresh "write_retval" (w_eng w)).1) in *.
    destruct (Z.leb_spec (-1) v); [|done]. destruct (Z.leb_spec (u64 v) count); [|done]. cbn.
    intros [= <- <-]. apply assumed_size; [lia|done|done].
Qed.

(** A thread that calls [usleep] or [sleep] gives up the processor once, and
    when the call returns the clock has moved on by at least the requested
    time, whatever the other threads did to it (as long as it did not go
    backwards and does not overflow). *)
Theorem sleep_advances_clock usec w :
  (forall t e, klee_get_time (klee_set_time t e) = t) ->
  let t0 := klee_get_time (w_eng w) in
  0 <= t0 -> 0 <= usec -> t0 + usec < 2 ^ 64 ->
  exists k, usleep usec w = Preempt 1 w k /\
    forall w', t0 <= klee_get_time (w_eng w') < 2 ^ 64 ->
      exists w'', k w' = Done 0 w'' /\ t0 + usec <= klee_get_time (w_eng w'').
Proof.
  intros Hset t0 Hnn Hu Hov. eexists. split; [reflexivity|]. intros w' [Hge Hlt]. cbn.
  unfold advance_clock, mbind, M_bind. cbn. fold t0.
  rewrite (u64_small (klee_get_time (w_eng w') - t0)) by lia.
  destruct (Z.ltb_spec (klee_get_time (w_eng w') - t0) usec); eexists; (split; [reflexivity|]); cbn.
  - rewrite Hset, u64_small by lia. lia.
  - lia.
Qed.
End IoSpec.

(** ** Witnesses: an engine whose inputs are all 5 and that has a clock *)

Record clock := Clock { now : Z }.

#[local] Instance clock_engine : KleeInput clock := {
  klee_fresh _ e := (5, e);
  klee_make_symbolic _ _ _ e := e;
  klee_malloc _ _ _ _ e := (4096, e);
  klee_free _ e := e;
  klee_memset _ _ _ e := e;
  klee_memcpy _ _ _ e := e;
  klee_memmove _ _ _ e := e;
  klee_strdup _ _ e := (4096, e);
  klee_get_time e := now e;
  klee_set_time t _ := Clock t;
  klee_ics_region_marker e := e
}.

Definition clock_world : world clock unit :=
  World ∅ ∅ ∅ ∅ ∅ ∅ ∅ (Tsync [] 1 0 0) 0 (Clock 100) tt.

Lemma read_write_never_fail_witness :
  exists w', read 3 1000 8 clock_world = Done 5 w' /\ 0 <= 5 <= 8.
Proof.
  exists (w_set_errno 5 clock_world). split; [vm_compute; reflexivity|].
  destruct (read_write_never_fail 3 1000 8 clock_world) as [Hread _]; [lia|intros; cbn; lia|].
  eapply Hread. vm_compute. reflexivity.
Defined.

Lemma sleep_advances_clock_witness :
  exists k w'', usleep 30 clock_world = Preempt 1 clock_world k /\ k clock_world = Done 0 w'' /\
    130 <= now (w_eng w'').
Proof.
  destruct (sleep_advances_clock 30 clock_world) as (k & H1 & H2); [reflexivity|cbn; lia|lia|cbn; lia|].
  destruct (H2 clock_world) as (w'' & H3 & H4); [cbn; lia|].
  exists k, w''. split; [exact H1|]. split; [exact H3|exact H4].
Defined.
