(* ===== verification/Alloc.v ===== *)
(** * Memory allocation and block operations ([runtime/POSIX/malloc.c])

    Every allocator ends in the engine's [klee_malloc] (size, old pointer, zero
    initialisation, alignment) or [klee_free]; sizes are 64 bits wide. *)

From stdpp Require Import base gmap list fin_maps strings.
From Stdlib Require Import ZArith Lia String.
From S2P Require Import Prelude PthreadTypes Klee IoModel.

Definition IsPow2 (x : Z) : bool := Z.land x (u64 (x - 1)) =? 0.

Definition DontCareAlignment : Z := 0.
Definition NoZeroInit : Z := 0.
Definition ZeroInit : Z := 1.
Definition PAGE_SIZE : Z := 4096.

Section Alloc.
Context {E U : Type} `{!KleeInput E}.
Abbreviation W := (world E U).

(** ** The C allocator *)

Definition malloc (size : Z) : M W Z := call (klee_malloc size 0 NoZeroInit DontCareAlignment).
Definition calloc (numelem size : Z) : M W Z :=
  call (klee_malloc (u64 (numelem * size)) 0 ZeroInit DontCareAlignment).
Definition realloc (ptr size : Z) : M W Z := call (klee_malloc size ptr NoZeroInit DontCareAlignment).

Definition memalign (alignment size : Z) : M W Z :=
  ptr ← call (klee_malloc size 0 NoZeroInit alignment);
  mret (klee_expr_select (IsPow2 alignment) ptr 0).

Definition posix_memalign (memptr alignment size : Z) : M W Z :=
  ptr ← call (klee_malloc size 0 NoZeroInit alignment);
  store memptr ptr;;
  mret (klee_expr_select (negb (IsPow2 alignment)) EINVAL
          (klee_expr_select (ptr =? 0) ENOMEM 0)).

Definition valloc (size : Z) : M W Z := memalign PAGE_SIZE size.
Definition free (ptr : Z) : M W unit := tell (klee_free ptr).

(** ** Block operations; [(char)c] keeps the low byte as a signed value *)

Definition memset (p c nbytes : Z) : M W Z := tell (klee_memset p (s8 c) nbytes);; mret p.
Definition bzero (p nbytes : Z) : M W unit := tell (klee_memset p 0 nbytes).
Definition memcpy (dst src nbytes : Z) : M W Z := tell (klee_memcpy dst src nbytes);; mret dst.
Definition mempcpy (dst src nbytes : Z) : M W Z :=
  tell (klee_memcpy dst src nbytes);; mret (u64 (dst + nbytes)).
Definition memmove (dst src nbytes : Z) : M W Z := tell (klee_memmove dst src nbytes);; mret dst.
Definition bcopy (dst src nbytes : Z) : M W unit := tell (klee_memcpy dst src nbytes).
Definition strdup (src : Z) : M W Z := call (klee_strdup src (2 ^ 64 - 1)).
Definition strndup (src nbytes : Z) : M W Z := call (klee_strdup src nbytes).

(** ** Statistics; [struct mallinfo] has ten [int] fields, [info] is the local's address *)

Definition mallinfo (info : Z) : M W (list Z) := memset info 0 40;; mret (replicate 10 0).
Definition malloc_trim (pad : Z) : M W Z := mret 0.
Definition malloc_stats (file : Z) : M W unit := mret tt.
Definition mallopt (param val : Z) : M W Z := mret 0.

(** ** The C++ operators *)

Definition _Znwj (size : Z) : M W Z := call (klee_malloc size 0 NoZeroInit DontCareAlignment).
Definition _ZnwjRKnothrow_t (size nt : Z) : M W Z := call (klee_malloc size 0 NoZeroInit DontCareAlignment).
Definition _Znwm (size : Z) : M W Z := call (klee_malloc size 0 NoZeroInit DontCareAlignment).
Definition _ZnwmRKnothrow_t (size nt : Z) : M W Z := call (klee_malloc size 0 NoZeroInit DontCareAlignment).
Definition _Znaj (size : Z) : M W Z := call (klee_malloc size 0 NoZeroInit DontCareAlignment).
Definition _ZnajRKnothrow_t (size nt : Z) : M W Z := call (klee_malloc size 0 NoZeroInit DontCareAlignment).
Definition _Znam (size : Z) : M W Z := call (klee_malloc size 0 NoZeroInit DontCareAlignment).
Definition _ZnamRKnothrow_t (size nt : Z) : M W Z := call (klee_malloc size 0 NoZeroInit DontCareAlignment).
Definition _ZdlPv (ptr : Z) : M W unit := tell (klee_free ptr).
Definition _ZdlPvRKnothrow_t (ptr nt : Z) : M W unit := tell (klee_free ptr).
Definition _ZdaPv (ptr : Z) : M W unit := tell (klee_free ptr).
Definition _ZdaPvRKnothrow_t (ptr nt : Z) : M W unit := tell (klee_free ptr).
End Alloc.

(** ** The power-of-two test *)

Lemma land_pow2_pred n : 0 <= n -> Z.land (2 ^ n) (2 ^ n - 1) = 0.
Proof.
  intros Hn. replace (2 ^ n - 1) with (Z.ones n) by (rewrite Z.ones_equiv; lia).
  rewrite Z.land_ones by lia. apply Z.mod_same. lia.
Qed.

Lemma land_pred_pow2 x : 0 < x -> Z.land x (x - 1) = 0 -> x = 2 ^ Z.log2 x.
Proof.
  intros Hx Hl. destruct (Z.log2_spec x Hx) as [Hlo Hhi].
  destruct (Z.eq_dec x (2 ^ Z.log2 x)) as [|Hne]; [done|exfalso].
  assert (0 < 2 ^ Z.log2 x) by (apply Z.pow_pos_nonneg; [lia|apply Z.log2_nonneg]).
  assert (Z.log2 (x - 1) = Z.log2 x) as Hlog.
  { apply Z.log2_unique; [apply Z.log2_nonneg|]. lia. }
  pose proof (Z.bit_log2 x Hx) as Hb1. pose proof (Z.bit_log2 (x - 1) ltac:(lia)) as Hb2.
  rewrite Hlog in Hb2. apply (f_equal (fun z => Z.testbit z (Z.log2 x))) in Hl.
  rewrite Z.land_spec, Hb1, Hb2, Z.bits_0 in Hl. done.
Qed.

Lemma IsPow2_spec x : 0 < x < 2 ^ 64 -> IsPow2 x = true <-> exists n, 0 <= n < 64 /\ x = 2 ^ n.
Proof.
  intros Hx. unfold IsPow2. rewrite u64_small, Z.eqb_eq by lia. split.
  - intros Hl. exists (Z.log2 x). split; [|apply land_pred_pow2; [lia|done]].
    split; [apply Z.log2_nonneg|]. apply Z.log2_lt_pow2; lia.
  - intros (n & Hn & ->). apply land_pow2_pred. lia.
Qed.

Lemma IsPow2_reflect x : 0 < x < 2 ^ 64 -> reflect (exists n, 0 <= n < 64 /\ x = 2 ^ n) (IsPow2 x).
Proof.
  intros Hx. destruct (IsPow2 x) eqn:Hp; constructor.
  - by apply IsPow2_spec.
  - intros Hn. apply IsPow2_spec in Hn; [congruence|done].
Qed.

Section AllocSpec.
Context {E U : Type} `{!KleeInput E}.
Implicit Types (w : world E U).

(** The aligned allocators, for every non-zero alignment: [memalign] gives
    the engine's block when the alignment is a power of two and NULL otherwise;
    [posix_memalign] reports [EINVAL] exactly when it is not a power of two and
    otherwise [ENOMEM] exactly when the block is NULL, and stores the block in
    [*memptr] in every case, the failing ones included. *)
Theorem memalign_spec memptr alignment size w :
  0 < alignment < 2 ^ 64 -> is_Some (w_cells w !! memptr) ->
  let p := (klee_malloc size 0 NoZeroInit alignment (w_eng w)).1 in
  exists r1 w1 r2 w2,
    memalign alignment size w = Done r1 w1 /\ posix_memalign memptr alignment size w = Done r2 w2 /\
    w_cells w2 !! memptr = Some p /\
    ((exists n, 0 <= n < 64 /\ alignment = 2 ^ n) -> r1 = p /\ r2 = if p =? 0 then ENOMEM else 0) /\
    (~ (exists n, 0 <= n < 64 /\ alignment = 2 ^ n) -> r1 = 0 /\ r2 = EINVAL).
Proof.
  intros Ha [v Hv] p. unfold memalign, posix_memalign, klee_expr_select, mbind, M_bind, call. cbn.
  unfold store. cbn. rewrite Hv. fold p. do 4 eexists. split; [reflexivity|]. split; [reflexivity|].
  cbn. rewrite lookup_insert, decide_True by done. split; [done|].
  destruct (IsPow2_reflect alignment Ha) as [Hp|Hp]; cbn; tauto.
Qed.
End AllocSpec.

(** ** Witness: an engine that hands out the block at 4096 *)

Definition bump : Type := unit.
#[local] Instance bump_engine : KleeInput bump := {
  klee_fresh _ e := (0, e);
  klee_make_symbolic _ _ _ e := e;
  klee_malloc _ _ _ _ e := (4096, e);
  klee_free _ e := e;
  klee_memset _ _ _ e := e;
  klee_memcpy _ _ _ e := e;
  klee_memmove _ _ _ e := e;
  klee_strdup _ _ e := (4096, e);
  klee_get_time _ := 0;
  klee_set_time _ e := e;
  klee_ics_region_marker e := e
}.

Definition bump_world : world bump unit :=
  World ∅ ∅ ∅ ∅ ∅ ∅ {[ 600 := 7 ]} (Tsync [] 1 0 0) 0 (tt : bump) tt.

Lemma memalign_spec_witness :
  (exists w2, posix_memalign 600 16 100 bump_world = Done 0 w2) /\
  (exists w2, posix_memalign 600 24 100 bump_world = Done EINVAL w2 /\ w_cells w2 !! 600 = Some 4096).
Proof.
  split.
  - destruct (memalign_spec 600 16 100 bump_world) as (r1 & w1 & r2 & w2 & _ & H2 & _ & Hp & _);
      [lia|by eexists|]. exists w2. rewrite H2. destruct Hp as [_ ->]; [by exists 4|done].
  - destruct (memalign_spec 600 24 100 bump_world) as (r1 & w1 & r2 & w2 & _ & H2 & H3 & _ & Hn);
      [lia|by eexists|]. exists w2. rewrite H2. split; [|exact H3].
    destruct Hn as [_ ->]; [|done]. rewrite <- IsPow2_spec by lia. done.
Defined.
