(* ===== verification/CString.v ===== *)
(** * C strings

    A [char *] that points to a terminated string is the list of its characters
    without the terminator; reading [*s] at the end gives 0.  This file holds
    the standard library's [strtol] with base 0, as the C standard describes
    it. *)

From stdpp Require Import base list.
From Stdlib Require Import ZArith Lia.
From S2P Require Import Prelude.

(** [*s] and [s + 1]. *)
Definition chr (s : list Z) : Z := match s with [] => 0 | c :: _ => c end.

Definition isspace (c : Z) : bool := (c =? 32) || ((9 <=? c) && (c <=? 13)).

(** The value of a digit in the largest base; 36 if the character is none. *)
Definition digit_val (c : Z) : Z :=
  if (48 <=? c) && (c <=? 57) then c - 48
  else if (97 <=? c) && (c <=? 122) then c - 97 + 10
  else if (65 <=? c) && (c <=? 90) then c - 65 + 10
  else 36.

(** The digits from the front of the string, and the rest. *)
Fixpoint read_digits (base acc : Z) (s : list Z) : Z * list Z :=
  match s with
  | [] => (acc, [])
  | c :: s' => if digit_val c <? base then read_digits base (acc * base + digit_val c) s' else (acc, s)
  end.

Fixpoint skip_spaces (s : list Z) : list Z :=
  match s with
  | c :: s' => if isspace c then skip_spaces s' else s
  | [] => []
  end.

Definition LONG_MAX : Z := 2 ^ 63 - 1.
Definition LONG_MIN : Z := - 2 ^ 63.

(** The base that base 0 stands for, and the text after its prefix. *)
Definition strtol_base (s : list Z) : Z * list Z :=
  match s with
  | 48 :: 120 :: d :: r => if digit_val d <? 16 then (16, d :: r) else (8, s)
  | 48 :: 88 :: d :: r => if digit_val d <? 16 then (16, d :: r) else (8, s)
  | 48 :: _ => (8, s)
  | _ => (10, s)
  end.

(** [strtol (s, &endptr, 0)]: the value and [endptr]. *)
Definition strtol (s : list Z) : Z * list Z :=
  let s1 := skip_spaces s in
  let '(neg, s2) := match s1 with
                    | 45 :: r => (true, r)
                    | 43 :: r => (false, r)
                    | _ => (false, s1)
                    end in
  let '(base, s3) := strtol_base s2 in
  if digit_val (chr s3) <? base then
    let '(v, rest) := read_digits base 0 s3 in
    ((if neg then Z.max LONG_MIN (- v) else Z.min LONG_MAX v), rest)
  else (0, s).

(** ** Numerals: the most significant digit first *)

(** Reading digits that fit is evaluation in the base. *)
Fixpoint eval_digits (base acc : Z) (ds : list Z) : Z :=
  match ds with [] => acc | d :: ds' => eval_digits base (acc * base + d) ds' end.

Definition digit_char (d : Z) : Z := if 10 <=? d then d - 10 + 97 else d + 48.

Lemma digit_val_char d : 0 <= d < 36 -> digit_val (digit_char d) = d.
Proof.
  intros Hd. unfold digit_val, digit_char. destruct (Z.leb_spec 10 d).
  - rewrite (proj2 (Z.leb_gt (d - 10 + 97) 57)), andb_false_r by lia.
    rewrite (proj2 (Z.leb_le 97 _)), (proj2 (Z.leb_le _ 122)) by lia. cbn. lia.
  - rewrite (proj2 (Z.leb_le 48 _)), (proj2 (Z.leb_le _ 57)) by lia. cbn. lia.
Qed.

Lemma read_digits_numeral base acc ds :
  base <= 36 -> Forall (fun d => 0 <= d < base) ds ->
  read_digits base acc (digit_char <$> ds) = (eval_digits base acc ds, []).
Proof.
  intros Hb. revert acc. induction ds as [|d ds IH]; intros acc Hds; [done|].
  apply Forall_cons in Hds as [Hd Hds]. cbn. rewrite digit_val_char by lia.
  rewrite (proj2 (Z.ltb_lt _ _)) by lia. by apply IH.
Qed.

Lemma isspace_digit d : 0 <= d < 36 -> isspace (digit_char d) = false.
Proof. intros Hd. unfold isspace, digit_char. destruct (Z.leb_spec 10 d); zbool. Qed.

(** A numeral with its sign, its prefix and no leading zero, read back. *)
Lemma strtol_base_decimal d r : 1 <= d < 36 -> strtol_base (digit_char d :: r) = (10, digit_char d :: r).
Proof.
  intros Hd. assert (digit_char d <> 48) as Hn by (unfold digit_char; destruct (Z.leb_spec 10 d); lia).
  unfold strtol_base. destruct (digit_char d) as [|p|p]; try done.
  do 6 (destruct p as [p|p|]; try done).
Qed.

Lemma strtol_base_hex d r : 0 <= d < 16 -> strtol_base (48 :: 120 :: digit_char d :: r) = (16, digit_char d :: r).
Proof. intros Hd. cbn. by rewrite digit_val_char, (proj2 (Z.ltb_lt _ _)) by lia. Qed.

Lemma strtol_base_octal d r : 0 <= d < 8 -> strtol_base (48 :: digit_char d :: r) = (8, 48 :: digit_char d :: r).
Proof.
  intros Hd. unfold digit_char. rewrite (proj2 (Z.leb_gt _ _)) by lia.
  assert (d = 0 \/ d = 1 \/ d = 2 \/ d = 3 \/ d = 4 \/ d = 5 \/ d = 6 \/ d = 7) as Hc by lia.
  by destruct Hc as [-> | [-> | [-> | [-> | [-> | [-> | [-> | ->]]]]]]].
Qed.

(** A text that starts with a digit has no blanks or sign in front. *)
Lemma strtol_unsigned d r :
  0 <= d < 36 -> strtol (digit_char d :: r) =
  let '(base, s3) := strtol_base (digit_char d :: r) in
  if digit_val (chr s3) <? base then
    let '(v, rest) := read_digits base 0 s3 in (Z.min LONG_MAX v, rest)
  else (0, digit_char d :: r).
Proof.
  intros Hd. unfold strtol. cbn [skip_spaces]. rewrite isspace_digit by done.
  assert (48 <= digit_char d) as Hn by (unfold digit_char; destruct (Z.leb_spec 10 d); lia).
  destruct (digit_char d) as [|p|p]; try done.
  do 6 (destruct p as [p|p|]; try done; try (exfalso; lia)).
Qed.

Lemma strtol_negative s :
  strtol (45 :: s) =
  let '(base, s3) := strtol_base s in
  if digit_val (chr s3) <? base then
    let '(v, rest) := read_digits base 0 s3 in (Z.max LONG_MIN (- v), rest)
  else (0, 45 :: s).
Proof. reflexivity. Qed.
