(* ===== verification/Args.v ===== *)
(** * Command line of the program under test ([runtime/POSIX/init.c])

    [klee_process_args] replaces the options [--sym-arg] and [--sym-args] by
    symbolic strings.  The caller's [argv] is the list of its pointers; [str]
    gives the string a pointer points to.  The local array [new_argv] is a
    list; its length is [new_argc]. *)

From stdpp Require Import base gmap list fin_maps strings.
From Stdlib Require Import ZArith Lia Ascii.
From Stdlib Require String.
From S2P Require Import Prelude PthreadTypes Klee WaitLists IoModel Alloc CString.

(** The engine calls of [klee.h] this file adds; the bytes of the symbolic
    strings live in the engine's memory. *)
Class KleeArgs (E : Type) := {
  klee_load8 : Z -> E -> Z;
  klee_store8 : Z -> Z -> E -> E;
  klee_mark_global : Z -> E -> E;
  klee_prefer_cex : Z -> bool -> E -> E;
  klee_range32 : Z -> Z -> string -> E -> Z * E;
  klee_event : Z -> Z -> E -> E
}.

Definition KLEE_EVENT_BREAKPOINT : Z := 10.
Definition KLEE_BRK_START_TRACING : Z := 42.
Definition ARGC_MAX : nat := 1024.

Definition __isprint (c : Z) : bool := (32 <=? c) && (c <=? 126).

Fixpoint __streq (a b : list Z) : bool :=
  match a with
  | [] => chr b =? 0
  | c :: a' => if c =? chr b then (if c =? 0 then true else __streq a' (tail b)) else false
  end.

(** The characters of the option names. *)
Definition chars (s : string) : list Z := (fun c => Z.of_nat (nat_of_ascii c)) <$> String.list_ascii_of_string s.

(** ["arg"] followed by the character ['0' + n], as a C string. *)
Definition sym_arg_name (n : Z) : string :=
  let c := u8 (48 + n) in
  if c =? 0 then "arg"%string else ("arg" +:+ String (ascii_of_N (Z.to_N c)) "")%string.

Section Args.
Context {E U : Type} `{!KleeEngine E, !KleeInput E, !KleeArgs E}.
Context (str : Z -> list Z).
Abbreviation W := (world E U).

Definition __emit_error {A} : M W A := halt StopError.

Definition __str_to_int (s : list Z) : M W Z :=
  (if chr s =? 0 then __emit_error else mret tt);;
  let '(res, endptr) := strtol s in
  (if negb (chr endptr =? 0) then __emit_error else mret tt);;
  mret res.

(** The preference for printable characters, byte by byte. *)
Fixpoint prefer_printable (s : Z) (n i : nat) : M W unit :=
  match n with
  | O => mret tt
  | S n =>
      c ← ask (klee_load8 (s + Z.of_nat i));
      tell (klee_prefer_cex s (__isprint c));;
      prefer_printable s n (S i)
  end.

Definition __get_sym_str (numChars : Z) (name : string) : M W Z :=
  s ← malloc (u64 (s32 (numChars + 1)));
  tell (klee_mark_global s);;
  tell (klee_make_symbolic s (u64 (s32 (numChars + 1))) name);;
  prefer_printable s (Z.to_nat numChars) 0;;
  tell (klee_store8 (s + numChars) 0);;
  mret s.

Definition __add_arg (argv : list Z) (arg : Z) (argcMax : nat) : M W (list Z) :=
  if bool_decide (length argv = argcMax) then __emit_error else mret (argv ++ [arg]).

(** [new_argv] and [sym_arg_num] after one more symbolic argument; the [int]
    parameter of [__get_sym_str] takes the low bits of [max_len]. *)
Definition add_sym_arg (max_len : Z) (st : list Z * Z) : M W (list Z * Z) :=
  s ← __get_sym_str (s32 max_len) (sym_arg_name st.2);
  new_argv ← __add_arg st.1 s ARGC_MAX;
  mret (new_argv, u32 (st.2 + 1)).

Fixpoint add_sym_args (n : nat) (max_len : Z) (st : list Z * Z) : M W (list Z * Z) :=
  match n with
  | O => mret st
  | S n => st ← add_sym_arg max_len st; add_sym_args n max_len st
  end.

Definition is_sym_arg (s : list Z) : bool := __streq s (chars "--sym-arg") || __streq s (chars "-sym-arg").
Definition is_sym_args (s : list Z) : bool := __streq s (chars "--sym-args") || __streq s (chars "-sym-args").

(** The loop over [argv + k]. *)
Fixpoint process_args_loop (argv : list Z) (st : list Z * Z) : M W (list Z * Z) :=
  match argv with
  | [] => mret st
  | a :: rest =>
      if is_sym_arg (str a) then
        match rest with
        | [] => __emit_error
        | len :: rest =>
            max_len ← __str_to_int (str len);
            st ← add_sym_arg (u32 max_len) st;
            process_args_loop rest st
        end
      else if is_sym_args (str a) then
        match rest with
        | mn :: mx :: len :: rest =>
            min_argvs ← __str_to_int (str mn);
            max_argvs ← __str_to_int (str mx);
            max_len ← __str_to_int (str len);
            n_args ← call (klee_range32 (s32 min_argvs) (s32 (u32 max_argvs + 1)) "n_args");
            st ← add_sym_args (Z.to_nat n_args) (u32 max_len) st;
            process_args_loop rest st
        | _ => __emit_error
        end
      else
        new_argv ← __add_arg st.1 a ARGC_MAX;
        process_args_loop rest (new_argv, st.2)
  end.

(** [new_argv] is the address of the local array; the result is the content of
    the block that [*argvPtr] points to afterwards. *)
Definition klee_process_args (new_argv argcPtr argvPtr : Z) (argv : list Z) : M W (list Z) :=
  '(args, _) ← process_args_loop argv ([], 0);
  let new_argc := Z.of_nat (length args) in
  final_argv ← malloc ((new_argc + 1) * 8);
  tell (klee_mark_global final_argv);;
  memcpy final_argv new_argv (new_argc * 8);;
  store argcPtr new_argc;;
  store argvPtr final_argv;;
  tell (klee_event KLEE_EVENT_BREAKPOINT KLEE_BRK_START_TRACING);;
  mret (args ++ [0]).
End Args.

(** ** Results *)

Lemma streq_spec a b : 0 ∉ a -> 0 ∉ b -> __streq a b = true <-> a = b.
Proof.
  revert b. induction a as [|c a IH]; intros b Ha Hb.
  { destruct b as [|d b]; [done|]. cbn. rewrite Z.eqb_eq. split; [intros ->; set_solver|done]. }
  cbn [__streq]. assert (c <> 0) by set_solver. destruct (Z.eqb_spec c (chr b)) as [Heq|Hne].
  - rewrite (proj2 (Z.eqb_neq c 0)) by done. destruct b as [|d b]; [done|]. cbn in Heq |- *. subst d.
    rewrite IH by set_solver. split; congruence.
  - split; [done|]. intros <-. by destruct Hne.
Qed.

Lemma plain_arg s :
  s ∉ (chars <$> ["--sym-arg"; "-sym-arg"; "--sym-args"; "-sym-args"])%string -> 0 ∉ s ->
  is_sym_arg s = false /\ is_sym_args s = false.
Proof.
  intros Hn Hz. assert (forall o, o ∈ ["--sym-arg"; "-sym-arg"; "--sym-args"; "-sym-args"]%string ->
    0 ∉ chars o -> __streq s (chars o) = false) as Hne.
  { intros o Ho H0. apply not_true_iff_false. rewrite streq_spec by done. intros ->.
    apply Hn. by apply (list_elem_of_fmap_2 chars). }
  unfold is_sym_arg, is_sym_args. rewrite !Hne; [done|..]; first [set_solver|by apply (bool_decide_unpack _)].
Qed.

Section ArgsSpec.
Context {E U : Type} `{!KleeEngine E, !KleeInput E, !KleeArgs E}.
Context (str : Z -> list Z).
Implicit Types (w : world E U).

(** Plain arguments only: the loop copies pointers while there is room. *)
Lemma process_args_plain argv args n w :
  (forall a, a ∈ argv -> is_sym_arg (str a) = false /\ is_sym_args (str a) = false) ->
  (length args <= ARGC_MAX)%nat ->
  process_args_loop str argv (args, n) w =
    if bool_decide (length (args ++ argv) <= ARGC_MAX)%nat then Done (args ++ argv, n) w else Halt StopError w.
Proof.
  revert args. induction argv as [|a argv IH]; intros args Hplain Hlen.
  { rewrite app_nil_r, bool_decide_eq_true_2 by done. done. }
  destruct (Hplain a) as [H1 H2]; [by left|]. cbn [process_args_loop]. rewrite H1, H2. unfold __add_arg. cbn [fst snd].
  destruct (bool_decide_reflect (length args = ARGC_MAX)) as [Hfull|Hroom].
  - rewrite bool_decide_eq_false_2; [done|]. rewrite length_app. cbn [length]. lia.
  - rewrite bind_ret, IH; [by rewrite <- app_assoc|intros x Hx; apply Hplain; by right|].
    rewrite length_app. cbn [length]. lia.
Qed.

(** Whatever the options, the array never overflows. *)
Definition args_fit (o : out (world E U) (list Z * Z)) : Prop :=
  match o with Done st _ => (length st.1 <= ARGC_MAX)%nat | Halt _ _ => True | _ => False end.

Lemma args_fit_bind (c : M (world E U) (list Z * Z)) (f : list Z * Z -> M (world E U) (list Z * Z)) w :
  args_fit (c w) -> (forall st w', (length st.1 <= ARGC_MAX)%nat -> args_fit (f st w')) -> args_fit ((c ≫= f) w).
Proof. unfold mbind, M_bind. destruct (c w); cbn; auto. Qed.

Lemma str_to_int_cases s w : (exists n, __str_to_int s w = Done n w) \/ __str_to_int s w = Halt StopError w.
Proof.
  unfold __str_to_int. destruct (chr s =? 0); [by right|]. rewrite bind_ret. destruct (strtol s) as [v e].
  destruct (negb (chr e =? 0)); [by right|]. left. by eexists.
Qed.

Lemma prefer_printable_done s n i w : exists w', prefer_printable s n i w = Done tt w'.
Proof. revert i w. induction n as [|n IH]; intros i w; [by eexists|]. cbn. apply IH. Qed.

Lemma get_sym_str_done n name w : exists s w', __get_sym_str n name w = Done s w'.
Proof.
  unfold __get_sym_str, mbind, M_bind. cbn.
  match goal with |- context [prefer_printable ?s ?k ?i ?w0] =>
    destruct (prefer_printable_done s k i w0) as [w' ->] end.
  by do 2 eexists.
Qed.

Lemma add_arg_fit args arg n w :
  (length args <= ARGC_MAX)%nat ->
  args_fit ((new_argv ← __add_arg args arg ARGC_MAX; mret (new_argv, n)) w).
Proof.
  intros Hlen. unfold __add_arg. destruct (bool_decide_reflect (length args = ARGC_MAX)); [done|].
  rewrite bind_ret. cbn. rewrite length_app. cbn [length]. lia.
Qed.

Lemma add_sym_arg_fit len st w : (length st.1 <= ARGC_MAX)%nat -> args_fit (add_sym_arg len st w).
Proof.
  intros Hlen. unfold add_sym_arg.
  destruct (get_sym_str_done (s32 len) (sym_arg_name st.2) w) as (s & w' & Hs).
  erewrite bind_done; [|exact Hs]. by apply add_arg_fit.
Qed.

Lemma add_sym_args_fit n len st w : (length st.1 <= ARGC_MAX)%nat -> args_fit (add_sym_args n len st w).
Proof.
  revert st w. induction n as [|n IH]; intros st w Hlen; cbn [add_sym_args]; [done|].
  apply args_fit_bind; [by apply add_sym_arg_fit|]. intros st' w'. apply IH.
Qed.

Lemma str_to_int_fit s w (f : Z -> M (world E U) (list Z * Z)) :
  (forall n, args_fit (f n w)) -> args_fit ((__str_to_int s ≫= f) w).
Proof.
  intros Hf. destruct (str_to_int_cases s w) as [[n Hn]|Hh].
  - by erewrite bind_done by exact Hn.
  - unfold mbind, M_bind. by rewrite Hh.
Qed.

Lemma process_args_loop_fit argv st w :
  (length st.1 <= ARGC_MAX)%nat -> args_fit (process_args_loop str argv st w).
Proof.
  revert st w. induction argv as [argv IH] using (induction_ltof1 _ length). unfold ltof in IH.
  intros st w Hlen. destruct argv as [|a rest]; [done|]. cbn [process_args_loop].
  destruct (is_sym_arg (str a)); [|destruct (is_sym_args (str a))].
  - destruct rest as [|l rest]; [done|]. apply str_to_int_fit. intros n.
    apply args_fit_bind; [by apply add_sym_arg_fit|]. intros st' w'. apply IH. cbn [length]. lia.
  - destruct rest as [|mn [|mx [|l rest]]]; try done. do 3 (apply str_to_int_fit; intros ?).
    erewrite bind_done; [|done].
    apply args_fit_bind; [by apply add_sym_args_fit|]. intros st' w'. apply IH. cbn [length]. lia.
  - unfold __add_arg. destruct (bool_decide_reflect (length st.1 = ARGC_MAX)); [done|].
    rewrite bind_ret. apply IH; [cbn [length]; lia|]. cbn [fst]. rewrite length_app. cbn [length]. lia.
Qed.

(** The command line handed to the program has at most 1024 arguments and a
    NULL behind them, whatever the options; without [--sym-arg] and
    [--sym-args] it is the original one, or the path ends with an error if it
    is longer than 1024. *)
Theorem process_args_spec new_argv argcPtr argvPtr argv w :
  (forall args w', klee_process_args str new_argv argcPtr argvPtr argv w = Done args w' ->
     exists body, args = body ++ [0] /\ (length body <= ARGC_MAX)%nat) /\
  ((forall a, a ∈ argv -> str a ∉ (chars <$> ["--sym-arg"; "-sym-arg"; "--sym-args"; "-sym-args"])%string /\ 0 ∉ str a) ->
   is_Some (w_cells w !! argcPtr) -> is_Some (w_cells w !! argvPtr) ->
   ((length argv <= ARGC_MAX)%nat ->
      exists w', klee_process_args str new_argv argcPtr argvPtr argv w = Done (argv ++ [0]) w' /\
        (argcPtr <> argvPtr -> w_cells w' !! argcPtr = Some (Z.of_nat (length argv)))) /\
   ((ARGC_MAX < length argv)%nat -> klee_process_args str new_argv argcPtr argvPtr argv w = Halt StopError w)).
Proof.
  split.
  - intros args w' Hrun. pose proof (process_args_loop_fit argv ([], 0) w ltac:(cbn; lia)) as Hfit.
    unfold klee_process_args, mbind, M_bind in Hrun.
    destruct (process_args_loop str argv ([], 0) w) as [st w1| | | |]; try done.
    destruct st as [body n]. cbn in Hrun, Hfit. unfold memcpy, mbind, M_bind, store in Hrun. cbn in Hrun.
    do 2 (case_match; cbn in Hrun; [|done]). injection Hrun as <- _. by exists body.
  - intros Hplain [vc Hc] [vv Hv].
    assert (forall a, a ∈ argv -> is_sym_arg (str a) = false /\ is_sym_args (str a) = false) as Hno.
    { intros a Ha. destruct (Hplain a Ha) as [Hn Hz]. by apply plain_arg. }
    pose proof (process_args_plain argv [] 0 w Hno ltac:(cbn; lia)) as Hloop. cbn [app] in Hloop.
    unfold klee_process_args. split; intros Hlen.
    + rewrite bool_decide_eq_true_2 in Hloop by done. unfold memcpy, mbind, M_bind, store.
      rewrite Hloop. cbn. rewrite Hc. cbn.
      destruct (decide (argvPtr = argcPtr)) as [->|Hne].
      * rewrite lookup_insert, decide_True by done. cbn. eexists. split; [done|]. by intros [].
      * rewrite lookup_insert_ne, Hv by done. cbn. eexists. split; [done|]. intros _. cbn.
        rewrite lookup_insert_ne, lookup_insert, decide_True by done. done.
    + rewrite bool_decide_eq_false_2 in Hloop by lia. unfold mbind, M_bind. by rewrite Hloop.
Qed.
End ArgsSpec.

(** ** Witness: a command line of two plain words *)

#[local] Instance args_input : KleeInput unit := {
  klee_fresh _ e := (0, e);
  klee_make_symbolic _ _ _ e := e;
  klee_malloc _ _ _ _ e := (4096, e);
  klee_free _ e := e;
  klee_memset _ _ _ e := e;
  klee_memcpy _ _ _ e := e;
  klee_memmove _ _ _ e := e;
  klee_strdup _ _ e := (4096, e);
  klee_get_time _ := 0;
  klee_set_time _ e := e;
  klee_ics_region_marker e := e
}.
#[local] Instance args_engine : KleeArgs unit := {
  klee_load8 _ _ := 0;
  klee_store8 _ _ e := e;
  klee_mark_global _ e := e;
  klee_prefer_cex _ _ e := e;
  klee_range32 lo _ _ e := (lo, e);
  klee_event _ _ e := e
}.

Definition args_world : world unit unit :=
  World ∅ ∅ ∅ ∅ ∅ ∅ (<[ 600 := 2 ]> {[ 608 := 0 ]}) (Tsync [] 1 0 0) 0 tt tt.

(** 1000 points to "ls", 2000 to "-l". *)
Definition args_str (a : Z) : list Z := if a =? 1000 then [108; 115] else [45; 108].

Lemma process_args_spec_witness :
  exists w', klee_process_args args_str 5000 600 608 [1000; 2000] args_world = Done [1000; 2000; 0] w' /\
    w_cells w' !! 600 = Some 2.
Proof.
  destruct (process_args_spec args_str 5000 600 608 [1000; 2000] args_world) as [_ H].
  destruct H as [H _]; [|by eexists|by eexists|].
  - intros a Ha. destruct (decide (a = 1000)) as [->|Hne]; [|unfold args_str; rewrite (proj2 (Z.eqb_neq a 1000)) by done];
      split; by apply (bool_decide_unpack _).
  - destruct H as (w' & Hrun & Hc); [cbn; unfold ARGC_MAX; lia|]. exists w'. split; [exact Hrun|]. by apply Hc.
Defined.
