(* ===== verification/Printf.v ===== *)
(** * The minimal [printf] of the constrained runtime ([ConstrainedExec/printf.c])

    The functions write to consecutive positions from [outp] on and return the
    new [outp]; here they return the characters they write, given the room
    [endp - outp] that is left.  [uval_t] is 64 bits wide.  The loops over numbers
    have fuel; [None] is a loop that has not come to its end. *)

From stdpp Require Import base list sets.
From Stdlib Require Import ZArith Lia.
From S2P Require Import Prelude CString.

(** [src] is NULL or a string. *)
Fixpoint writestr_loop (inp : list Z) (room : Z) : list Z :=
  match inp with
  | [] => []
  | c :: inp' => if (c =? 0) || negb (0 <? room) then [] else c :: writestr_loop inp' (room - 1)
  end.

Definition writestr (room : Z) (src : option (list Z)) : list Z :=
  match src with None => [] | Some inp => writestr_loop inp room end.

(** [WriteChecked]: the character is stored first, then the end is checked. *)
Definition WriteChecked (c room : Z) (rest : Z -> option (list Z)) : option (list Z) :=
  cons c <$> (if room - 1 =? 0 then Some [] else rest (room - 1)).

(** The loop that looks for the multiplier of the first digit; [m] at label [print]. *)
Fixpoint find_multiplier (fuel : nat) (base num m : Z) : option Z :=
  match fuel with
  | O => None
  | S fuel =>
      if 1 <=? num / m then
        if u64 (m * base) <? m then Some m else find_multiplier fuel base num (u64 (m * base))
      else Some (m / base)
  end.

Definition write_digit (digit : Z) : Z :=
  if 10 <=? digit then s8 (s8 (digit - 10) + 97) else s8 (s8 digit + 48).

Fixpoint print_digits (fuel : nat) (room base num m : Z) : option (list Z) :=
  match fuel with
  | O => None
  | S fuel =>
      if negb (m =? 0) && (0 <? room)
      then cons (write_digit (num / m)) <$> print_digits fuel (room - 1) base (num mod m) (m / base)
      else Some []
  end.

(** Both loops turn at most once per digit, of which there are at most 22. *)
Definition NUM_FUEL : nat := 24.

Definition write_number_body (base num room : Z) : option (list Z) :=
  m ← find_multiplier NUM_FUEL base num base; print_digits NUM_FUEL room base num m.

Definition writenumber (room base num : Z) : option (list Z) :=
  let after8 room :=
    if base =? 16
    then WriteChecked 48 room (fun room => WriteChecked 120 room (write_number_body base num))
    else write_number_body base num room in
  if base =? 8 then WriteChecked 48 room after8 else after8 room.

Definition writedecimal (room : Z) (isSigned : bool) (num : Z) : option (list Z) :=
  if isSigned && (s64 num <? 0)
  then WriteChecked 45 room (fun room => writenumber room 10 (u64 (- num)))
  else writenumber room 10 num.

(** ** Formatting *)

(** An argument of the variable list: an integer or pointer, or a string. *)
Inductive va_value := VInt (z : Z) | VStr (s : option (list Z)).

Definition va_int (args : list va_value) : option (Z * list va_value) :=
  match args with VInt z :: rest => Some (z, rest) | _ => None end.
Definition va_str (args : list va_value) : option (option (list Z) * list va_value) :=
  match args with VStr s :: rest => Some (s, rest) | _ => None end.

Inductive number_type := Hex | Octal | Decimal.

(** The code at label [number]: the value is sign-extended from its type. *)
Definition write_val (room : Z) (isLong : bool) (ty : number_type) (isSigned : bool) (z : Z) : option (list Z) :=
  let val := u64 (if isLong then s64 z else s32 z) in
  match ty with
  | Hex => writenumber room 16 val
  | Octal => writenumber room 8 val
  | Decimal => writedecimal room isSigned val
  end.

(** One conversion, its letter at [*inp]: what it writes and the arguments left;
    [None] is a missing or ill-typed argument, or a loop that does not end. *)
Definition convert (room : Z) (isLong : bool) (c : Z) (args : list va_value)
    : option (list Z * list va_value) :=
  let number ty sg := '(z, rest) ← va_int args; out ← write_val room isLong ty sg z; Some (out, rest) in
  if c =? 115 then '(s, rest) ← va_str args; Some (writestr room s, rest)
  else if c =? 99 then '(z, rest) ← va_int args; Some ([s8 z], rest)
  else if c =? 112 then '(z, rest) ← va_int args; out ← writenumber room 16 (u64 z); Some (out, rest)
  else if c =? 120 then number Hex false
  else if c =? 111 then number Octal false
  else if c =? 117 then number Decimal false
  else if c =? 100 then number Decimal true
  else Some ([c], args).

(** The loop of [vsnprintf]; [inp] gets shorter in every turn. *)
Fixpoint vsnprintf_loop (fuel : nat) (inp : list Z) (room : Z) (args : list va_value) : option (list Z) :=
  match fuel with
  | O => None
  | S fuel =>
      match inp with
      | [] => Some []
      | c :: inp1 =>
          if (c =? 0) || negb (0 <? room) then Some []
          else if negb (c =? 37) then cons c <$> vsnprintf_loop fuel inp1 (room - 1) args
          else
            let isLong := chr inp1 =? 108 in
            let inp2 := if isLong then tail inp1 else inp1 in
            if chr inp2 =? 0 then Some []
            else
              '(out, args') ← convert room isLong (chr inp2) args;
              app out <$> vsnprintf_loop fuel (tail inp2) (room - Z.of_nat (length out)) args'
      end
  end.

Definition vsnprintf (room : Z) (fmt : list Z) (args : list va_value) : option (list Z) :=
  vsnprintf_loop (S (length fmt)) fmt room args.

(** ** The API *)

(** Stores into a buffer; [None] is a store outside of it. *)
Definition poke (buf : list Z) (i : nat) (c : Z) : option (list Z) :=
  if bool_decide (i < length buf)%nat then Some (<[i := c]> buf) else None.

Fixpoint poke_all (buf : list Z) (i : nat) (cs : list Z) : option (list Z) :=
  match cs with
  | [] => Some buf
  | c :: cs' => buf' ← poke buf i c; poke_all buf' (S i) cs'
  end.

(** The buffer afterwards and the returned offset. *)
Definition __ics_snprintf (buf : list Z) (bufsz : Z) (fmt : list Z) (args : list va_value)
    : option (list Z * Z) :=
  out ← vsnprintf bufsz fmt args;
  buf1 ← poke_all buf 0 out;
  let strlen := Z.of_nat (length out) in
  buf2 ← (if strlen <? bufsz then poke buf1 (length out) 0 else Some buf1);
  Some (buf2, strlen).

(** What the call of [write] gets: descriptor and text, from a buffer of 256. *)
Definition __ics_printf (fd : Z) (fmt : list Z) (args : list va_value) : option (Z * list Z) :=
  out ← vsnprintf 256 fmt args; poke_all (replicate 256 0) 0 out;; Some (fd, out).
Definition __ics_vprintf (fd : Z) (fmt : list Z) (args : list va_value) : option (Z * list Z) :=
  out ← vsnprintf 256 fmt args; poke_all (replicate 256 0) 0 out;; Some (fd, out).

Fixpoint __ics_strlen_loop (str : list Z) (sz : Z) : Z :=
  match str with [] => sz | c :: str' => if c =? 0 then sz else __ics_strlen_loop str' (u64 (sz + 1)) end.
Definition __ics_strlen (str : list Z) : Z := __ics_strlen_loop str 0.

(** ** The digits *)


Lemma pow_S b (j : nat) : b ^ Z.of_nat (S j) = b * b ^ Z.of_nat j.
Proof. rewrite Nat2Z.inj_succ, Z.pow_succ_r by lia. done. Qed.

Lemma pow_pred b (j : nat) : b <> 0 -> b ^ Z.of_nat (S j) / b = b ^ Z.of_nat j.
Proof. intros Hb. by rewrite pow_S, Z.mul_comm, Z.div_mul. Qed.

Lemma pow_nat_pos b (j : nat) : 0 < b -> 0 < b ^ Z.of_nat j.
Proof. intros Hb. apply Z.pow_pos_nonneg; lia. Qed.





(** With less room the loop stops early. *)
Lemma print_digits_total base fuel j room num :
  1 < base -> (S j < fuel)%nat -> exists out, print_digits fuel room base num (base ^ Z.of_nat j) = Some out.
Proof.
  intros Hb. revert fuel room num. induction j as [|j IH]; intros [|fuel] room num Hf; try lia; cbn [print_digits].
  - destruct (_ && _); [|by eexists]. change (base ^ Z.of_nat 0) with 1. rewrite (Z.div_small 1) by lia.
    destruct fuel as [|fuel]; [lia|by eexists].
  - destruct (_ && _); [|by eexists]. rewrite pow_pred by lia.
    destruct (IH fuel (room - 1) (num mod base ^ Z.of_nat (S j))) as [out ->]; [lia|by eexists].
Qed.

(** [base ^ K] is the largest power below [2 ^ 64], and the next one wraps to
    something smaller, which the loop takes as the sign of an overflow. *)
Definition top_power (base : Z) (K : nat) : Prop :=
  base ^ Z.of_nat K < 2 ^ 64 <= base ^ Z.of_nat (S K) /\ u64 (base ^ Z.of_nat (S K)) < base ^ Z.of_nat K.

Lemma find_multiplier_spec base K fuel k num :
  1 < base -> top_power base K -> (1 <= k <= K)%nat -> (K - k < fuel)%nat -> 0 <= num < 2 ^ 64 ->
  (k = 1%nat \/ base ^ Z.of_nat (k - 1) <= num) ->
  exists j, (j <= K)%nat /\ find_multiplier fuel base num (base ^ Z.of_nat k) = Some (base ^ Z.of_nat j) /\
    num < base ^ Z.of_nat (S j) /\ (j = 0%nat \/ base ^ Z.of_nat j <= num).
Proof.
  intros Hb [[HK1 HK2] Hwrap]. revert k. induction fuel as [|fuel IH]; intros k Hk Hf Hn Hlow; [lia|].
  pose proof (pow_nat_pos base k ltac:(lia)) as Hp. cbn [find_multiplier].
  destruct (Z.leb_spec 1 (num / base ^ Z.of_nat k)) as [Hge|Hlt].
  - assert (base ^ Z.of_nat k <= num) as Hle.
    { pose proof (Z.mul_div_le num (base ^ Z.of_nat k) Hp). nia. }
    rewrite (Z.mul_comm (base ^ Z.of_nat k) base), <- pow_S.
    destruct (decide (k = K)) as [->|Hne].
    + rewrite (proj2 (Z.ltb_lt _ _)) by done. exists K. split; [done|]. split; [done|]. split; [lia|by right].
    + assert (base ^ Z.of_nat (S k) <= base ^ Z.of_nat K) by (apply Z.pow_le_mono_r; lia).
      pose proof (pow_nat_pos base (S k) ltac:(lia)). rewrite u64_small by lia.
      assert (base ^ Z.of_nat k <= base ^ Z.of_nat (S k)) by (apply Z.pow_le_mono_r; lia).
      rewrite (proj2 (Z.ltb_ge _ _)) by done. apply IH; try lia.
      right. by replace (S k - 1)%nat with k by lia.
  - destruct k as [|k]; [lia|]. exists k. split; [lia|]. split; [by rewrite pow_pred by lia|].
    split.
    + destruct (Z.lt_ge_cases num (base ^ Z.of_nat (S k))) as [|Hge]; [done|].
      assert (1 <= num / base ^ Z.of_nat (S k)) by (apply Z.div_le_lower_bound; lia). lia.
    + destruct Hlow as [[= ->]|Hlow]; [by left|right]. by replace k with (S k - 1)%nat by lia.
Qed.

Lemma top_powers : top_power 8 21 /\ top_power 10 19 /\ top_power 16 15.
Proof. repeat split; vm_compute; congruence. Qed.











(** ** Room in the buffer *)

Lemma writestr_loop_room inp room : 0 <= room -> Z.of_nat (length (writestr_loop inp room)) <= room.
Proof.
  revert room. induction inp as [|c inp IH]; intros room Hr; [done|]. cbn [writestr_loop].
  destruct (_ || _) eqn:Hstop; [done|]. apply orb_false_iff in Hstop as [_ Hroom].
  rewrite negb_false_iff, Z.ltb_lt in Hroom. cbn [length]. specialize (IH (room - 1)). lia.
Qed.

Lemma writestr_room room src : 0 <= room -> Z.of_nat (length (writestr room src)) <= room.
Proof. intros Hr. destruct src; [by apply writestr_loop_room|done]. Qed.

Lemma print_digits_room fuel room base num m out :
  0 <= room -> print_digits fuel room base num m = Some out -> Z.of_nat (length out) <= room.
Proof.
  revert room num m out. induction fuel as [|fuel IH]; intros room num m out Hr; [done|]. cbn [print_digits].
  destruct (Z.ltb_spec 0 room); [rewrite andb_true_r|rewrite andb_false_r; by intros [= <-]].
  destruct (negb _); [|by intros [= <-]]. intros (o & Ho & ->)%fmap_Some_1. apply IH in Ho; cbn [length]; lia.
Qed.

(** A writer ends with an output that fits in the room it is given. *)
Definition in_room (wr : Z -> option (list Z)) : Prop :=
  forall room, 1 <= room -> exists out, wr room = Some out /\ Z.of_nat (length out) <= room.

(** [WriteChecked] needs room for its own character and never leaves less than
    none to the code that follows it. *)
Lemma WriteChecked_room c rest : in_room rest -> in_room (fun room => WriteChecked c room rest).
Proof.
  intros Hrest room Hr. unfold WriteChecked. destruct (Z.eqb_spec (room - 1) 0); [by exists [c]|].
  destruct (Hrest (room - 1)) as (out & -> & Hout); [lia|]. exists (c :: out). split; [done|]. cbn [length]. lia.
Qed.

Lemma write_number_body_room base K num :
  1 < base -> top_power base K -> (1 <= K <= 21)%nat -> 0 <= num < 2 ^ 64 -> in_room (write_number_body base num).
Proof.
  intros Hb HK Hk Hn room Hr. unfold write_number_body, NUM_FUEL.
  destruct (find_multiplier_spec base K 24 1 num) as (j & Hj & Hm & _); [lia|done|lia|lia|done|by left|].
  change (Z.of_nat 1) with 1 in Hm. rewrite Z.pow_1_r in Hm. rewrite Hm. cbn [mbind option_bind].
  destruct (print_digits_total base 24 j room num) as [out Hout]; [lia|lia|].
  exists out. split; [done|]. eapply print_digits_room, Hout. lia.
Qed.

(** Numbers in the bases that the formatter uses. *)
Lemma writenumber_room base num :
  base = 8 \/ base = 10 \/ base = 16 -> 0 <= num < 2 ^ 64 -> in_room (fun room => writenumber room base num).
Proof.
  destruct top_powers as (H8 & H10 & H16). intros Hb Hn. unfold writenumber.
  destruct Hb as [->|[->| ->]]; cbn [Z.eqb Pos.eqb]; repeat apply WriteChecked_room;
    [apply (write_number_body_room 8 21)|apply (write_number_body_room 10 19)|apply (write_number_body_room 16 15)]; done || lia.
Qed.

Lemma writedecimal_room sg num : 0 <= num < 2 ^ 64 -> in_room (fun room => writedecimal room sg num).
Proof.
  intros Hn. unfold writedecimal. destruct (sg && _); [apply WriteChecked_room|]; apply writenumber_room; auto using u64_range.
Qed.

Lemma write_val_room lg ty sg z : in_room (fun room => write_val room lg ty sg z).
Proof. unfold write_val. destruct ty; [apply writenumber_room|apply writenumber_room|apply writedecimal_room]; auto using u64_range. Qed.

Lemma convert_room room lg c args out args' :
  1 <= room -> convert room lg c args = Some (out, args') -> Z.of_nat (length out) <= room.
Proof.
  intros Hr. unfold convert, va_int, va_str, mbind, option_bind.
  repeat case_match; intros; simplify_eq; cbn [length]; try lia; try (apply writestr_room; lia);
    match goal with
    | H : write_val ?r ?lg ?ty ?sg ?z = Some _ |- _ => destruct (write_val_room lg ty sg z r Hr) as (o & Ho & ?)
    | H : writenumber ?r 16 (u64 ?z) = Some _ |- _ =>
        destruct (writenumber_room 16 (u64 z) ltac:(lia) (u64_range z) r Hr) as (o & Ho & ?)
    end; simplify_eq; done.
Qed.

Lemma vsnprintf_loop_room fuel inp room args out :
  0 <= room -> vsnprintf_loop fuel inp room args = Some out -> Z.of_nat (length out) <= room.
Proof.
  revert inp room args out. induction fuel as [|fuel IH]; intros inp room args out Hr; [done|].
  cbn [vsnprintf_loop]. destruct inp as [|c inp]; [by intros [= <-]|].
  destruct (c =? 0); [by intros [= <-]|]. destruct (Z.ltb_spec 0 room); [|by intros [= <-]]. cbn [orb negb].
  destruct (negb (c =? 37)).
  - intros (o & Ho & ->)%fmap_Some_1. apply IH in Ho; cbn [length]; lia.
  - destruct (chr _ =? 0); [by intros [= <-]|].
    intros ((o1 & args1) & Hc & Hrest)%bind_Some. apply convert_room in Hc; [|lia].
    apply fmap_Some_1 in Hrest as (o2 & Ho & ->). apply IH in Ho; rewrite ?length_app; lia.
Qed.

(** ** Termination and the whole call *)

(** A format whose conversions find an argument of their kind; behind a zero,
    where the text ends, anything may follow.  After [%ll] the second [l] is
    printed, as any letter that is not a conversion. *)
Inductive fits : list Z -> list va_value -> Prop :=
| fits_nil args : fits [] args
| fits_end s args : fits (0 :: s) args
| fits_char c s args : c <> 37 -> fits s args -> fits (c :: s) args
| fits_percent args : fits [37] args
| fits_percent_l args : fits [37; 108] args
| fits_percent_end (lg : bool) s args : fits (37 :: (if lg then [108] else []) ++ 0 :: s) args
| fits_int (lg : bool) c s z args :
    c ∈ [99; 112; 120; 111; 117; 100] -> fits s args ->
    fits (37 :: (if lg then [108] else []) ++ c :: s) (VInt z :: args)
| fits_str (lg : bool) s t args :
    fits s args -> fits (37 :: (if lg then [108] else []) ++ 115 :: s) (VStr t :: args)
| fits_other (lg : bool) c s args :
    c ∉ [0; 115; 99; 112; 120; 111; 117; 100] -> c <> 108 \/ lg = true -> fits s args ->
    fits (37 :: (if lg then [108] else []) ++ c :: s) args.

Lemma convert_int room lg c z args :
  1 <= room -> c ∈ [99; 112; 120; 111; 117; 100] -> exists out, convert room lg c (VInt z :: args) = Some (out, args).
Proof.
  intros Hr Hc. repeat (apply elem_of_cons in Hc as [->|Hc]); try (by apply not_elem_of_nil in Hc); unfold convert; cbn [Z.eqb Pos.eqb va_int mbind option_bind];
    first [by eexists | destruct (write_val_room lg Hex false z room Hr) as (o & -> & _); by eexists
      | destruct (write_val_room lg Octal false z room Hr) as (o & -> & _); by eexists
      | destruct (write_val_room lg Decimal false z room Hr) as (o & -> & _); by eexists
      | destruct (write_val_room lg Decimal true z room Hr) as (o & -> & _); by eexists
      | destruct (writenumber_room 16 (u64 z) ltac:(lia) (u64_range z) room Hr) as (o & -> & _); by eexists].
Qed.

Lemma convert_other room lg c args :
  c ∉ [0; 115; 99; 112; 120; 111; 117; 100] -> convert room lg c args = Some ([c], args).
Proof.
  intros Hc. unfold convert.
  repeat match goal with |- context [c =? ?k] => rewrite (proj2 (Z.eqb_neq c k)) by (intros ->; set_solver) end.
  done.
Qed.

(** One conversion of the loop, with or without the [l]. *)
Lemma vsnprintf_conversion fuel (lg : bool) c s room args out args' :
  c <> 0 -> c <> 108 \/ lg = true -> 0 < room -> convert room lg c args = Some (out, args') ->
  vsnprintf_loop (S fuel) (37 :: (if lg then [108] else []) ++ c :: s) room args =
  app out <$> vsnprintf_loop fuel s (room - Z.of_nat (length out)) args'.
Proof.
  intros H0 Hl Hr Hc. cbn [vsnprintf_loop]. rewrite (proj2 (Z.ltb_lt _ _)) by done.
  change (37 =? 0) with false. change (37 =? 37) with true. cbn [orb negb]. cbv zeta.
  destruct lg; cbn [app chr];
    [change (108 =? 108) with true; cbn [tail chr]|destruct Hl as [Hl|Hl]; [|done]; rewrite (proj2 (Z.eqb_neq c 108)) by done; cbn [tail chr]];
    rewrite (proj2 (Z.eqb_neq c 0)) by done; by rewrite Hc.
Qed.

Lemma vsnprintf_stop fuel inp room args : room <= 0 -> vsnprintf_loop (S fuel) inp room args = Some [].
Proof.
  intros Hr. destruct inp as [|c inp]; [done|]. cbn [vsnprintf_loop].
  rewrite (proj2 (Z.ltb_ge _ _)) by done. by rewrite orb_true_r.
Qed.

Lemma vsnprintf_loop_total fuel inp room args :
  fits inp args -> (length inp < fuel)%nat -> exists out, vsnprintf_loop fuel inp room args = Some out.
Proof.
  intros Hfit. revert fuel room. induction Hfit as [args|s args|c s args Hc Hfit IH|args|args|lg s args|lg c s z args Hc Hfit IH|
    lg s t args Hfit IH|lg c s args Hc Hl Hfit IH]; intros [|fuel] room Hf; try lia;
    (destruct (Z.lt_ge_cases 0 room) as [Hr|Hr]; [|by rewrite vsnprintf_stop by done; eauto]);
    try (cbn [vsnprintf_loop]; rewrite (proj2 (Z.ltb_lt _ _)) by done; by eexists).
  - by eexists.
  - cbn [vsnprintf_loop]. destruct (c =? 0); [by eexists|]. rewrite (proj2 (Z.ltb_lt _ _)) by done.
    rewrite (proj2 (Z.eqb_neq c 37)) by done. destruct (IH fuel (room - 1)) as [o Ho]; [cbn in Hf; lia|].
    cbn. rewrite Ho. by eexists.
  - cbn [vsnprintf_loop]. rewrite (proj2 (Z.ltb_lt _ _)) by done. destruct lg; by eexists.
  - destruct (convert_int room lg c z args) as [o Ho]; [lia|done|].
    rewrite (vsnprintf_conversion _ _ _ _ _ _ o args); [|set_solver|left; set_solver|done|done].
    destruct (IH fuel (room - Z.of_nat (length o))) as [o' ->]; [destruct lg; cbn in Hf; lia|by eexists].
  - rewrite (vsnprintf_conversion _ _ _ _ _ _ (writestr room t) args); [|done|by left|done|done].
    edestruct (IH fuel) as [o' ->]; [destruct lg; cbn in Hf; lia|by eexists].
  - rewrite (vsnprintf_conversion _ _ _ _ _ _ [c] args); [|set_solver|done|done|by apply convert_other].
    edestruct (IH fuel) as [o' ->]; [destruct lg; cbn in Hf; lia|by eexists].
Qed.

Lemma poke_all_in buf i cs :
  (i + length cs <= length buf)%nat ->
  poke_all buf i cs = Some (take i buf ++ cs ++ drop (i + length cs) buf).
Proof.
  revert buf i. induction cs as [|c cs IH]; intros buf i Hlen; cbn [poke_all length] in *.
  { rewrite Nat.add_0_r. cbn. by rewrite take_drop. }
  unfold poke. rewrite bool_decide_eq_true_2 by lia. cbn [mbind option_bind].
  rewrite IH by (rewrite length_insert; lia). f_equal.
  rewrite (take_S_r _ _ c) by (apply list_lookup_insert_eq; lia).
  rewrite take_insert_ge by lia. rewrite drop_insert_lt by lia.
  rewrite <- app_assoc. by replace (S i + length cs)%nat with (i + S (length cs))%nat by lia.
Qed.

(** C33: Formatting into a buffer of [bufsz] bytes finishes, the loops over the
    digits of its numbers included, for every
    format whose conversions have arguments of their kind, and stays inside the
    buffer: every store hits it, the text goes to its front, a terminator
    follows if there is room for it, and the bytes behind are untouched. *)
Theorem ics_snprintf_in_bounds buf bufsz fmt args :
  fits fmt args -> 0 <= bufsz -> Z.of_nat (length buf) = bufsz ->
  exists out, vsnprintf bufsz fmt args = Some out /\ Z.of_nat (length out) <= bufsz /\
    __ics_snprintf buf bufsz fmt args =
      Some (out ++ (if Z.of_nat (length out) <? bufsz then 0 :: drop (S (length out)) buf else []),
            Z.of_nat (length out)).
Proof.
  intros Hfit H0 Hlen. destruct (vsnprintf_loop_total (S (length fmt)) fmt bufsz args Hfit) as [out Hout]; [lia|].
  pose proof (vsnprintf_loop_room _ _ _ _ _ H0 Hout) as Hroom. exists out. split; [done|]. split; [done|].
  unfold __ics_snprintf, vsnprintf. rewrite Hout. cbn [mbind option_bind].
  rewrite poke_all_in by lia. rewrite take_0, app_nil_l, Nat.add_0_l. cbn [mbind option_bind].
  destruct (Z.ltb_spec (Z.of_nat (length out)) bufsz) as [Hlt|Hge].
  - unfold poke. rewrite bool_decide_eq_true_2 by (rewrite length_app, length_drop; lia). cbn [mbind option_bind].
    rewrite insert_app_r_alt by lia. rewrite Nat.sub_diag.
    destruct (lookup_lt_is_Some_2 buf (length out)) as [c Hc]; [lia|]. by rewrite (drop_S _ c).
  - cbn [mbind option_bind]. rewrite drop_ge by lia. done.
Qed.

Lemma ics_snprintf_in_bounds_witness :
  __ics_snprintf (replicate 6 7) 6 [110; 61; 37; 100; 33] [VInt (-5)] = Some ([110; 61; 45; 53; 33; 0], 5).
Proof.
  destruct (ics_snprintf_in_bounds (replicate 6 7) 6 [110; 61; 37; 100; 33] [VInt (-5)]) as (out & H1 & _ & H3);
    [|lia|done|].
  - apply fits_char; [done|]. apply fits_char; [done|].
    apply (fits_int false 100 [33]); [set_solver|]. apply fits_char; [done|constructor].
  - rewrite H3. vm_compute in H1. injection H1 as <-. reflexivity.
Defined.
