(* ===== verification/HbGraph.v ===== *)
(** * Happens-before graphs ([lib/ICS/HBGraph.cpp], [include/ics/HBGraph.h])

    The graph that symbolic execution builds for a path: one node per
    synchronization operation, numbered from 1 in the order of creation, with
    the ids of its predecessors.  Ids ([hbnode_id_t]) and positions in a thread
    are 32 bits wide.  A failed [assert] is [None].

    Calling contexts and symbolic objects belong to the engine; they are
    identified by integers here.  [thread_ctx] stands for
    [GetCallCxtForNode] (the calling context of a thread without its pthreads
    frames), [ignorable] for the test on the youngest caller and [strip] for
    [removeUclibcWrapperFunctions]; [writable] says for which nodes the trace
    gives out a pointer ([getMutableElementPtr]: those that no other graph shares). *)

From stdpp Require Import base gmap list fin_maps sets relations.
From Stdlib Require Import ZArith Lia.
From S2P Require Import Prelude.

(** [ThreadUid]: thread and process id. *)
Record ThreadUid := Tuid { tid : Z; pid : Z }.
#[export] Instance ThreadUid_eq_dec : EqDecision ThreadUid.
Proof. solve_decision. Defined.
#[export] Program Instance ThreadUid_countable : Countable ThreadUid :=
  inj_countable' (fun t => (tid t, pid t)) (fun p => Tuid p.1 p.2) _.
Next Obligation. by intros []. Qed.

Record HBNode := Node {
  threadOrder : Z;
  tuid : ThreadUid;
  callctx : Z;
  inputObj : option Z;
  incoming : list Z
}.
#[export] Instance HBNode_eq_dec : EqDecision HBNode.
Proof. solve_decision. Defined.

Definition HBNode_eq (a b : HBNode) : bool :=
  bool_decide (threadOrder a = threadOrder b) && bool_decide (tuid a = tuid b) &&
  bool_decide (callctx a = callctx b) && bool_decide (inputObj a = inputObj b) &&
  bool_decide (incoming a = incoming b).

Definition addEdgeFrom (from : Z) (n : HBNode) : HBNode :=
  Node (threadOrder n) (tuid n) (callctx n) (inputObj n) (incoming n ++ [from]).

(** The graph.  [g_kstate] says whether [_kstate] is set (the graph may be
    changed); [g_last] is [lastHbNode] of each thread of that state; a group is
    a set, kept as an ascending list. *)
Record HBGraph := Graph {
  g_nodes : list HBNode;
  g_groups : gmap Z (list Z);
  g_orders : gmap ThreadUid Z;
  g_kstate : bool;
  g_last : gmap ThreadUid Z;
  g_replayed : option (list HBNode);
  g_replayedMax : Z
}.

Definition g_set_nodes (ns : list HBNode) (g : HBGraph) : HBGraph :=
  Graph ns (g_groups g) (g_orders g) (g_kstate g) (g_last g) (g_replayed g) (g_replayedMax g).
Definition g_set_groups (m : gmap Z (list Z)) (g : HBGraph) : HBGraph :=
  Graph (g_nodes g) m (g_orders g) (g_kstate g) (g_last g) (g_replayed g) (g_replayedMax g).
Definition g_set_orders (m : gmap ThreadUid Z) (g : HBGraph) : HBGraph :=
  Graph (g_nodes g) (g_groups g) m (g_kstate g) (g_last g) (g_replayed g) (g_replayedMax g).
Definition g_set_last (m : gmap ThreadUid Z) (g : HBGraph) : HBGraph :=
  Graph (g_nodes g) (g_groups g) (g_orders g) (g_kstate g) m (g_replayed g) (g_replayedMax g).
Definition g_set_replayed (r : option (list HBNode)) (m : Z) (g : HBGraph) : HBGraph :=
  Graph (g_nodes g) (g_groups g) (g_orders g) (g_kstate g) (g_last g) r m.

Definition require (b : bool) : option unit := if b then Some tt else None.

Definition getMaxNodeId (g : HBGraph) : Z := u32 (Z.of_nat (length (g_nodes g))).

(** Ids start at 1. *)
Definition node_at (ns : list HBNode) (id : Z) : option HBNode :=
  if 1 <=? id then ns !! Z.to_nat (id - 1) else None.

Definition getNode (g : HBGraph) (id : Z) : option HBNode := node_at (g_nodes g) id.
Definition empty (g : HBGraph) : bool := bool_decide (g_nodes g = []) && bool_decide (g_groups g = ∅).
Definition getThreadCount (g : HBGraph) : Z := Z.of_nat (size (g_orders g)).

Definition clear (g : HBGraph) : option HBGraph :=
  _ ← require (g_kstate g);
  Some (Graph [] ∅ ∅ (g_kstate g) ((fun _ => 0) <$> g_last g) None (g_replayedMax g)).

Definition makeImmutableClone (g : HBGraph) : HBGraph :=
  Graph (g_nodes g) (g_groups g) (g_orders g) false ∅ None (g_replayedMax g).

(** [n] nodes from [a] and [b] on. *)
Fixpoint equalRange_loop (aG bG : HBGraph) (a b : Z) (n : nat) : option bool :=
  match n with
  | O => Some true
  | S n =>
      x ← getNode aG a; y ← getNode bG b;
      if HBNode_eq x y then equalRange_loop aG bG (u32 (a + 1)) (u32 (b + 1)) n else Some false
  end.

Definition equalRange (aG : HBGraph) (aFirst : Z) (bG : HBGraph) (bFirst nnodes : Z) : option bool :=
  if (getMaxNodeId aG <? u32 (aFirst + nnodes - 1)) || (getMaxNodeId bG <? u32 (bFirst + nnodes - 1)) then Some false
  else equalRange_loop aG bG aFirst bFirst (Z.to_nat nnodes).

(** The loop condition [k <= getMaxNodeId()] can fail below [2 ^ 32 - 1] nodes. *)
Definition HBGraph_eq (g other : HBGraph) : option bool :=
  if negb (Nat.eqb (length (g_nodes g)) (length (g_nodes other))) then Some false
  else equalRange_loop g other 1 1 (Z.to_nat (getMaxNodeId g)).

(** ** Replaying *)

Definition startReplay (toReplay : list HBNode) (maxId : Z) (g : HBGraph) : option HBGraph :=
  match g_replayed g with
  | Some _ => None
  | None => Some (g_set_replayed (Some toReplay) maxId g)
  end.

(** Same place, and the edges so far are a prefix of the old ones. *)
Definition replay_matches (curr old : HBNode) : bool :=
  bool_decide (threadOrder curr = threadOrder old) && bool_decide (tuid curr = tuid old) &&
  bool_decide (callctx curr = callctx old) && bool_decide (incoming curr `prefix_of` incoming old).

Section Graph.
Context (AlwaysReplayInputs : bool) (ignorable : Z -> bool) (strip : Z -> Z) (thread_ctx : ThreadUid -> Z) (writable : Z -> bool).

Definition checkNodeForReplay (g : HBGraph) (curr : HBNode) (id : Z) : option unit :=
  if negb AlwaysReplayInputs then Some tt
  else match g_replayed g with
       | None => Some tt
       | Some old_nodes =>
           if g_replayedMax g <? id then Some tt
           else old ← node_at old_nodes id; require (replay_matches curr old)
       end.

(** ** Adding nodes *)

Definition addNode (t : ThreadUid) (ctx : Z) (input : option Z) (lastNode : Z) (g : HBGraph)
    : option (Z * HBGraph) :=
  _ ← require (g_kstate g);
  if ignorable ctx then Some (lastNode, g)
  else
    let id := u32 (Z.of_nat (length (g_nodes g)) + 1) in
    let order := match g_orders g !! t with Some n => u32 (n + 1) | None => 1 end in
    let node := Node order t (strip ctx) input (if lastNode =? 0 then [] else [lastNode]) in
    let g1 := g_set_nodes (g_nodes g ++ [node]) (g_set_orders (<[t := order]> (g_orders g)) g) in
    _ ← checkNodeForReplay g1 node id;
    Some (id, g1).

Definition lastHbNode (g : HBGraph) (t : ThreadUid) : option Z := g_last g !! t.
Definition setLastHbNode (t : ThreadUid) (id : Z) (g : HBGraph) : HBGraph :=
  g_set_last (<[t := id]> (g_last g)) g.

Definition addNodeForInput (t : ThreadUid) (obj : Z) (g : HBGraph) : option (Z * HBGraph) :=
  l ← lastHbNode g t;
  '(id, g1) ← addNode t (thread_ctx t) (Some obj) l g;
  Some (id, setLastHbNode t id g1).

Definition addNodeForThread (t : ThreadUid) (g : HBGraph) : option (Z * HBGraph) :=
  l ← lastHbNode g t;
  '(id, g1) ← addNode t (thread_ctx t) None l g;
  Some (id, setLastHbNode t id g1).

Definition addNodeForNewThread (t : ThreadUid) (creator : option ThreadUid) (g : HBGraph)
    : option (Z * HBGraph) :=
  match creator with
  | Some c =>
      '(cid, g1) ← addNodeForThread c g;
      '(id, g2) ← addNode t (thread_ctx t) None cid g1;
      Some (id, setLastHbNode t id g2)
  | None =>
      '(id, g1) ← addNode t (thread_ctx t) None 0 g;
      Some (id, setLastHbNode t id g1)
  end.

Definition replayNextInput (t : ThreadUid) (g : HBGraph) : option (Z * HBGraph) :=
  let nextId := u32 (Z.of_nat (length (g_nodes g)) + 1) in
  match g_replayed g with
  | None => Some (0, g)
  | Some old_nodes =>
      if g_replayedMax g <? nextId then Some (0, g)
      else
        old ← node_at old_nodes nextId;
        match inputObj old with
        | None => if AlwaysReplayInputs then None else Some (0, g)
        | Some obj =>
            '(id, g1) ← addNodeForInput t obj g;
            _ ← require (id =? nextId);
            Some (id, g1)
        end
  end.

(** ** Adding edges *)

Definition setNode (id : Z) (n : HBNode) (g : HBGraph) : HBGraph :=
  g_set_nodes (<[Z.to_nat (id - 1) := n]> (g_nodes g)) g.

Definition getMutableNode (g : HBGraph) (id : Z) : option HBNode :=
  _ ← require (g_kstate g); n ← getNode g id; _ ← require (writable id); Some n.

Definition addEdge (from to : Z) (g : HBGraph) : option HBGraph :=
  if (from =? 0) || (to =? 0) || (from =? to) then Some g
  else
    n ← getMutableNode g to;
    if bool_decide (from ∈ incoming n) then Some g
    else
      let n1 := addEdgeFrom from n in
      let g1 := setNode to n1 g in
      _ ← checkNodeForReplay g1 n1 to;
      Some g1.

(** The walk back over the graph: the last node of every other thread. *)
Fixpoint conservative_loop (g : HBGraph) (to : Z) (from : nat) (visited : gset ThreadUid) : option HBGraph :=
  match from with
  | O => Some g
  | S from' =>
      n ← getNode g (Z.of_nat from);
      if bool_decide (tuid n ∈ visited) then conservative_loop g to from' visited
      else
        m ← getNode g to;
        conservative_loop (setNode to (addEdgeFrom (Z.of_nat from) m) g) to from' ({[tuid n]} ∪ visited)
  end.

Definition addConservativeEdge (to : Z) (g : HBGraph) : option HBGraph :=
  if to =? 0 then Some g
  else
    n ← getMutableNode g to;
    g1 ← conservative_loop g to (Z.to_nat (getMaxNodeId g)) {[tuid n]};
    m ← getNode g1 to;
    _ ← checkNodeForReplay g1 m to;
    Some g1.

Definition addSourceSinkEdges (t : ThreadUid) (source sink : Z) (g : HBGraph) : option HBGraph :=
  _ ← require (g_kstate g);
  _ ← lastHbNode g t;
  if (source =? 0) && (sink =? 0) then Some g
  else if sink =? 0 then '(id, g1) ← addNodeForThread t g; addEdge source id g1
  else if source =? 0 then '(id, g1) ← addNodeForThread t g; addEdge id sink g1
  else if source =? sink then
    '(t0, g1) ← addNodeForThread t g;
    '(t1, g2) ← addNodeForThread t g1;
    g3 ← addEdge t0 source g2;
    addEdge source t1 g3
  else
    '(id, g1) ← addNodeForThread t g;
    g2 ← addEdge source id g1;
    addEdge id sink g2.

(** The set of threads, in the order of the set. *)
Fixpoint addSourceSinkEdges_all (ts : list ThreadUid) (source sink : Z) (g : HBGraph) : option HBGraph :=
  match ts with
  | [] => Some g
  | t :: ts => g1 ← addSourceSinkEdges t source sink g; addSourceSinkEdges_all ts source sink g1
  end.

Definition addSourceSinkEdgesSet (ts : list ThreadUid) (source sink : Z) (g : HBGraph) : option HBGraph :=
  if (source =? 0) && (sink =? 0) then Some g else addSourceSinkEdges_all ts source sink g.

(** ** Groups *)

Fixpoint set_insert (x : Z) (s : list Z) : list Z :=
  match s with
  | [] => [x]
  | y :: s' => if x <? y then x :: s else if x =? y then s else y :: set_insert x s'
  end.

Definition addNodeToGroup (node group : Z) (g : HBGraph) : HBGraph :=
  g_set_groups (<[group := set_insert node (default [] (g_groups g !! group))]> (g_groups g)) g.

Definition removeGroup (group : Z) (g : HBGraph) : HBGraph := g_set_groups (delete group (g_groups g)) g.

Fixpoint addEdges (es : list (Z * Z)) (g : HBGraph) : option HBGraph :=
  match es with
  | [] => Some g
  | (from, to) :: es => g1 ← addEdge from to g; addEdges es g1
  end.

Definition addEdgesFromGroup (groupFrom nodeTo : Z) (g : HBGraph) : option HBGraph :=
  _ ← require (g_kstate g);
  addEdges ((fun n => (n, nodeTo)) <$> default [] (g_groups g !! groupFrom)) g.

Definition addEdgesToGroup (nodeFrom groupTo : Z) (g : HBGraph) : option HBGraph :=
  _ ← require (g_kstate g);
  addEdges ((fun n => (nodeFrom, n)) <$> default [] (g_groups g !! groupTo)) g.
End Graph.

(** ** Well-formed graphs

    Positions of nodes are counted per thread; the table of thread orders agrees
    with the nodes; predecessors are other nodes of the graph. *)

Definition places (ns : list HBNode) : list (Z * ThreadUid) := (fun n => (threadOrder n, tuid n)) <$> ns.
Definition count (t : ThreadUid) (ps : list (Z * ThreadUid)) : nat := length (filter (fun p => p.2 = t) ps).

Definition orders_ok (ps : list (Z * ThreadUid)) : Prop :=
  forall i p, ps !! i = Some p -> p.1 = Z.of_nat (S (count p.2 (take i ps))).

Definition preds_ok (ns : list HBNode) : Prop :=
  forall i n p, ns !! i = Some n -> p ∈ incoming n -> 1 <= p <= Z.of_nat (length ns) /\ p <> Z.of_nat (S i).

Definition id_ok (g : HBGraph) (id : Z) : Prop := 0 <= id <= Z.of_nat (length (g_nodes g)).

Record graph_wf (g : HBGraph) : Prop := {
  wf_orders : orders_ok (places (g_nodes g));
  wf_table t : g_orders g !! t =
    match count t (places (g_nodes g)) with O => None | S k => Some (Z.of_nat (S k)) end;
  wf_preds : preds_ok (g_nodes g);
  wf_last t id : g_last g !! t = Some id -> id_ok g id;
  wf_groups gr s : g_groups g !! gr = Some s -> Forall (id_ok g) s
}.

Lemma count_app t a b : count t (a ++ b) = (count t a + count t b)%nat.
Proof. unfold count. by rewrite filter_app, length_app. Qed.

Lemma count_single t o u : count t [(o, u)] = if decide (u = t) then 1%nat else 0%nat.
Proof. unfold count. rewrite filter_cons, filter_nil. cbn. by destruct (decide (u = t)). Qed.

Lemma places_snoc ns n : places (ns ++ [n]) = places ns ++ [(threadOrder n, tuid n)].
Proof. unfold places. by rewrite fmap_app. Qed.

Lemma orders_ok_snoc ps t :
  orders_ok ps -> orders_ok (ps ++ [(Z.of_nat (S (count t ps)), t)]).
Proof.
  intros Hps i p Hi. apply lookup_app_Some in Hi as [Hi|[Hge Hi]].
  - rewrite take_app_le by (apply lookup_lt_Some in Hi; lia). by apply Hps.
  - apply list_lookup_singleton_Some in Hi as [Hz <-]. assert (i = length ps) as -> by lia. cbn. by rewrite take_app_length.
Qed.

Lemma preds_ok_snoc ns n :
  preds_ok ns -> Forall (fun p => 1 <= p <= Z.of_nat (length ns)) (incoming n) -> preds_ok (ns ++ [n]).
Proof.
  intros Hns Hn i m p Hi Hp. rewrite length_app. cbn [length]. apply lookup_app_Some in Hi as [Hi|[Hge Hi]].
  - destruct (Hns i m p Hi Hp). lia.
  - apply list_lookup_singleton_Some in Hi as [Hz <-]. apply (proj1 (Forall_forall _ _) Hn) in Hp. lia.
Qed.

(** Ids and positions are exact as long as they fit in 32 bits. *)
Definition small (g : HBGraph) : Prop := Z.of_nat (length (g_nodes g)) < 2 ^ 32.
Definition sound (g : HBGraph) : Prop := small g -> graph_wf g.
Definition okid (g : HBGraph) (id : Z) : Prop := small g -> id_ok g id.

Lemma id_ok_mono g g' id : (length (g_nodes g) <= length (g_nodes g'))%nat -> id_ok g id -> id_ok g' id.
Proof. unfold id_ok. lia. Qed.

Lemma okid_mono g g' id : (length (g_nodes g) <= length (g_nodes g'))%nat -> okid g id -> okid g' id.
Proof. unfold okid, small, id_ok. lia. Qed.

Lemma sound_last g t id : sound g -> g_last g !! t = Some id -> okid g id.
Proof. intros Hg Hl Hs. by eapply wf_last; [apply Hg|]. Qed.

Lemma count_le t ps : (count t ps <= length ps)%nat.
Proof. apply length_filter. Qed.

Lemma node_at_inv ns id n : node_at ns id = Some n -> ns !! Z.to_nat (id - 1) = Some n /\ 1 <= id <= Z.of_nat (length ns).
Proof.
  unfold node_at. destruct (Z.leb_spec 1 id); [|done]. intros Hn. split; [done|]. apply lookup_lt_Some in Hn. lia.
Qed.

Section GraphWf.
Context (AlwaysReplayInputs : bool) (ignorable : Z -> bool) (strip : Z -> Z) (thread_ctx : ThreadUid -> Z) (writable : Z -> bool).

Lemma addNode_wf t ctx input l g id g' :
  sound g -> okid g l -> addNode AlwaysReplayInputs ignorable strip t ctx input l g = Some (id, g') ->
  sound g' /\ okid g' id /\ (length (g_nodes g) <= length (g_nodes g'))%nat.
Proof.
  intros Hwf Hl. unfold addNode. intros (u & _ & H)%bind_Some. destruct (ignorable ctx).
  { injection H as <- <-. done. }
  cbv zeta in H. apply bind_Some in H as (v & _ & [= <- <-]). cbn [g_nodes g_set_nodes g_set_orders].
  split; [|split; [|rewrite length_app; lia]]; intros Hsm; unfold small in Hsm; cbn in Hsm; rewrite length_app in Hsm; cbn in Hsm;
    [|unfold id_ok; cbn; rewrite length_app, u32_small by lia; cbn; lia].
  assert (small g) as Hsg by (unfold small; lia). specialize (Hl Hsg). destruct (Hwf Hsg) as [Ho Ht Hp Hlast Hgr].
  assert (match g_orders g !! t with Some n => u32 (n + 1) | None => 1 end = Z.of_nat (S (count t (places (g_nodes g))))) as ->.
  { rewrite Ht. pose proof (count_le t (places (g_nodes g))) as Hc. unfold places in Hc at 2. rewrite length_fmap in Hc.
    destruct (count t _); [done|]. rewrite u32_small by lia. lia. }
  split; cbn [g_nodes g_orders g_last g_groups g_set_nodes g_set_orders].
  - rewrite places_snoc. by apply orders_ok_snoc.
  - intros t'. rewrite places_snoc, count_app. cbn [threadOrder tuid]. rewrite count_single. destruct (decide (t = t')) as [<-|Hne].
    + rewrite lookup_insert_eq, Nat.add_1_r. done.
    + rewrite lookup_insert_ne, Nat.add_0_r by done. apply Ht.
  - apply preds_ok_snoc; [done|]. cbn. destruct (Z.eqb_spec l 0); repeat constructor; unfold id_ok in Hl; lia.
  - intros t' i Hi. eapply id_ok_mono; [|by apply (Hlast t')]. cbn. rewrite length_app. lia.
  - intros gr s Hs. eapply Forall_impl; [by apply (Hgr gr)|]. intros x. apply id_ok_mono. cbn. rewrite length_app. lia.
Qed.

Lemma setLastHbNode_wf t id g : sound g -> okid g id -> sound (setLastHbNode t id g).
Proof.
  intros Hwf Hid Hsm. specialize (Hid Hsm). destruct (Hwf Hsm) as [Ho Ht Hp Hlast Hgr].
  split; try done. intros t' i. unfold setLastHbNode. cbn.
  destruct (decide (t = t')) as [<-|]; [rewrite lookup_insert_eq; by intros [= <-]|].
  rewrite lookup_insert_ne by done. apply Hlast.
Qed.

(** The graph grew, and the new node is in it. *)
Definition grown (g : HBGraph) (r : Z * HBGraph) : Prop :=
  sound r.2 /\ okid r.2 r.1 /\ (length (g_nodes g) <= length (g_nodes r.2))%nat.

Lemma add_and_set_wf t ctx input l g id g1 :
  sound g -> okid g l -> addNode AlwaysReplayInputs ignorable strip t ctx input l g = Some (id, g1) ->
  grown g (id, setLastHbNode t id g1).
Proof.
  intros Hwf Hl (Hwf' & Hid & Hlen)%addNode_wf; [|done..]. split; [by apply setLastHbNode_wf|]. done.
Qed.

Lemma addNodeForInput_wf t o g r :
  sound g -> addNodeForInput AlwaysReplayInputs ignorable strip thread_ctx t o g = Some r -> grown g r.
Proof.
  intros Hwf (l & Hl & ([id g1] & Ha & [= <-])%bind_Some)%bind_Some. eapply add_and_set_wf; [done| |done]. by eapply sound_last.
Qed.

Lemma addNodeForThread_wf t g r :
  sound g -> addNodeForThread AlwaysReplayInputs ignorable strip thread_ctx t g = Some r -> grown g r.
Proof.
  intros Hwf (l & Hl & ([id g1] & Ha & [= <-])%bind_Some)%bind_Some. eapply add_and_set_wf; [done| |done]. by eapply sound_last.
Qed.

Lemma addNodeForNewThread_wf t c g r :
  sound g -> addNodeForNewThread AlwaysReplayInputs ignorable strip thread_ctx t c g = Some r -> grown g r.
Proof.
  intros Hwf. destruct c as [c|]; cbn [addNodeForNewThread].
  - intros ([cid g1] & H1 & ([id g2] & H2 & [= <-])%bind_Some)%bind_Some.
    destruct (addNodeForThread_wf _ _ _ Hwf H1) as (Hwf1 & Hid1 & Hlen1).
    destruct (add_and_set_wf _ _ _ _ _ _ _ Hwf1 Hid1 H2) as (Hwf2 & Hid2 & Hlen2). split; [done|]. split; [done|]. cbn in *. lia.
  - intros ([id g1] & Ha & [= <-])%bind_Some. eapply add_and_set_wf; [done| |done]. intros _. unfold id_ok. lia.
Qed.

Lemma replayNextInput_wf t g r :
  sound g -> replayNextInput AlwaysReplayInputs ignorable strip thread_ctx t g = Some r -> grown g r.
Proof.
  intros Hwf. assert (grown g (0, g)) as H0 by (split; [done|split; [intros _; cbn; unfold id_ok; lia|done]]).
  unfold replayNextInput. destruct (g_replayed g); [|by intros [= <-]]. destruct (_ <? _); [by intros [= <-]|].
  intros (old & _ & H)%bind_Some. destruct (inputObj old) as [o|].
  - apply bind_Some in H as ([id g1] & H1 & (u & _ & [= <-])%bind_Some). by eapply addNodeForInput_wf.
  - destruct AlwaysReplayInputs; [done|]. by injection H as <-.
Qed.

(** ** Edges keep the graph well-formed *)

Lemma setNode_edge_wf from to n g :
  graph_wf g -> getNode g to = Some n -> 1 <= from <= Z.of_nat (length (g_nodes g)) -> from <> to ->
  graph_wf (setNode to (addEdgeFrom from n) g).
Proof.
  intros [Ho Ht Hp Hlast Hgr] [Hn Hto]%node_at_inv Hf Hne.
  assert (places (g_nodes (setNode to (addEdgeFrom from n) g)) = places (g_nodes g)) as Hpl.
  { unfold places, setNode. cbn. rewrite list_fmap_insert. apply list_insert_id. by rewrite list_lookup_fmap, Hn. }
  split.
  - by rewrite Hpl.
  - intros t. rewrite Hpl. apply Ht.
  - intros i m p Hi Hin. cbn in *. rewrite length_insert. destruct (decide (i = Z.to_nat (to - 1))) as [->|Hne'].
    + rewrite list_lookup_insert_eq in Hi by (by eapply lookup_lt_Some). injection Hi as <-. cbn in Hin.
      apply elem_of_app in Hin as [Hin|Hin%list_elem_of_singleton]; [by apply (Hp _ _ _ Hn)|].
      subst p. lia.
    + rewrite list_lookup_insert_ne in Hi by done. by apply (Hp i m).
  - intros t id Hid. unfold id_ok. cbn. rewrite length_insert. by apply (Hlast t).
  - intros gr s Hs. eapply Forall_impl; [by apply (Hgr gr)|]. intros x. apply id_ok_mono. cbn. by rewrite length_insert.
Qed.

Lemma setNode_length to n g : length (g_nodes (setNode to n g)) = length (g_nodes g).
Proof. cbn. apply length_insert. Qed.

(** Edges leave the number of nodes alone. *)
Definition edged (g g' : HBGraph) : Prop := sound g' /\ length (g_nodes g') = length (g_nodes g).

Lemma mutable_node g to n : getMutableNode writable g to = Some n -> getNode g to = Some n.
Proof. unfold getMutableNode. by intros (u & _ & (m & Hm & (v & _ & [= <-])%bind_Some)%bind_Some)%bind_Some. Qed.

Lemma addEdge_wf from to g g' :
  sound g -> okid g from -> addEdge AlwaysReplayInputs writable from to g = Some g' -> edged g g'.
Proof.
  intros Hwf Hf. unfold addEdge. destruct ((from =? 0) || (to =? 0) || (from =? to)) eqn:Hz; [by intros [= <-]|].
  intros (n & Hn%mutable_node & H)%bind_Some. case_bool_decide; [by injection H as <-|].
  apply bind_Some in H as (v & _ & [= <-]). split; [|apply setNode_length]. intros Hsm.
  unfold small in Hsm. rewrite setNode_length in Hsm. specialize (Hf Hsm).
  apply setNode_edge_wf; [by apply Hwf|done|unfold id_ok in Hf; lia|lia].
Qed.

Lemma addEdges_wf es g g' :
  sound g -> Forall (fun e => okid g e.1) es -> addEdges AlwaysReplayInputs writable es g = Some g' -> edged g g'.
Proof.
  revert g. induction es as [|[from to] es IH]; intros g Hwf Hes; cbn; [by intros [= <-]|].
  apply Forall_cons in Hes as [Hf Hes]. intros (g1 & [Hwf1 Hlen1]%addEdge_wf & H)%bind_Some; [|done..].
  destruct (IH g1 Hwf1) as [Hwf2 Hlen2]; [|done|split; [done|lia]].
  eapply Forall_impl; [exact Hes|]. intros e. apply okid_mono. lia.
Qed.

Lemma conservative_loop_wf to u from visited g g' :
  sound g -> (from <= length (g_nodes g))%nat -> u ∈ visited -> (exists n, getNode g to = Some n /\ tuid n = u) ->
  conservative_loop g to from visited = Some g' -> edged g g'.
Proof.
  revert visited g. induction from as [|from IH]; intros visited g Hwf Hle Hu Hto; cbn [conservative_loop]; [by intros [= <-]|].
  intros (n & Hn & H)%bind_Some. case_bool_decide as Hvis; [eapply IH; [done|lia|done|done|done]|].
  apply bind_Some in H as (m & Hm & H). destruct Hto as (m' & Hm' & Htu). rewrite Hm in Hm'. injection Hm' as <-.
  apply IH in H as [Hwf' Hlen'].
  - split; [done|]. by rewrite Hlen', setNode_length.
  - intros Hsm. unfold small in Hsm. rewrite setNode_length in Hsm. apply setNode_edge_wf; [by apply Hwf|done|lia|]. intros <-. rewrite Hm in Hn. injection Hn as <-. by subst u.
  - rewrite setNode_length. lia.
  - set_solver.
  - exists (addEdgeFrom (Z.of_nat (S from)) m). split; [|done]. apply node_at_inv in Hm as [Hm Hr].
    unfold getNode, node_at. rewrite (proj2 (Z.leb_le 1 to)) by lia. cbn. apply list_lookup_insert_eq. by eapply lookup_lt_Some.
Qed.

Lemma addConservativeEdge_wf to g g' :
  sound g -> addConservativeEdge AlwaysReplayInputs writable to g = Some g' -> edged g g'.
Proof.
  intros Hwf. unfold addConservativeEdge. destruct (to =? 0); [by intros [= <-]|].
  intros (n & Hn%mutable_node & (g1 & H1 & (m & _ & (v & _ & [= <-])%bind_Some)%bind_Some)%bind_Some)%bind_Some.
  eapply (conservative_loop_wf to (tuid n)); [done| | | |exact H1]; [|set_solver|by exists n].
  unfold getMaxNodeId, u32. pose proof (Z.mod_le (Z.of_nat (length (g_nodes g))) (2 ^ 32)). lia.
Qed.

Lemma node_then_edge_wf t e g g' :
  sound g -> (forall id, okid g (e id).1 \/ (e id).1 = id) ->
  ('(id, g1) ← addNodeForThread AlwaysReplayInputs ignorable strip thread_ctx t g;
   addEdge AlwaysReplayInputs writable (e id).1 (e id).2 g1) = Some g' ->
  sound g' /\ (length (g_nodes g) <= length (g_nodes g'))%nat.
Proof.
  intros Hwf He ([id g1] & (Hwf1 & Hid & Hlen)%addNodeForThread_wf & [Hwf2 Hlen2]%addEdge_wf)%bind_Some; try done.
  - split; [done|]. cbn in *. lia.
  - destruct (He id) as [Hok| ->]; [|done]. by eapply okid_mono.
Qed.

Lemma addSourceSinkEdges_wf t source sink g g' :
  sound g -> okid g source ->
  addSourceSinkEdges AlwaysReplayInputs ignorable strip thread_ctx writable t source sink g = Some g' ->
  sound g' /\ (length (g_nodes g) <= length (g_nodes g'))%nat.
Proof.
  intros Hwf Hs. unfold addSourceSinkEdges. intros (u & _ & (v & _ & H)%bind_Some)%bind_Some.
  destruct ((source =? 0) && (sink =? 0)); [by injection H as <-|].
  destruct (sink =? 0); [by apply (node_then_edge_wf t (fun id => (source, id))) in H; auto|].
  destruct (source =? 0); [by apply (node_then_edge_wf t (fun id => (id, sink))) in H; auto|].
  destruct (source =? sink).
  - apply bind_Some in H as ([t0 g1] & (Hwf1 & Hid1 & Hlen1)%addNodeForThread_wf & H); [|done].
    apply bind_Some in H as ([t1 g2] & (Hwf2 & Hid2 & Hlen2)%addNodeForThread_wf & H); [|done]. cbn in *.
    apply bind_Some in H as (g3 & [Hwf3 Hlen3]%addEdge_wf & H); [|done|by eapply okid_mono].
    apply addEdge_wf in H as [Hwf4 Hlen4]; [|done|eapply okid_mono; [|exact Hs]; lia]. split; [done|lia].
  - apply bind_Some in H as ([t0 g1] & (Hwf1 & Hid1 & Hlen1)%addNodeForThread_wf & H); [|done]. cbn in *.
    apply bind_Some in H as (g2 & [Hwf2 Hlen2]%addEdge_wf & H); [|done|by eapply okid_mono].
    apply addEdge_wf in H as [Hwf3 Hlen3]; [|done|eapply okid_mono; [|exact Hid1]; lia]. split; [done|lia].
Qed.

Lemma addSourceSinkEdges_all_wf ts source sink g g' :
  sound g -> okid g source ->
  addSourceSinkEdges_all AlwaysReplayInputs ignorable strip thread_ctx writable ts source sink g = Some g' -> sound g'.
Proof.
  revert g. induction ts as [|t ts IH]; intros g Hwf Hs; cbn [addSourceSinkEdges_all]; [by intros [= <-]|].
  intros (g1 & [Hwf1 Hlen1]%addSourceSinkEdges_wf & H)%bind_Some; [|done..]. eapply IH; [done| |exact H]. by eapply okid_mono.
Qed.

Lemma set_insert_elem x s : set_insert x s ⊆ x :: s.
Proof.
  induction s as [|y s IH]; [set_solver|]. cbn. destruct (x <? y); [done|]. destruct (x =? y); set_solver.
Qed.

Lemma addNodeToGroup_wf node group g : sound g -> okid g node -> sound (addNodeToGroup node group g).
Proof.
  intros Hwf Hid Hsm. specialize (Hid Hsm). destruct (Hwf Hsm) as [Ho Ht Hp Hlast Hgr]. split; try done.
  intros gr s. cbn. destruct (decide (group = gr)) as [<-|Hne].
  - rewrite lookup_insert_eq. intros [= <-]. apply Forall_forall. intros x [-> |Hx]%set_insert_elem%elem_of_cons; [done|].
    destruct (g_groups g !! group) as [s|] eqn:Hs; [|by apply elem_of_nil in Hx].
    by apply (proj1 (Forall_forall _ _) (Hgr _ _ Hs)).
  - rewrite lookup_insert_ne by done. apply Hgr.
Qed.

Lemma removeGroup_wf group g : sound g -> sound (removeGroup group g).
Proof.
  intros Hwf Hsm. destruct (Hwf Hsm) as [Ho Ht Hp Hlast Hgr]. split; try done.
  intros gr s. cbn. intros [_ Hs]%lookup_delete_Some. by apply (Hgr gr).
Qed.

Lemma group_ids_ok group g : sound g -> Forall (okid g) (default [] (g_groups g !! group)).
Proof.
  intros Hwf. destruct (g_groups g !! group) eqn:Hs; [|done]. apply Forall_forall. intros x Hx Hsm.
  by apply (proj1 (Forall_forall _ _) (wf_groups _ (Hwf Hsm) _ _ Hs)).
Qed.

Lemma clear_wf g g' : clear g = Some g' -> graph_wf g'.
Proof.
  unfold clear. intros (u & _ & [= <-])%bind_Some. split; cbn; try done.
  intros t id. rewrite lookup_fmap. intros (x & _ & ->)%fmap_Some. by split.
Qed.

(** ** Operations on a graph

    The ids that a caller passes are ids of nodes of this graph, or 0. *)

Inductive graph_op : HBGraph -> HBGraph -> Prop :=
| OpInput t o g id g' : addNodeForInput AlwaysReplayInputs ignorable strip thread_ctx t o g = Some (id, g') -> graph_op g g'
| OpThread t g id g' : addNodeForThread AlwaysReplayInputs ignorable strip thread_ctx t g = Some (id, g') -> graph_op g g'
| OpNewThread t c g id g' : addNodeForNewThread AlwaysReplayInputs ignorable strip thread_ctx t c g = Some (id, g') -> graph_op g g'
| OpReplay t g id g' : replayNextInput AlwaysReplayInputs ignorable strip thread_ctx t g = Some (id, g') -> graph_op g g'
| OpEdge from to g g' : id_ok g from -> addEdge AlwaysReplayInputs writable from to g = Some g' -> graph_op g g'
| OpConservative to g g' : addConservativeEdge AlwaysReplayInputs writable to g = Some g' -> graph_op g g'
| OpSourceSink ts source sink g g' : id_ok g source ->
    addSourceSinkEdgesSet AlwaysReplayInputs ignorable strip thread_ctx writable ts source sink g = Some g' -> graph_op g g'
| OpGroup node group g : id_ok g node -> graph_op g (addNodeToGroup node group g)
| OpUngroup group g : graph_op g (removeGroup group g)
| OpFromGroup group to g g' : addEdgesFromGroup AlwaysReplayInputs writable group to g = Some g' -> graph_op g g'
| OpToGroup from group g g' : id_ok g from -> addEdgesToGroup AlwaysReplayInputs writable from group g = Some g' -> graph_op g g'
| OpClear g g' : clear g = Some g' -> graph_op g g'
| OpClone g : graph_op g (makeImmutableClone g)
| OpStartReplay old m g g' : startReplay old m g = Some g' -> graph_op g g'.

Lemma graph_op_wf g g' : graph_op g g' -> sound g -> sound g'.
Proof.
  intros Hop Hwf. destruct Hop as [t o g id g' H|t g id g' H|t c g id g' H|t g id g' H|from to g g' Hf H|to g g' H
    |ts source sink g g' Hs H|node group g Hn|group g|group to g g' H|from group g g' Hf H|g g' H|g|old m g g' H].
  - by apply (addNodeForInput_wf _ _ _ _ Hwf) in H as [? _].
  - by apply (addNodeForThread_wf _ _ _ Hwf) in H as [? _].
  - by apply (addNodeForNewThread_wf _ _ _ _ Hwf) in H as [? _].
  - by apply (replayNextInput_wf _ _ _ Hwf) in H as [? _].
  - by apply (addEdge_wf _ _ _ _ Hwf (fun _ => Hf)) in H as [? _].
  - by apply (addConservativeEdge_wf _ _ _ Hwf) in H as [? _].
  - unfold addSourceSinkEdgesSet in H. destruct (_ && _); [by injection H as <-|]. by eapply addSourceSinkEdges_all_wf; [done|intros _; exact Hs|].
  - by apply addNodeToGroup_wf; [|intros _].
  - by apply removeGroup_wf.
  - apply bind_Some in H as (u & _ & H). apply addEdges_wf in H as [? _]; [done|done|]. apply Forall_fmap. by apply group_ids_ok.
  - apply bind_Some in H as (u & _ & H). apply addEdges_wf in H as [? _]; [done|done|]. apply Forall_fmap.
    apply Forall_forall. by intros x _ _.
  - intros _. by eapply clear_wf.
  - intros Hsm. destruct (Hwf Hsm). split; done.
  - unfold startReplay in H. destruct (g_replayed g); [done|]. injection H as <-. intros Hsm. destruct (Hwf Hsm). split; done.
Qed.
End GraphWf.

(** The graph of a new state, with its initial threads. *)
Definition new_graph (ts : list ThreadUid) : HBGraph :=
  Graph [] ∅ ∅ true (list_to_map ((fun t => (t, 0)) <$> ts)) None 0.

Lemma new_graph_wf ts : graph_wf (new_graph ts).
Proof.
  split; cbn; try done. intros t id Hid%elem_of_list_to_map_2. apply list_elem_of_fmap in Hid as (u & [= _ ->] & _). by split.
Qed.

(** Operations one after the other; which nodes are shared with another graph
    may change in between. *)
Definition graph_run (replay : bool) (ignorable : Z -> bool) (strip : Z -> Z) (thread_ctx : ThreadUid -> Z) : relation HBGraph :=
  rtc (fun g g' => exists writable, graph_op replay ignorable strip thread_ctx writable g g').

Lemma graph_run_wf replay ignorable strip thread_ctx ts g :
  graph_run replay ignorable strip thread_ctx (new_graph ts) g -> sound g.
Proof.
  intros H. remember (new_graph ts) as g0 eqn:Hg. assert (sound g0) as Hwf by (subst; intros _; apply new_graph_wf). clear Hg.
  induction H as [|g1 g2 g3 [wr H] _ IH]; [done|]. apply IH. by eapply graph_op_wf.
Qed.


(** ** An example *)

Definition demo_t0 : ThreadUid := Tuid 0 2.
Definition demo_t1 : ThreadUid := Tuid 1 2.

(** Thread 0 works, creates thread 1, and continues after its first step. *)
Definition demo_graph : HBGraph :=
  Graph [Node 1 demo_t0 100 None []; Node 2 demo_t0 100 None [1]; Node 1 demo_t1 101 None [2];
         Node 3 demo_t0 100 None [2; 3]]
    ∅ (<[demo_t0 := 3]> (<[demo_t1 := 1]> (<[demo_t0 := 2]> (<[demo_t0 := 1]> ∅)))) true
    (<[demo_t0 := 4]> (<[demo_t1 := 3]> (<[demo_t0 := 2]> (<[demo_t0 := 1]> (list_to_map [(demo_t0, 0)]))))) None 0.

Abbreviation demo_run := (graph_run true (fun _ => false) (fun c => c) (fun t => 100 + tid t)).

Definition demo_thread (t : ThreadUid) (g : HBGraph) : HBGraph :=
  from_option snd g (addNodeForThread true (fun _ => false) (fun c => c) (fun t => 100 + tid t) t g).
Definition demo_new_thread (t creator : ThreadUid) (g : HBGraph) : HBGraph :=
  from_option snd g (addNodeForNewThread true (fun _ => false) (fun c => c) (fun t => 100 + tid t) t (Some creator) g).

Definition demo_graph1 : HBGraph := Eval vm_compute in demo_thread demo_t0 (new_graph [demo_t0]).
Definition demo_graph2 : HBGraph := Eval vm_compute in demo_new_thread demo_t1 demo_t0 demo_graph1.
Definition demo_graph3 : HBGraph := Eval vm_compute in demo_thread demo_t0 demo_graph2.

Lemma demo_graph_built : demo_run (new_graph [demo_t0]) demo_graph.
Proof.
  eapply rtc_l; [exists (fun _ => true); eapply (OpThread _ _ _ _ _ demo_t0 _ 1 demo_graph1); vm_compute; reflexivity|].
  eapply rtc_l; [exists (fun _ => true); eapply (OpNewThread _ _ _ _ _ demo_t1 (Some demo_t0) _ 3 demo_graph2); vm_compute; reflexivity|].
  eapply rtc_l; [exists (fun _ => true); eapply (OpThread _ _ _ _ _ demo_t0 _ 4 demo_graph3); vm_compute; reflexivity|].
  eapply rtc_l; [|apply rtc_refl]. exists (fun _ => true).
  eapply (OpEdge _ _ _ _ _ 3 4); [split; [lia|by vm_compute]|vm_compute; reflexivity].
Qed.


Lemma demo_graph_wf : graph_wf demo_graph.
Proof. eapply graph_run_wf; [apply demo_graph_built|by vm_compute]. Qed.
