(* ===== verification/CxState.v ===== *)
(** * State of the constrained execution runtime ([runtime/ConstrainedExec/lib.cpp])

    The runtime that executes an instrumented program under a schedule.  Its
    globals are the fields of [cworld], its [__thread] variables the record
    [tls], kept per thread id; the tables and functions that the instrumentation
    emits are parameters of the operations.  The computations of a thread are
    resumptions ([act]): they finish, stop, or wait at a [SPIN_WAIT_UNTIL] until
    a condition on the shared state holds; other threads run in between. *)

From stdpp Require Import base gmap list fin_maps.
From Stdlib Require Import ZArith Lia.
From S2P Require Import Prelude PthreadTypes.

Definition MAX_CONTEXT : nat := 64.
Definition MAX_FRAGMENTS : nat := 32.
Definition InputBufferFlagBit : Z := Z.shiftl 1 15.
Definition EndFragmentSentinal : Z := 65535.
Definition SkipHbNodeFlag : Z := 65534.
Definition LogCurrIndex : Z := 0.
Definition LogSnapshotIndex : Z := 1.
Definition NTHREADS : nat := Z.to_nat KLEE_MAX_THREADS.

(** [struct HBSchedule]; a thread's schedule is its array of 16-bit tokens. *)
Record HBSchedule := Sched {
  h_numThreads : Z;
  h_nextThreadLeader : Z;
  h_nextScheduleSelectorId : Z;
  h_exitsProgram : bool;
  h_threadSchedules : list (list Z)
}.

(** ** The thread's own variables

    [l_ptr] is [MyThreadSchedulePtr]: the tokens from there on; [l_ctxp] the
    index [MyThreadContextPtr] points to. *)

Record tls := Tls {
  l_just : bool;
  l_frag : nat;
  l_ctx : list Z;
  l_ctxp : nat;
  l_ptr : list Z;
  l_disable : bool
}.

Definition l_set_just (v : bool) (w : tls) : tls :=
  Tls v (l_frag w) (l_ctx w) (l_ctxp w) (l_ptr w) (l_disable w).
Definition l_set_frag (v : nat) (w : tls) : tls :=
  Tls (l_just w) v (l_ctx w) (l_ctxp w) (l_ptr w) (l_disable w).
Definition l_set_ctx (v : list Z) (w : tls) : tls :=
  Tls (l_just w) (l_frag w) v (l_ctxp w) (l_ptr w) (l_disable w).
Definition l_set_ctxp (v : nat) (w : tls) : tls :=
  Tls (l_just w) (l_frag w) (l_ctx w) v (l_ptr w) (l_disable w).
Definition l_set_ptr (v : list Z) (w : tls) : tls :=
  Tls (l_just w) (l_frag w) (l_ctx w) (l_ctxp w) v (l_disable w).
Definition l_set_disable (v : bool) (w : tls) : tls :=
  Tls (l_just w) (l_frag w) (l_ctx w) (l_ctxp w) (l_ptr w) v.

(** [thread_data_t], with the fields this runtime uses. *)
Record cthread := CThread {
  d_start_routine : Z;
  d_start_arg : Z;
  d_id : Z;
  d_initial_fragment_id : nat;
  d_wait_slot : Z;
  d_return_value : Z;
  d_cleanup_stack : Z;
  d_allocated : bool;
  d_terminated : bool;
  d_joinable : bool;
  d_hasjoiner : bool
}.

Definition d_set_start_routine (v : Z) (w : cthread) : cthread :=
  CThread v (d_start_arg w) (d_id w) (d_initial_fragment_id w) (d_wait_slot w)
    (d_return_value w) (d_cleanup_stack w) (d_allocated w) (d_terminated w)
    (d_joinable w) (d_hasjoiner w).
Definition d_set_start_arg (v : Z) (w : cthread) : cthread :=
  CThread (d_start_routine w) v (d_id w) (d_initial_fragment_id w) (d_wait_slot w)
    (d_return_value w) (d_cleanup_stack w) (d_allocated w) (d_terminated w)
    (d_joinable w) (d_hasjoiner w).
Definition d_set_id (v : Z) (w : cthread) : cthread :=
  CThread (d_start_routine w) (d_start_arg w) v (d_initial_fragment_id w) (d_wait_slot w)
    (d_return_value w) (d_cleanup_stack w) (d_allocated w) (d_terminated w)
    (d_joinable w) (d_hasjoiner w).
Definition d_set_initial_fragment_id (v : nat) (w : cthread) : cthread :=
  CThread (d_start_routine w) (d_start_arg w) (d_id w) v (d_wait_slot w) (d_return_value w)
    (d_cleanup_stack w) (d_allocated w) (d_terminated w) (d_joinable w) (d_hasjoiner w).
Definition d_set_wait_slot (v : Z) (w : cthread) : cthread :=
  CThread (d_start_routine w) (d_start_arg w) (d_id w) (d_initial_fragment_id w) v
    (d_return_value w) (d_cleanup_stack w) (d_allocated w) (d_terminated w)
    (d_joinable w) (d_hasjoiner w).
Definition d_set_return_value (v : Z) (w : cthread) : cthread :=
  CThread (d_start_routine w) (d_start_arg w) (d_id w) (d_initial_fragment_id w)
    (d_wait_slot w) v (d_cleanup_stack w) (d_allocated w) (d_terminated w) (d_joinable w)
    (d_hasjoiner w).
Definition d_set_cleanup_stack (v : Z) (w : cthread) : cthread :=
  CThread (d_start_routine w) (d_start_arg w) (d_id w) (d_initial_fragment_id w)
    (d_wait_slot w) (d_return_value w) v (d_allocated w) (d_terminated w) (d_joinable w)
    (d_hasjoiner w).
Definition d_set_allocated (v : bool) (w : cthread) : cthread :=
  CThread (d_start_routine w) (d_start_arg w) (d_id w) (d_initial_fragment_id w)
    (d_wait_slot w) (d_return_value w) (d_cleanup_stack w) v (d_terminated w)
    (d_joinable w) (d_hasjoiner w).
Definition d_set_terminated (v : bool) (w : cthread) : cthread :=
  CThread (d_start_routine w) (d_start_arg w) (d_id w) (d_initial_fragment_id w)
    (d_wait_slot w) (d_return_value w) (d_cleanup_stack w) (d_allocated w) v
    (d_joinable w) (d_hasjoiner w).
Definition d_set_joinable (v : bool) (w : cthread) : cthread :=
  CThread (d_start_routine w) (d_start_arg w) (d_id w) (d_initial_fragment_id w)
    (d_wait_slot w) (d_return_value w) (d_cleanup_stack w) (d_allocated w)
    (d_terminated w) v (d_hasjoiner w).
Definition d_set_hasjoiner (v : bool) (w : cthread) : cthread :=
  CThread (d_start_routine w) (d_start_arg w) (d_id w) (d_initial_fragment_id w)
    (d_wait_slot w) (d_return_value w) (d_cleanup_stack w) (d_allocated w)
    (d_terminated w) (d_joinable w) v.

Definition cthread_zero : cthread := CThread 0 0 0 0 0 0 0 false false false false.

(** ** The shared variables

    A logged variable is named by its width, its buffer (current or snapshot),
    its thread and its object id. *)

Definition logkey : Type := Z * Z * Z * Z.

Record cworld (U : Type) := CW {
  x_frags : list (option HBSchedule);
  x_fragId : nat;
  x_clock : list Z;
  x_threadctx : list bool;
  x_lmap : list Z;
  x_running : Z;
  x_total : Z;
  x_ticker : Z;
  x_waitslot : Z;
  x_readidx : Z;
  x_log : gmap logkey Z;
  x_snap : gmap Z Z;
  x_tlptrs : gmap Z Z;
  x_tls : gmap Z tls;
  x_threads : list cthread;
  x_live : Z;
  x_mutexes : gmap Z pthread_mutex_t;
  x_conds : gmap Z pthread_cond_t;
  x_barriers : gmap Z pthread_barrier_t;
  x_sems : gmap Z sem_t;
  x_cleanups : gmap Z _pthread_cleanup_buffer;
  x_cells : gmap Z Z;
  x_errno : Z;
  x_rand : list Z;
  x_user : U
}.
Arguments CW {U}.
Arguments x_frags {U}.
Arguments x_fragId {U}.
Arguments x_clock {U}.
Arguments x_threadctx {U}.
Arguments x_lmap {U}.
Arguments x_running {U}.
Arguments x_total {U}.
Arguments x_ticker {U}.
Arguments x_waitslot {U}.
Arguments x_readidx {U}.
Arguments x_log {U}.
Arguments x_snap {U}.
Arguments x_tlptrs {U}.
Arguments x_tls {U}.
Arguments x_threads {U}.
Arguments x_live {U}.
Arguments x_mutexes {U}.
Arguments x_conds {U}.
Arguments x_barriers {U}.
Arguments x_sems {U}.
Arguments x_cleanups {U}.
Arguments x_cells {U}.
Arguments x_errno {U}.
Arguments x_rand {U}.
Arguments x_user {U}.

Definition x_set_frags {U : Type} (v : list (option HBSchedule)) (w : cworld U) : cworld U :=
  CW v (x_fragId w) (x_clock w) (x_threadctx w) (x_lmap w) (x_running w) (x_total w)
    (x_ticker w) (x_waitslot w) (x_readidx w) (x_log w) (x_snap w) (x_tlptrs w) (x_tls w)
    (x_threads w) (x_live w) (x_mutexes w) (x_conds w) (x_barriers w) (x_sems w)
    (x_cleanups w) (x_cells w) (x_errno w) (x_rand w) (x_user w).
Definition x_set_fragId {U : Type} (v : nat) (w : cworld U) : cworld U :=
  CW (x_frags w) v (x_clock w) (x_threadctx w) (x_lmap w) (x_running w) (x_total w)
    (x_ticker w) (x_waitslot w) (x_readidx w) (x_log w) (x_snap w) (x_tlptrs w) (x_tls w)
    (x_threads w) (x_live w) (x_mutexes w) (x_conds w) (x_barriers w) (x_sems w)
    (x_cleanups w) (x_cells w) (x_errno w) (x_rand w) (x_user w).
Definition x_set_clock {U : Type} (v : list Z) (w : cworld U) : cworld U :=
  CW (x_frags w) (x_fragId w) v (x_threadctx w) (x_lmap w) (x_running w) (x_total w)
    (x_ticker w) (x_waitslot w) (x_readidx w) (x_log w) (x_snap w) (x_tlptrs w) (x_tls w)
    (x_threads w) (x_live w) (x_mutexes w) (x_conds w) (x_barriers w) (x_sems w)
    (x_cleanups w) (x_cells w) (x_errno w) (x_rand w) (x_user w).
Definition x_set_threadctx {U : Type} (v : list bool) (w : cworld U) : cworld U :=
  CW (x_frags w) (x_fragId w) (x_clock w) v (x_lmap w) (x_running w) (x_total w)
    (x_ticker w) (x_waitslot w) (x_readidx w) (x_log w) (x_snap w) (x_tlptrs w) (x_tls w)
    (x_threads w) (x_live w) (x_mutexes w) (x_conds w) (x_barriers w) (x_sems w)
    (x_cleanups w) (x_cells w) (x_errno w) (x_rand w) (x_user w).
Definition x_set_lmap {U : Type} (v : list Z) (w : cworld U) : cworld U :=
  CW (x_frags w) (x_fragId w) (x_clock w) (x_threadctx w) v (x_running w) (x_total w)
    (x_ticker w) (x_waitslot w) (x_readidx w) (x_log w) (x_snap w) (x_tlptrs w) (x_tls w)
    (x_threads w) (x_live w) (x_mutexes w) (x_conds w) (x_barriers w) (x_sems w)
    (x_cleanups w) (x_cells w) (x_errno w) (x_rand w) (x_user w).
Definition x_set_running {U : Type} (v : Z) (w : cworld U) : cworld U :=
  CW (x_frags w) (x_fragId w) (x_clock w) (x_threadctx w) (x_lmap w) v (x_total w)
    (x_ticker w) (x_waitslot w) (x_readidx w) (x_log w) (x_snap w) (x_tlptrs w) (x_tls w)
    (x_threads w) (x_live w) (x_mutexes w) (x_conds w) (x_barriers w) (x_sems w)
    (x_cleanups w) (x_cells w) (x_errno w) (x_rand w) (x_user w).
Definition x_set_total {U : Type} (v : Z) (w : cworld U) : cworld U :=
  CW (x_frags w) (x_fragId w) (x_clock w) (x_threadctx w) (x_lmap w) (x_running w) v
    (x_ticker w) (x_waitslot w) (x_readidx w) (x_log w) (x_snap w) (x_tlptrs w) (x_tls w)
    (x_threads w) (x_live w) (x_mutexes w) (x_conds w) (x_barriers w) (x_sems w)
    (x_cleanups w) (x_cells w) (x_errno w) (x_rand w) (x_user w).
Definition x_set_ticker {U : Type} (v : Z) (w : cworld U) : cworld U :=
  CW (x_frags w) (x_fragId w) (x_clock w) (x_threadctx w) (x_lmap w) (x_running w)
    (x_total w) v (x_waitslot w) (x_readidx w) (x_log w) (x_snap w) (x_tlptrs w)
    (x_tls w) (x_threads w) (x_live w) (x_mutexes w) (x_conds w) (x_barriers w)
    (x_sems w) (x_cleanups w) (x_cells w) (x_errno w) (x_rand w) (x_user w).
Definition x_set_waitslot {U : Type} (v : Z) (w : cworld U) : cworld U :=
  CW (x_frags w) (x_fragId w) (x_clock w) (x_threadctx w) (x_lmap w) (x_running w)
    (x_total w) (x_ticker w) v (x_readidx w) (x_log w) (x_snap w) (x_tlptrs w) (x_tls w)
    (x_threads w) (x_live w) (x_mutexes w) (x_conds w) (x_barriers w) (x_sems w)
    (x_cleanups w) (x_cells w) (x_errno w) (x_rand w) (x_user w).
Definition x_set_readidx {U : Type} (v : Z) (w : cworld U) : cworld U :=
  CW (x_frags w) (x_fragId w) (x_clock w) (x_threadctx w) (x_lmap w) (x_running w)
    (x_total w) (x_ticker w) (x_waitslot w) v (x_log w) (x_snap w) (x_tlptrs w) (x_tls w)
    (x_threads w) (x_live w) (x_mutexes w) (x_conds w) (x_barriers w) (x_sems w)
    (x_cleanups w) (x_cells w) (x_errno w) (x_rand w) (x_user w).
Definition x_set_log {U : Type} (v : gmap logkey Z) (w : cworld U) : cworld U :=
  CW (x_frags w) (x_fragId w) (x_clock w) (x_threadctx w) (x_lmap w) (x_running w)
    (x_total w) (x_ticker w) (x_waitslot w) (x_readidx w) v (x_snap w) (x_tlptrs w)
    (x_tls w) (x_threads w) (x_live w) (x_mutexes w) (x_conds w) (x_barriers w)
    (x_sems w) (x_cleanups w) (x_cells w) (x_errno w) (x_rand w) (x_user w).
Definition x_set_snap {U : Type} (v : gmap Z Z) (w : cworld U) : cworld U :=
  CW (x_frags w) (x_fragId w) (x_clock w) (x_threadctx w) (x_lmap w) (x_running w)
    (x_total w) (x_ticker w) (x_waitslot w) (x_readidx w) (x_log w) v (x_tlptrs w)
    (x_tls w) (x_threads w) (x_live w) (x_mutexes w) (x_conds w) (x_barriers w)
    (x_sems w) (x_cleanups w) (x_cells w) (x_errno w) (x_rand w) (x_user w).
Definition x_set_tlptrs {U : Type} (v : gmap Z Z) (w : cworld U) : cworld U :=
  CW (x_frags w) (x_fragId w) (x_clock w) (x_threadctx w) (x_lmap w) (x_running w)
    (x_total w) (x_ticker w) (x_waitslot w) (x_readidx w) (x_log w) (x_snap w) v
    (x_tls w) (x_threads w) (x_live w) (x_mutexes w) (x_conds w) (x_barriers w)
    (x_sems w) (x_cleanups w) (x_cells w) (x_errno w) (x_rand w) (x_user w).
Definition x_set_tls {U : Type} (v : gmap Z tls) (w : cworld U) : cworld U :=
  CW (x_frags w) (x_fragId w) (x_clock w) (x_threadctx w) (x_lmap w) (x_running w)
    (x_total w) (x_ticker w) (x_waitslot w) (x_readidx w) (x_log w) (x_snap w)
    (x_tlptrs w) v (x_threads w) (x_live w) (x_mutexes w) (x_conds w) (x_barriers w)
    (x_sems w) (x_cleanups w) (x_cells w) (x_errno w) (x_rand w) (x_user w).
Definition x_set_threads {U : Type} (v : list cthread) (w : cworld U) : cworld U :=
  CW (x_frags w) (x_fragId w) (x_clock w) (x_threadctx w) (x_lmap w) (x_running w)
    (x_total w) (x_ticker w) (x_waitslot w) (x_readidx w) (x_log w) (x_snap w)
    (x_tlptrs w) (x_tls w) v (x_live w) (x_mutexes w) (x_conds w) (x_barriers w)
    (x_sems w) (x_cleanups w) (x_cells w) (x_errno w) (x_rand w) (x_user w).
Definition x_set_live {U : Type} (v : Z) (w : cworld U) : cworld U :=
  CW (x_frags w) (x_fragId w) (x_clock w) (x_threadctx w) (x_lmap w) (x_running w)
    (x_total w) (x_ticker w) (x_waitslot w) (x_readidx w) (x_log w) (x_snap w)
    (x_tlptrs w) (x_tls w) (x_threads w) v (x_mutexes w) (x_conds w) (x_barriers w)
    (x_sems w) (x_cleanups w) (x_cells w) (x_errno w) (x_rand w) (x_user w).
Definition x_set_mutexes {U : Type} (v : gmap Z pthread_mutex_t) (w : cworld U) : cworld U :=
  CW (x_frags w) (x_fragId w) (x_clock w) (x_threadctx w) (x_lmap w) (x_running w)
    (x_total w) (x_ticker w) (x_waitslot w) (x_readidx w) (x_log w) (x_snap w)
    (x_tlptrs w) (x_tls w) (x_threads w) (x_live w) v (x_conds w) (x_barriers w)
    (x_sems w) (x_cleanups w) (x_cells w) (x_errno w) (x_rand w) (x_user w).
Definition x_set_conds {U : Type} (v : gmap Z pthread_cond_t) (w : cworld U) : cworld U :=
  CW (x_frags w) (x_fragId w) (x_clock w) (x_threadctx w) (x_lmap w) (x_running w)
    (x_total w) (x_ticker w) (x_waitslot w) (x_readidx w) (x_log w) (x_snap w)
    (x_tlptrs w) (x_tls w) (x_threads w) (x_live w) (x_mutexes w) v (x_barriers w)
    (x_sems w) (x_cleanups w) (x_cells w) (x_errno w) (x_rand w) (x_user w).
Definition x_set_barriers {U : Type} (v : gmap Z pthread_barrier_t) (w : cworld U) : cworld U :=
  CW (x_frags w) (x_fragId w) (x_clock w) (x_threadctx w) (x_lmap w) (x_running w)
    (x_total w) (x_ticker w) (x_waitslot w) (x_readidx w) (x_log w) (x_snap w)
    (x_tlptrs w) (x_tls w) (x_threads w) (x_live w) (x_mutexes w) (x_conds w) v
    (x_sems w) (x_cleanups w) (x_cells w) (x_errno w) (x_rand w) (x_user w).
Definition x_set_sems {U : Type} (v : gmap Z sem_t) (w : cworld U) : cworld U :=
  CW (x_frags w) (x_fragId w) (x_clock w) (x_threadctx w) (x_lmap w) (x_running w)
    (x_total w) (x_ticker w) (x_waitslot w) (x_readidx w) (x_log w) (x_snap w)
    (x_tlptrs w) (x_tls w) (x_threads w) (x_live w) (x_mutexes w) (x_conds w)
    (x_barriers w) v (x_cleanups w) (x_cells w) (x_errno w) (x_rand w) (x_user w).
Definition x_set_cleanups {U : Type} (v : gmap Z _pthread_cleanup_buffer) (w : cworld U) : cworld U :=
  CW (x_frags w) (x_fragId w) (x_clock w) (x_threadctx w) (x_lmap w) (x_running w)
    (x_total w) (x_ticker w) (x_waitslot w) (x_readidx w) (x_log w) (x_snap w)
    (x_tlptrs w) (x_tls w) (x_threads w) (x_live w) (x_mutexes w) (x_conds w)
    (x_barriers w) (x_sems w) v (x_cells w) (x_errno w) (x_rand w) (x_user w).
Definition x_set_cells {U : Type} (v : gmap Z Z) (w : cworld U) : cworld U :=
  CW (x_frags w) (x_fragId w) (x_clock w) (x_threadctx w) (x_lmap w) (x_running w)
    (x_total w) (x_ticker w) (x_waitslot w) (x_readidx w) (x_log w) (x_snap w)
    (x_tlptrs w) (x_tls w) (x_threads w) (x_live w) (x_mutexes w) (x_conds w)
    (x_barriers w) (x_sems w) (x_cleanups w) v (x_errno w) (x_rand w) (x_user w).
Definition x_set_errno {U : Type} (v : Z) (w : cworld U) : cworld U :=
  CW (x_frags w) (x_fragId w) (x_clock w) (x_threadctx w) (x_lmap w) (x_running w)
    (x_total w) (x_ticker w) (x_waitslot w) (x_readidx w) (x_log w) (x_snap w)
    (x_tlptrs w) (x_tls w) (x_threads w) (x_live w) (x_mutexes w) (x_conds w)
    (x_barriers w) (x_sems w) (x_cleanups w) (x_cells w) v (x_rand w) (x_user w).
Definition x_set_rand {U : Type} (v : list Z) (w : cworld U) : cworld U :=
  CW (x_frags w) (x_fragId w) (x_clock w) (x_threadctx w) (x_lmap w) (x_running w)
    (x_total w) (x_ticker w) (x_waitslot w) (x_readidx w) (x_log w) (x_snap w)
    (x_tlptrs w) (x_tls w) (x_threads w) (x_live w) (x_mutexes w) (x_conds w)
    (x_barriers w) (x_sems w) (x_cleanups w) (x_cells w) (x_errno w) v (x_user w).
Definition x_set_user {U : Type} (v : U) (w : cworld U) : cworld U :=
  CW (x_frags w) (x_fragId w) (x_clock w) (x_threadctx w) (x_lmap w) (x_running w)
    (x_total w) (x_ticker w) (x_waitslot w) (x_readidx w) (x_log w) (x_snap w)
    (x_tlptrs w) (x_tls w) (x_threads w) (x_live w) (x_mutexes w) (x_conds w)
    (x_barriers w) (x_sems w) (x_cleanups w) (x_cells w) (x_errno w) (x_rand w) v.

(** ** Computations *)

Inductive cx_stop :=
| CxAssert            (* assert *)
| CxMemory            (* a pointer outside of its object *)
| CxAbort             (* __ics_call_real_abort *)
| CxExit              (* the process ends *)
| CxFuel.             (* the bound on the fragments of a region was too small *)

Inductive act (W A : Type) : Type :=
| Ret (a : A) (w : W)
| Spin (cond : W -> bool) (w : W) (k : W -> act W A)
| ThreadEnd (w : W)
| Stop (r : cx_stop) (w : W).
Arguments Ret {W A}.
Arguments Spin {W A}.
Arguments ThreadEnd {W A}.
Arguments Stop {W A}.

Definition C (W A : Type) : Type := W -> act W A.

Fixpoint act_bind {W A B} (o : act W A) (f : A -> C W B) : act W B :=
  match o with
  | Ret a w => f a w
  | Spin c w k => Spin c w (fun w' => act_bind (k w') f)
  | ThreadEnd w => ThreadEnd w
  | Stop r w => Stop r w
  end.

#[export] Instance C_ret W : MRet (C W) := fun A a w => Ret a w.
#[export] Instance C_bind W : MBind (C W) := fun A B f c w => act_bind (c w) f.

Definition cx_stop_with {W A} (r : cx_stop) : C W A := fun w => Stop r w.
Definition cx_get {W A} (f : W -> A) : C W A := fun w => Ret (f w) w.
Definition cx_mod {W} (f : W -> W) : C W unit := fun w => Ret tt (f w).
Definition cx_assert {W} (b : bool) : C W unit := if b then mret tt else cx_stop_with CxAssert.

(** A read through a pointer or index that may be out of range. *)
Definition cx_read {W A} (f : W -> option A) : C W A := fun w =>
  match f w with Some a => Ret a w | None => Stop CxMemory w end.

Definition SPIN_WAIT_UNTIL {W} (cond : W -> bool) : C W unit := fun w => Spin cond w (fun w' => Ret tt w').

(** ** Running a computation that follows others *)

Section Bind.
Context {W A B : Type}.
Implicit Types (c : C W A) (f : A -> C W B).

Lemma cbind_ret c f w a w' : c w = Ret a w' -> (c ≫= f) w = f a w'.
Proof. unfold mbind, C_bind. by intros ->. Qed.

Lemma cbind_stop c f w r w' : c w = Stop r w' -> (c ≫= f) w = Stop r w'.
Proof. unfold mbind, C_bind. by intros ->. Qed.

Lemma cbind_spin c f w p w' k :
  c w = Spin p w' k -> (c ≫= f) w = Spin p w' (fun w'' => act_bind (k w'') f).
Proof. unfold mbind, C_bind. by intros ->. Qed.
End Bind.
