(* ===== verification/Schedule.v ===== *)
(** * Schedules as the instrumentation writes them ([lib/ICS/Instrumentor.cpp])

    [DumpThreadSchedule] turns the nodes of one thread in a range of the
    happens-before graph into an array of 16-bit tokens, in the format that the
    constrained runtime reads.  A failed [assert] is [None]. *)

From stdpp Require Import base gmap list fin_maps sets.
From Stdlib Require Import ZArith Lia.
From S2P Require Import Prelude HbGraph CxState.

Definition MaxCtxId : Z := Z.ldiff SkipHbNodeFlag InputBufferFlagBit - 1.

(** [ScheduleFragment], without its debugging ids. *)
Record ScheduleFragment := Frag {
  sf_graph : list HBNode;
  sf_first : Z;
  sf_last : Z;
  sf_leader : ThreadUid;
  sf_exits : bool;
  sf_fragId : Z;
  sf_selector : Z;
  sf_inputIds : gmap Z Z
}.

(** [GetConstantInt16] *)
Definition GetConstantInt16 (v : Z) : option Z := if v <=? 65535 then Some v else None.

(** ** Iterating over the nodes of a thread *)

Fixpoint skipToMatchingThread (t : ThreadUid) (it : list HBNode) : list HBNode :=
  match it with
  | [] => []
  | n :: r => if bool_decide (tuid n = t) then it else skipToMatchingThread t r
  end.

(** An iterator is the part of the list from it on. *)
Definition thread_order_iterator (ns : list HBNode) (t : ThreadUid) (startId : Z) : list HBNode :=
  skipToMatchingThread t (drop (Z.to_nat (startId - 1)) ns).
Definition threadOrderBegin (ns : list HBNode) (t : ThreadUid) (first : Z) : list HBNode :=
  thread_order_iterator ns t first.
Definition threadOrderEnd (ns : list HBNode) (t : ThreadUid) (last : Z) : list HBNode :=
  thread_order_iterator ns t (last + 1).

(** [for (node = start; node != end; ++node)]: two iterators over the same list
    are equal when as many elements follow them. *)
Fixpoint iterate (fuel : nat) (it stop : list HBNode) (t : ThreadUid) : list HBNode :=
  match fuel, it with
  | S fuel, n :: r => if Nat.eqb (length it) (length stop) then [] else n :: iterate fuel (skipToMatchingThread t r) stop t
  | _, _ => []
  end.

(** ** Writing one node *)

Section Dump.
Context (short_id : Z -> option Z).    (* LookupCallCtxShortId *)
Context (used : Z -> bool).            (* _usedArrays *)

(** Predecessors in the same thread must come before the node; the others are
    the edges to write, as thread and time. *)
Fixpoint cross_edges (ns : list HBNode) (node : HBNode) (preds : list Z) : option (list (Z * Z)) :=
  match preds with
  | [] => Some []
  | p :: preds =>
      predNode ← node_at ns p;
      if bool_decide (tuid predNode = tuid node)
      then _ ← require (threadOrder predNode <? threadOrder node); cross_edges ns node preds
      else es ← cross_edges ns node preds; Some ((tid (tuid predNode), threadOrder predNode) :: es)
  end.

Fixpoint dump_edges (es : list (Z * Z)) : option (list Z) :=
  match es with
  | [] => Some []
  | (t, ts) :: es => a ← GetConstantInt16 t; b ← GetConstantInt16 ts; r ← dump_edges es; Some (a :: b :: r)
  end.

Definition dump_node (frag : ScheduleFragment) (isLast : bool) (node : HBNode) : option (list Z) :=
  let emit inputId :=
    ctxId ← short_id (callctx node);
    _ ← require (ctxId <=? MaxCtxId);
    hd ← (if inputId =? 0 then a ← GetConstantInt16 ctxId; Some [a]
          else a ← GetConstantInt16 (Z.lor ctxId InputBufferFlagBit); b ← GetConstantInt16 inputId; Some [a; b]);
    es ← cross_edges (sf_graph frag) node (incoming node);
    n ← GetConstantInt16 (Z.of_nat (length es));
    toks ← dump_edges es;
    Some (hd ++ n :: toks) in
  match inputObj node with
  | Some obj =>
      if used obj && negb isLast then inputId ← sf_inputIds frag !! obj; emit inputId
      else
        es ← cross_edges (sf_graph frag) node (incoming node);
        _ ← require (bool_decide (es = []));
        Some [SkipHbNodeFlag]
  | None => emit 0
  end.

Fixpoint dump_nodes (frag : ScheduleFragment) (isLast : bool) (ns : list HBNode) : option (list Z) :=
  match ns with
  | [] => Some []
  | n :: ns => a ← dump_node frag isLast n; r ← dump_nodes frag isLast ns; Some (a ++ r)
  end.

Definition DumpThreadSchedule (frag : ScheduleFragment) (t : ThreadUid) : option (list Z) :=
  let start := threadOrderBegin (sf_graph frag) t (sf_first frag) in
  let stop := threadOrderEnd (sf_graph frag) t (sf_last frag) in
  let isLast := sf_last frag =? Z.of_nat (length (sf_graph frag)) in
  body ← dump_nodes frag isLast (iterate (length start) start stop t);
  Some (body ++ [if isLast then 0 else EndFragmentSentinal]).

(** ** The schedule of a fragment *)

Definition maxThread (ns : list HBNode) : Z := foldr (fun n m => Z.max (tid (tuid n)) m) 0 ns.

Definition DumpScheduleFragment (frag : ScheduleFragment) : option HBSchedule :=
  _ ← require (negb (sf_fragId frag =? 0));
  lastNode ← (if (sf_selector frag =? 0) then node_at (sf_graph frag) (sf_last frag) ≫= (fun n => Some (Some n)) else Some None);
  _ ← require (negb (sf_selector frag =? 0) ||
               match lastNode with Some n => bool_decide (is_Some (inputObj n)) | None => false end ||
               (sf_last frag =? Z.of_nat (length (sf_graph frag))));
  _ ← require (forallb (fun n => pid (tuid n) =? 2) (sf_graph frag));
  let mx := maxThread (sf_graph frag) in
  scheds ← mapM (fun k : nat => DumpThreadSchedule frag (Tuid (Z.of_nat k) 2)) (seq 0 (Z.to_nat (mx + 1)));
  Some (Sched (mx + 1) (tid (sf_leader frag)) (sf_selector frag) (sf_exits frag) scheds).

(** ** Nodes as the runtime sees them *)

Inductive snode := SSkip | SNode (ctx : Z) (input : Z) (edges : list (Z * Z)).

Definition enc_edges (es : list (Z * Z)) : list Z := es ≫= fun e => [e.1; e.2].

Definition enc_node (n : snode) : list Z :=
  match n with
  | SSkip => [SkipHbNodeFlag]
  | SNode c i es =>
      (if i =? 0 then [c] else [Z.lor c InputBufferFlagBit; i]) ++ Z.of_nat (length es) :: enc_edges es
  end.

Definition enc_nodes (ns : list snode) (term : Z) : list Z := (ns ≫= enc_node) ++ [term].

(** What the graph says about a node of a fragment. *)
Definition node_meaning (frag : ScheduleFragment) (isLast : bool) (node : HBNode) : option snode :=
  let meaning inputId :=
    c ← short_id (callctx node); es ← cross_edges (sf_graph frag) node (incoming node); Some (SNode c inputId es) in
  match inputObj node with
  | Some obj => if used obj && negb isLast then i ← sf_inputIds frag !! obj; meaning i else Some SSkip
  | None => meaning 0
  end.

(** The nodes of a thread with ids between [first] and [last]. *)
Definition thread_nodes (frag : ScheduleFragment) (t : ThreadUid) : list HBNode :=
  filter (fun n => tuid n = t)
    (take (Z.to_nat (sf_last frag) - Z.to_nat (sf_first frag - 1))
       (drop (Z.to_nat (sf_first frag - 1)) (sf_graph frag))).
End Dump.

(** ** The iterators *)

Lemma skip_length t l : (length (skipToMatchingThread t l) <= length l)%nat.
Proof. induction l as [|n l IH]; [done|]. cbn. case_bool_decide; cbn; lia. Qed.

Lemma skip_suffix t l : exists pre, l = pre ++ skipToMatchingThread t l /\ Forall (fun n => tuid n <> t) pre.
Proof.
  induction l as [|n l [pre [Hl Hp]]]; [by exists []|]. cbn. case_bool_decide; [by exists []|].
  exists (n :: pre). split; [cbn; by f_equal|by constructor].
Qed.

Lemma filter_other t (l : list HBNode) : Forall (fun n => tuid n <> t) l -> filter (fun n => tuid n = t) l = [].
Proof. induction 1 as [|n l Hn _ IH]; [done|]. by rewrite filter_cons_False. Qed.

Lemma filter_skip t l : filter (fun n => tuid n = t) (skipToMatchingThread t l) = filter (fun n => tuid n = t) l.
Proof.
  destruct (skip_suffix t l) as (pre & Hl & Hp). rewrite Hl at 2. rewrite filter_app, (filter_other t pre) by done. done.
Qed.

(** The iteration gives the thread's nodes up to the end iterator. *)
Lemma iterate_spec t fuel l stop m :
  (length l <= fuel)%nat -> stop = skipToMatchingThread t (drop m l) -> (m <= length l)%nat ->
  iterate fuel (skipToMatchingThread t l) stop t = filter (fun n => tuid n = t) (take m l).
Proof.
  revert fuel m. induction l as [|n l IH]; intros fuel m Hf Hs Hm; cbn [length] in *.
  { destruct fuel; by rewrite take_nil. }
  destruct m as [|m]; cbn [take drop] in *.
  - subst stop. destruct fuel as [|fuel]; [done|]. cbn [iterate].
    destruct (skipToMatchingThread t (n :: l)) eqn:Hsk; [done|]. by rewrite Nat.eqb_refl.
  - cbn [skipToMatchingThread]. destruct (bool_decide_reflect (tuid n = t)) as [Heq|Hne].
    + rewrite filter_cons_True by done. destruct fuel as [|fuel]; [lia|]. cbn [iterate].
      assert (length stop < length (n :: l))%nat as Hlt.
      { subst stop. pose proof (skip_length t (drop m l)). rewrite length_drop in *. cbn. lia. }
      rewrite (proj2 (Nat.eqb_neq _ _)) by lia. f_equal. apply IH; [lia|done|lia].
    + rewrite filter_cons_False by done. apply IH; [lia|done|lia].
Qed.

Lemma iterate_thread_nodes frag t :
  1 <= sf_first frag -> sf_first frag - 1 <= sf_last frag <= Z.of_nat (length (sf_graph frag)) ->
  let start := threadOrderBegin (sf_graph frag) t (sf_first frag) in
  iterate (length start) start (threadOrderEnd (sf_graph frag) t (sf_last frag)) t = thread_nodes frag t.
Proof.
  intros Hf Hl. unfold thread_nodes, threadOrderBegin, threadOrderEnd, thread_order_iterator. cbn zeta.
  set (a := Z.to_nat (sf_first frag - 1)). set (l := drop a (sf_graph frag)).
  replace (Z.to_nat (sf_last frag + 1 - 1)) with (a + (Z.to_nat (sf_last frag) - a))%nat by lia.
  rewrite <- drop_drop. fold l.
  set (m := (Z.to_nat (sf_last frag) - a)%nat).
  rewrite <- (iterate_spec t (length l) l _ m (Nat.le_refl _) eq_refl) by (unfold l, m; rewrite length_drop; lia).
  clearbody m l a. generalize (skipToMatchingThread t (drop m l)) as stop. intros stop.
  pose proof (skip_length t l) as Hle. revert Hle. generalize (skipToMatchingThread t l) as s.
  generalize (length l) as f. intros f s Hle.
  assert (forall f1 f2 s, (length s <= f1)%nat -> (length s <= f2)%nat -> iterate f1 s stop t = iterate f2 s stop t) as Hirr.
  { clear. induction f1 as [|f1 IH]; intros f2 s H1 H2.
    - destruct s; [by destruct f2|cbn in H1; lia].
    - destruct s as [|n s]; [by destruct f2|]. destruct f2 as [|f2]; [cbn in H2; lia|]. cbn [iterate].
      destruct (Nat.eqb _ _); [done|]. f_equal. pose proof (skip_length t s). cbn in H1, H2. apply IH; lia. }
  apply Hirr; lia.
Qed.

(** ** Dumped schedules are encodings *)

Section DumpSpec.
Context (short_id : Z -> option Z) (used : Z -> bool).

(** Context ids come from the sequence 1, 2, 3, ...; threads and times of the
    graph are not negative. *)
Definition ids_ok (ns : list HBNode) : Prop :=
  (forall c i, short_id c = Some i -> 1 <= i) /\ Forall (fun n => 0 <= tid (tuid n) /\ 1 <= threadOrder n) ns.

Definition tok (x : Z) : Prop := 0 <= x <= 65535.

Definition snode_ok (n : snode) : Prop :=
  match n with
  | SSkip => True
  | SNode c i es => 1 <= c <= MaxCtxId /\ 0 <= i <= 65535 /\ Z.of_nat (length es) <= 65535 /\
      Forall (fun e => tok e.1 /\ 1 <= e.2 <= 65535) es
  end.

Lemma GetConstantInt16_Some v a : GetConstantInt16 v = Some a -> a = v /\ v <= 65535.
Proof. unfold GetConstantInt16. destruct (Z.leb_spec v 65535); [|done]. intros [= <-]. done. Qed.

Lemma dump_edges_enc es toks :
  dump_edges es = Some toks -> toks = enc_edges es /\ Forall (fun e => e.1 <= 65535 /\ e.2 <= 65535) es.
Proof.
  revert toks. induction es as [|[t ts] es IH]; intros toks; cbn; [by intros [= <-]|].
  intros (a & [-> ?]%GetConstantInt16_Some & (b & [-> ?]%GetConstantInt16_Some &
    (r & [-> Hr]%IH & [= <-])%bind_Some)%bind_Some)%bind_Some.
  split; [done|]. by constructor.
Qed.

Lemma require_Some b u : require b = Some u -> b = true.
Proof. by destruct b. Qed.

Lemma node_at_Some ns i n : node_at ns i = Some n -> ns !! Z.to_nat (i - 1) = Some n /\ 1 <= i.
Proof. unfold node_at. destruct (Z.leb_spec 1 i); [done|done]. Qed.

Lemma cross_edges_nonneg ns node preds es :
  Forall (fun n => 0 <= tid (tuid n) /\ 1 <= threadOrder n) ns -> cross_edges ns node preds = Some es ->
  Forall (fun e => 0 <= e.1 /\ 1 <= e.2) es.
Proof.
  intros Hns. revert es. induction preds as [|p preds IH]; intros es; cbn; [by intros [= <-]|].
  intros (n & [Hn _]%node_at_Some & Hrest)%bind_Some. case_bool_decide.
  - apply bind_Some in Hrest as (? & _ & Hrest). by apply IH.
  - apply bind_Some in Hrest as (es' & Hes & [= <-]). constructor; [|by apply IH].
    by apply (Forall_lookup_1 _ _ _ _ Hns Hn).
Qed.

Lemma dump_node_enc frag isLast n toks :
  ids_ok (sf_graph frag) -> (forall o i, sf_inputIds frag !! o = Some i -> 1 <= i) ->
  dump_node short_id used frag isLast n = Some toks ->
  exists m, node_meaning short_id used frag isLast n = Some m /\ toks = enc_node m /\ snode_ok m.
Proof.
  intros [Hids Hns] Hin. unfold dump_node, node_meaning. set (emit := fun inputId => _).
  assert (forall i toks, 0 <= i -> emit i = Some toks -> exists m,
    (c ← short_id (callctx n); es ← cross_edges (sf_graph frag) n (incoming n); Some (SNode c i es)) = Some m /\
    toks = enc_node m /\ snode_ok m) as Hemit.
  { intros i tk Hi. unfold emit. intros (c & Hc & (u & Hu%require_Some & (hd & Hhd & (es & Hes & (k & Hk & (et & Het & [= <-])
      %bind_Some)%bind_Some)%bind_Some)%bind_Some)%bind_Some)%bind_Some.
    apply Z.leb_le in Hu. apply GetConstantInt16_Some in Hk as [-> Hk]. apply dump_edges_enc in Het as [-> Hle].
    exists (SNode c i es). rewrite Hc. cbn [mbind option_bind]. rewrite Hes. split; [done|].
    pose proof (cross_edges_nonneg _ _ _ _ Hns Hes) as Hpos. specialize (Hids _ _ Hc).
    assert (hd = if i =? 0 then [c] else [Z.lor c InputBufferFlagBit; i]) as ->.
    { destruct (i =? 0); [by apply bind_Some in Hhd as (a & [-> _]%GetConstantInt16_Some & [= <-])|].
      by apply bind_Some in Hhd as (a & [-> _]%GetConstantInt16_Some & (b & [-> _]%GetConstantInt16_Some & [= <-])%bind_Some). }
    split; [done|]. split; [lia|]. split; [|split; [done|]].
    - destruct (Z.eqb_spec i 0) as [->|Hne]; [lia|].
      apply bind_Some in Hhd as (a & _ & (b & [_ ?]%GetConstantInt16_Some & _)%bind_Some). lia.
    - apply Forall_forall. intros e He. apply (proj1 (Forall_forall _ _) Hle) in He as H1.
      apply (proj1 (Forall_forall _ _) Hpos) in He as H2. unfold tok. lia. }
  destruct (inputObj n) as [o|]; [|by apply Hemit].
  destruct (used o && negb isLast).
  - intros (i & Hi & He)%bind_Some. rewrite Hi. cbn [mbind option_bind]. apply Hemit; [|done]. specialize (Hin _ _ Hi). lia.
  - intros (es & _ & (u & _ & [= <-])%bind_Some)%bind_Some. by exists SSkip.
Qed.

Lemma dump_nodes_enc frag isLast ns toks :
  ids_ok (sf_graph frag) -> (forall o i, sf_inputIds frag !! o = Some i -> 1 <= i) ->
  dump_nodes short_id used frag isLast ns = Some toks ->
  exists ms, mapM (node_meaning short_id used frag isLast) ns = Some ms /\ toks = ms ≫= enc_node /\ Forall snode_ok ms.
Proof.
  intros Hids Hin. revert toks. induction ns as [|n ns IH]; intros toks; cbn [dump_nodes].
  { intros [= <-]. by exists []. }
  intros (a & (m & Hm & -> & Hok)%dump_node_enc & (r & (ms & Hms & -> & Hoks)%IH & [= <-])%bind_Some)%bind_Some; [|done..].
  exists (m :: ms). cbn. rewrite Hm. cbn. rewrite Hms. cbn. split; [done|]. split; [done|by constructor].
Qed.

(** The dumped schedule of a thread encodes what the graph says about its nodes
    in the fragment, in their order, and ends with the right terminator. *)
Lemma DumpThreadSchedule_enc frag t toks :
  ids_ok (sf_graph frag) -> (forall o i, sf_inputIds frag !! o = Some i -> 1 <= i) ->
  1 <= sf_first frag -> sf_first frag - 1 <= sf_last frag <= Z.of_nat (length (sf_graph frag)) ->
  DumpThreadSchedule short_id used frag t = Some toks ->
  let isLast := sf_last frag =? Z.of_nat (length (sf_graph frag)) in
  exists ms, mapM (node_meaning short_id used frag isLast) (thread_nodes frag t) = Some ms /\
    toks = enc_nodes ms (if isLast then 0 else EndFragmentSentinal) /\ Forall snode_ok ms.
Proof.
  intros Hids Hin Hf Hl Hd isLast. unfold DumpThreadSchedule in Hd. cbv zeta in Hd. fold isLast in Hd.
  apply bind_Some in Hd as (b & Hb & [= <-]). rewrite iterate_thread_nodes in Hb by done.
  apply dump_nodes_enc in Hb as (ms & Hms & -> & Hok); [|done..]. by exists ms.
Qed.
End DumpSpec.
