(* ===== verification/CxSched.v ===== *)
(** * Following a schedule ([runtime/ConstrainedExec/lib.cpp], "ICS Scheduling" and "ICS API: Basics")

    A thread executes the nodes of its schedule in order: before a node it waits
    until the vector clock has reached every incoming edge, after it it advances
    its own entry of the clock.  At the end of a fragment the threads move on to
    the next one, at the end of a region they meet at the region barrier. *)

From stdpp Require Import base gmap list fin_maps.
From Stdlib Require Import ZArith Lia.
From S2P Require Import Prelude PthreadTypes CxState.

(** An access to an array by an index that may be out of range. *)
Definition at_ {A} (l : list A) (i : Z) : option A := if 0 <=? i then l !! Z.to_nat i else None.

Definition clock_of {U} (w : cworld U) (t : Z) : Z := default 0 (at_ (x_clock w) t).

(** What the instrumentation emits: the table from short to long context ids,
    the contexts of each region (from region 1 on), the schedule selectors and
    the snapshot functions (a buffer, or NULL at the start of a region).
    [qsort] is the library's, on pairs of context id and thread. *)
Class Instrumented (U : Type) := {
  callctx_table : Z -> Z;
  regionctx_table : list (list (Z * Z));
  schedule_selectors : Z -> cworld U -> HBSchedule;
  snapshot_functions : Z -> option (list Z) -> cworld U -> cworld U;
  qsort : list (Z * Z) -> list (Z * Z);
  schedule_fragment_1 : HBSchedule
}.

Section Sched.
Context {U : Type} `{!Instrumented U}.
Context (me : Z).
Abbreviation W := (cworld U).

(** ** The thread's variables *)

Definition my_tls : C W tls := cx_read (fun w => x_tls w !! me).
Definition mod_tls (f : tls -> tls) : C W unit := fun w =>
  match x_tls w !! me with
  | Some l => Ret tt (x_set_tls (<[me := f l]> (x_tls w)) w)
  | None => Stop CxMemory w
  end.

(** [MyThreadInfo] points to the slot of the thread's own id. *)
Definition mod_my_info (f : cthread -> cthread) : C W unit := fun w =>
  match at_ (x_threads w) me with
  | Some d => Ret tt (x_set_threads (<[Z.to_nat me := f d]> (x_threads w)) w)
  | None => Stop CxMemory w
  end.

Definition MyThreadCurrSchedule : C W HBSchedule :=
  l ← my_tls; cx_read (fun w => mjoin (x_frags w !! l_frag l)).

(** [*MyThreadSchedulePtr], and reading the token there and moving on. *)
Definition peek_token : C W Z := l ← my_tls; cx_read (fun _ => head (l_ptr l)).
Definition next_token : C W Z :=
  l ← my_tls;
  match l_ptr l with
  | [] => cx_stop_with CxMemory
  | x :: r => mod_tls (l_set_ptr r);; mret x
  end.

(** ** Contexts and flags *)

Definition MyThreadContextTop : C W Z := l ← my_tls; cx_read (fun _ => l_ctx l !! l_ctxp l).

Definition IsMyCurrentContextShortId (ctxid : Z) : C W bool :=
  c ← MyThreadContextTop; mret (callctx_table ctxid =? c).
Definition IsMyCurrentContextLongId (ctxid : Z) : C W bool :=
  c ← MyThreadContextTop; mret (ctxid =? c).

Definition IsFragmentComplete : C W bool := x ← peek_token; mret (x =? EndFragmentSentinal).
Definition IsScheduleComplete : C W bool := x ← peek_token; mret (x =? 0).

(** ** The clock *)

(** The entry has one writer; the store is visible to the other threads, which
    may run right after it.  [needfutex] is never set, so nobody is signalled. *)
Definition AdvanceHbNode : C W unit :=
  t ← cx_read (fun w => at_ (x_clock w) me);
  cx_mod (fun w => x_set_clock (<[Z.to_nat me := u32 (t + 1)]> (x_clock w)) w);;
  SPIN_WAIT_UNTIL (fun _ => true).

Fixpoint skip_nops (ptr : list Z) : C W unit :=
  match ptr with
  | [] => cx_stop_with CxMemory
  | x :: r =>
      if x =? SkipHbNodeFlag then AdvanceHbNode;; mod_tls (l_set_ptr r);; skip_nops r
      else mret tt
  end.

Definition SkipNopScheduleNodes : C W unit := l ← my_tls; skip_nops (l_ptr l).

(** ** Regions *)

(** The current contexts of the live threads, in the order of their ids. *)
Definition gather_contexts (w : W) : option (list (Z * Z)) :=
  mapM (fun k : nat => l ← x_tls w !! Z.of_nat k; c ← l_ctx l !! l_ctxp l; Some (c, Z.of_nat k))
       (filter (fun k => x_threadctx w !! k = Some true) (seq 0 NTHREADS)).

(** One row of the table against the sorted contexts; the map of logical thread
    ids is updated on the way, also in a row that turns out not to match. *)
Fixpoint match_region (ctxlist sorted : list (Z * Z)) (lmap : list Z) : bool * list Z :=
  match ctxlist, sorted with
  | (c, t) :: ctxlist', (c', t') :: sorted' =>
      if c =? c' then match_region ctxlist' sorted' (<[Z.to_nat t := t']> lmap) else (false, lmap)
  | [], [] => (true, lmap)
  | _, _ => (false, lmap)
  end.

Fixpoint find_region (table : list (list (Z * Z))) (rid : Z) (sorted : list (Z * Z)) (lmap : list Z)
    : option Z * list Z :=
  match table with
  | [] => (None, lmap)
  | row :: table' =>
      let '(ok, lmap') := match_region row sorted lmap in
      if ok then (Some rid, lmap') else find_region table' (rid + 1) sorted lmap'
  end.

Definition GetNextRegionId : C W Z :=
  ctxs ← cx_read gather_contexts;
  lmap ← cx_get x_lmap;
  let '(rid, lmap') := find_region regionctx_table 1 (qsort ctxs) lmap in
  cx_mod (x_set_lmap lmap');;
  match rid with
  | Some r => mret r
  | None => cx_stop_with CxAssert
  end.

(** [memcpy] of the current log over the snapshot, for the first [n] threads. *)
Definition copy_log (n : Z) (m : gmap logkey Z) : gmap logkey Z :=
  map_fold (fun (k : logkey) v acc =>
    let '(width, buf, t, oid) := k in
    if (buf =? LogCurrIndex) && (0 <=? t) && (t <? n)
    then <[(width, LogSnapshotIndex, t, oid) := v]> acc else acc) m m.

Definition SnapshotStackVars : C W unit := cx_mod (fun w => x_set_log (copy_log (x_total w) (x_log w)) w).

Definition WaitAtRegionBarrier (oldticker : Z) : C W unit :=
  SPIN_WAIT_UNTIL (fun w => negb (x_ticker w =? oldticker)).

Definition ResetVectorClocks : C W unit := cx_mod (x_set_clock (replicate NTHREADS 0)).

Definition ReleaseRegionBarrier : C W unit :=
  cx_mod (fun w => x_set_running (x_total w) w);;
  ResetVectorClocks;;
  cx_mod (fun w => x_set_ticker (u64 (x_ticker w + 1)) w).

(** [CurrFragmentList[i] = sched] *)
Definition set_fragment (i : nat) (sched : HBSchedule) : C W unit := fun w =>
  if bool_decide (i < length (x_frags w))%nat then Ret tt (x_set_frags (<[i := Some sched]> (x_frags w)) w)
  else Stop CxMemory w.

(** What the last thread at the barrier does. *)
Definition start_region : C W unit :=
  cx_mod (x_set_readidx LogCurrIndex);;
  rid ← GetNextRegionId;
  cx_mod (snapshot_functions rid None);;
  cx_mod (x_set_fragId 0);;
  first ← cx_get (schedule_selectors rid);
  set_fragment 0 first;;
  (if h_nextScheduleSelectorId first =? 0 then mret tt
   else SnapshotStackVars;; cx_mod (x_set_readidx LogSnapshotIndex));;
  ReleaseRegionBarrier.

(** The three functions below call each other; [init] is
    [InitializeMyThreadSchedulePtr], which they end with. *)
Definition RegionBarrier_with (init : C W unit) : C W unit :=
  sched ← MyThreadCurrSchedule;
  cx_assert (negb (h_exitsProgram sched));;
  oldticker ← cx_get x_ticker;
  cx_mod (fun w => x_set_running (u32 (x_running w - 1)) w);;
  left ← cx_get x_running;
  (if left =? 0 then start_region else WaitAtRegionBarrier oldticker);;
  mod_tls (l_set_frag 0);;
  init.

Definition WaitForNextFragment : C W unit :=
  l ← my_tls; SPIN_WAIT_UNTIL (fun w => Nat.leb (l_frag l) (x_fragId w)).

Definition UpdateCurrFragmentId (oldId newId : nat) : C W unit :=
  cur ← cx_get x_fragId;
  cx_assert (Nat.eqb cur oldId);;
  cx_mod (x_set_fragId newId).

Definition AdvanceToNextFragment_with (init : C W unit) : C W unit :=
  oldSchedule ← MyThreadCurrSchedule;
  l ← my_tls;
  let oldFragment := l_frag l in
  mod_tls (l_set_frag (S oldFragment));;
  (if h_nextThreadLeader oldSchedule =? me then
     next ← cx_get (schedule_selectors (h_nextScheduleSelectorId oldSchedule));
     set_fragment (S oldFragment) next;;
     UpdateCurrFragmentId oldFragment (S oldFragment)
   else WaitForNextFragment);;
  init.

(** The [while] loop at the start waits for a fragment that has this thread.
    Each turn uses one fragment or one region, which the fuel counts. *)
Fixpoint InitializeMyThreadSchedulePtr (fuel : nat) : C W unit :=
  match fuel with
  | O => cx_stop_with CxFuel
  | S fuel =>
      sched ← MyThreadCurrSchedule;
      if h_numThreads sched <=? me then
        (if negb (h_nextScheduleSelectorId sched =? 0)
         then AdvanceToNextFragment_with (InitializeMyThreadSchedulePtr fuel)
         else
           l ← my_tls;
           cx_assert (negb (Nat.eqb (l_frag l) 0));;
           RegionBarrier_with (InitializeMyThreadSchedulePtr fuel));;
        InitializeMyThreadSchedulePtr fuel
      else
        ptr ← cx_read (fun _ => at_ (h_threadSchedules sched) me);
        mod_tls (l_set_ptr ptr);;
        SkipNopScheduleNodes
  end.

Definition RegionBarrier (fuel : nat) : C W unit := RegionBarrier_with (InitializeMyThreadSchedulePtr fuel).
Definition AdvanceToNextFragment (fuel : nat) : C W unit :=
  AdvanceToNextFragment_with (InitializeMyThreadSchedulePtr fuel).

Fixpoint AdvanceToNextFragmentIfComplete (fuel : nat) : C W unit :=
  match fuel with
  | O => cx_stop_with CxFuel
  | S fuel =>
      complete ← IsFragmentComplete;
      if (complete : bool) then AdvanceToNextFragment fuel;; AdvanceToNextFragmentIfComplete fuel else mret tt
  end.

Definition TakeNextWaitSlot : C W unit :=
  s ← cx_get x_waitslot;
  cx_mod (x_set_waitslot (u32 (s + 1)));;
  mod_my_info (d_set_wait_slot s).

(** ** Waiting for a node *)

Fixpoint wait_edges (n : nat) : C W unit :=
  match n with
  | O => mret tt
  | S n =>
      raw ← next_token;
      t ← cx_read (fun w => at_ (x_lmap w) raw);
      timestamp ← next_token;
      cx_read (fun w => at_ (x_clock w) t);;
      SPIN_WAIT_UNTIL (fun w => timestamp <=? clock_of w t);;
      wait_edges n
  end.

(** [expecting] says whether [inputId] is given; the result is [None] for
    [false], and the input id (0 without input) for [true]. *)
Definition WaitForHbNode (fuel : nat) (expecting : bool) : C W (option Z) :=
  AdvanceToNextFragmentIfComplete fuel;;
  complete ← IsScheduleComplete;
  if (complete : bool) then mret None
  else
    raw ← peek_token;
    let ctxid := Z.ldiff raw InputBufferFlagBit in
    here ← IsMyCurrentContextShortId ctxid;
    if negb here then mret None
    else
      let nodeHasInput := negb (Z.land raw InputBufferFlagBit =? 0) in
      if negb (Bool.eqb expecting nodeHasInput) then mret None
      else
        next_token;;
        input ← (if expecting then next_token else mret 0);
        numincoming ← next_token;
        wait_edges (Z.to_nat numincoming);;
        SkipNopScheduleNodes;;
        mret (Some input).

(** [while (IsScheduleComplete()) RegionBarrier();] *)
Fixpoint sleep_regions (fuel : nat) : C W unit :=
  match fuel with
  | O => cx_stop_with CxFuel
  | S fuel =>
      complete ← IsScheduleComplete;
      if (complete : bool) then RegionBarrier fuel;; sleep_regions fuel else mret tt
  end.

Definition WaitForHbNodeMustExist (fuel : nat) (canSleep expecting : bool) : C W Z :=
  (if canSleep then sleep_regions fuel else mret tt);;
  ok ← WaitForHbNode fuel expecting;
  match ok with
  | Some input => mret input
  | None => cx_stop_with CxAssert
  end.

Definition WaitForHbNodeMustExistCanSleep (fuel : nat) : C W Z := WaitForHbNodeMustExist fuel true false.

Definition DoOneSyncOpMustExist (fuel : nat) : C W unit :=
  WaitForHbNodeMustExist fuel false false;; AdvanceHbNode.

Definition DoOneSyncOpMustExistCanSleep (fuel : nat) : C W unit :=
  WaitForHbNodeMustExist fuel true false;; AdvanceHbNode.

Fixpoint SkipRegionBarriersOrExit (fuel : nat) : C W bool :=
  match fuel with
  | O => cx_stop_with CxFuel
  | S fuel =>
      complete ← IsScheduleComplete;
      if (complete : bool) then
        sched ← MyThreadCurrSchedule;
        if h_exitsProgram sched then mret true
        else RegionBarrier fuel;; SkipRegionBarriersOrExit fuel
      else mret false
  end.

(** ** Basics *)

(** [log_threadlocals] is the emitted function [__ics_log_threadlocaladdrs]. *)
Definition MyThreadCommonInit (fuel : nat) (log_threadlocals : W -> W) : C W unit :=
  mod_tls (l_set_just true);;
  mod_tls (l_set_ctxp 0);;
  mod_tls (l_set_ctx (replicate MAX_CONTEXT 0));;
  InitializeMyThreadSchedulePtr fuel;;
  cx_mod (fun w => x_set_threadctx (<[Z.to_nat me := true]> (x_threadctx w)) w);;
  cx_mod log_threadlocals.

Definition MyThreadCommonTeardown : C W unit :=
  cx_mod (fun w => x_set_threadctx (<[Z.to_nat me := false]> (x_threadctx w)) w).

Definition klee_ics_initialize (fuel : nat) (log_threadlocals : W -> W) : C W unit :=
  set_fragment 0 schedule_fragment_1;;
  cx_mod (x_set_live 1);;
  cx_mod (x_set_lmap (Z.of_nat <$> seq 0 NTHREADS));;
  mod_my_info (d_set_allocated true);;
  mod_my_info (d_set_joinable true);;
  mod_tls (l_set_frag 0);;
  MyThreadCommonInit fuel log_threadlocals.

Definition klee_ics_region_marker (fuel : nat) : C W unit :=
  DoOneSyncOpMustExist fuel;;
  AdvanceToNextFragmentIfComplete fuel;;
  complete ← IsScheduleComplete;
  if (complete : bool) then
    sched ← MyThreadCurrSchedule;
    if h_exitsProgram sched then mret tt else RegionBarrier fuel
  else mret tt.

Definition klee_ics_begin (fuel : nat) : C W unit :=
  total ← cx_get x_total;
  cx_assert (total =? 1);;
  cx_assert (me =? 0);;
  DoOneSyncOpMustExist fuel.

Definition klee_ics_panic_nosched (sid : Z) : C W unit := cx_stop_with CxAbort.

Definition klee_ics_do_initial_syncop (fuel : nat) : C W unit :=
  l ← my_tls;
  if l_just l then DoOneSyncOpMustExist fuel;; mod_tls (l_set_just false) else mret tt.

Definition klee_ics_count_instructions (count : Z) : C W unit := mret tt.

(** ** Running the operations on a schedule in place

    [with_ptr l p w] is [w] with the thread's variables [l] and its schedule
    pointer at [p]. *)

Definition with_ptr (l : tls) (p : list Z) (w : W) : W := x_set_tls (<[me := l_set_ptr p l]> (x_tls w)) w.

Lemma with_ptr_lookup l p w : x_tls (with_ptr l p w) !! me = Some (l_set_ptr p l).
Proof. unfold with_ptr. cbn. by rewrite lookup_insert_eq. Qed.

Lemma with_ptr_id l p w : x_tls w !! me = Some (l_set_ptr p l) -> with_ptr l p w = w.
Proof. intros H. unfold with_ptr. rewrite insert_id by done. by destruct w. Qed.

Lemma with_ptr_own l w : x_tls w !! me = Some l -> with_ptr l (l_ptr l) w = w.
Proof. intros H. apply with_ptr_id. rewrite H. by destruct l. Qed.

Lemma with_ptr_twice l p q w : with_ptr l q (with_ptr l p w) = with_ptr l q w.
Proof. unfold with_ptr. cbn. rewrite insert_insert_eq. by destruct w. Qed.

Lemma my_tls_run l p w : my_tls (with_ptr l p w) = Ret (l_set_ptr p l) (with_ptr l p w).
Proof. unfold my_tls, cx_read. by rewrite with_ptr_lookup. Qed.

Lemma mod_tls_ptr_run l p q w : mod_tls (l_set_ptr q) (with_ptr l p w) = Ret tt (with_ptr l q w).
Proof. unfold mod_tls. rewrite with_ptr_lookup. f_equal. apply (with_ptr_twice l p q w). Qed.

Lemma peek_token_run l x r w : peek_token (with_ptr l (x :: r) w) = Ret x (with_ptr l (x :: r) w).
Proof. unfold peek_token. by erewrite cbind_ret by apply my_tls_run. Qed.

Lemma next_token_run l x r w : next_token (with_ptr l (x :: r) w) = Ret x (with_ptr l r w).
Proof.
  unfold next_token. erewrite cbind_ret by apply my_tls_run. cbn [l_ptr l_set_ptr].
  by erewrite cbind_ret by apply mod_tls_ptr_run.
Qed.

Lemma context_run l p c w :
  l_ctx l !! l_ctxp l = Some c -> MyThreadContextTop (with_ptr l p w) = Ret c (with_ptr l p w).
Proof.
  intros Hc. unfold MyThreadContextTop. erewrite cbind_ret by apply my_tls_run. unfold cx_read. cbn. by rewrite Hc.
Qed.

(** A token that is not the skip flag stops [SkipNopScheduleNodes]. *)
Lemma skip_run l x r w :
  x <> SkipHbNodeFlag -> SkipNopScheduleNodes (with_ptr l (x :: r) w) = Ret tt (with_ptr l (x :: r) w).
Proof.
  intros Hx. unfold SkipNopScheduleNodes. erewrite cbind_ret by apply my_tls_run. cbn [l_ptr l_set_ptr skip_nops].
  by rewrite (proj2 (Z.eqb_neq _ _) Hx).
Qed.
End Sched.
