(* ===== verification/CxPool.v ===== *)
(** * Threads of the constrained runtime side by side

    The interleaving semantics of a pool of computations, and a rely-guarantee
    rule for its invariants: each thread is shown safe on its own, against
    whatever the others may do to the shared state. *)

From stdpp Require Import base gmap list fin_maps relations.
From Stdlib Require Import ZArith Lia.
From S2P Require Import Prelude CxState.

(** One entry per thread. *)
Definition spawn {A} (n : nat) (f : Z -> A) : gmap Z A :=
  list_to_map ((fun k : nat => (Z.of_nat k, f (Z.of_nat k))) <$> seq 0 n).

Lemma spawn_lookup {A} n (f : Z -> A) t :
  spawn n f !! t = if decide (0 <= t < Z.of_nat n) then Some (f t) else None.
Proof.
  unfold spawn. destruct (decide (0 <= t < Z.of_nat n)) as [Ht|Ht].
  - apply elem_of_list_to_map_1.
    + rewrite <- list_fmap_compose. cbn. apply NoDup_fmap_2; [|apply NoDup_seq]. intros a b; cbn; lia.
    + apply list_elem_of_fmap. exists (Z.to_nat t). rewrite Z2Nat.id by lia. split; [done|]. apply elem_of_seq. lia.
  - apply not_elem_of_list_to_map_1. rewrite <- list_fmap_compose. intros (k & Hk & Hin)%list_elem_of_fmap. cbn in Hk.
    apply elem_of_seq in Hin. lia.
Qed.

Section Pool.
Context {W : Type}.

Definition act_world {A} (o : act W A) : W :=
  match o with Ret _ w => w | Spin _ w _ => w | ThreadEnd w => w | Stop _ w => w end.

Record pool := Pool { p_world : W; p_threads : gmap Z (act W unit) }.

(** A thread whose condition holds runs to its next waiting point. *)
Inductive pool_run : pool -> pool -> Prop :=
| pool_run_intro t c w0 k w ts :
    ts !! t = Some (Spin c w0 k) -> c w = true ->
    pool_run (Pool w ts) (Pool (act_world (k w)) (<[t := k w]> ts)).

Lemma pool_run_dom p p' t : rtc pool_run p p' -> is_Some (p_threads p' !! t) <-> is_Some (p_threads p !! t).
Proof.
  induction 1 as [|p1 p2 p3 H12 _ IH]; [done|]. rewrite IH. destruct H12 as [t' c w0 k w1 ts Ht Hc]. cbn.
  rewrite lookup_insert_is_Some. destruct (decide (t' = t)) as [->|]; [rewrite Ht|]; naive_solver.
Qed.

(** Running one thread, and the threads of a list in turn. *)
Definition run_thread (t : Z) (p : pool) : option pool :=
  match p_threads p !! t with
  | Some (Spin c _ k) =>
      if c (p_world p) then Some (Pool (act_world (k (p_world p))) (<[t := k (p_world p)]> (p_threads p))) else None
  | _ => None
  end.

Fixpoint run_all (ts : list Z) (p : pool) : option pool :=
  match ts with
  | [] => Some p
  | t :: ts => p' ← run_thread t p; run_all ts p'
  end.

Lemma run_thread_sound t p p' : run_thread t p = Some p' -> pool_run p p'.
Proof.
  unfold run_thread. destruct p as [w ts]. cbn. destruct (ts !! t) as [[|c w0 k| |]|] eqn:Ht; try done.
  destruct (c w) eqn:Hc; [|done]. intros [= <-]. by eapply pool_run_intro.
Qed.

Lemma run_all_sound ts p p' : run_all ts p = Some p' -> rtc pool_run p p'.
Proof.
  revert p. induction ts as [|t ts IH]; intros p; cbn; [by intros [= ->]|].
  intros (p1 & H1%run_thread_sound & H2%IH)%bind_Some. by econstructor.
Qed.

Definition finished (o : act W unit) : Prop := exists w, o = Ret tt w.

(** ** Rely and guarantee *)

Context (I : W -> Prop) (Rely Guar : Z -> W -> W -> Prop).
Context (Blocked : Z -> (W -> bool) -> W -> Prop).   (* why a condition may be false *)

Class RelyGuarantee : Prop := {
  rely_refl t w : Rely t w w;
  rely_trans t w1 w2 w3 : Rely t w1 w2 -> Rely t w2 w3 -> Rely t w1 w3;
  guar_refl t w : Guar t w w;
  guar_trans t w1 w2 w3 : Guar t w1 w2 -> Guar t w2 w3 -> Guar t w1 w3;
  guar_rely t t' w1 w2 : t <> t' -> Guar t w1 w2 -> Rely t' w1 w2
}.

(** From [w0] on the thread keeps the invariant and its guarantee, never stops
    with an error, waits only for a reason, and ends in [Q]. *)
Fixpoint safe {A} (t : Z) (w0 : W) (o : act W A) (Q : A -> W -> Prop) : Prop :=
  match o with
  | Ret a w => Guar t w0 w /\ I w /\ Q a w
  | Spin c w k =>
      Guar t w0 w /\ I w /\
      forall w', Rely t w w' -> I w' -> (c w' = true -> safe t w' (k w') Q) /\ (c w' = false -> Blocked t c w')
  | ThreadEnd _ | Stop _ _ => False
  end.

Context `{RG : RelyGuarantee}.

Lemma safe_guar {A} t w0 w1 (o : act W A) Q : Guar t w0 w1 -> safe t w1 o Q -> safe t w0 o Q.
Proof.
  intros Hg. destruct o; cbn; try done.
  - intros (H1 & H2). split; [by eapply guar_trans|done].
  - intros (H1 & H2). split; [by eapply guar_trans|done].
Qed.

Lemma safe_act_bind {A B} t w0 (o : act W A) (f : A -> C W B) Q Q' :
  safe t w0 o Q -> (forall a w, I w -> Q a w -> safe t w (f a w) Q') -> safe t w0 (act_bind o f) Q'.
Proof.
  intros Hs Hf. revert w0 Hs. induction o as [a w|c w k IH|w|r w]; intros w0; cbn; try done.
  - intros (Hg & Hi & Hq). eapply safe_guar; [exact Hg|]. auto.
  - intros (Hg & Hi & Hk). split; [done|]. split; [done|]. intros w' Hr Hi'.
    destruct (Hk w' Hr Hi') as [Hgo Hwait]. split; [|done]. intros Hc. apply IH. by apply Hgo.
Qed.

Lemma safe_bind {A B} t w0 (c : C W A) (f : A -> C W B) w Q Q' :
  safe t w0 (c w) Q -> (forall a w, I w -> Q a w -> safe t w (f a w) Q') -> safe t w0 ((c ≫= f) w) Q'.
Proof. apply safe_act_bind. Qed.

Lemma safe_mono {A} t w0 (o : act W A) (Q Q' : A -> W -> Prop) :
  safe t w0 o Q -> (forall a w, I w -> Q a w -> Q' a w) -> safe t w0 o Q'.
Proof.
  intros Hs HQ. revert w0 Hs. induction o as [a w|c w k IH|w|r w]; intros w0; cbn; try done.
  - intros (? & ? & ?). auto.
  - intros (Hg & Hi & Hk). split; [done|]. split; [done|]. intros w' Hr Hi'.
    destruct (Hk w' Hr Hi') as [Hgo Hwait]. split; [|done]. auto.
Qed.

(** ** Pools *)

(** A suspended thread of a pool: it fits the current world. *)
Definition suspended_ok (Q : Z -> W -> Prop) (w : W) (t : Z) (o : act W unit) : Prop :=
  match o with
  | Ret _ w0 => exists w1, Rely t w1 w /\ Q t w1
  | Spin c w0 k => exists w1, Rely t w1 w /\
      forall w', Rely t w1 w' -> I w' -> (c w' = true -> safe t w' (k w') (fun _ => Q t)) /\ (c w' = false -> Blocked t c w')
  | _ => False
  end.

Definition pool_ok (Q : Z -> W -> Prop) (p : pool) : Prop :=
  I (p_world p) /\ forall t o, p_threads p !! t = Some o -> suspended_ok Q (p_world p) t o.

Lemma suspended_rely Q w w' t o : Rely t w w' -> suspended_ok Q w t o -> suspended_ok Q w' t o.
Proof.
  intros Hr. destruct o; cbn; try done.
  - intros (w1 & H1 & H2). exists w1. split; [by eapply rely_trans|done].
  - intros (w1 & H1 & H2). exists w1. split; [by eapply rely_trans|done].
Qed.

Lemma safe_suspended Q w t (o : act W unit) :
  safe t w o (fun _ => Q t) -> Guar t w (act_world o) /\ I (act_world o) /\ suspended_ok Q (act_world o) t o.
Proof.
  destruct o as [a w'|c w' k|w'|r w']; cbn; try done.
  - intros (Hg & Hi & Hq). split; [done|]. split; [done|]. exists w'. split; [apply rely_refl|done].
  - intros (Hg & Hi & Hk). split; [done|]. split; [done|]. exists w'. split; [apply rely_refl|done].
Qed.

Lemma pool_ok_run Q p p' : pool_run p p' -> pool_ok Q p -> pool_ok Q p'.
Proof.
  intros Hrun [Hi Hth]. destruct Hrun as [t c w0 k w ts Ht Hc]. cbn in *.
  destruct (Hth t _ Ht) as (w1 & Hr & Hk). destruct (Hk w Hr Hi) as [Hgo _].
  destruct (safe_suspended Q w t (k w) (Hgo Hc)) as (Hg & Hi' & Hs). split; [done|].
  intros t' o Ho. cbn in *. destruct (decide (t = t')) as [<-|Hne].
  - rewrite lookup_insert_eq in Ho. injection Ho as <-. done.
  - rewrite lookup_insert_ne in Ho by done. eapply suspended_rely; [|by apply Hth]. by eapply guar_rely.
Qed.

Lemma pool_ok_rtc Q p p' : rtc pool_run p p' -> pool_ok Q p -> pool_ok Q p'.
Proof. induction 1 as [|p1 p2 p3 H1 _ IH]; [done|]. intros Hp. apply IH. by eapply pool_ok_run. Qed.

(** In a good pool a thread is done, can run, or waits for a reason. *)
Lemma pool_ok_thread Q p t o :
  pool_ok Q p -> p_threads p !! t = Some o ->
  (finished o /\ exists w1, Rely t w1 (p_world p) /\ Q t w1) \/ (exists p', pool_run p p') \/
  (exists c w0 k, o = Spin c w0 k /\ Blocked t c (p_world p)).
Proof.
  intros [Hi Hth] Ho. specialize (Hth t o Ho). destruct o as [[] w0|c w0 k|w0|r w0]; cbn in Hth; try done.
  - left. split; [by eexists|done].
  - right. destruct Hth as (w1 & Hr & Hk). destruct (Hk _ Hr Hi) as [_ Hwait].
    destruct (c (p_world p)) eqn:Hc.
    + left. destruct p as [w ts]. eexists. by eapply (pool_run_intro t c w0 k).
    + right. exists c, w0, k. auto.
Qed.

(** ** Runs end

    A computation is a well-founded tree, and every step of the pool takes one
    thread to a subtree. *)

Definition act_sub (o' o : act W unit) : Prop := exists c w k w', o = Spin c w k /\ o' = k w'.

Lemma act_sub_wf o : Acc act_sub o.
Proof.
  induction o as [a w|c w k IH|w|r w]; constructor; intros o' (c' & w1 & k' & w' & Heq & ->); try discriminate.
  injection Heq as <- <- <-. apply IH.
Qed.

Definition threads_sub (m' m : gmap Z (act W unit)) : Prop :=
  exists t o o', m !! t = Some o /\ act_sub o' o /\ m' = <[t := o']> m.

Lemma threads_sub_insert i m o : m !! i = None -> Acc threads_sub m -> Acc act_sub o -> Acc threads_sub (<[i := o]> m).
Proof.
  intros Hi Hm. revert Hi o. induction Hm as [m _ IHm]. intros Hi o Ho. induction Ho as [o Ho' IHo].
  constructor. intros m' (t & o1 & o2 & Ht & Hsub & ->). destruct (decide (t = i)) as [->|Hne].
  - rewrite lookup_insert_eq in Ht. injection Ht as ->. rewrite insert_insert_eq. apply IHo. exact Hsub.
  - rewrite lookup_insert_ne in Ht by done. rewrite insert_insert_ne by done. apply IHm.
    + by exists t, o1, o2.
    + by rewrite lookup_insert_ne.
    + constructor. exact Ho'.
Qed.

Lemma threads_sub_wf m : Acc threads_sub m.
Proof.
  induction m as [|i o m Hi IH] using map_ind; [|apply threads_sub_insert; [exact Hi|exact IH|apply act_sub_wf]].
  constructor. intros m' (t & o & o' & Ht & _). by rewrite lookup_empty in Ht.
Qed.

(** Every run of a pool is finite. *)
Lemma pool_run_sn p : sn pool_run p.
Proof.
  destruct p as [w ts]. revert w. induction (threads_sub_wf ts) as [ts _ IH]. intros w. constructor.
  intros p' Hrun. unfold flip in Hrun. inversion Hrun as [t c w0 k w1 ts1 Ht Hc]; subst. apply IH.
  exists t, (Spin c w0 k), (k w). split; [done|]. split; [by exists c, w0, k, w|done].
Qed.
End Pool.
Arguments RelyGuarantee {W} Rely Guar.
