(* ===== verification/CxOrder.v ===== *)
(** * Constrained execution respects the happens-before order

    Threads that follow the schedules of one region: each of their operations
    is recorded in a log when it is executed, between the wait for its node and
    the step of the clock.  In every interleaving the log is consistent with
    the edges of the schedule, nothing fails, and threads get stuck only if the
    edges form a cycle. *)

From stdpp Require Import base gmap list fin_maps relations sets.
From Stdlib Require Import ZArith Lia.
From S2P Require Import Prelude PthreadTypes HbGraph CxState Schedule CxSched CxPool.

(** An operation: thread and position in its schedule. *)
Definition op : Type := Z * nat.
Definition oplog : Type := list op.

(** ** The tokens of a node *)

Lemma InputBufferFlagBit_val : InputBufferFlagBit = 32768.
Proof. reflexivity. Qed.

Lemma land_flag c : 0 <= c <= MaxCtxId -> Z.land c InputBufferFlagBit = 0.
Proof.
  change MaxCtxId with 32765. intros Hc. unfold InputBufferFlagBit. change (Z.shiftl 1 15) with (2 ^ 15).
  apply Z.bits_inj'. intros n Hn. rewrite Z.land_spec, Z.bits_0, Z.pow2_bits_eqb by lia.
  destruct (Z.eqb_spec 15 n) as [<-|]; [|apply andb_false_r].
  rewrite andb_true_r. apply Z.testbit_false; [lia|]. change (2 ^ 15) with 32768. by rewrite Z.div_small by lia.
Qed.

Lemma lor_flag c : 0 <= c <= MaxCtxId -> Z.lor c InputBufferFlagBit = c + 32768.
Proof. intros Hc. by rewrite <- Z.lxor_lor, <- Z.add_nocarry_lxor by (by apply land_flag). Qed.

Lemma flag_tests c i :
  1 <= c <= MaxCtxId ->
  let raw := if i =? 0 then c else Z.lor c InputBufferFlagBit in
  Z.ldiff raw InputBufferFlagBit = c /\ negb (Z.land raw InputBufferFlagBit =? 0) = negb (i =? 0) /\
  raw <> 0 /\ raw <> SkipHbNodeFlag /\ raw <> EndFragmentSentinal.
Proof.
  intros Hc raw. pose proof (land_flag c ltac:(lia)) as Hland.
  assert (Z.ldiff c InputBufferFlagBit = c) as Hldiff.
  { apply Z.bits_inj'. intros n Hn. rewrite Z.ldiff_spec. apply (f_equal (fun z => Z.testbit z n)) in Hland.
    rewrite Z.land_spec, Z.bits_0 in Hland. destruct (Z.testbit c n), (Z.testbit InputBufferFlagBit n); done. }
  unfold raw, SkipHbNodeFlag, EndFragmentSentinal. destruct (Z.eqb_spec i 0) as [->|Hi].
  - rewrite Hldiff, Hland. change MaxCtxId with 32765 in Hc. by repeat split; try lia.
  - assert (Z.ldiff (Z.lor c InputBufferFlagBit) InputBufferFlagBit = c) as ->.
    { apply Z.bits_inj'. intros n Hn. apply (f_equal (fun z => Z.testbit z n)) in Hldiff.
      rewrite Z.ldiff_spec, Z.lor_spec. rewrite Z.ldiff_spec in Hldiff.
      by destruct (Z.testbit c n), (Z.testbit InputBufferFlagBit n). }
    assert (Z.land (Z.lor c InputBufferFlagBit) InputBufferFlagBit = InputBufferFlagBit) as ->.
    { apply Z.bits_inj'. intros n Hn. rewrite Z.land_spec, Z.lor_spec.
      by destruct (Z.testbit c n), (Z.testbit InputBufferFlagBit n). }
    rewrite lor_flag by lia. change MaxCtxId with 32765 in Hc. by repeat split; try lia.
Qed.

(** ** Threads that follow their schedules *)

Section Order.
Context `{!Instrumented oplog}.
Abbreviation W := (cworld oplog).
Context (sch : Z -> list snode) (term : Z -> Z) (lm : list Z).

Definition edges_of (n : snode) : list (Z * Z) := match n with SSkip => [] | SNode _ _ es => es end.

(** The schedules are encodable, without skipped nodes, and an edge names a
    node of a thread of the region. *)
Definition node_good (n : snode) : Prop :=
  n <> SSkip /\ snode_ok n /\
  Forall (fun e => exists t', at_ lm e.1 = Some t' /\ 0 <= t' < KLEE_MAX_THREADS /\ e.2 <= Z.of_nat (length (sch t')))
    (edges_of n).

Definition sched_good : Prop := forall t,
  Forall node_good (sch t) /\ Z.of_nat (length (sch t)) < 4294967295 /\
  (term t = 0 \/ term t = EndFragmentSentinal) /\ (~ (0 <= t < KLEE_MAX_THREADS) -> sch t = []).

(** ** The specification: operations happen in happens-before order *)

Definition done_before (l : oplog) (t : Z) (n : Z) : Prop := forall j : nat, Z.of_nat j < n -> (t, j) ∈ l.

Definition enabled (l : oplog) (o : op) : Prop :=
  exists n, sch o.1 !! o.2 = Some n /\ done_before l o.1 (Z.of_nat o.2) /\
  Forall (fun e => exists t', at_ lm e.1 = Some t' /\ done_before l t' e.2) (edges_of n).

(** The log has the latest operation first. *)
Inductive hb_step : oplog -> oplog -> Prop :=
| hb_do l o : enabled l o -> o ∉ l -> hb_step l (o :: l).

(** ** The program of a thread

    Control flow brings the thread to the context of its next node; there it
    waits, executes the operation, and advances. *)

Definition set_ctx (t c : Z) : C W unit :=
  mod_tls t (fun l => l_set_ctx (<[l_ctxp l := callctx_table c]> (l_ctx l)) l).

Definition perform (t : Z) (i : nat) : C W unit := cx_mod (fun w => x_set_user ((t, i) :: x_user w) w).

Definition one_op (t : Z) (i : nat) (n : snode) : C W unit :=
  match n with
  | SSkip => mret tt
  | SNode c input _ =>
      set_ctx t c;;
      WaitForHbNodeMustExist t 1 false (negb (input =? 0));;
      perform t i;;
      AdvanceHbNode t
  end.

Fixpoint follow (t : Z) (i : nat) (ns : list snode) : C W unit :=
  match ns with
  | [] => mret tt
  | n :: ns => one_op t i n;; follow t (S i) ns
  end.

(** ** Invariant, rely and guarantee *)

Definition order_inv (w : W) : Prop :=
  x_lmap w = lm /\ length (x_clock w) = NTHREADS /\ rtc hb_step [] (x_user w) /\
  (forall t i, (t, i) ∈ x_user w <-> Z.of_nat i < clock_of w t) /\
  (forall t, 0 <= clock_of w t <= Z.of_nat (length (sch t))).

Definition order_rely (t : Z) (w w' : W) : Prop :=
  x_tls w' !! t = x_tls w !! t /\ clock_of w' t = clock_of w t /\ forall t', clock_of w t' <= clock_of w' t'.

Definition order_guar (t : Z) (w w' : W) : Prop :=
  clock_of w t <= clock_of w' t /\
  forall t', t' <> t -> x_tls w' !! t' = x_tls w !! t' /\ clock_of w' t' = clock_of w t'.

(** A thread waits because an edge of its next node is not satisfied. *)
Definition order_blocked (t : Z) (c : W -> bool) (w : W) : Prop :=
  exists (i : nat) n e t', clock_of w t = Z.of_nat i /\ sch t !! i = Some n /\ e ∈ edges_of n /\
  at_ lm e.1 = Some t' /\ clock_of w t' < e.2.

#[export] Instance order_rg : RelyGuarantee order_rely order_guar.
Proof.
  split.
  - intros t w. done.
  - intros t w1 w2 w3 (H1 & H2 & H3) (H4 & H5 & H6). split; [by rewrite H4|]. split; [lia|].
    intros t'. specialize (H3 t'). specialize (H6 t'). lia.
  - intros t w. split; [lia|done].
  - intros t w1 w2 w3 [H1 H2] [H3 H4]. split; [lia|]. intros t' Ht. destruct (H2 t' Ht), (H4 t' Ht). split; congruence.
  - intros t t' w1 w2 Ht [H1 H2]. destruct (H2 t' ltac:(done)) as [H3 H4]. split; [done|]. split; [done|].
    intros u. destruct (decide (u = t)) as [->|Hu]; [done|]. destruct (H2 u Hu) as [_ ->]. lia.
Qed.

(** ** Waiting for a node *)

Lemma WaitForHbNode_run t fuel l c input es rest w :
  snode_ok (SNode c input es) -> l_ctx l !! l_ctxp l = Some (callctx_table c) ->
  WaitForHbNode t (S fuel) (negb (input =? 0)) (with_ptr t l (enc_node (SNode c input es) ++ rest) w) =
  (wait_edges t (length es);; SkipNopScheduleNodes t;; mret (Some input)) (with_ptr t l (enc_edges es ++ rest) w).
Proof.
  intros (Hc & Hi & Hn & Hes) Hctx.
  destruct (flag_tests c input Hc) as (Hld & Hland & H0 & _ & Hend).
  set (raw := if input =? 0 then c else Z.lor c InputBufferFlagBit) in *.
  assert (exists tl, enc_node (SNode c input es) ++ rest = raw :: tl /\
    tl = (if input =? 0 then [] else [input]) ++ Z.of_nat (length es) :: enc_edges es ++ rest) as (tl & Htl & Htl').
  { eexists. split; [|reflexivity]. unfold enc_node, raw. by destruct (input =? 0). }
  rewrite Htl. unfold WaitForHbNode. cbn [AdvanceToNextFragmentIfComplete].
  erewrite cbind_ret; cycle 1.
  { unfold IsFragmentComplete. erewrite cbind_ret; cycle 1.
    { erewrite cbind_ret by apply peek_token_run. reflexivity. }
    rewrite (proj2 (Z.eqb_neq _ _) Hend). reflexivity. }
  erewrite cbind_ret; cycle 1.
  { unfold IsScheduleComplete. erewrite cbind_ret by apply peek_token_run. reflexivity. }
  rewrite (proj2 (Z.eqb_neq _ _) H0). erewrite cbind_ret by apply peek_token_run.
  rewrite Hld, Hland. erewrite cbind_ret; cycle 1.
  { unfold IsMyCurrentContextShortId. erewrite cbind_ret by (by apply context_run). reflexivity. }
  rewrite Z.eqb_refl, Bool.eqb_reflx. cbn [negb]. erewrite cbind_ret by apply next_token_run. subst tl.
  rewrite <- (Nat2Z.id (length es)) at 2. destruct (input =? 0) eqn:Hin.
  - apply Z.eqb_eq in Hin as ->. cbn [negb app]. erewrite cbind_ret by reflexivity.
    by erewrite cbind_ret by apply next_token_run.
  - cbn [negb app]. erewrite cbind_ret by apply next_token_run. by erewrite cbind_ret by apply next_token_run.
Qed.

Abbreviation osafe := (safe order_inv order_rely order_guar order_blocked).

Definition satisfied (w : W) (e : Z * Z) : Prop := exists t', at_ lm e.1 = Some t' /\ e.2 <= clock_of w t'.

Lemma satisfied_rely t w w' es : order_rely t w w' -> Forall (satisfied w) es -> Forall (satisfied w') es.
Proof.
  intros (_ & _ & Hle) He. eapply Forall_impl; [exact He|]. intros e (t' & Ht & Hs). exists t'. split; [done|].
  specialize (Hle t'). lia.
Qed.

Lemma order_guar_ptr t l p w : order_guar t w (with_ptr t l p w).
Proof. split; [done|]. intros t' Ht. unfold with_ptr. cbn. by rewrite lookup_insert_ne. Qed.

Lemma clock_some (w : W) t : length (x_clock w) = NTHREADS -> 0 <= t < KLEE_MAX_THREADS -> at_ (x_clock w) t = Some (clock_of w t).
Proof.
  intros Hl Ht. unfold clock_of, at_. rewrite (proj2 (Z.leb_le 0 t)) by lia.
  destruct (lookup_lt_is_Some_2 (x_clock w) (Z.to_nat t)) as [x ->]; [|done].
  rewrite Hl. unfold NTHREADS. lia.
Qed.

Lemma wait_edges_safe t l i n rest es acc w :
  order_inv w -> x_tls w !! t = Some (l_set_ptr (enc_edges es ++ rest) l) -> clock_of w t = Z.of_nat i ->
  sch t !! i = Some n -> node_good n -> es ⊆ edges_of n -> Forall (satisfied w) acc ->
  osafe t w (wait_edges t (length es) w) (fun _ w' =>
    x_tls w' !! t = Some (l_set_ptr rest l) /\ clock_of w' t = Z.of_nat i /\ Forall (satisfied w') (acc ++ es)).
Proof.
  revert acc w. induction es as [|e es IH]; intros acc w Hinv Hl Hc Hn Hg Hsub Hacc.
  { cbn. rewrite app_nil_r. split; [apply (guar_refl order_rely order_guar)|]. done. }
  rewrite <- (with_ptr_id t l _ w Hl). destruct e as [raw ts].
  assert ((raw, ts) ∈ edges_of n) as Hin by (apply Hsub; by left).
  destruct Hg as (Hskip & Hok & Hedges). pose proof (proj1 (Forall_forall _ _) Hedges _ Hin) as (t' & Ht' & Hrng & Hle).
  pose proof Hinv as (Hlm & Hlen & _). cbn [length wait_edges]. cbn [enc_edges mbind list_bind app fst snd] in *.
  erewrite cbind_ret by apply next_token_run. erewrite cbind_ret by (unfold cx_read; cbn [x_lmap with_ptr x_set_tls]; rewrite Hlm, Ht'; reflexivity).
  erewrite cbind_ret by apply next_token_run. erewrite cbind_ret by (unfold cx_read; cbn [x_clock with_ptr x_set_tls]; rewrite clock_some by done; reflexivity).
  erewrite cbind_spin by reflexivity. cbn [safe act_bind]. rewrite (with_ptr_id t l _ w Hl).
  split; [apply order_guar_ptr|]. split; [exact Hinv|]. intros w' Hr Hi'. pose proof Hr as (Htls & Hck & Hmono). split.
  - intros Hts%Z.leb_le. specialize (IH (acc ++ [(raw, ts)]) w' Hi'). rewrite <- app_assoc in IH. apply IH.
    + rewrite Htls. apply with_ptr_lookup.
    + rewrite Hck. exact Hc.
    + done.
    + by repeat split.
    + intros e He. apply Hsub. by right.
    + apply Forall_app. split; [by apply (satisfied_rely t _ _ _ Hr)|]. constructor; [|done]. by exists t'.
  - intros Hts%Z.leb_gt. exists i, n, (raw, ts), t'. repeat split; try done. rewrite Hck. exact Hc.
Qed.

(** ** Executing an operation *)

Definition stepped (t : Z) (i : nat) (w : W) : W :=
  x_set_clock (<[Z.to_nat t := Z.of_nat (S i)]> (x_clock w)) (x_set_user ((t, i) :: x_user w) w).

Lemma clock_of_stepped t i w t' :
  length (x_clock w) = NTHREADS -> 0 <= t < KLEE_MAX_THREADS ->
  clock_of (stepped t i w) t' = if decide (t' = t) then Z.of_nat (S i) else clock_of w t'.
Proof.
  intros Hl Ht. unfold clock_of, at_, stepped. cbn [x_clock x_set_clock x_set_user].
  assert (Z.to_nat t < length (x_clock w))%nat as Hlt by (rewrite Hl; unfold NTHREADS; lia).
  destruct (decide (t' = t)) as [->|Hne].
  - rewrite (proj2 (Z.leb_le 0 t)) by lia. by rewrite list_lookup_insert_eq.
  - destruct (Z.leb_spec 0 t'); [|done]. by rewrite list_lookup_insert_ne by lia.
Qed.

Lemma stepped_inv t i n w :
  sched_good -> order_inv w -> clock_of w t = Z.of_nat i -> sch t !! i = Some n -> Forall (satisfied w) (edges_of n) ->
  order_inv (stepped t i w) /\ order_guar t w (stepped t i w) /\ clock_of (stepped t i w) t = Z.of_nat (S i).
Proof.
  intros Hgood (Hlm & Hlen & Hlog & Hiff & Hrng) Hc Hn Hsat.
  assert (0 <= t < KLEE_MAX_THREADS) as Ht.
  { destruct (decide (0 <= t < KLEE_MAX_THREADS)) as [|Hno]; [done|].
    destruct (Hgood t) as (_ & _ & _ & He). rewrite (He Hno) in Hn. done. }
  pose proof (fun t' => clock_of_stepped t i w t' Hlen Ht) as Hclk. pose proof (lookup_lt_Some _ _ _ Hn) as Hlt.
  assert (forall t' k, k <= clock_of w t' -> done_before (x_user w) t' k) as Hdone.
  { intros t' k Hk j Hj. apply Hiff. lia. }
  split; [split; [done|]; split; [cbn; by rewrite length_insert|]; split; [|split]|split].
  - apply rtc_r with (x_user w); [done|]. apply hb_do.
    + exists n. split; [done|]. split; [apply Hdone; cbn; lia|]. eapply Forall_impl; [exact Hsat|].
      intros e (t' & Ht' & He). exists t'. split; [done|]. by apply Hdone.
    + intros Hin%Hiff. lia.
  - intros t' j. rewrite Hclk. cbn. rewrite elem_of_cons, Hiff. destruct (decide (t' = t)) as [->|Hne].
    + rewrite Hc. split; [intros [[=->]|]; lia|]. intros Hj. destruct (decide (j = i)) as [->|]; [by left|right; lia].
    + split; [intros [[= -> _]|]; done|by right].
  - intros t'. rewrite Hclk. destruct (decide (t' = t)) as [->|]; [lia|apply Hrng].
  - split; [rewrite Hclk, decide_True by done; lia|]. intros t' Hne. rewrite Hclk, decide_False by done. done.
  - by rewrite Hclk, decide_True.
Qed.

Lemma perform_advance_run t i w :
  length (x_clock w) = NTHREADS -> 0 <= t < KLEE_MAX_THREADS -> clock_of w t = Z.of_nat i -> Z.of_nat i < 4294967295 ->
  (perform t i;; AdvanceHbNode t) w = Spin (fun _ => true) (stepped t i w) (fun w' => Ret tt w').
Proof.
  intros Hl Ht Hc Hi. unfold perform, AdvanceHbNode. erewrite cbind_ret by reflexivity.
  erewrite cbind_ret by (unfold cx_read; cbn [x_clock x_set_user]; rewrite clock_some by done; reflexivity).
  erewrite cbind_ret by reflexivity. unfold SPIN_WAIT_UNTIL, stepped. f_equal. f_equal. rewrite Hc.
  unfold u32. rewrite Z.mod_small by lia. f_equal. lia.
Qed.

(** The thread is about to execute node [i], with [p] left of its schedule. *)
Definition at_node (t : Z) (i : nat) (p : list Z) (w : W) : Prop :=
  clock_of w t = Z.of_nat i /\
  exists l, x_tls w !! t = Some (l_set_ptr p l) /\ (l_ctxp l < length (l_ctx l))%nat.

Lemma one_op_safe t i n x rest w :
  sched_good -> order_inv w -> sch t !! i = Some n -> x <> SkipHbNodeFlag ->
  at_node t i (enc_node n ++ x :: rest) w ->
  osafe t w (one_op t i n w) (fun _ => at_node t (S i) (x :: rest)).
Proof.
  intros Hgood Hinv Hn Hx (Hc & l & Hl & Hctx).
  assert (node_good n) as Hg by (by eapply Forall_lookup_1; [apply (Hgood t)|]).
  destruct n as [|c input es]; [by destruct Hg|]. cbn [one_op].
  set (l1 := l_set_ctx (<[l_ctxp l := callctx_table c]> (l_ctx l)) l).
  set (p := enc_node (SNode c input es) ++ x :: rest) in *.
  erewrite cbind_ret; cycle 1.
  { unfold set_ctx, mod_tls. rewrite Hl. reflexivity. }
  change (x_set_tls _ w) with (with_ptr t l1 p w). set (w1 := with_ptr t l1 p w).
  eapply safe_guar; [apply order_rg|apply order_guar_ptr|]. fold w1.
  assert (order_inv w1) as Hinv1 by exact Hinv.
  unfold WaitForHbNodeMustExist. eapply safe_bind with (Q := fun _ w' =>
    at_node t i (x :: rest) w' /\ Forall (satisfied w') es); [apply order_rg| |].
  { erewrite cbind_ret by reflexivity. unfold mbind, C_bind at 1. unfold w1, p.
    rewrite WaitForHbNode_run; [|by destruct Hg as (_ & ? & _)|by apply list_lookup_insert_eq].
    eapply safe_act_bind with (Q := fun r w' => is_Some r /\ at_node t i (x :: rest) w' /\ Forall (satisfied w') es);
      [apply order_rg| |].
    - set (w2 := with_ptr t l1 (enc_edges es ++ x :: rest) w).
      assert (order_guar t w1 w2) as Hg12.
      { unfold w2. rewrite <- (with_ptr_twice t l1 p (enc_edges es ++ x :: rest) w). apply order_guar_ptr. }
      eapply safe_guar; [apply order_rg|exact Hg12|].
      eapply safe_bind; [apply order_rg| |].
      { apply (wait_edges_safe t l1 i (SNode c input es) (x :: rest) es []); try done. apply with_ptr_lookup. }
      intros _ w3 Hinv3 (Htls & Hck & Hsat). rewrite <- (with_ptr_id _ _ _ _ Htls).
      erewrite cbind_ret by (by apply skip_run). rewrite (with_ptr_id _ _ _ _ Htls). cbn.
      split; [apply (guar_refl order_rely order_guar)|]. split; [done|]. split; [done|]. split; [|done].
      split; [done|]. exists l1. split; [done|]. cbn. by rewrite length_insert.
    - intros r w3 Hinv3 ([? ->] & Hat & Hsat). cbn. split; [apply (guar_refl order_rely order_guar)|]. done. }
  intros _ w3 Hinv3 ((Hck & l3 & Htls & Hctx3) & Hsat).
  destruct (stepped_inv t i (SNode c input es) w3 Hgood Hinv3 Hck Hn Hsat) as (Hinv4 & Hguar4 & Hck4).
  destruct (Hgood t) as (_ & Hlen & _ & Hempty).
  rewrite perform_advance_run; [|apply Hinv3| |done|apply lookup_lt_Some in Hn; lia].
  - cbn. split; [done|]. split; [done|]. intros w5 (Htls5 & Hck5 & _) Hinv5. split; [|done]. intros _.
    split; [apply (guar_refl order_rely order_guar)|]. split; [done|]. split; [by rewrite Hck5|].
    exists l3. split; [by rewrite Htls5|done].
  - destruct (decide (0 <= t < KLEE_MAX_THREADS)) as [|Hno]; [done|]. rewrite (Hempty Hno) in Hn. done.
Qed.

(** ** Whole threads *)

Lemma enc_nodes_head ns (tm : Z) :
  Forall node_good ns -> tm = 0 \/ tm = EndFragmentSentinal ->
  exists x r, enc_nodes ns tm = x :: r /\ x <> SkipHbNodeFlag.
Proof.
  intros Hns Htm. unfold enc_nodes. destruct Hns as [|n ns (Hskip & Hok & _) _].
  { exists tm, []. split; [done|]. by destruct Htm as [-> | ->]. }
  destruct n as [|c i es]; [done|]. destruct Hok as (Hc & _). destruct (flag_tests c i Hc) as (_ & _ & _ & Hf & _).
  cbn. destruct (i =? 0); cbn; by do 2 eexists.
Qed.

Definition done_with (t : Z) (w : W) : Prop := clock_of w t = Z.of_nat (length (sch t)).

Lemma follow_safe t i ns w :
  sched_good -> order_inv w -> drop i (sch t) = ns -> (i <= length (sch t))%nat -> at_node t i (enc_nodes ns (term t)) w ->
  osafe t w (follow t i ns w) (fun _ => done_with t).
Proof.
  intros Hgood. revert i w. induction ns as [|n ns IH]; intros i w Hinv Hd Hi Hat.
  { cbn. split; [apply (guar_refl order_rely order_guar)|]. split; [done|]. unfold done_with. rewrite (proj1 Hat).
    apply (f_equal length) in Hd. rewrite length_drop in Hd. cbn in Hd. lia. }
  assert (sch t !! i = Some n) as Hn by (rewrite <- (Nat.add_0_r i), <- lookup_drop, Hd; done).
  assert (drop (S i) (sch t) = ns) as Hd' by (by rewrite <- Nat.add_1_r, <- drop_drop, Hd).
  destruct (Hgood t) as (Hns & _ & Htm & _).
  destruct (enc_nodes_head ns (term t)) as (x & r & Hx & Hne); [rewrite <- Hd'; by apply Forall_drop|done|].
  cbn [follow]. eapply safe_bind; [apply order_rg|apply (one_op_safe t i n x r)|]; try done.
  - unfold enc_nodes in Hat, Hx. cbn in Hat. by rewrite <- app_assoc, Hx in Hat.
  - intros ? w' Hinv' Hat'. rewrite <- Hx in Hat'. apply IH; [done|done|apply lookup_lt_Some in Hn; lia|done].
Qed.

(** ** The threads of a region *)

Definition start_thread (w0 : W) (t : Z) : act W unit := Spin (fun _ => true) w0 (follow t 0 (sch t)).

Definition start_pool (w : W) : pool :=
  Pool w (spawn NTHREADS (start_thread w)).

Definition region_start (w : W) : Prop :=
  x_lmap w = lm /\ x_clock w = replicate NTHREADS 0 /\ x_user w = [] /\
  forall t, 0 <= t < KLEE_MAX_THREADS ->
    exists l, x_tls w !! t = Some l /\ l_ptr l = enc_nodes (sch t) (term t) /\ (l_ctxp l < length (l_ctx l))%nat.

Lemma start_pool_lookup w t :
  p_threads (start_pool w) !! t = if decide (0 <= t < KLEE_MAX_THREADS) then Some (start_thread w t) else None.
Proof. apply spawn_lookup. Qed.

Lemma clock_zero (w : W) t : x_clock w = replicate NTHREADS 0 -> clock_of w t = 0.
Proof.
  intros H. unfold clock_of, at_. rewrite H. destruct (0 <=? t); [|done].
  destruct (replicate NTHREADS 0 !! Z.to_nat t) eqn:Hl; [|done]. by apply lookup_replicate in Hl as [-> _].
Qed.

Abbreviation opool_ok := (pool_ok order_inv order_rely order_guar order_blocked done_with).

Lemma start_pool_ok w : sched_good -> region_start w -> opool_ok (start_pool w).
Proof.
  intros Hgood (Hlm & Hclk & Hlog & Htls). pose proof (fun t => clock_zero w t Hclk) as H0. split; cbn [p_world start_pool].
  { split; [done|]. rewrite Hclk, Hlog. split; [apply length_replicate|]. split; [done|].
    split; [|intros t; rewrite H0; lia]. intros t i. rewrite H0, elem_of_nil. lia. }
  intros t o Ho. rewrite start_pool_lookup in Ho. case_decide as Ht; [|done]. injection Ho as <-.
  cbn. exists w. split; [apply (rely_refl order_rely order_guar)|]. intros w' (Heq & Hck & _) Hinv. split; [|done]. intros _.
  destruct (Htls t Ht) as (l & Hl & Hp & Hctx). apply follow_safe; [done..|lia|]. split; [by rewrite Hck, H0|].
  exists l. rewrite Heq, Hl, <- Hp. split; [by destruct l|done].
Qed.

Lemma reachable_ok w p : sched_good -> region_start w -> rtc pool_run (start_pool w) p -> opool_ok p.
Proof. intros Hg Hs Hr. eapply (pool_ok_rtc _ _ _ _ _ _ _ Hr). by apply start_pool_ok. Qed.

(** C3: constrained execution refines the happens-before order.  Let the threads
    of a region follow encoded schedules of less than [2 ^ 32 - 1] nodes without skipped nodes whose edges name
    threads of the logical thread map, in any
    interleaving at the runtime's waiting points.  Then the log of their
    operations is always one that the order allows: an operation happens only
    after the earlier operations of its thread and after every operation that an
    edge of its node asks for, and it happens once.  No thread stops: no
    assertion fails and no schedule is read past its end.  (A skipped node can
    let others pass too early, see [skip_releases_early].) *)
Theorem schedule_refines_hb (w : W) (p : pool) :
  sched_good -> region_start w -> rtc pool_run (start_pool w) p ->
  rtc hb_step [] (x_user (p_world p)) /\
  forall t o, p_threads p !! t = Some o -> finished o \/ exists c w0 k, o = Spin c w0 k.
Proof.
  intros Hgood Hstart Hrun. pose proof (reachable_ok w p Hgood Hstart Hrun) as [Hinv Hth].
  split; [apply Hinv|]. intros t o Ho. specialize (Hth t o Ho).
  destruct o as [[] w0|c w0 k|w0|r w0]; try done; [left; by eexists|right; by do 3 eexists].
Qed.

(** ** Progress *)

(** The edges are acyclic: some ranking of the operations decreases along them. *)
Definition acyclic (rank : op -> nat) : Prop :=
  forall t i n e t', sch t !! i = Some n -> e ∈ edges_of n -> at_ lm e.1 = Some t' ->
    forall j : nat, Z.of_nat j < e.2 -> (rank (t', j) < rank (t, i))%nat.

Lemma reachable_dom w p t :
  rtc pool_run (start_pool w) p -> is_Some (p_threads p !! t) <-> 0 <= t < KLEE_MAX_THREADS.
Proof.
  intros Hrun. rewrite (pool_run_dom _ _ t Hrun), start_pool_lookup.
  case_decide; [done|]. split; [by intros [? [=]]|done].
Qed.

(** A thread that is not done leads, along the edges, to one that can run. *)
Lemma unfinished_runs rank w p :
  sched_good -> acyclic rank -> region_start w -> rtc pool_run (start_pool w) p ->
  forall n t, (rank (t, Z.to_nat (clock_of (p_world p) t)) < n)%nat -> 0 <= t < KLEE_MAX_THREADS ->
  clock_of (p_world p) t < Z.of_nat (length (sch t)) -> exists p', pool_run p p'.
Proof.
  intros Hgood Hac Hstart Hrun. pose proof (reachable_ok w p Hgood Hstart Hrun) as Hok.
  induction n as [|n IH]; [lia|]. intros t Hrank Ht Hlt.
  destruct (proj2 (reachable_dom w p t Hrun) Ht) as [o Ho].
  destruct (pool_ok_thread _ _ _ _ _ _ _ _ Hok Ho) as [[_ (w1 & Hr & Hdone)]|[Hp|(c & w0 & k & -> & Hb)]]; [|done|].
  { unfold done_with in Hdone. destruct Hr as (_ & Hck & _). lia. }
  destruct Hb as (i & nd & e & t' & Hi & Hnd & He & Hlm & Hwait). rewrite Hi, Nat2Z.id in Hrank.
  assert (node_good nd) as (_ & _ & Hedges) by (by eapply Forall_lookup_1; [apply (Hgood t)|]).
  destruct (proj1 (Forall_forall _ _) Hedges e He) as (t'' & Hlm' & Hrng & Hle). rewrite Hlm in Hlm'. injection Hlm' as <-.
  destruct Hok as [(_ & _ & _ & _ & Hck) _]. specialize (Hck t').
  apply (IH t'); [|done|lia]. specialize (Hac t i nd e t' Hnd He Hlm (Z.to_nat (clock_of (p_world p) t'))).
  lia.
Qed.

Lemma completes rank w p :
  sched_good -> acyclic rank -> region_start w -> rtc pool_run (start_pool w) p -> nf pool_run p ->
  (forall t o, p_threads p !! t = Some o -> finished o) /\
  forall t i, (i < length (sch t))%nat -> (t, i) ∈ x_user (p_world p).
Proof.
  intros Hgood Hac Hstart Hrun Hnf.
  pose proof (reachable_ok w p Hgood Hstart Hrun) as Hok.
  assert (forall t, 0 <= t < KLEE_MAX_THREADS -> Z.of_nat (length (sch t)) <= clock_of (p_world p) t) as Hall.
  { intros t Ht. destruct (Z.le_gt_cases (Z.of_nat (length (sch t))) (clock_of (p_world p) t)) as [|Hlt]; [done|].
    destruct Hnf. by eapply (unfinished_runs rank w p Hgood Hac Hstart Hrun _ t (Nat.lt_succ_diag_r _)). }
  split.
  - intros t o Ho. destruct (pool_ok_thread _ _ _ _ _ _ _ _ Hok Ho) as [[Hf _]|[Hp|(c & w0 & k & -> & Hb)]]; [done|by destruct Hnf|].
    destruct Hb as (i & nd & e & t' & Hi & Hnd & _). apply lookup_lt_Some in Hnd.
    specialize (Hall t ltac:(by eapply (reachable_dom w p t Hrun))). lia.
  - intros t i Hi. destruct Hok as [(_ & _ & _ & Hiff & _) _]. apply Hiff.
    destruct (decide (0 <= t < KLEE_MAX_THREADS)) as [Ht|Ht]; [specialize (Hall t Ht); lia|].
    destruct (Hgood t) as (_ & _ & _ & He). rewrite (He Ht) in Hi. cbn in Hi. lia.
Qed.
(** Constrained execution completes.  If the edges are acyclic, there is no infinite interleaving, and one that cannot go on has
    executed every operation of every schedule. *)
Theorem schedule_completes (rank : op -> nat) (w : W) :
  sched_good -> acyclic rank -> region_start w ->
  sn pool_run (start_pool w) /\
  forall p, rtc pool_run (start_pool w) p -> nf pool_run p ->
    (forall t o, p_threads p !! t = Some o -> finished o) /\
    forall t i, (i < length (sch t))%nat -> (t, i) ∈ x_user (p_world p).
Proof. intros Hgood Hac Hstart. split; [apply pool_run_sn|]. intros p. by apply (completes rank). Qed.
End Order.

(** ** Examples *)

Definition demo_schedule (rows : list (list snode)) (t : Z) : list snode := default [] (at_ rows t).

#[export] Instance demo_instrumented : Instrumented oplog := {
  callctx_table c := 100 + c;
  regionctx_table := [];
  schedule_selectors _ _ := Sched 0 0 0 true [];
  snapshot_functions _ _ w := w;
  qsort l := l;
  schedule_fragment_1 := Sched 0 0 0 true []
}.

Definition identity_map : list Z := Z.of_nat <$> seq 0 NTHREADS.

Definition demo_tls (rows : list (list snode)) (t : Z) : tls :=
  Tls false 0 (replicate MAX_CONTEXT 0) 0 (enc_nodes (demo_schedule rows t) 0) false.

Definition demo_world (rows : list (list snode)) : cworld oplog :=
  CW [] 0 (replicate NTHREADS 0) [] identity_map 2 2 0 1 1 ∅ ∅ ∅
     (spawn NTHREADS (demo_tls rows))
     [] 2 ∅ ∅ ∅ ∅ ∅ ∅ 0 [] [].

Lemma demo_start rows (Hrows : (length rows <= NTHREADS)%nat) :
  region_start (demo_schedule rows) (fun _ => 0) identity_map (demo_world rows).
Proof.
  repeat split. intros t Ht. exists (demo_tls rows t). split; [|split; [done|]].
  - cbn [demo_world x_tls]. rewrite spawn_lookup, decide_True; [done|]. unfold NTHREADS. lia.
  - apply Nat.ltb_lt. reflexivity.
Qed.

(** Thread 1 waits for the first operation of thread 0, which waits for it before
    its second. *)
Definition demo_rows : list (list snode) := [[SNode 1 0 []; SNode 2 7 [(1, 1)]]; [SNode 3 0 [(0, 1)]]].

Lemma demo_schedule_row rows t : demo_schedule rows t <> [] -> exists k : nat, t = Z.of_nat k /\ (k < length rows)%nat.
Proof.
  unfold demo_schedule, at_. destruct (Z.leb_spec 0 t); [|done]. destruct (rows !! Z.to_nat t) eqn:Hr; [|done].
  intros _. exists (Z.to_nat t). apply lookup_lt_Some in Hr. lia.
Qed.

Lemma demo_cases t : t = 0 \/ t = 1 \/ demo_schedule demo_rows t = [].
Proof.
  destruct (demo_schedule demo_rows t) eqn:E; [by right; right|].
  destruct (demo_schedule_row demo_rows t) as (k & -> & Hk); [by rewrite E|]. cbn in Hk.
  destruct k as [|[|k]]; [by left|by right; left|lia].
Qed.

Lemma demo_node c i es :
  1 <= c <= 100 -> 0 <= i <= 100 ->
  match es with [] => True | [(t, ts)] => (t = 0 \/ t = 1) /\ ts = 1 | _ => False end ->
  node_good (demo_schedule demo_rows) identity_map (SNode c i es).
Proof.
  intros Hc Hi Hes. split; [done|]. unfold snode_ok, tok. change MaxCtxId with 32765.
  destruct es as [|[t ts] [|? ?]]; [|destruct Hes as [Ht ->]|done].
  - split; [|constructor]. split; [lia|]. split; [lia|]. split; [cbn; lia|constructor].
  - split; [split; [lia|]; split; [lia|]; split; [cbn; lia|]; apply Forall_singleton; unfold tok; cbn; lia|]. apply Forall_singleton.
    exists t. cbn [fst snd]. unfold KLEE_MAX_THREADS. destruct Ht as [-> | ->]; (split; [done|]; split; [lia|]);
      vm_compute; discriminate.
Qed.

Lemma demo_good : sched_good (demo_schedule demo_rows) (fun _ => 0) identity_map.
Proof.
  intros t. split; [|split; [|split; [by left|]]].
  - destruct (demo_cases t) as [-> |[-> | ->]]; [| |done]; repeat (apply Forall_cons; split || apply Forall_nil_2);
      try (apply demo_node; cbn; auto; lia); done.
  - destruct (demo_cases t) as [-> |[-> | ->]]; vm_compute; reflexivity.
  - intros Ht. destruct (demo_cases t) as [-> |[-> | ->]]; [unfold KLEE_MAX_THREADS in Ht; lia..|done].
Qed.

Lemma run_log ts (p : pool) (l : oplog) :
  (fun p' : pool => x_user (p_world p')) <$> run_all ts p = Some l ->
  exists p', rtc pool_run p p' /\ x_user (p_world p') = l.
Proof. intros (p' & Hr & ->)%fmap_Some. exists p'. split; [by eapply run_all_sound|done]. Qed.

Definition demo_run : list Z := [1; 0; 1; 0; 0; 1; 0].

Lemma schedule_refines_hb_witness :
  exists p, rtc pool_run (start_pool (demo_schedule demo_rows) (demo_world demo_rows)) p /\
    x_user (p_world p) = [(0, 1%nat); (1, 0%nat); (0, 0%nat)] /\
    rtc (hb_step (demo_schedule demo_rows) identity_map) [] (x_user (p_world p)).
Proof.
  destruct (run_log demo_run (start_pool (demo_schedule demo_rows) (demo_world demo_rows))
    [(0, 1%nat); (1, 0%nat); (0, 0%nat)]) as (p & Hrun & Hlog); [vm_compute; reflexivity|].
  exists p. split; [exact Hrun|]. split; [exact Hlog|].
  apply (schedule_refines_hb (demo_schedule demo_rows) (fun _ => 0) identity_map (demo_world demo_rows) p).
  - apply demo_good.
  - apply demo_start. apply Nat.leb_le. reflexivity.
  - exact Hrun.
Defined.

Definition demo_rank (o : op) : nat := if decide (o.1 = 0) then 2 * o.2 else 1.

Lemma demo_acyclic : acyclic (demo_schedule demo_rows) identity_map demo_rank.
Proof.
  intros t i n e t' Hn He Hl j Hj. destruct (demo_cases t) as [-> |[-> |Hemp]]; [| |by rewrite Hemp in Hn].
  - destruct i as [|[|i]]; cbn in Hn; [|injection Hn as <-|done]; [injection Hn as <-; cbn in He; by apply elem_of_nil in He|].
    cbn in He. apply list_elem_of_singleton in He as ->. cbn in Hl, Hj. injection Hl as <-.
    assert (j = 0%nat) as -> by lia. apply Nat.ltb_lt. reflexivity.
  - destruct i as [|i]; cbn in Hn; [injection Hn as <-|done].
    cbn in He. apply list_elem_of_singleton in He as ->. cbn in Hl, Hj. injection Hl as <-.
    assert (j = 0%nat) as -> by lia. apply Nat.ltb_lt. reflexivity.
Qed.

Lemma schedule_completes_witness :
  sn pool_run (start_pool (demo_schedule demo_rows) (demo_world demo_rows)) /\
  forall p, rtc pool_run (start_pool (demo_schedule demo_rows) (demo_world demo_rows)) p -> nf pool_run p ->
    (0, 1%nat) ∈ x_user (p_world p).
Proof.
  destruct (schedule_completes (demo_schedule demo_rows) (fun _ => 0) identity_map demo_rank (demo_world demo_rows)) as [Hsn Hall].
  - apply demo_good.
  - apply demo_acyclic.
  - apply demo_start. apply Nat.leb_le. reflexivity.
  - split; [exact Hsn|]. intros p Hr Hn. apply (proj2 (Hall p Hr Hn)). apply Nat.ltb_lt. reflexivity.
Defined.

(** ** Skipped nodes *)

Definition skip_rows : list (list snode) := [[SNode 1 0 []; SSkip]; [SNode 2 0 [(0, 1)]]].

Lemma hb_step_inv sch lm o l : rtc (hb_step sch lm) [] (o :: l) -> enabled sch lm l o.
Proof.
  intros H. apply rtc_inv_r in H as [[=]|(l' & _ & Hstep)]. by inversion Hstep; subst.
Qed.

Lemma hb_step_tail sch lm o l : rtc (hb_step sch lm) [] (o :: l) -> rtc (hb_step sch lm) [] l.
Proof. intros H. apply rtc_inv_r in H as [[=]|(l' & Hr & Hstep)]. by inversion Hstep; subst. Qed.

(** C36: skipped nodes break the order.  When a node is followed by a skipped
    one, [WaitForHbNode] counts the skipped node before the operation of the
    node itself is executed: here thread 1, which must wait for the first
    operation of thread 0, executes its own operation before it. *)
Theorem skip_releases_early :
  exists p, rtc pool_run (start_pool (demo_schedule skip_rows) (demo_world skip_rows)) p /\
    x_user (p_world p) = [(0, 0%nat); (1, 0%nat)] /\
    ~ rtc (hb_step (demo_schedule skip_rows) identity_map) [] (x_user (p_world p)).
Proof.
  destruct (run_log [0; 1; 1; 0] (start_pool (demo_schedule skip_rows) (demo_world skip_rows))
    [(0, 0%nat); (1, 0%nat)]) as (p & Hrun & Hlog); [vm_compute; reflexivity|].
  exists p. split; [exact Hrun|]. split; [exact Hlog|]. rewrite Hlog.
  intros H%hb_step_tail%hb_step_inv. destruct H as (n & Hn & _ & He). injection Hn as <-.
  apply Forall_cons in He as ((t' & [= <-] & Hd) & _). specialize (Hd O ltac:(cbn; lia)). by apply elem_of_nil in Hd.
Qed.
