(* ===== verification/GraphRun.v ===== *)
(** * From the happens-before graph to its execution

    A graph is written as a schedule fragment ([Instrumentor.cpp]) and executed
    by the constrained runtime ([ConstrainedExec/lib.cpp]): the operations of the
    threads happen in an order that the graph allows, and all of them happen. *)

From stdpp Require Import base gmap list fin_maps relations sets.
From Stdlib Require Import ZArith Lia.
From S2P Require Import Prelude PthreadTypes HbGraph CxState Schedule CxSched CxPool CxOrder.

(** ** Positions in a filtered list *)

Section Filter.
Context {A : Type} (P : A -> Prop) `{!forall x, Decision (P x)}.

Lemma lookup_filter_rank (l : list A) k x :
  l !! k = Some x -> P x -> filter P l !! length (filter P (take k l)) = Some x.
Proof.
  intros Hk Hx. assert (filter P l = filter P (take k l) ++ x :: filter P (drop (S k) l)) as ->.
  { by rewrite <- filter_cons_True, <- filter_app, take_drop_middle. }
  by rewrite lookup_app_r, Nat.sub_diag by done.
Qed.

Lemma filter_lookup_pos (l : list A) i x :
  filter P l !! i = Some x -> exists k, l !! k = Some x /\ P x /\ length (filter P (take k l)) = i.
Proof.
  revert i. induction l as [|y l IH]; intros i Hi; [done|]. destruct (decide (P y)) as [Hy|Hy].
  - rewrite filter_cons_True in Hi by done. destruct i as [|i]; cbn in Hi.
    + injection Hi as ->. by exists O.
    + destruct (IH i Hi) as (k & Hk & Hx & Hl). exists (S k). cbn [take]. rewrite filter_cons_True by done. cbn. auto.
  - rewrite filter_cons_False in Hi by done. destruct (IH i Hi) as (k & Hk & Hx & Hl). exists (S k). cbn [take].
    by rewrite filter_cons_False.
Qed.
End Filter.

Lemma count_places t ns : count t (places ns) = length (filter (fun n => tuid n = t) ns).
Proof.
  unfold count, places. induction ns as [|n ns IH]; [done|]. rewrite fmap_cons.
  destruct (decide (tuid n = t)) as [H|H]; [rewrite !filter_cons_True by done; cbn; auto|by rewrite !filter_cons_False].
Qed.

Lemma orders_ok_lookup ns k n :
  orders_ok (places ns) -> ns !! k = Some n ->
  threadOrder n = Z.of_nat (S (length (filter (fun m => tuid m = tuid n) (take k ns)))).
Proof.
  intros Ho Hk. specialize (Ho k (threadOrder n, tuid n)). cbn in Ho. rewrite Ho.
  - unfold places. by rewrite <- fmap_take, count_places.
  - unfold places. by rewrite list_lookup_fmap, Hk.
Qed.

(** What [cross_edges] returns: one edge per predecessor of another thread. *)
Lemma cross_edges_inv ns n preds es :
  cross_edges ns n preds = Some es ->
  (forall e, e ∈ es -> exists p a, p ∈ preds /\ node_at ns p = Some a /\ e = (tid (tuid a), threadOrder a)) /\
  (forall p, p ∈ preds -> exists a, node_at ns p = Some a /\
    ((tuid a = tuid n /\ threadOrder a < threadOrder n) \/ (tid (tuid a), threadOrder a) ∈ es)).
Proof.
  revert es. induction preds as [|p preds IH]; intros es; cbn [cross_edges].
  { intros [= <-]. split; intros ? H%elem_of_nil; done. }
  intros (a & Ha & H)%bind_Some. case_bool_decide as Heq.
  - apply bind_Some in H as (u & Hlt%require_Some%Z.ltb_lt & [H1 H2]%IH). split.
    + intros e (q & b & Hq & Hb)%H1. exists q, b. split; [by right|done].
    + intros q [-> |Hq]%elem_of_cons; [exists a; auto|by apply H2].
  - apply bind_Some in H as (es' & [H1 H2]%IH & [= <-]). split.
    + intros e [-> |He]%elem_of_cons; [exists p, a; split; [by left|done]|].
      destruct (H1 e He) as (q & b & Hq & Hb). exists q, b. split; [by right|done].
    + intros q [-> |Hq]%elem_of_cons; [exists a; split; [done|]; right; by left|].
      destruct (H2 q Hq) as (b & Hb & [Hs|Hs]); exists b; split; [done|by left|done|right; by right].
Qed.

Section GraphRun.
Context (short_id : Z -> option Z) (used : Z -> bool) (frag : ScheduleFragment) `{!Instrumented oplog}.
Abbreviation ns := (sf_graph frag).

(** The whole graph is one fragment, without dynamic inputs; it is well-formed,
    and its threads belong to the program. *)
Record plain_graph : Prop := {
  pg_range : sf_first frag = 1 /\ sf_last frag = Z.of_nat (length ns);
  pg_inputs : Forall (fun n => inputObj n = None) ns;
  pg_threads : Forall (fun n => 0 <= tid (tuid n) < KLEE_MAX_THREADS) ns;
  pg_orders : orders_ok (places ns);
  pg_preds : preds_ok ns;
  pg_ids c i : short_id c = Some i -> 1 <= i;
  pg_inputIds o i : sf_inputIds frag !! o = Some i -> 1 <= i;
  pg_len : Z.of_nat (length ns) < 4294967295
}.

(** The operation of a node: its thread and position there. *)
Definition op_of (n : HBNode) : op := (tid (tuid n), Z.to_nat (threadOrder n - 1)).

Definition graph_sched (t : Z) : list snode :=
  default [] (mapM (node_meaning short_id used frag true) (thread_nodes frag (Tuid t 2))).

(** The runtime at the start of the region: the schedule is installed, a thread
    without schedule is at the end of an empty one. *)
Definition installed (sched : HBSchedule) (w : cworld oplog) : Prop :=
  x_lmap w = identity_map /\ x_clock w = replicate NTHREADS 0 /\ x_user w = [] /\
  forall t, 0 <= t < KLEE_MAX_THREADS ->
    exists l, x_tls w !! t = Some l /\ l_ptr l = default [0] (at_ (h_threadSchedules sched) t) /\
      (l_ctxp l < length (l_ctx l))%nat.

Context (Hpg : plain_graph) (sched : HBSchedule) (Hdump : DumpScheduleFragment short_id used frag = Some sched).

Lemma thread_nodes_all t : thread_nodes frag t = filter (fun n => tuid n = t) ns.
Proof.
  unfold thread_nodes. destruct Hpg as [[-> ->] _ _ _ _ _ _ _]. cbn. rewrite Nat2Z.id, Nat.sub_0_r.
  by rewrite drop_0, firstn_all.
Qed.

Lemma dump_rows :
  Forall (fun n => pid (tuid n) = 2) ns /\
  forall t, 0 <= t <= maxThread ns -> exists toks,
    at_ (h_threadSchedules sched) t = Some toks /\ DumpThreadSchedule short_id used frag (Tuid t 2) = Some toks.
Proof.
  unfold DumpScheduleFragment in Hdump.
  apply bind_Some in Hdump as (u1 & _ & (ln & _ & (u2 & _ & (u3 & Hpid%require_Some & (rows & Hrows & [= <-])%bind_Some)
    %bind_Some)%bind_Some)%bind_Some).
  split.
  - apply Forall_forall. intros n Hn. apply list_elem_of_In in Hn. by apply Z.eqb_eq, (proj1 (forallb_forall _ _) Hpid).
  - intros t Ht. cbn. apply mapM_Some in Hrows. assert (seq 0 (Z.to_nat (maxThread ns + 1)) !! Z.to_nat t = Some (Z.to_nat t)) as Hs.
    { apply lookup_seq. lia. }
    destruct (Forall2_lookup_l _ _ _ _ _ Hrows Hs) as (toks & Hl & Hd). rewrite Z2Nat.id in Hd by lia.
    exists toks. unfold at_. rewrite (proj2 (Z.leb_le 0 t)) by lia. done.
Qed.

Lemma maxThread_le n : n ∈ ns -> tid (tuid n) <= maxThread ns.
Proof.
  generalize ns as l. induction l as [|m l IH]; intros Hin; [by apply elem_of_nil in Hin|].
  change (maxThread (m :: l)) with (Z.max (tid (tuid m)) (maxThread l)).
  apply elem_of_cons in Hin as [-> |Hin]; [lia|]. specialize (IH Hin). lia.
Qed.

Lemma maxThread_nonneg : 0 <= maxThread ns.
Proof.
  generalize ns as l. induction l as [|m l IH]; [done|].
  change (maxThread (m :: l)) with (Z.max (tid (tuid m)) (maxThread l)). lia.
Qed.

(** Every thread's schedule is the encoding of its nodes. *)
Lemma graph_sched_spec t :
  exists ms, mapM (node_meaning short_id used frag true) (filter (fun n => tuid n = Tuid t 2) ns) = Some ms /\
    graph_sched t = ms /\ Forall snode_ok ms /\
    (0 <= t -> default [0] (at_ (h_threadSchedules sched) t) = enc_nodes ms 0).
Proof.
  pose proof maxThread_nonneg as Hmx. unfold graph_sched. rewrite thread_nodes_all. destruct dump_rows as [Hpid Hrows].
  destruct (decide (0 <= t <= maxThread ns)) as [Ht|Ht].
  - destruct (Hrows t Ht) as (toks & -> & Hd). destruct Hpg as [[H1 H2] Hin Hth Ho Hp Hids Hii _].
    apply DumpThreadSchedule_enc in Hd as (ms & Hms & -> & Hok); [| |done|lia|lia].
    + rewrite thread_nodes_all in Hms. rewrite H2, Z.eqb_refl in *. exists ms. by rewrite Hms.
    + split; [done|]. apply Forall_lookup_2. intros k n Hk. split; [by apply (Forall_lookup_1 _ _ _ _ Hth) in Hk; lia|].
      rewrite (orders_ok_lookup ns k n Ho Hk). lia.
  - assert (filter (fun n => tuid n = Tuid t 2) ns = []) as ->.
    { apply filter_other, Forall_forall. intros n Hn Heq. pose proof (maxThread_le n Hn) as Hle.
      apply (proj1 (Forall_forall _ _) (pg_threads Hpg)) in Hn. rewrite Heq in *. cbn in *. lia. }
    exists []. repeat split; [constructor|]. intros H0. unfold at_. rewrite (proj2 (Z.leb_le 0 t)) by lia.
    unfold DumpScheduleFragment in Hdump.
    apply bind_Some in Hdump as (u1 & _ & (ln & _ & (u2 & _ & (u3 & _ & (rows & Hr & [= <-])%bind_Some)
      %bind_Some)%bind_Some)%bind_Some). cbn. apply mapM_Some, Forall2_length in Hr. rewrite length_seq in Hr.
    rewrite lookup_ge_None_2 by lia. done.
Qed.

Lemma node_uid n : n ∈ ns -> tuid n = Tuid (tid (tuid n)) 2.
Proof.
  intros Hn. destruct dump_rows as [Hpid _]. apply (proj1 (Forall_forall _ _) Hpid) in Hn.
  destruct (tuid n). cbn in *. by subst.
Qed.

Lemma meaning_inv n m :
  n ∈ ns -> node_meaning short_id used frag true n = Some m ->
  exists c es, m = SNode c 0 es /\ cross_edges ns n (incoming n) = Some es.
Proof.
  intros Hn. unfold node_meaning. apply (proj1 (Forall_forall _ _) (pg_inputs Hpg)) in Hn. rewrite Hn.
  intros (c & _ & (es & Hes & [= <-])%bind_Some)%bind_Some. by exists c, es.
Qed.

(** Positions of a schedule are nodes of the graph, and conversely. *)
Lemma sched_lookup t i m :
  graph_sched t !! i = Some m -> exists k n, ns !! k = Some n /\ tuid n = Tuid t 2 /\
    threadOrder n = Z.of_nat (S i) /\ node_meaning short_id used frag true n = Some m.
Proof.
  destruct (graph_sched_spec t) as (ms & Hms & -> & _). intros Hi. apply mapM_Some in Hms.
  destruct (Forall2_lookup_r _ _ _ _ _ Hms Hi) as (n & Hn & Hm).
  apply filter_lookup_pos in Hn as (k & Hk & Ht & Hl). exists k, n. split; [done|]. split; [done|]. split; [|done].
  rewrite (orders_ok_lookup ns k n (pg_orders Hpg) Hk), Ht, Hl. done.
Qed.

Lemma node_scheduled k n :
  ns !! k = Some n -> 1 <= threadOrder n /\ exists m,
    graph_sched (op_of n).1 !! (op_of n).2 = Some m /\ node_meaning short_id used frag true n = Some m.
Proof.
  intros Hk. pose proof (orders_ok_lookup ns k n (pg_orders Hpg) Hk) as Ho. split; [lia|]. unfold op_of. cbn [fst snd].
  destruct (graph_sched_spec (tid (tuid n))) as (ms & Hms & -> & _). apply mapM_Some in Hms.
  pose proof (node_uid n (list_elem_of_lookup_2 _ _ _ Hk)) as Hu. rewrite <- Hu in Hms.
  pose proof (lookup_filter_rank (fun m => tuid m = tuid n) ns k n Hk eq_refl) as Hf.
  destruct (Forall2_lookup_l _ _ _ _ _ Hms Hf) as (m & Hm & Hmean). exists m. split; [|done].
  rewrite Ho. by replace (Z.to_nat _) with (length (filter (fun m => tuid m = tuid n) (take k ns))) by lia.
Qed.

Lemma identity_map_at t : 0 <= t < KLEE_MAX_THREADS -> at_ identity_map t = Some t.
Proof.
  intros Ht. unfold at_, identity_map. rewrite (proj2 (Z.leb_le 0 t)), list_lookup_fmap by lia.
  rewrite (proj2 (lookup_seq 0 NTHREADS (Z.to_nat t) (Z.to_nat t))) by (unfold NTHREADS; lia). cbn. f_equal. lia.
Qed.

Lemma edge_target p a : node_at ns p = Some a ->
  exists k, ns !! k = Some a /\ p = Z.of_nat (S k) /\ 0 <= tid (tuid a) < KLEE_MAX_THREADS.
Proof.
  intros [Ha Hp]%node_at_inv. exists (Z.to_nat (p - 1)). split; [done|]. split; [lia|].
  apply (Forall_lookup_1 _ _ _ _ (pg_threads Hpg) Ha).
Qed.

Lemma graph_sched_good : sched_good graph_sched (fun _ => 0) identity_map.
Proof.
  intros t. split; [|split; [|split; [by left|]]].
  - apply Forall_lookup_2. intros i m Hi. destruct (sched_lookup t i m Hi) as (k & n & Hk & Ht & Ho & Hm).
    apply meaning_inv in Hm as (c & es & -> & Hes); [|by eapply list_elem_of_lookup_2]. split; [done|].
    destruct (graph_sched_spec t) as (ms & _ & Hms & Hok & _). rewrite Hms in Hi.
    split; [by apply (Forall_lookup_1 _ _ _ _ Hok Hi)|]. apply Forall_forall. intros e He.
    destruct (proj1 (cross_edges_inv _ _ _ _ Hes) e He) as (p & a & _ & (k' & Hk' & _ & Hr)%edge_target & ->).
    cbn [fst snd]. exists (tid (tuid a)). split; [by apply identity_map_at|]. split; [done|].
    destruct (node_scheduled k' a Hk') as (H1 & m & Hl%lookup_lt_Some & _). unfold op_of in Hl. cbn in Hl. lia.
  - destruct (graph_sched_spec t) as (ms & Hms & -> & _). apply mapM_Some, Forall2_length in Hms. rewrite <- Hms.
    pose proof (length_filter (fun n => tuid n = Tuid t 2) ns). pose proof (pg_len Hpg). lia.
  - intros Ht. destruct (graph_sched t) as [|m r] eqn:Hs; [done|].
    destruct (sched_lookup t 0 m) as (k & n & Hk & Hu & _); [by rewrite Hs|].
    apply (Forall_lookup_1 _ _ _ _ (pg_threads Hpg)) in Hk. rewrite Hu in Hk. done.
Qed.

Lemma installed_start w : installed sched w -> region_start graph_sched (fun _ => 0) identity_map w.
Proof.
  intros (H1 & H2 & H3 & H4). repeat (split; [done|]). intros t Ht. destruct (H4 t Ht) as (l & Hl & Hp & Hc).
  exists l. split; [done|]. split; [|done]. destruct (graph_sched_spec t) as (ms & _ & -> & _ & He). rewrite Hp. apply He. lia.
Qed.

(** ** The order of the operations *)

Definition before (l : oplog) (a b : op) : Prop := exists l1 l2, l = l1 ++ b :: l2 /\ a ∈ l2.

Lemma hb_log_enabled sc lm l o :
  rtc (hb_step sc lm) [] l -> o ∈ l -> exists l1 l2, l = l1 ++ o :: l2 /\ enabled sc lm l2 o.
Proof.
  induction l as [|x l IH]; intros Hr Ho; [by apply elem_of_nil in Ho|].
  apply elem_of_cons in Ho as [-> |Ho]; [exists [], l; split; [done|by eapply hb_step_inv]|].
  destruct (IH (hb_step_tail _ _ _ _ Hr) Ho) as (l1 & l2 & -> & He). by exists (x :: l1), l2.
Qed.

Lemma log_before l b q a p :
  rtc (hb_step graph_sched identity_map) [] l -> op_of b ∈ l -> node_at ns q = Some b -> p ∈ incoming b ->
  node_at ns p = Some a -> before l (op_of a) (op_of b).
Proof.
  intros Hr Hb (kb & Hkb & _)%edge_target Hp Ha. destruct (hb_log_enabled _ _ _ _ Hr Hb) as (l1 & l2 & -> & m & Hm & Hdone & Hes).
  exists l1, l2. split; [done|]. destruct (node_scheduled kb b Hkb) as (Hob & m' & Hm' & Hmean). rewrite Hm in Hm'. injection Hm' as <-.
  apply meaning_inv in Hmean as (c & es & -> & Hc); [|by eapply list_elem_of_lookup_2].
  destruct (proj2 (cross_edges_inv _ _ _ _ Hc) p Hp) as (a' & Ha' & Hcase). rewrite Ha in Ha'. injection Ha' as <-.
  apply edge_target in Ha as (ka & Hka & _ & Hra). destruct (node_scheduled ka a Hka) as (Hoa & _).
  destruct Hcase as [[Htu Hlt]|Hin].
  - unfold op_of in *. rewrite Htu. apply Hdone. cbn. lia.
  - apply (proj1 (Forall_forall _ _) Hes) in Hin as (t' & Ht' & Hd). cbn in Ht', Hd. rewrite identity_map_at in Ht' by done.
    injection Ht' as <-. apply Hd. lia.
Qed.

(** C1: the graph is respected.  Take a well-formed graph of less than [2 ^ 32 - 1]
    nodes and at most 16 threads
    without input nodes (so that no node is skipped) that is written as one
    schedule fragment, and the runtime at the start of the region with
    that schedule and logical threads mapped to themselves.  In any interleaving:
    whenever the operation of a node has been executed, the operations of all its
    predecessors in the graph, in its own and in other threads, were executed
    before it.  (With skipped nodes this is not so, see [skip_releases_early].) *)
Theorem graph_respected (w : cworld oplog) (p : pool) :
  installed sched w -> rtc pool_run (start_pool graph_sched w) p ->
  forall q b r a, node_at ns q = Some b -> op_of b ∈ x_user (p_world p) ->
    r ∈ incoming b -> node_at ns r = Some a -> before (x_user (p_world p)) (op_of a) (op_of b).
Proof.
  intros Hw Hrun q b r a Hq Hb Hr Ha. eapply (log_before _ b q); try done.
  pose proof (reachable_ok _ _ _ w p graph_sched_good (installed_start w Hw) Hrun) as [(_ & _ & Hlog & _) _]. exact Hlog.
Qed.

(** ** Completion *)

(** The order of the graph, edges and program order, has no cycle. *)
Definition graph_acyclic (rank : nat -> nat) : Prop :=
  forall k k' n n', ns !! k = Some n -> ns !! k' = Some n' ->
    (tuid n = tuid n' /\ (k < k')%nat) \/ Z.of_nat (S k) ∈ incoming n' -> (rank k < rank k')%nat.

(** The positions of the nodes of a thread, and the rank of an operation. *)
Definition positions (u : ThreadUid) : list nat := filter (fun k => tuid <$> ns !! k = Some u) (seq 0 (length ns)).
Definition op_rank (rank : nat -> nat) (o : op) : nat := default O (rank <$> positions (Tuid o.1 2) !! o.2).

Lemma positions_prefix u k :
  (k <= length ns)%nat ->
  length (filter (fun k => tuid <$> ns !! k = Some u) (seq 0 k)) = length (filter (fun n => tuid n = u) (take k ns)).
Proof.
  induction k as [|k IH]; [done|]. intros Hk. rewrite seq_S, filter_app, length_app, IH by lia.
  destruct (lookup_lt_is_Some_2 ns k) as [n Hn]; [lia|]. rewrite (take_S_r _ _ _ Hn), filter_app, length_app. f_equal.
  cbn [Nat.add]. destruct (decide (tuid n = u)) as [Heq|Hne].
  - rewrite !filter_cons_True; [done| |]; [done|by rewrite Hn; cbn; f_equal].
  - rewrite !filter_cons_False; [done| |]; [done|rewrite Hn; cbn; congruence].
Qed.

Lemma op_rank_of rank k n : ns !! k = Some n -> op_rank rank (op_of n) = rank k.
Proof.
  intros Hk. unfold op_rank, op_of. cbn [fst snd]. rewrite <- (node_uid n (list_elem_of_lookup_2 _ _ _ Hk)).
  pose proof (lookup_lt_Some _ _ _ Hk) as Hlt. unfold positions.
  assert (Z.to_nat (threadOrder n - 1) = length (filter (fun k => tuid <$> ns !! k = Some (tuid n)) (take k (seq 0 (length ns))))) as ->.
  { rewrite (orders_ok_lookup ns k n (pg_orders Hpg) Hk), take_seq, Nat.min_l, positions_prefix by lia. lia. }
  rewrite (lookup_filter_rank _ (seq 0 (length ns)) k k); [done|by apply lookup_seq|by rewrite Hk].
Qed.

Lemma graph_sched_acyclic rank : graph_acyclic rank -> acyclic graph_sched identity_map (op_rank rank).
Proof.
  intros Hac t i m e t' Hi He Ht' j Hj. destruct (sched_lookup t i m Hi) as (k & n & Hk & Hu & Ho & Hm).
  apply meaning_inv in Hm as (c & es & -> & Hes); [|by eapply list_elem_of_lookup_2].
  destruct (proj1 (cross_edges_inv _ _ _ _ Hes) e He) as (p & a & Hp & (ka & Hka & -> & Hra)%edge_target & ->).
  cbn [fst snd] in *. rewrite identity_map_at in Ht' by done. injection Ht' as <-.
  assert (op_of n = (t, i)) as <- by (unfold op_of; rewrite Hu, Ho; cbn; f_equal; lia).
  rewrite (op_rank_of rank k n Hk).
  (* the operation at position j of that thread is at or before the predecessor *)
  destruct (node_scheduled ka a Hka) as (Hoa & _). pose proof (orders_ok_lookup ns ka a (pg_orders Hpg) Hka) as Hoo.
  destruct (lookup_lt_is_Some_2 (filter (fun m => tuid m = tuid a) (take (S ka) ns)) j) as [b Hb].
  { rewrite (take_S_r _ _ _ Hka), filter_app, length_app, filter_cons_True by done. cbn. lia. }
  apply filter_lookup_pos in Hb as (kb & Hkb & Htu & Hlen). apply lookup_take_Some in Hkb as [Hkb Hlt].
  rewrite take_take, Nat.min_l in Hlen by lia.
  assert (op_of b = (tid (tuid a), j)) as <-.
  { unfold op_of. rewrite Htu, (orders_ok_lookup ns kb b (pg_orders Hpg) Hkb), Htu, Hlen. f_equal. lia. }
  rewrite (op_rank_of rank kb b Hkb). pose proof (Hac ka k a n Hka Hk (or_intror Hp)) as Hlast.
  destruct (decide (kb = ka)) as [-> |Hne]; [done|]. etrans; [|exact Hlast].
  apply (Hac kb ka b a Hkb Hka). left. split; [done|lia].
Qed.

(** C6: the graph is executed.  Take a graph as for [graph_respected]: well-formed,
    of less than [2 ^ 32 - 1] nodes and at most 16 threads, without input nodes, written as one fragment, with
    logical threads mapped to themselves.  If its order, edges and program
    order together, has no cycle, every
    interleaving of the threads comes to an end, and there all of them are
    finished and the operation of every node has been executed. *)
Theorem graph_executed (rank : nat -> nat) (w : cworld oplog) :
  installed sched w -> graph_acyclic rank ->
  sn pool_run (start_pool graph_sched w) /\
  forall p, rtc pool_run (start_pool graph_sched w) p -> nf pool_run p ->
    (forall t o, p_threads p !! t = Some o -> finished o) /\
    forall q b, node_at ns q = Some b -> op_of b ∈ x_user (p_world p).
Proof.
  intros Hw Hac. pose proof (installed_start w Hw) as Hstart. pose proof graph_sched_good as Hgood.
  split; [apply pool_run_sn|]. intros p Hrun Hnf.
  destruct (completes _ _ _ _ w p Hgood (graph_sched_acyclic rank Hac) Hstart Hrun Hnf) as [Hfin Hall].
  split; [done|]. intros q b (k & Hk & _)%edge_target. destruct (node_scheduled k b Hk) as (_ & m & Hm%lookup_lt_Some & _).
  by apply Hall.
Qed.
End GraphRun.

(** ** An example *)

Definition demo_frag : ScheduleFragment := Frag (g_nodes demo_graph) 1 4 demo_t0 true 5 0 ∅.
Definition demo_short_id (c : Z) : option Z := if c =? 100 then Some 1 else if c =? 101 then Some 2 else None.

Definition demo_sched : HBSchedule :=
  Sched 2 0 0 true [[1; 0; 1; 0; 1; 1; 1; 1; 0]; [2; 1; 0; 2; 0]].

Lemma demo_dumped : DumpScheduleFragment demo_short_id (fun _ => false) demo_frag = Some demo_sched.
Proof. reflexivity. Qed.

Definition graph_world : cworld oplog :=
  x_set_tls (spawn NTHREADS (fun t =>
    Tls false 0 (replicate MAX_CONTEXT 0) 0 (default [0] (at_ (h_threadSchedules demo_sched) t)) false))
  (demo_world []).

Lemma demo_plain : plain_graph demo_short_id demo_frag.
Proof.
  destruct demo_graph_wf as [Ho _ Hp _ _]. split; try done.
  - by repeat constructor.
  - repeat constructor; cbn; unfold KLEE_MAX_THREADS; lia.
  - intros c i. unfold demo_short_id. destruct (c =? 100); [intros [= <-]; lia|]. destruct (c =? 101); [intros [= <-]; lia|done].
Qed.

Lemma demo_installed : installed demo_sched graph_world.
Proof.
  repeat (split; [done|]). intros t Ht.
  exists (Tls false 0 (replicate MAX_CONTEXT 0) 0 (default [0] (at_ (h_threadSchedules demo_sched) t)) false).
  split; [|split; [done|apply Nat.ltb_lt; reflexivity]].
  cbn [graph_world x_tls x_set_tls]. rewrite spawn_lookup, decide_True; [done|]. unfold NTHREADS. lia.
Qed.

Abbreviation demo_rows_of := (graph_sched demo_short_id (fun _ => false) demo_frag).

Lemma graph_respected_witness :
  exists p, rtc pool_run (start_pool demo_rows_of graph_world) p /\
    x_user (p_world p) = [(0, 2%nat); (1, 0%nat); (0, 1%nat); (0, 0%nat)] /\
    before (x_user (p_world p)) (1, 0%nat) (0, 2%nat).
Proof.
  destruct (run_log [1; 0; 0; 1; 0; 0] (start_pool demo_rows_of graph_world)
    [(0, 2%nat); (1, 0%nat); (0, 1%nat); (0, 0%nat)]) as (p & Hrun & Hlog); [vm_compute; reflexivity|].
  exists p. split; [exact Hrun|]. split; [exact Hlog|].
  apply (graph_respected demo_short_id (fun _ => false) demo_frag demo_plain demo_sched demo_dumped graph_world p
    demo_installed Hrun 4 (Node 3 demo_t0 100 None [2; 3]) 3 (Node 1 demo_t1 101 None [2])).
  - reflexivity.
  - rewrite Hlog. left.
  - right. left.
  - reflexivity.
Defined.

Lemma demo_graph_acyclic : graph_acyclic demo_frag (fun k => k).
Proof.
  intros k k' n n' Hk Hk' [[_ Hlt]|Hin]; [done|].
  do 4 (destruct k' as [|k']; [injection Hk' as <-; cbn in Hin; rewrite ?elem_of_cons, ?elem_of_nil in Hin; lia|]). done.
Qed.

Lemma graph_executed_witness :
  sn pool_run (start_pool demo_rows_of graph_world) /\
  forall p, rtc pool_run (start_pool demo_rows_of graph_world) p -> nf pool_run p -> (1, 0%nat) ∈ x_user (p_world p).
Proof.
  destruct (graph_executed demo_short_id (fun _ => false) demo_frag demo_plain demo_sched demo_dumped (fun k => k) graph_world
    demo_installed demo_graph_acyclic) as [Hsn Hall].
  split; [exact Hsn|]. intros p Hr Hn.
  apply (proj2 (Hall p Hr Hn) 3 (Node 1 demo_t1 101 None [2])). reflexivity.
Defined.
