(* ===== verification/CxInput.v ===== *)
(** * Contexts, logs and inputs ([runtime/ConstrainedExec/lib.cpp], "Stack Logging" to "Libc Stubs")

    What the instrumented program calls besides synchronization: the hash of
    its call stack, the logged variables that schedule selectors read, the
    program's inputs, and the wrappers of the library calls that read them.

    A buffer is the list of its bytes: a function that fills a buffer returns
    the new contents.  The calls into the real C library are a parameter. *)

From stdpp Require Import base gmap list fin_maps.
From Stdlib Require Import ZArith Lia.
From S2P Require Import Prelude PthreadTypes CxState CxSched.

(** ** Integers as bytes, little-endian *)

Fixpoint le_bytes (n : nat) (v : Z) : list Z :=
  match n with O => [] | S n => v mod 256 :: le_bytes n (v / 256) end.

Fixpoint le_value (bs : list Z) : Z :=
  match bs with [] => 0 | b :: bs => b + 256 * le_value bs end.

(** The library calls that the wrappers make. *)
Inductive real_fn :=
| RealRead | RealWrite | RealOpen | RealCreat | RealClose | RealFstat | RealStat | RealLstat
| RealGettimeofday | RealTime | RealMmap | RealMmap2 | RealMunmap.

(** A call returns its value and the contents of the buffer it fills (for
    [gettimeofday], of both its buffers one after the other); it may set
    [errno].  [real_ftw] gives the entries of a directory tree: path, [stat]
    record and type; and the value [ftw] returns when it visited all of them. *)
Class RealCalls (U : Type) := {
  real : real_fn -> list Z -> cworld U -> Z * list Z * cworld U;
  real_ftw : Z -> cworld U -> list (list Z * list Z * Z) * Z
}.

Definition sizeof_timeval : nat := 16.
Definition sizeof_stat : nat := 144.
Definition MAP_FAILED : Z := 2 ^ 64 - 1.

Section Input.
Context {U : Type} `{!Instrumented U, !RealCalls U}.
Context (me : Z).
Abbreviation W := (cworld U).

(** ** The call stack *)

(** [*MyThreadContextPtr = v] *)
Definition store_ctx (i : nat) (v : Z) : C W unit :=
  l ← my_tls me;
  if bool_decide (i < length (l_ctx l))%nat then mod_tls me (l_set_ctx (<[i := v]> (l_ctx l)))
  else cx_stop_with CxMemory.

Definition klee_ics_callstack_push (cs : Z) : C W unit :=
  oldv ← MyThreadContextTop me;
  let newv := u64 (3 * oldv + cs) in
  l ← my_tls me;
  mod_tls me (l_set_ctxp (S (l_ctxp l)));;
  store_ctx (S (l_ctxp l)) newv.

(** Popping below the array leaves a pointer that must not be used. *)
Definition klee_ics_callstack_pop : C W unit :=
  l ← my_tls me;
  store_ctx (l_ctxp l) 0;;
  match l_ctxp l with
  | O => cx_stop_with CxMemory
  | S i => mod_tls me (l_set_ctxp i)
  end.

Definition klee_ics_lookupthreadid (logical_tid : Z) : C W Z := cx_read (fun w => at_ (x_lmap w) logical_tid).

Definition klee_ics_lookupwaitslot (logical_tid : Z) : C W Z :=
  t ← cx_read (fun w => at_ (x_lmap w) logical_tid);
  d ← cx_read (fun w => at_ (x_threads w) t);
  mret (d_wait_slot d).

(** ** Logged variables

    The tables start out zero; [bits] is the width of the variable. *)

Definition lookupvar (bits logical_tid oid : Z) (buf : Z) : C W Z :=
  t ← cx_read (fun w => at_ (x_lmap w) logical_tid);
  cx_get (fun w => default 0 (x_log w !! (bits, buf, t, oid))).

Definition logvar (bits oid longctxid val buf : Z) : C W unit :=
  here ← (if longctxid =? 0 then mret true else IsMyCurrentContextLongId me longctxid);
  if (here : bool) then cx_mod (fun w => x_set_log (<[(bits, buf, me, oid) := val mod 2 ^ bits]> (x_log w)) w)
  else mret tt.

Definition klee_ics_lookup_stackvar (bits tid oid : Z) : C W Z :=
  i ← cx_get x_readidx; lookupvar bits tid oid i.

Definition klee_ics_log_stackvar (bits oid ctxid val : Z) : C W unit := logvar bits oid ctxid val LogCurrIndex.

(** The snapshot buffer holds bytes. *)
Definition snap_read (n : nat) (offset : Z) (m : gmap Z Z) : list Z :=
  (fun k : nat => default 0 (m !! (offset + Z.of_nat k))) <$> seq 0 n.

Fixpoint snap_write (offset : Z) (bs : list Z) (m : gmap Z Z) : gmap Z Z :=
  match bs with [] => m | b :: bs => snap_write (offset + 1) bs (<[offset := b]> m) end.

Definition klee_ics_snapshot_lookup (bits offset : Z) : C W Z :=
  cx_get (fun w => le_value (snap_read (Z.to_nat (bits / 8)) offset (x_snap w))).

Definition klee_ics_snapshot_log (bits offset val : Z) : C W unit :=
  cx_mod (fun w => x_set_snap (snap_write offset (le_bytes (Z.to_nat (bits / 8)) val) (x_snap w)) w).

Definition klee_ics_lookup_threadlocaladdr (oid : Z) : C W Z := cx_get (fun w => default 0 (x_tlptrs w !! oid)).
Definition klee_ics_log_threadlocaladdr (oid ptr : Z) : C W unit :=
  cx_mod (fun w => x_set_tlptrs (<[oid := ptr]> (x_tlptrs w)) w).

(** ** Random inputs

    [x_rand] lists the values that [rand] returns; zeros follow. *)

Definition rand : C W Z := fun w =>
  match x_rand w with [] => Ret 0 w | r :: rs => Ret r (x_set_rand rs w) end.

Definition __ics_rand8 : C W Z := r ← rand; mret (u8 r).
Definition __ics_rand32 : C W Z := r ← rand; mret (u32 r).
Definition __ics_rand64 : C W Z := a ← rand; b ← rand; mret (Z.lor (u64 a) (u64 (Z.shiftl (u64 b) 32))).

Definition biased : list Z := [-1; 0; 0; 0; 0; 0; 1; 2; 3; 4; 5; 10; 12; 20; 22; 30; 40; 50; 100; 101].

Definition BiasedRandInt32 : C W Z :=
  r32 ← __ics_rand32;
  let r := s32 r32 in
  let k := Z.rem r 30 in
  if 20 <=? k then mret r else cx_read (fun _ => at_ biased k).

Fixpoint random_ints (n : nat) : C W (list Z) :=
  match n with
  | O => mret []
  | S n => x ← BiasedRandInt32; r ← random_ints n; mret (le_bytes 4 x ++ r)
  end.

Fixpoint random_chars (n : nat) : C W (list Z) :=
  match n with
  | O => mret []
  | S n => x ← __ics_rand32; r ← random_chars n; mret (u8 x :: r)
  end.

Definition InitRandomBuffer (nbytes : nat) : C W (list Z) :=
  a ← random_ints (nbytes / 4)%nat;
  b ← random_chars (nbytes mod 4)%nat;
  mret (a ++ b).

(** ** Inputs *)

Definition DoNewInput (fuel : nat) (buf : list Z) : C W unit :=
  node ← WaitForHbNode me fuel true;
  match node with
  | None => mret tt
  | Some inputId =>
      AdvanceHbNode me;;
      cx_assert (negb (inputId =? 0));;
      cx_mod (snapshot_functions inputId (Some buf));;
      AdvanceToNextFragmentIfComplete me fuel
  end.

(** The argument is overwritten by the random buffer. *)
Definition AddIntInput (fuel : nat) (x : Z) : C W Z :=
  buf ← InitRandomBuffer 8;
  DoNewInput fuel buf;;
  mret (le_value buf).

Definition AddIntRangeInput (fuel : nat) (rnd start end_ : Z) : C W Z :=
  if u64 (start + 1) =? end_ then AddIntInput fuel start
  else
    cx_assert (start <? end_);;
    AddIntInput fuel (u64 (rnd mod u64 (end_ - 1 - start) + start)).

Definition klee_make_symbolic (fuel nbytes : nat) : C W (list Z) :=
  buf ← InitRandomBuffer nbytes;
  DoNewInput fuel buf;;
  mret buf.

Definition klee_read_symbolic_input (fuel : nat) (buf : list Z) : C W unit :=
  l ← my_tls me;
  if l_disable l then mret tt else DoNewInput fuel buf.

(** [klee_int8], [klee_int32], [klee_int64] and the range variants: arguments and
    results are converted to the type. *)
Definition klee_int8 (fuel : nat) : C W Z := r ← __ics_rand8; v ← AddIntInput fuel r; mret (u8 v).
Definition klee_int32 (fuel : nat) : C W Z := r ← __ics_rand32; v ← AddIntInput fuel r; mret (u32 v).
Definition klee_int64 (fuel : nat) : C W Z := r ← __ics_rand64; v ← AddIntInput fuel r; mret (u64 v).
Definition klee_range8 (fuel : nat) (start end_ : Z) : C W Z :=
  r ← __ics_rand8; v ← AddIntRangeInput fuel r (u64 start) (u64 end_); mret (s8 v).
Definition klee_range32 (fuel : nat) (start end_ : Z) : C W Z :=
  r ← __ics_rand32; v ← AddIntRangeInput fuel r (u64 start) (u64 end_); mret (s32 v).
Definition klee_range64 (fuel : nat) (start end_ : Z) : C W Z :=
  r ← __ics_rand64; v ← AddIntRangeInput fuel r (u64 start) (u64 end_); mret (s64 v).

(** ** Other stubs *)

Definition klee_assume (cond : Z) : C W unit := cx_assert (negb (cond =? 0)).
Definition klee_report_error : C W unit := cx_stop_with CxAbort.
Definition klee_assert_fail : C W unit := cx_stop_with CxAbort.
Definition klee_get_wlist : C W Z := mret 0.
Definition klee_process_terminate : C W unit := cx_stop_with CxExit.
Definition klee_thread_terminate : C W unit := fun w => ThreadEnd w.
Definition klee_thread_preempt (yield : bool) : C W unit := if yield then SPIN_WAIT_UNTIL (fun _ => true) else mret tt.

(** [while (WaitForHbNode()) AdvanceHbNode();]: one turn per node. *)
Fixpoint sleep_nodes (n fuel : nat) : C W unit :=
  match n with
  | O => cx_stop_with CxFuel
  | S n =>
      ok ← WaitForHbNode me fuel false;
      match ok with Some _ => AdvanceHbNode me;; sleep_nodes n fuel | None => mret tt end
  end.

Definition klee_thread_sleep (fuel : nat) : C W unit :=
  TakeNextWaitSlot me;;
  DoOneSyncOpMustExistCanSleep me fuel;;
  sleep_nodes fuel fuel.

Definition klee_thread_notify : C W unit := mret tt.
Definition klee_add_hbnode (fuel : nat) : C W Z := DoOneSyncOpMustExist me fuel;; mret 1.
Definition klee_is_symbolic : C W Z := mret 0.
Definition klee_is_running : C W Z := mret 0.
Definition klee_get_concrete_thread_context : C W Z := mret me.

(** ** Wrapped library calls *)

Definition call_real (f : real_fn) (args : list Z) : C W (Z * list Z) := fun w =>
  let '(r, w') := real f args w in Ret r w'.

(** Return value first, then [errno]; [n] is the size of the value. *)
Definition CaptureSyscallResult (fuel n : nat) (ret : Z) : C W unit :=
  klee_read_symbolic_input fuel (le_bytes n ret);;
  e ← cx_get x_errno;
  klee_read_symbolic_input fuel (le_bytes 4 e).

(** A call without output buffer. *)
Definition plain_wrap (fuel n : nat) (f : real_fn) (args : list Z) : C W Z :=
  r ← call_real f args;
  CaptureSyscallResult fuel n r.1;;
  mret r.1.

Definition inputwrap_read (fuel : nat) (fd count : Z) : C W (Z * list Z) :=
  r ← call_real RealRead [fd; count];
  CaptureSyscallResult fuel 8 r.1;;
  klee_read_symbolic_input fuel (take (Z.to_nat (if 0 <=? r.1 then r.1 else 0)) r.2);;
  mret r.

Definition inputwrap_write (fuel : nat) (fd count : Z) : C W Z := plain_wrap fuel 8 RealWrite [fd; count].

(** [O_CREAT] is 64; [mode] is read from the variable arguments only then. *)
Definition inputwrap_open (fuel : nat) (pathname flags : Z) (va : Z) : C W Z :=
  let mode := if negb (Z.land flags 64 =? 0) then va else 0 in
  plain_wrap fuel 4 RealOpen [pathname; flags; mode].
Definition inputwrap_creat (fuel : nat) (pathname mode : Z) : C W Z := plain_wrap fuel 4 RealCreat [pathname; mode].
Definition inputwrap_close (fuel : nat) (fd : Z) : C W Z := plain_wrap fuel 4 RealClose [fd].

Definition stat_wrap (fuel : nat) (f : real_fn) (arg : Z) : C W (Z * list Z) :=
  r ← call_real f [arg];
  CaptureSyscallResult fuel 4 r.1;;
  klee_read_symbolic_input fuel (take sizeof_stat r.2);;
  mret r.

Definition inputwrap_fstat (fuel : nat) (fd : Z) : C W (Z * list Z) := stat_wrap fuel RealFstat fd.
Definition inputwrap_stat (fuel : nat) (path : Z) : C W (Z * list Z) := stat_wrap fuel RealStat path.
Definition inputwrap_lstat (fuel : nat) (path : Z) : C W (Z * list Z) := stat_wrap fuel RealLstat path.

(** The result of the call is ignored; missing buffers are replaced. *)
Definition inputwrap_gettimeofday (fuel : nat) (tv tz : Z) : C W (Z * list Z) :=
  r ← call_real RealGettimeofday [tv; tz];
  klee_read_symbolic_input fuel (take sizeof_timeval r.2);;
  klee_read_symbolic_input fuel (take 8 (drop sizeof_timeval r.2));;
  mret (0, r.2).

Definition inputwrap_time (fuel : nat) (t : Z) : C W Z :=
  r ← call_real RealTime [t];
  klee_read_symbolic_input fuel (le_bytes 8 r.1);;
  mret r.1.

Definition map_wrap (fuel : nat) (f : real_fn) (args : list Z) (length : Z) : C W Z :=
  r ← call_real f args;
  CaptureSyscallResult fuel 8 r.1;;
  (if r.1 =? MAP_FAILED then klee_read_symbolic_input fuel (le_bytes 8 r.1)
   else klee_read_symbolic_input fuel (take (Z.to_nat length) r.2));;
  mret r.1.

Definition inputwrap_mmap (fuel : nat) (addr length prot flags fd offset : Z) : C W Z :=
  map_wrap fuel RealMmap [addr; length; prot; flags; fd; offset] length.
Definition inputwrap_mmap2 (fuel : nat) (addr length prot flags fd pgoffset : Z) : C W Z :=
  map_wrap fuel RealMmap2 [addr; length; prot; flags; fd; pgoffset] length.
Definition inputwrap_munmap (fuel : nat) (addr length : Z) : C W Z := plain_wrap fuel 4 RealMunmap [addr; length].

(** ** Walking a directory tree *)

Section Ftw.
Context (fn : list Z -> list Z -> Z -> C W Z).    (* the program's callback *)

Definition FtwFuncWrapper (fuel : nat) (entry : list Z * list Z * Z) : C W Z :=
  let '(fpath, sb, typeflag) := entry in
  mod_tls me (l_set_disable false);;
  klee_ics_region_marker me fuel;;
  klee_read_symbolic_input fuel (le_bytes 4 typeflag);;
  klee_read_symbolic_input fuel (fpath ++ [0]);;
  klee_read_symbolic_input fuel sb;;
  ret ← fn fpath sb typeflag;
  mod_tls me (l_set_disable true);;
  mret ret.

(** The library's [ftw] calls back per entry and stops at a result other than 0,
    which it returns; the first component is [MyCurrFtwFuncRetVal]. *)
Fixpoint ftw_walk (fuel : nat) (entries : list (list Z * list Z * Z)) (last : Z) : C W (Z * Z) :=
  match entries with
  | [] => mret (0, last)
  | e :: entries =>
      ret ← FtwFuncWrapper fuel e;
      if negb (ret =? 0) then mret (ret, ret) else ftw_walk fuel entries last
  end.

Definition inputwrap_ftw (fuel : nat) (dirpath : Z) : C W Z :=
  mod_tls me (l_set_disable true);;
  walk ← cx_get (real_ftw dirpath);
  r ← ftw_walk fuel walk.1 walk.2;
  mod_tls me (l_set_disable false);;
  (if r.1 =? 0 then
     klee_ics_region_marker me fuel;;
     klee_read_symbolic_input fuel (le_bytes 4 (-1))
   else mret tt);;
  klee_read_symbolic_input fuel (le_bytes 4 r.2);;
  mret r.2.
End Ftw.
End Input.

(** ** Ranges

    The value that [AddIntRangeInput] computes from the range is overwritten. *)
Lemma AddIntRangeInput_any {U : Type} `{!Instrumented U} (me : Z) (fuel : nat) (rnd start end_ : Z) (w : cworld U) :
  u64 (start + 1) = end_ \/ start < end_ ->
  AddIntRangeInput me fuel rnd start end_ w = AddIntInput me fuel 0 w.
Proof.
  intros H. unfold AddIntRangeInput. destruct (Z.eqb_spec (u64 (start + 1)) end_) as [|Hne]; [done|].
  rewrite (proj2 (Z.ltb_lt _ _)) by (destruct H; [done|lia]). done.
Qed.

(** ** The byte encoding and the snapshot buffer *)

Lemma le_value_bytes n v : le_value (le_bytes n v) = v mod 256 ^ Z.of_nat n.
Proof.
  revert v. induction n as [|n IH]; intros v; [by rewrite Z.mod_1_r|].
  cbn [le_bytes le_value]. rewrite IH, Nat2Z.inj_succ, Z.pow_succ_r by lia.
  rewrite Z.rem_mul_r by (try lia; apply Z.pow_nonzero; lia). done.
Qed.

Lemma le_bytes_length n v : length (le_bytes n v) = n.
Proof. revert v. induction n as [|n IH]; intros v; cbn; [done|by rewrite IH]. Qed.

Lemma le_bytes_range n v : Forall (fun b => 0 <= b < 256) (le_bytes n v).
Proof. revert v. induction n as [|n IH]; intros v; cbn; constructor; [apply Z.mod_pos_bound; lia|apply IH]. Qed.

Lemma snap_write_lookup offset bs m k :
  snap_write offset bs m !! k =
  if decide (offset <= k < offset + Z.of_nat (length bs)) then bs !! Z.to_nat (k - offset) else m !! k.
Proof.
  revert offset m. induction bs as [|b bs IH]; intros offset m; cbn [snap_write length].
  { rewrite decide_False by lia. done. }
  rewrite IH. destruct (decide (offset + 1 <= k < offset + 1 + Z.of_nat (length bs))) as [Hk|Hk].
  - rewrite decide_True by lia. replace (Z.to_nat (k - offset)) with (S (Z.to_nat (k - (offset + 1)))) by lia. done.
  - destruct (decide (k = offset)) as [->|Hne].
    + rewrite lookup_insert_eq, decide_True by lia. by rewrite Z.sub_diag.
    + rewrite lookup_insert_ne, decide_False by lia. done.
Qed.

Lemma snap_read_write offset bs m : snap_read (length bs) offset (snap_write offset bs m) = bs.
Proof.
  apply list_eq. intros i. unfold snap_read. rewrite list_lookup_fmap.
  destruct (bs !! i) as [b|] eqn:Hb.
  - apply lookup_lt_Some in Hb as Hlt. rewrite (proj2 (lookup_seq 0 (length bs) i i)) by lia. cbn.
    rewrite snap_write_lookup, decide_True by lia. replace (Z.to_nat (offset + Z.of_nat i - offset)) with i by lia. by rewrite Hb.
  - apply lookup_ge_None in Hb. rewrite lookup_seq_ge by lia. done.
Qed.

Lemma snap_read_other offset bs m o n :
  o + Z.of_nat n <= offset \/ offset + Z.of_nat (length bs) <= o ->
  snap_read n o (snap_write offset bs m) = snap_read n o m.
Proof.
  intros H. unfold snap_read. apply list_fmap_ext. intros i k [-> Hk]%lookup_seq.
  rewrite snap_write_lookup, decide_False by lia. done.
Qed.
