(* ===== verification/CallCtx.v ===== *)
(** * Calling contexts ([lib/ICS/Instrumentor.cpp], "Callstack logging")

    Every call site of a used context gets a random 64-bit id; the long id of a
    context is a hash of the ids of its call sites, unique among the used
    contexts, and its short id is its position in a table.  At run time every
    call pushes the id of its site, so that the top of the stack of hashes
    identifies the context the thread is in.

    A context is the list of its instructions, oldest first.  [strip] removes
    the frames of model functions; [fn_of] is the function of an instruction. *)

From stdpp Require Import base gmap list fin_maps sets.
From Stdlib Require Import ZArith Lia.
From S2P Require Import Prelude PthreadTypes HbGraph CxState CxSched CxInput.

Definition context : Type := list Z.

(** The fields of [Instrumentor] about contexts, and the values that [Rand64]
    will return. *)
Record ctxtab := CtxTab {
  ct_short : gmap context Z;
  ct_list : list context;
  ct_toId : gmap context Z;
  ct_fromId : gmap Z context;
  ct_calls : gmap Z Z;
  ct_callsFrom : gmap Z Z;
  ct_insts : gset Z;
  ct_fns : gset Z;
  ct_rand : list Z
}.

(** [AddUniqueId]: the id, whether the element is new, and the map. *)
Definition AddUniqueId (m : gmap context Z) (c : context) : Z * bool * gmap context Z :=
  match m !! c with
  | Some id => (id, false, m)
  | None => let id := Z.of_nat (size m) + 1 in (id, true, <[c := id]> m)
  end.

Definition LookupUniqueId (m : gmap context Z) (c : context) : option Z := m !! c.

(** The tables of the current attempt, and the random values left. *)
Record attempt := Attempt { a_to : gmap Z Z; a_from : gmap Z Z; a_rand : list Z }.

(** The [for (;;)] loop takes random values until one is new. *)
Fixpoint fresh_rand (fromNum currFrom : gmap Z Z) (rs : list Z) : option (Z * list Z) :=
  match rs with
  | [] => None
  | v :: rs =>
      if bool_decide (is_Some (currFrom !! v)) || bool_decide (is_Some (fromNum !! v))
      then fresh_rand fromNum currFrom rs else Some (v, rs)
  end.

Definition UniqueRandInstId (toNum fromNum : gmap Z Z) (i : Z) (a : attempt) : option (Z * attempt) :=
  match toNum !! i with
  | Some v => Some (v, a)
  | None =>
      match a_to a !! i with
      | Some v => Some (v, a)
      | None =>
          '(v, rs) ← fresh_rand fromNum (a_from a) (a_rand a);
          Some (v, Attempt (<[i := v]> (a_to a)) (<[v := i]> (a_from a)) rs)
      end
  end.

Definition mix (h v : Z) : Z := u64 (3 * h + v).

(** One attempt at the hash of a context. *)
Fixpoint hash_sites (toNum fromNum : gmap Z Z) (c : context) (final : Z) (a : attempt) : option (Z * attempt) :=
  match c with
  | [] => Some (final, a)
  | i :: c => '(v, a1) ← UniqueRandInstId toNum fromNum i a; hash_sites toNum fromNum c (mix final v) a1
  end.

(** Attempts until the hash is new; [fuel] bounds their number. *)
Fixpoint find_hash (fuel : nat) (t : ctxtab) (c : context) (rs : list Z) : option (Z * attempt) :=
  match fuel with
  | O => None
  | S fuel =>
      '(final, a) ← hash_sites (ct_calls t) (ct_callsFrom t) c 0 (Attempt ∅ ∅ rs);
      if bool_decide (is_Some (ct_fromId t !! final)) then find_hash fuel t c (a_rand a) else Some (final, a)
  end.

Lemma require_true b u : require b = Some u -> b = true.
Proof. by destruct b. Qed.

Section CallCtx.
Context (strip : context -> context) (fn_of : Z -> Z).

Definition AddUsedCallCtx (fuel : nat) (ctx : context) (t : ctxtab) : option ctxtab :=
  let c := strip ctx in
  let '(_, isnew, short) := AddUniqueId (ct_short t) c in
  if negb isnew then Some t
  else
    '(final, a) ← find_hash fuel t c (ct_rand t);
    Some (CtxTab short (ct_list t ++ [c]) (<[c := final]> (ct_toId t)) (<[final := c]> (ct_fromId t))
      (a_to a ∪ ct_calls t) (a_from a ∪ ct_callsFrom t)
      (list_to_set c ∪ ct_insts t) (list_to_set (fn_of <$> c) ∪ ct_fns t) (a_rand a)).

Definition LookupCallCtxLongId (t : ctxtab) (ctx : context) : option Z := ct_toId t !! strip ctx.
Definition LookupCallCtxShortId (t : ctxtab) (ctx : context) : option Z := LookupUniqueId (ct_short t) (strip ctx).
Definition LookupCallSiteId (t : ctxtab) (i : Z) : option Z := ct_calls t !! i.

(** [__ics_callctx_table]; entry 0 is the invalid context. *)
Fixpoint dump_ctxs (t : ctxtab) (id : Z) (l : list context) : option (list Z) :=
  match l with
  | [] => Some []
  | c :: l =>
      sid ← LookupCallCtxShortId t c;
      _ ← require (id =? sid);
      _ ← require (bool_decide (length c < MAX_CONTEXT)%nat);
      v ← LookupCallCtxLongId t c;
      r ← dump_ctxs t (id + 1) l;
      Some (v :: r)
  end.

Definition DumpCallingContexts (t : ctxtab) : option (list Z) := r ← dump_ctxs t 1 (ct_list t); Some (0 :: r).

(** ** Consistent tables *)

(** The hash of a context under an assignment of ids to call sites. *)
Definition hash_step (calls : gmap Z Z) (h : option Z) (i : Z) : option Z := x ← h; v ← calls !! i; Some (mix x v).
Definition hash_of (calls : gmap Z Z) (c : context) : option Z :=
  foldl (hash_step calls) (Some 0) c.

Record ctx_wf (t : ctxtab) : Prop := {
  cw_size : size (ct_short t) = length (ct_list t);
  cw_short c id : ct_short t !! c = Some id <-> 1 <= id /\ ct_list t !! Z.to_nat (id - 1) = Some c;
  cw_ids c v : ct_toId t !! c = Some v <-> ct_fromId t !! v = Some c;
  cw_dom c : is_Some (ct_toId t !! c) <-> c ∈ ct_list t;
  cw_hash c v : ct_toId t !! c = Some v -> hash_of (ct_calls t) c = Some v;
  cw_calls i v : ct_calls t !! i = Some v <-> ct_callsFrom t !! v = Some i
}.

Definition new_ctxtab (rs : list Z) : ctxtab := CtxTab ∅ [] ∅ ∅ ∅ ∅ ∅ ∅ rs.

Lemma new_ctxtab_wf rs : ctx_wf (new_ctxtab rs).
Proof.
  split; cbn.
  - done.
  - intros c id. rewrite lookup_empty, lookup_nil. split; [done|by intros [_ ?]].
  - intros c v. by rewrite !lookup_empty.
  - intros c. rewrite lookup_empty, elem_of_nil. split; [by intros [? [=]]|done].
  - intros c v. by rewrite lookup_empty.
  - intros i v. by rewrite !lookup_empty.
Qed.

(** The attempt's tables are inverse to each other and new for the old ones. *)
Definition attempt_ok (toNum fromNum : gmap Z Z) (a : attempt) : Prop :=
  (forall i v, a_to a !! i = Some v <-> a_from a !! v = Some i) /\ (a_to a ##ₘ toNum) /\ (a_from a ##ₘ fromNum).

Lemma fresh_rand_Some fromNum currFrom rs v rs' :
  fresh_rand fromNum currFrom rs = Some (v, rs') -> currFrom !! v = None /\ fromNum !! v = None.
Proof.
  induction rs as [|x rs IH]; [done|]. cbn. destruct (bool_decide_reflect (is_Some (currFrom !! x))); [done|].
  destruct (bool_decide_reflect (is_Some (fromNum !! x))); [done|]. cbn. intros [= -> ->].
  split; by apply eq_None_not_Some.
Qed.

Lemma map_disjoint_insert_fresh {A} (m1 m2 : gmap Z A) i x : m1 ##ₘ m2 -> m2 !! i = None -> <[i := x]> m1 ##ₘ m2.
Proof. intros H Hi. by apply map_disjoint_insert_l. Qed.

Lemma UniqueRandInstId_ok toNum fromNum i a v a' :
  attempt_ok toNum fromNum a -> UniqueRandInstId toNum fromNum i a = Some (v, a') ->
  attempt_ok toNum fromNum a' /\ (a_to a' ∪ toNum) !! i = Some v /\ a_to a ⊆ a_to a'.
Proof.
  intros (Hinv & Hto & Hfrom). unfold UniqueRandInstId. destruct (toNum !! i) as [x|] eqn:Hi.
  { intros [= -> ->]. split; [done|]. split; [|done]. by apply lookup_union_Some_r. }
  destruct (a_to a !! i) as [x|] eqn:Hai.
  { intros [= -> ->]. split; [done|]. split; [|done]. by apply lookup_union_Some_l. }
  intros ([x rs] & [H1 H2]%fresh_rand_Some & [= -> <-])%bind_Some. cbn. split; [split|split].
  - cbn. intros j u. destruct (decide (i = j)) as [<-|Hij], (decide (v = u)) as [<-|Hvu].
    + by rewrite !lookup_insert_eq.
    + rewrite lookup_insert_eq, lookup_insert_ne by done. split; [congruence|]. intros Hu. apply Hinv in Hu. congruence.
    + rewrite lookup_insert_eq, lookup_insert_ne by done. split; [intros Hj%Hinv; congruence|congruence].
    + rewrite !lookup_insert_ne by done. apply Hinv.
  - cbn. split; by apply map_disjoint_insert_fresh.
  - apply lookup_union_Some_l. by rewrite lookup_insert_eq.
  - by apply insert_subseteq.
Qed.

Lemma hash_fold_None calls c : foldl (hash_step calls) None c = None.
Proof. by induction c. Qed.

Lemma hash_sites_ok toNum fromNum c final a v a' :
  attempt_ok toNum fromNum a -> hash_sites toNum fromNum c final a = Some (v, a') ->
  attempt_ok toNum fromNum a' /\ a_to a ⊆ a_to a' /\
  foldl (hash_step (a_to a' ∪ toNum)) (Some final) c = Some v.
Proof.
  revert final a. induction c as [|i c IH]; intros final a Hok; cbn [hash_sites]; [by intros [= -> ->]|].
  intros ([x a1] & (Hok1 & Hx & Hsub)%UniqueRandInstId_ok & (Hok2 & Hsub2 & Hf)%IH)%bind_Some; [|done..].
  split; [done|]. split; [by etrans|]. cbn [foldl].
  assert ((a_to a' ∪ toNum) !! i = Some x) as Hx'.
  { apply lookup_union_Some in Hx as [Hx|Hx]; [| |apply Hok1].
    - apply lookup_union_Some_l. by eapply lookup_weaken.
    - apply lookup_union_Some_r; [apply Hok2|done]. }
  unfold hash_step at 2. cbn. rewrite Hx'. cbn. exact Hf.
Qed.

Lemma find_hash_ok fuel t c rs v a :
  find_hash fuel t c rs = Some (v, a) ->
  ct_fromId t !! v = None /\ attempt_ok (ct_calls t) (ct_callsFrom t) a /\ hash_of (a_to a ∪ ct_calls t) c = Some v.
Proof.
  revert rs. induction fuel as [|fuel IH]; intros rs; [done|]. cbn [find_hash].
  intros ([final a0] & Hh & H)%bind_Some. case_bool_decide as Hc; [by eapply IH|]. injection H as -> ->.
  apply hash_sites_ok in Hh as (Hok & _ & Hf); [split; [by apply eq_None_not_Some|done]|].
  split; [intros i x; cbn; by rewrite !lookup_empty|]. split; apply map_disjoint_empty_l.
Qed.

Lemma hash_of_mono calls calls' c v : calls ⊆ calls' -> hash_of calls c = Some v -> hash_of calls' c = Some v.
Proof.
  intros Hsub. unfold hash_of. generalize 0 as h. revert v. induction c as [|i c IH]; intros v h; [done|]. cbn [foldl].
  unfold hash_step at 2 4. cbn. destruct (calls !! i) as [x|] eqn:Hi; cbn.
  - rewrite (lookup_weaken _ _ _ _ Hi Hsub). cbn. apply IH.
  - rewrite hash_fold_None. done.
Qed.

Lemma AddUsedCallCtx_wf fuel ctx t t' : ctx_wf t -> AddUsedCallCtx fuel ctx t = Some t' -> ctx_wf t'.
Proof.
  intros Hwf. unfold AddUsedCallCtx, AddUniqueId. set (c := strip ctx).
  destruct (ct_short t !! c) as [id|] eqn:Hc; cbn [negb]; [by intros [= <-]|].
  intros ([v a] & (Hnew & (Hinv & Hto & Hfrom) & Hh)%find_hash_ok & [= <-])%bind_Some.
  destruct Hwf as [Hsz Hsh Hids Hdom Hhash Hcalls].
  assert (c ∉ ct_list t) as Hnin.
  { intros [k Hk]%list_elem_of_lookup. assert (ct_short t !! c = Some (Z.of_nat (S k))) as H; [|congruence].
    apply Hsh. split; [lia|]. by replace (Z.to_nat (Z.of_nat (S k) - 1)) with k by lia. }
  assert (ct_toId t !! c = None) as Hnone by (apply eq_None_not_Some; by rewrite Hdom).
  split; cbn [ct_short ct_list ct_toId ct_fromId ct_calls ct_callsFrom].
  - rewrite map_size_insert_None, length_app by done. cbn. lia.
  - intros c' id. destruct (decide (c = c')) as [<-|Hne].
    + rewrite lookup_insert_eq, lookup_app. split.
      * intros [= <-]. split; [lia|]. rewrite lookup_ge_None_2 by lia.
        replace (Z.to_nat (Z.of_nat (size (ct_short t)) + 1 - 1) - length (ct_list t))%nat with O by lia. done.
      * intros [H1 H2]. destruct (ct_list t !! Z.to_nat (id - 1)) eqn:E.
        { injection H2 as ->. by apply list_elem_of_lookup_2 in E. }
        apply list_lookup_singleton_Some in H2 as [H2 _]. apply lookup_ge_None in E. f_equal. lia.
    + rewrite lookup_insert_ne, Hsh, lookup_app by done. apply and_iff_compat_l.
      destruct (ct_list t !! Z.to_nat (id - 1)) eqn:E; [done|]. split; [done|].
      intros [_ ?]%list_lookup_singleton_Some. done.
  - intros c' v'. destruct (decide (c = c')) as [<-|Hne], (decide (v = v')) as [<-|Hvne].
    + by rewrite !lookup_insert_eq.
    + rewrite lookup_insert_eq, lookup_insert_ne by done. split; [congruence|]. intros H%Hids. congruence.
    + rewrite lookup_insert_ne, lookup_insert_eq by done. split; [intros H%Hids; congruence|congruence].
    + rewrite !lookup_insert_ne by done. apply Hids.
  - intros c'. rewrite elem_of_app, list_elem_of_singleton, <- Hdom. destruct (decide (c = c')) as [<-|Hne].
    + rewrite lookup_insert_eq. split; [by right|done].
    + rewrite lookup_insert_ne by done. split; [by left|]. intros [|]; [done|by subst].
  - intros c' v'. destruct (decide (c = c')) as [<-|Hne].
    + rewrite lookup_insert_eq. intros [= <-]. done.
    + rewrite lookup_insert_ne by done. intros H%Hhash. eapply hash_of_mono; [|done]. by apply map_union_subseteq_r.
  - intros i x. rewrite !lookup_union_Some by done. by rewrite Hinv, Hcalls.
Qed.

(** When every call site already has an id, a collision repeats for ever. *)
Lemma hash_sites_known toNum fromNum c h v a :
  foldl (hash_step toNum) (Some h) c = Some v -> hash_sites toNum fromNum c h a = Some (v, a).
Proof.
  revert h. induction c as [|i c IH]; intros h; cbn [foldl hash_sites]; [by intros [= ->]|].
  unfold hash_step at 2. cbn. destruct (toNum !! i) as [x|] eqn:Hi; cbn; [|by rewrite hash_fold_None].
  intros H. unfold UniqueRandInstId. rewrite Hi. cbn. by apply IH.
Qed.

Lemma find_hash_stuck fuel t c rs v :
  hash_of (ct_calls t) c = Some v -> is_Some (ct_fromId t !! v) -> find_hash fuel t c rs = None.
Proof.
  intros Hh Hv. revert rs. induction fuel as [|fuel IH]; intros rs; [done|]. cbn [find_hash].
  rewrite (hash_sites_known _ _ _ _ v) by done. cbn. rewrite bool_decide_true by done. apply IH.
Qed.

Fixpoint add_ctxs (fuel : nat) (cs : list context) (t : ctxtab) : option ctxtab :=
  match cs with
  | [] => Some t
  | c :: cs => t1 ← AddUsedCallCtx fuel c t; add_ctxs fuel cs t1
  end.

Lemma add_ctxs_wf fuel cs t t' : ctx_wf t -> add_ctxs fuel cs t = Some t' -> ctx_wf t'.
Proof.
  revert t. induction cs as [|c cs IH]; intros t Hwf; cbn; [by intros [= <-]|].
  intros (t1 & H1 & H2)%bind_Some. eapply IH; [|done]. by eapply AddUsedCallCtx_wf.
Qed.

(** The emitted table at the short id of a context is its long id. *)
Lemma dump_ctxs_lookup t id l tab c k :
  dump_ctxs t id l = Some tab -> l !! k = Some c ->
  exists v, tab !! k = Some v /\ LookupCallCtxLongId t c = Some v /\ (length c < MAX_CONTEXT)%nat.
Proof.
  revert id tab k. induction l as [|c0 l IH]; intros id tab k; [done|]. cbn [dump_ctxs].
  intros (sid & _ & (u1 & _ & (u2 & Hlen%require_true & (v & Hv & (r & Hr & [= <-])%bind_Some)%bind_Some)%bind_Some)%bind_Some)%bind_Some.
  destruct k as [|k]; cbn; [intros [= <-]; exists v; split; [done|]; split; [done|]; by apply bool_decide_eq_true in Hlen|].
  by apply (IH (id + 1)).
Qed.
End CallCtx.

(** ** The run-time stack of contexts *)

Section Stack.
Context {U : Type} `{!Instrumented U, !RealCalls U} (me : Z).
Abbreviation W := (cworld U).

(** The calls of a chain of call sites, with the ids of the sites. *)
Fixpoint push_all (vs : list Z) : C W unit :=
  match vs with [] => mret tt | v :: vs => klee_ics_callstack_push me v;; push_all vs end.

(** The thread has variables [l], and [h] is the hash of its context. *)
Definition in_ctx (w : W) (l : tls) (h : Z) : Prop :=
  x_tls w !! me = Some l /\ length (l_ctx l) = MAX_CONTEXT /\ l_ctx l !! l_ctxp l = Some h.

Definition with_tls (l : tls) (w : W) : W := x_set_tls (<[me := l]> (x_tls w)) w.

Lemma with_tls_lookup l w : x_tls (with_tls l w) !! me = Some l.
Proof. cbn. apply lookup_insert_eq. Qed.

Lemma with_tls_twice l l' w : with_tls l' (with_tls l w) = with_tls l' w.
Proof. unfold with_tls. cbn. by rewrite insert_insert_eq. Qed.

Lemma with_tls_own l w : x_tls w !! me = Some l -> with_tls l w = w.
Proof. intros H. unfold with_tls. rewrite insert_id by done. by destruct w. Qed.

Lemma top_run w l h : in_ctx w l h -> MyThreadContextTop me w = Ret h w.
Proof.
  intros (Hl & _ & Hh). unfold MyThreadContextTop. erewrite cbind_ret by (unfold my_tls, cx_read; rewrite Hl; reflexivity).
  unfold cx_read. by rewrite Hh.
Qed.

Lemma store_ctx_run w l i v :
  x_tls w !! me = Some l -> (i < length (l_ctx l))%nat ->
  store_ctx me i v w = Ret tt (with_tls (l_set_ctx (<[i := v]> (l_ctx l)) l) w).
Proof.
  intros Hl Hi. unfold store_ctx. erewrite cbind_ret by (unfold my_tls, cx_read; rewrite Hl; reflexivity).
  rewrite bool_decide_true by done. unfold mod_tls. by rewrite Hl.
Qed.

Definition pushed (l : tls) (v : Z) : tls :=
  l_set_ctx (<[S (l_ctxp l) := v]> (l_ctx l)) (l_set_ctxp (S (l_ctxp l)) l).

Lemma push_run w l h v :
  in_ctx w l h -> (S (l_ctxp l) < MAX_CONTEXT)%nat ->
  klee_ics_callstack_push me v w = Ret tt (with_tls (pushed l (mix h v)) w).
Proof.
  intros Hin Hlt. pose proof Hin as (Hl & Hlen & Hh). unfold klee_ics_callstack_push.
  erewrite cbind_ret by (by eapply top_run). erewrite cbind_ret by (unfold my_tls, cx_read; rewrite Hl; reflexivity).
  erewrite cbind_ret by (unfold mod_tls; rewrite Hl; reflexivity).
  change (x_set_tls _ w) with (with_tls (l_set_ctxp (S (l_ctxp l)) l) w).
  erewrite store_ctx_run; [|apply with_tls_lookup|cbn; rewrite Hlen; done]. by rewrite with_tls_twice.
Qed.

Lemma pushed_in_ctx w l h v :
  in_ctx w l h -> (S (l_ctxp l) < MAX_CONTEXT)%nat -> in_ctx (with_tls (pushed l v) w) (pushed l v) v.
Proof.
  intros (Hl & Hlen & Hh) Hlt. split; [apply with_tls_lookup|]. split; cbn; [by rewrite length_insert|].
  apply list_lookup_insert_eq. by rewrite Hlen.
Qed.

Lemma push_sites_run vs w l h :
  in_ctx w l h -> (l_ctxp l + length vs < MAX_CONTEXT)%nat ->
  exists l', push_all vs w = Ret tt (with_tls l' w) /\ in_ctx (with_tls l' w) l' (foldl mix h vs).
Proof.
  revert w l h. induction vs as [|v vs IH]; intros w l h Hin Hlt; cbn [push_all foldl length] in *.
  { exists l. rewrite with_tls_own by apply Hin. done. }
  erewrite cbind_ret by (apply (push_run w l h); [done|lia]).
  destruct (IH (with_tls (pushed l (mix h v)) w) (pushed l (mix h v)) (mix h v)) as (l' & Hrun & Hin').
  - by apply (pushed_in_ctx w l h); [|lia].
  - cbn. lia.
  - exists l'. by rewrite with_tls_twice in *.
Qed.

(** A call and its return leave the stack as it was. *)
Lemma push_pop_run w l h v :
  in_ctx w l h -> l_ctx l !! S (l_ctxp l) = Some 0 ->
  (klee_ics_callstack_push me v;; klee_ics_callstack_pop me) w = Ret tt w.
Proof.
  intros Hin H0. pose proof Hin as (Hl & Hlen & Hh). apply lookup_lt_Some in H0 as Hlt. rewrite Hlen in Hlt.
  erewrite cbind_ret by (by apply (push_run w l h)). unfold klee_ics_callstack_pop.
  erewrite cbind_ret by (unfold my_tls, cx_read; rewrite with_tls_lookup; reflexivity).
  erewrite cbind_ret; cycle 1.
  { apply store_ctx_run; [apply with_tls_lookup|]. cbn. by rewrite length_insert, Hlen. }
  cbn [pushed l_ctxp l_set_ctx l_set_ctxp]. unfold mod_tls. rewrite with_tls_lookup. rewrite with_tls_twice.
  f_equal. etrans; [apply with_tls_twice|]. rewrite <- (with_tls_own l w) at 2 by done. f_equal.
  destruct l as [j f cx cp p d]. cbn in *. unfold l_set_ctxp, l_set_ctx, pushed. cbn. f_equal.
  rewrite list_insert_insert_eq. by apply list_insert_id.
Qed.
End Stack.

(** ** Contexts at run time and at instrumentation time *)

Section Match.
Context (strip : context -> context) (fn_of : Z -> Z).
Context (strip_idem : forall c, strip (strip c) = strip c).

Lemma AddUsedCallCtx_list fuel ctx t t' :
  ctx_wf t -> AddUsedCallCtx strip fn_of fuel ctx t = Some t' -> ct_list t ⊆ ct_list t' /\ strip ctx ∈ ct_list t'.
Proof.
  intros Hwf. unfold AddUsedCallCtx, AddUniqueId. destruct (ct_short t !! strip ctx) as [id|] eqn:Hc; cbn [negb].
  - intros [= <-]. split; [done|]. apply (cw_short t Hwf) in Hc as [_ Hc]. by eapply list_elem_of_lookup_2.
  - intros ([v a] & _ & [= <-])%bind_Some. cbn. split; set_solver.
Qed.

Lemma add_ctxs_list fuel cs t t' ctx :
  ctx_wf t -> add_ctxs strip fn_of fuel cs t = Some t' -> strip ctx ∈ ct_list t \/ ctx ∈ cs -> strip ctx ∈ ct_list t'.
Proof.
  revert t. induction cs as [|c cs IH]; intros t Hwf; cbn.
  { intros [= <-] [|H%elem_of_nil]; done. }
  intros (t1 & H1 & H2)%bind_Some Hin. pose proof (AddUsedCallCtx_wf _ _ _ _ _ _ Hwf H1) as Hwf1.
  apply AddUsedCallCtx_list in H1 as [Hsub Hnew]; [|done]. apply (IH t1); [done|done|].
  destruct Hin as [Hin|[-> |Hin]%elem_of_cons]; [left; by apply Hsub|by left|by right].
Qed.

Lemma hash_of_sites calls c v h :
  foldl (hash_step calls) (Some h) c = Some v -> exists vs, mapM (fun i => calls !! i) c = Some vs /\ v = foldl mix h vs.
Proof.
  revert h. induction c as [|i c IH]; intros h; cbn [foldl]; [intros [= <-]; by exists []|].
  unfold hash_step at 2. cbn. destruct (calls !! i) as [x|]; cbn; [|by rewrite hash_fold_None].
  intros (vs & Hvs & ->)%IH. exists (x :: vs). by rewrite Hvs.
Qed.

Context {U : Type} `{!Instrumented U, !RealCalls U}.

(** C5: contexts are recognized exactly.  Let the tables be built for any used
    contexts, and let a thread make the calls of one of them: the stack does not
    overflow, and the test for the short id of a used context then succeeds
    exactly if it is the thread's own context, up to the frames of model
    functions. *)
Theorem context_identified (fuel : nat) (cs : list context) (rs : list Z) (t : ctxtab) (tab : list Z)
    (me : Z) (w : cworld U) (l : tls) (ctx : context) :
  add_ctxs strip fn_of fuel cs (new_ctxtab rs) = Some t -> DumpCallingContexts strip t = Some tab ->
  (forall k, callctx_table k = default 0 (at_ tab k)) ->
  in_ctx me w l 0 -> l_ctxp l = 0%nat -> ctx ∈ cs ->
  exists vs w', mapM (LookupCallSiteId t) (strip ctx) = Some vs /\ push_all me vs w = Ret tt w' /\
    forall ctx', ctx' ∈ cs -> exists k, LookupCallCtxShortId strip t ctx' = Some k /\
      IsMyCurrentContextShortId me k w' = Ret (bool_decide (strip ctx = strip ctx')) w'.
Proof.
  intros Hadd Hdump Htab Hin Hp Hctx. pose proof (add_ctxs_wf _ _ _ _ _ _ (new_ctxtab_wf rs) Hadd) as Hwf.
  apply bind_Some in Hdump as (r & Hr & [= <-]).
  assert (forall c, c ∈ cs -> exists k v, LookupCallCtxShortId strip t c = Some k /\ callctx_table k = v /\
    ct_toId t !! strip c = Some v /\ (length (strip c) < MAX_CONTEXT)%nat) as Hlook.
  { intros c Hc. pose proof (add_ctxs_list fuel cs _ t c (new_ctxtab_wf rs) Hadd (or_intror Hc)) as Hl.
    apply list_elem_of_lookup in Hl as [k Hk]. destruct (dump_ctxs_lookup _ _ _ _ _ _ _ Hr Hk) as (v & Hv & Hlong & Hlen).
    unfold LookupCallCtxLongId in Hlong. rewrite strip_idem in Hlong. exists (Z.of_nat (S k)), v. split; [|split; [|done]].
    - apply (cw_short t Hwf). split; [lia|]. by replace (Z.to_nat (Z.of_nat (S k) - 1)) with k by lia.
    - rewrite Htab. unfold at_. rewrite (proj2 (Z.leb_le 0 (Z.of_nat (S k)))), Nat2Z.id by lia.
      change ((0 :: r) !! S k) with (r !! k). by rewrite Hv. }
  destruct (Hlook ctx Hctx) as (k & v & _ & _ & Hv & Hlen).
  destruct (hash_of_sites _ _ _ _ (cw_hash t Hwf _ _ Hv)) as (vs & Hvs & Hhash).
  assert (length vs = length (strip ctx)) as Hlv by (symmetry; apply mapM_Some, Forall2_length in Hvs; done).
  destruct (push_sites_run me vs w l 0 Hin) as (l' & Hrun & Hin'); [lia|].
  exists vs, (with_tls me l' w). split; [done|]. split; [done|]. intros ctx' Hctx'.
  destruct (Hlook ctx' Hctx') as (k' & v' & Hk' & Ht' & Hv' & _). exists k'. split; [done|].
  unfold IsMyCurrentContextShortId. erewrite cbind_ret by (by eapply top_run). rewrite Ht', <- Hhash. unfold mret, C_ret. f_equal.
  destruct (Z.eqb_spec v' v) as [->|Hne].
  - symmetry. apply bool_decide_eq_true. apply (cw_ids t Hwf) in Hv, Hv'. congruence.
  - symmetry. apply bool_decide_eq_false. intros Heq. rewrite <- Heq in Hv'. congruence.
Qed.
End Match.

(** Two contexts that share their first call; [-1] is a frame of a model function. *)
Definition demo_strip (c : context) : context := List.filter (fun i => negb (i =? -1)) c.
Definition demo_ctxs : list context := [[1; 2]; [1; -1; 3]; [1; 3]].
Definition demo_ctxtab : option ctxtab := add_ctxs demo_strip (fun _ => 0) 2 demo_ctxs (new_ctxtab [7; 7; 11; 13; 17]).

#[export] Instance demo_calls : RealCalls unit := { real _ _ w := (0, [], w); real_ftw _ _ := ([], 0) }.
#[export] Instance ctx_instrumented : Instrumented unit := {
  callctx_table k := default 0 (at_ [0; 32; 34] k);
  regionctx_table := [];
  schedule_selectors _ _ := Sched 0 0 0 true [];
  snapshot_functions _ _ w := w;
  qsort l := l;
  schedule_fragment_1 := Sched 0 0 0 true []
}.

Definition ctx_tls : tls := Tls false 0 (replicate MAX_CONTEXT 0) 0 [0] false.
Definition ctx_world : cworld unit :=
  CW [] 0 [] [] [] 1 1 0 1 1 ∅ ∅ ∅ {[ 0 := ctx_tls ]} [] 1 ∅ ∅ ∅ ∅ ∅ ∅ 0 [] tt.

Lemma demo_strip_idem c : demo_strip (demo_strip c) = demo_strip c.
Proof.
  unfold demo_strip. induction c as [|i c IH]; [done|]. cbn.
  destruct (negb (i =? -1)) eqn:Hi; [cbn; rewrite Hi; by f_equal|done].
Qed.

Lemma context_identified_witness :
  exists t vs w', demo_ctxtab = Some t /\ mapM (LookupCallSiteId t) [1; 3] = Some vs /\ push_all 0 vs ctx_world = Ret tt w' /\
    IsMyCurrentContextShortId 0 2 w' = Ret true w'.
Proof.
  destruct demo_ctxtab as [t|] eqn:Ht; [|vm_compute in Ht; discriminate].
  destruct (context_identified demo_strip (fun _ => 0) demo_strip_idem 2 demo_ctxs [7; 7; 11; 13; 17] t [0; 32; 34] 0
    ctx_world ctx_tls [1; -1; 3]) as (vs & w' & Hvs & Hrun & Hall).
  - exact Ht.
  - vm_compute in Ht. injection Ht as <-. vm_compute. reflexivity.
  - reflexivity.
  - split; [reflexivity|]. split; reflexivity.
  - reflexivity.
  - right. left.
  - exists t, vs, w'. split; [reflexivity|]. split; [exact Hvs|]. split; [exact Hrun|].
    destruct (Hall [1; 3]) as (k & Hk & Hm); [right; right; left|].
    vm_compute in Ht. injection Ht as <-. vm_compute in Hk. injection Hk as <-. exact Hm.
Defined.
