(* ===== verification/CxPthread.v ===== *)
(** * Threads and synchronization of the constrained runtime ([runtime/ConstrainedExec/lib.cpp], "PThreads" to "POSIX Semaphores")

    The pthread API that replaces the symbolic models at run time: the order of
    the operations comes from the schedule, the objects keep only what decides
    the return values.  Calls of function pointers and of the real
    [pthread_create] are parameters. *)

From stdpp Require Import base gmap list fin_maps relations.
From Stdlib Require Import ZArith Lia.
From S2P Require Import Prelude PthreadTypes HbGraph CxState Schedule CxSched CxPool CxOrder.

Section Pthread.
Context {U : Type} `{!Instrumented U}.
Context (call : Z -> Z -> C (cworld U) Z).                    (* a function pointer and its argument *)
Context (real_pthread_create : Z -> C (cworld U) Z).          (* for the thread in a slot *)
Context (log_threadlocals : Z -> cworld U -> cworld U).       (* __ics_log_threadlocaladdrs *)
Context (me : Z).
Abbreviation W := (cworld U).

(** ** Objects in memory *)

Definition load {A} (f : W -> gmap Z A) (p : Z) : C W A := cx_read (fun w => f w !! p).

Definition mod_mutex (p : Z) (f : pthread_mutex_t -> pthread_mutex_t) : C W unit :=
  m ← load x_mutexes p; cx_mod (fun w => x_set_mutexes (<[p := f m]> (x_mutexes w)) w).
Definition mod_cond (p : Z) (f : pthread_cond_t -> pthread_cond_t) : C W unit :=
  c ← load x_conds p; cx_mod (fun w => x_set_conds (<[p := f c]> (x_conds w)) w).
Definition mod_barrier (p : Z) (f : pthread_barrier_t -> pthread_barrier_t) : C W unit :=
  b ← load x_barriers p; cx_mod (fun w => x_set_barriers (<[p := f b]> (x_barriers w)) w).
Definition mod_sem (p : Z) (f : sem_t -> sem_t) : C W unit :=
  s ← load x_sems p; cx_mod (fun w => x_set_sems (<[p := f s]> (x_sems w)) w).
Definition store_cell (p v : Z) : C W unit := cx_mod (fun w => x_set_cells (<[p := v]> (x_cells w)) w).

(** [__tsync.threads[t].data] *)
Definition thread_info (t : Z) : C W cthread := cx_read (fun w => at_ (x_threads w) t).
Definition mod_info (t : Z) (f : cthread -> cthread) : C W unit :=
  d ← thread_info t; cx_mod (fun w => x_set_threads (<[Z.to_nat t := f d]> (x_threads w)) w).

(** ** Threads *)

Definition pthread_self : C W Z := mret me.

(** The slot of the first thread that is not allocated. *)
Fixpoint first_free (i : nat) (l : list cthread) : option nat :=
  match l with [] => None | d :: l => if d_allocated d then first_free (S i) l else Some i end.

Definition pthread_create (fuel : nat) (thread startRoutine startArg : Z) : C W Z :=
  WaitForHbNodeMustExist me fuel false false;;
  slot ← cx_get (fun w => first_free 0 (x_threads w));
  match slot with
  | None => AdvanceHbNode me;; mret EAGAIN
  | Some i =>
      let t := Z.of_nat i in
      mod_info t (fun _ => d_set_allocated true (d_set_id t cthread_zero));;
      store_cell thread t;;
      cx_mod (fun w => x_set_live (u32 (x_live w + 1)) w);;
      AdvanceHbNode me;;
      l ← my_tls me;
      mod_info t (fun d => d_set_joinable true (d_set_initial_fragment_id (l_frag l)
        (d_set_start_arg startArg (d_set_start_routine startRoutine d))));;
      cx_mod (fun w => x_set_running (u32 (x_running w + 1)) w);;
      cx_mod (fun w => x_set_total (u32 (x_total w + 1)) w);;
      DoOneSyncOpMustExist me fuel;;
      ret ← real_pthread_create t;
      cx_assert (ret =? 0);;
      mret 0
  end.

(** The handlers, from the top of the stack; each turn of the loop is one. *)
Fixpoint run_cleanup (fuel : nat) : C W unit :=
  match fuel with
  | O => cx_stop_with CxFuel
  | S fuel =>
      d ← thread_info me;
      if d_cleanup_stack d =? 0 then mret tt
      else
        b ← load x_cleanups (d_cleanup_stack d);
        call (__routine b) (__arg b);;
        b' ← load x_cleanups (d_cleanup_stack d);
        mod_info me (d_set_cleanup_stack (__prev b'));;
        run_cleanup fuel
  end.

(** [__ics_call_real_pthread_exit] *)
Definition real_pthread_exit : C W unit := fun w => ThreadEnd w.

Definition pthread_exit (fuel : nat) (returnValue : Z) : C W unit :=
  run_cleanup fuel;;
  WaitForHbNodeMustExist me fuel false false;;
  d ← thread_info me;
  (if d_joinable d then mod_info me (fun d => d_set_return_value returnValue (d_set_terminated true d))
   else mod_info me (d_set_allocated false));;
  cx_mod (fun w => x_set_live (u32 (x_live w - 1)) w);;
  cx_mod (fun w => x_set_running (u32 (x_running w - 1)) w);;
  cx_mod (fun w => x_set_total (u32 (x_total w - 1)) w);;
  AdvanceHbNode me;;
  complete ← IsScheduleComplete me;
  cx_assert complete;;
  MyThreadCommonTeardown me;;
  real_pthread_exit.

Definition MyThreadStartRoutine (fuel : nat) : C W unit :=
  d ← thread_info me;
  mod_tls me (l_set_frag (d_initial_fragment_id d));;
  sched ← MyThreadCurrSchedule me;
  cx_assert (me <? h_numThreads sched);;
  MyThreadCommonInit me fuel (log_threadlocals me);;
  returnValue ← call (d_start_routine d) (d_start_arg d);
  pthread_exit fuel returnValue.

Definition pthread_join (fuel : nat) (thread returnValue : Z) : C W Z :=
  WaitForHbNodeMustExist me fuel false false;;
  if KLEE_MAX_THREADS <=? thread then AdvanceHbNode me;; mret ESRCH
  else if thread =? me then AdvanceHbNode me;; mret EDEADLK
  else
    t ← thread_info thread;
    if negb (d_allocated t) then AdvanceHbNode me;; mret ESRCH
    else if negb (d_joinable t) then AdvanceHbNode me;; mret EINVAL
    else if d_hasjoiner t then AdvanceHbNode me;; mret EINVAL
    else
      mod_info thread (d_set_hasjoiner true);;
      AdvanceHbNode me;;
      DoOneSyncOpMustExistCanSleep me fuel;;
      t ← thread_info thread;
      cx_assert (d_terminated t);;
      (if returnValue =? 0 then mret tt else store_cell returnValue (d_return_value t));;
      mod_info thread (d_set_allocated false);;
      mret 0.

(** The first loop takes nodes while other threads live. *)
Fixpoint joinall_nodes (n fuel : nat) : C W unit :=
  match n with
  | O => cx_stop_with CxFuel
  | S n =>
      live ← cx_get x_live;
      if live <=? 1 then mret tt
      else
        exiting ← SkipRegionBarriersOrExit me fuel;
        if (exiting : bool) then mret tt
        else
          ok ← WaitForHbNode me fuel false;
          (match ok with Some _ => AdvanceHbNode me | None => mret tt end);;
          joinall_nodes n fuel
  end.

Definition pthread_joinall (fuel : nat) : C W Z :=
  ok ← WaitForHbNode me fuel false;
  (match ok with Some _ => AdvanceHbNode me;; joinall_nodes fuel fuel | None => mret tt end);;
  SPIN_WAIT_UNTIL (fun w => x_live w <=? 1);;
  mret 0.

Definition pthread_detach (fuel : nat) (thread : Z) : C W Z :=
  if KLEE_MAX_THREADS <=? thread then mret ESRCH
  else
    WaitForHbNodeMustExist me fuel false false;;
    t ← thread_info thread;
    if negb (d_allocated t) then AdvanceHbNode me;; mret ESRCH
    else if negb (d_joinable t) then AdvanceHbNode me;; mret EINVAL
    else
      mod_info thread (d_set_joinable false);;
      (if d_terminated t then mod_info thread (d_set_allocated false) else mret tt);;
      AdvanceHbNode me;;
      mret 0.

Definition pthread_once (fuel : nat) (onceControl initRoutine : Z) : C W Z :=
  WaitForHbNodeMustExist me fuel false false;;
  c ← load x_cells onceControl;
  (if c =? 0 then call initRoutine 0;; store_cell onceControl 1 else mret tt);;
  AdvanceHbNode me;;
  mret 0.

Definition pthread_equal (thread1 thread2 : Z) : C W Z := mret (Z_of_bool (thread1 =? thread2)).
Definition pthread_yield : C W Z := SPIN_WAIT_UNTIL (fun _ => true);; mret 0.
Definition sched_yield : C W Z := SPIN_WAIT_UNTIL (fun _ => true);; mret 0.
Definition pthread_attr_init : C W Z := mret 0.
Definition pthread_attr_destroy : C W Z := mret 0.

Definition _pthread_cleanup_push (buffer routine arg : Z) : C W unit :=
  d ← thread_info me;
  b ← load x_cleanups buffer;
  cx_mod (fun w => x_set_cleanups (<[buffer := CleanupBuffer routine arg (__canceltype b) (d_cleanup_stack d)]> (x_cleanups w)) w);;
  mod_info me (d_set_cleanup_stack buffer).

Definition _pthread_cleanup_pop (buffer execute : Z) : C W unit :=
  (if execute =? 0 then mret tt else b ← load x_cleanups buffer; call (__routine b) (__arg b);; mret tt);;
  b ← load x_cleanups buffer;
  mod_info me (d_set_cleanup_stack (__prev b)).

Definition _pthread_cleanup_push_defer (buffer routine arg : Z) : C W unit := _pthread_cleanup_push buffer routine arg.
Definition _pthread_cleanup_pop_restore (buffer execute : Z) : C W unit := _pthread_cleanup_pop buffer execute.

Definition pthread_setcancelstate : C W Z := mret 0.
Definition pthread_setcanceltype : C W Z := mret 0.
Definition pthread_cancel : C W Z := cx_stop_with CxAssert.
Definition pthread_testcancel : C W Z := cx_stop_with CxAssert.
Definition pthread_key_create : C W Z := cx_stop_with CxAssert.
Definition pthread_key_delete : C W Z := cx_stop_with CxAssert.
Definition pthread_getspecific : C W Z := cx_stop_with CxAssert.
Definition pthread_setspecific : C W Z := cx_stop_with CxAssert.

(** ** Mutexes *)

(** [__sync_lock_test_and_set (&mutex->taken, 1)]: the old value. *)
Definition test_and_set (mutex : Z) : C W Z :=
  m ← load x_mutexes mutex;
  mod_mutex mutex (m_set_taken 1);;
  mret (m_taken m).

(** [SPIN_WAIT_UNTIL] with that condition: every poll stores; other threads may
    run between two polls, whose number [fuel] bounds. *)
Fixpoint spin_test_and_set (fuel : nat) (mutex : Z) : C W unit :=
  match fuel with
  | O => cx_stop_with CxFuel
  | S fuel =>
      old ← test_and_set mutex;
      if negb (old =? 0) then mret tt
      else SPIN_WAIT_UNTIL (fun _ => true);; spin_test_and_set fuel mutex
  end.

Definition spin_own (mutex : Z) : C W Z :=
  mod_mutex mutex (fun m => m_set_queued 1 (m_set_owner me m));; mret 0.

Definition spinlock_lock (fuel : nat) (mutex : Z) (istry : bool) : C W Z :=
  success ← test_and_set mutex;
  if negb (success =? 0) then spin_own mutex
  else
    m ← load x_mutexes mutex;
    if m_owner m =? me then mod_mutex mutex (fun m => m_set_queued (u32 (m_queued m + 1)) m);; mret 0
    else if istry then mret EBUSY
    else spin_test_and_set fuel mutex;; spin_own mutex.

Definition spinlock_unlock (mutex : Z) : C W Z :=
  m ← load x_mutexes mutex;
  if (m_taken m =? 0) || negb (m_owner m =? me) then mret EPERM
  else
    if 0 <? m_queued m then
      mod_mutex mutex (m_set_queued (m_queued m - 1));;
      if negb (m_queued m - 1 =? 0) then mret 0 else mod_mutex mutex (m_set_taken 0);; mret 0
    else mod_mutex mutex (m_set_taken 0);; mret 0.

Definition __uClibc_wrap_pthread_mutex_lock (fuel : nat) (mutex : Z) : C W Z := spinlock_lock fuel mutex false.
Definition __uClibc_wrap_pthread_mutex_trylock (fuel : nat) (mutex : Z) : C W Z := spinlock_lock fuel mutex true.
Definition __uClibc_wrap_pthread_mutex_unlock (mutex : Z) : C W Z := spinlock_unlock mutex.

Definition pthread_mutexattr_init : C W Z := mret 0.
Definition pthread_mutexattr_destroy : C W Z := mret 0.
Definition pthread_mutexattr_setpshared : C W Z := mret 0.
Definition pthread_mutexattr_settype : C W Z := mret 0.
Definition pthread_mutexattr_getpshared (pshared : Z) : C W Z := store_cell pshared 0;; mret 0.
Definition pthread_mutexattr_gettype (type : Z) : C W Z := store_cell type 0;; mret 0.

Definition mutex_zero : pthread_mutex_t := Mutex 0 0 0 0 0.

Definition pthread_mutex_init (mutex : Z) : C W Z :=
  cx_mod (fun w => x_set_mutexes (<[mutex := mutex_zero]> (x_mutexes w)) w);; mret 0.
Definition pthread_mutex_destroy (mutex : Z) : C W Z := mret 0.

Definition dolock (fuel : nat) (mutex : Z) (istry : bool) : C W Z :=
  WaitForHbNodeMustExist me fuel false false;;
  m ← load x_mutexes mutex;
  let acquire := mod_mutex mutex (fun m => m_set_owner me (m_set_taken 1 m));; mret 0 in
  if negb (m_taken m =? 0) || (0 <? m_queued m) then
    if istry then AdvanceHbNode me;; mret EBUSY
    else
      mod_mutex mutex (fun m => m_set_queued (u32 (m_queued m + 1)) m);;
      AdvanceHbNode me;;
      TakeNextWaitSlot me;;
      DoOneSyncOpMustExistCanSleep me fuel;;
      acquire
  else AdvanceHbNode me;; acquire.

Definition dounlock (fuel : nat) (mutex : Z) : C W Z :=
  m ← load x_mutexes mutex;
  if (m_taken m =? 0) || negb (m_owner m =? me) then mret EPERM
  else
    mod_mutex mutex (m_set_taken 0);;
    (if 0 <? m_queued m then mod_mutex mutex (m_set_queued (m_queued m - 1)) else mret tt);;
    DoOneSyncOpMustExist me fuel;;
    mret 0.

Definition pthread_mutex_lock (fuel : nat) (mutex : Z) : C W Z := dolock fuel mutex false.
Definition pthread_mutex_trylock (fuel : nat) (mutex : Z) : C W Z := dolock fuel mutex true.
Definition pthread_mutex_unlock (fuel : nat) (mutex : Z) : C W Z := dounlock fuel mutex.

(** ** Condition variables *)

Definition cond_zero : pthread_cond_t := Cond 0 0 0 0.

Definition pthread_cond_init (cond : Z) : C W Z :=
  cx_mod (fun w => x_set_conds (<[cond := cond_zero]> (x_conds w)) w);; mret 0.
Definition pthread_cond_destroy (cond : Z) : C W Z := mret 0.
Definition pthread_cond_timedwait : C W Z := cx_stop_with CxAssert.

Definition pthread_cond_wait (fuel : nat) (cond mutex : Z) : C W Z :=
  c ← load x_conds cond;
  (if 0 <? c_queued c then cx_assert (c_mutex c =? mutex) else mod_cond cond (c_set_mutex mutex));;
  mod_cond cond (fun c => c_set_queued (u32 (c_queued c + 1)) c);;
  r ← dounlock fuel mutex;
  if negb (r =? 0) then mod_cond cond (fun c => c_set_queued (u32 (c_queued c - 1)) c);; mret EPERM
  else
    TakeNextWaitSlot me;;
    DoOneSyncOpMustExistCanSleep me fuel;;
    r ← dolock fuel mutex false;
    if negb (r =? 0) then mret EPERM else mret 0.

Definition pthread_cond_broadcast (fuel : nat) (cond : Z) : C W Z :=
  WaitForHbNodeMustExist me fuel false false;;
  mod_cond cond (c_set_queued 0);;
  AdvanceHbNode me;;
  mret 0.

Definition pthread_cond_signal (fuel : nat) (cond : Z) : C W Z :=
  WaitForHbNodeMustExist me fuel false false;;
  mod_cond cond (fun c => if 0 <? c_queued c then c_set_queued (c_queued c - 1) c else c);;
  AdvanceHbNode me;;
  mret 0.

(** ** Barriers *)

Definition pthread_barrier_init (barrier count : Z) : C W Z :=
  mod_barrier barrier (fun b => b_set_left count (b_set_init_count count b));; mret 0.
Definition pthread_barrier_destroy (barrier : Z) : C W Z := mret 0.

(** [numIncoming] points into the schedule as it was before the wait. *)
Definition pthread_barrier_wait (fuel : nat) (barrier : Z) : C W Z :=
  b ← load x_barriers barrier;
  if b_init_count b =? 0 then mret EINVAL
  else
    mod_barrier barrier (fun b => b_set_left (u32 (b_left b - 1)) b);;
    l ← my_tls me;
    WaitForHbNodeMustExistCanSleep me fuel;;
    numIncoming ← cx_read (fun _ => l_ptr l !! 1%nat);
    b ← load x_barriers barrier;
    result ← (if numIncoming =? u32 (b_init_count b - 1) then
                mod_barrier barrier (b_set_left (b_init_count b));;
                AdvanceHbNode me;;
                mret PTHREAD_BARRIER_SERIAL_THREAD
              else
                cx_assert (numIncoming =? 0);;
                AdvanceHbNode me;;
                DoOneSyncOpMustExistCanSleep me fuel;;
                mret 0);
    SkipRegionBarriersOrExit me fuel;;
    mret result.

(** ** Read-write locks: not implemented by this runtime *)

Definition pthread_rwlock_init : C W Z := mret 0.
Definition pthread_rwlock_destroy : C W Z := mret 0.
Definition pthread_rwlock_rdlock : C W Z := mret 0.
Definition pthread_rwlock_tryrdlock : C W Z := mret 0.
Definition pthread_rwlock_wrlock : C W Z := mret 0.
Definition pthread_rwlock_trywrlock : C W Z := mret 0.
Definition pthread_rwlock_unlock : C W Z := mret 0.

(** ** Semaphores *)

Fixpoint down_loop (n fuel : nat) (sem : Z) (istry : bool) : C W Z :=
  match n with
  | O => cx_stop_with CxFuel
  | S n =>
      s ← load x_sems sem;
      if s_count s =? 0 then
        if istry then AdvanceHbNode me;; cx_mod (x_set_errno EAGAIN);; mret (-1)
        else
          AdvanceHbNode me;;
          TakeNextWaitSlot me;;
          WaitForHbNodeMustExistCanSleep me fuel;;
          down_loop n fuel sem istry
      else
        mod_sem sem (s_set_count (s_count s - 1));;
        AdvanceHbNode me;;
        mret 0
  end.

Definition dodown (fuel : nat) (sem : Z) (istry : bool) : C W Z :=
  WaitForHbNodeMustExist me fuel false false;;
  down_loop fuel fuel sem istry.

Definition doup (fuel : nat) (sem : Z) : C W Z :=
  WaitForHbNodeMustExist me fuel false false;;
  mod_sem sem (fun s => s_set_count (u32 (s_count s + 1)) s);;
  AdvanceHbNode me;;
  mret 0.

Definition sem_init (sem value : Z) : C W Z :=
  if SEM_VALUE_MAX <? value then cx_mod (x_set_errno EINVAL);; mret (-1)
  else cx_mod (fun w => x_set_sems (<[sem := Sem 0 0 value]> (x_sems w)) w);; mret 0.
Definition sem_destroy (sem : Z) : C W Z := mret 0.
Definition sem_wait (fuel : nat) (sem : Z) : C W Z := dodown fuel sem false.
Definition sem_trywait (fuel : nat) (sem : Z) : C W Z := dodown fuel sem true.
Definition sem_post (fuel : nat) (sem : Z) : C W Z := doup fuel sem.
End Pthread.

(** ** The spin lock of the library's own mutexes *)

Section Spin.
Context {U : Type} `{!Instrumented U} (me : Z).
Abbreviation W := (cworld U).

Definition with_mutex (p : Z) (m : pthread_mutex_t) (w : W) : W := x_set_mutexes (<[p := m]> (x_mutexes w)) w.

Lemma load_mutex_run p m (w : W) : x_mutexes w !! p = Some m -> load x_mutexes p w = Ret m w.
Proof. intros H. unfold load, cx_read. by rewrite H. Qed.

Lemma mod_mutex_run p f m (w : W) : x_mutexes w !! p = Some m -> mod_mutex p f w = Ret tt (with_mutex p (f m) w).
Proof. intros H. unfold mod_mutex. by erewrite cbind_ret by (by apply load_mutex_run). Qed.

Lemma with_mutex_lookup p m w : x_mutexes (with_mutex p m w) !! p = Some m.
Proof. cbn. apply lookup_insert_eq. Qed.

Lemma with_mutex_twice p m m' w : with_mutex p m' (with_mutex p m w) = with_mutex p m' w.
Proof. unfold with_mutex. cbn. by rewrite insert_insert_eq. Qed.

Lemma test_and_set_run p m (w : W) :
  x_mutexes w !! p = Some m -> test_and_set p w = Ret (m_taken m) (with_mutex p (m_set_taken 1 m) w).
Proof.
  intros H. unfold test_and_set. erewrite cbind_ret by (by apply load_mutex_run).
  by erewrite cbind_ret by (by apply mod_mutex_run).
Qed.

(** The spin lock tests the wrong way round.  [__sync_lock_test_and_set]
    returns the old value, which [spinlock_lock] takes for success: a lock that
    is held, by whoever, is taken over at once, also by [trylock]; and [trylock]
    on a free lock, whose last owner was another thread, fails with EBUSY and
    leaves it marked as taken. *)
Theorem spinlock_inverted (fuel : nat) (p : Z) (m : pthread_mutex_t) (w : W) :
  x_mutexes w !! p = Some m ->
  (m_taken m <> 0 -> forall istry, spinlock_lock me fuel p istry w =
     Ret 0 (with_mutex p (m_set_queued 1 (m_set_owner me (m_set_taken 1 m))) w)) /\
  (m_taken m = 0 -> m_owner m <> me -> spinlock_lock me fuel p true w =
     Ret EBUSY (with_mutex p (m_set_taken 1 m) w)).
Proof.
  intros H. unfold spinlock_lock. split.
  - intros Hne istry. erewrite cbind_ret by (by apply test_and_set_run). rewrite (proj2 (Z.eqb_neq _ _) Hne). cbn [negb].
    unfold spin_own. erewrite cbind_ret by (apply mod_mutex_run, with_mutex_lookup). by rewrite with_mutex_twice.
  - intros Hz Ho. erewrite cbind_ret by (by apply test_and_set_run). rewrite Hz. cbn [negb Z.eqb].
    erewrite cbind_ret by (apply load_mutex_run, with_mutex_lookup). cbn [m_owner m_set_taken].
    by rewrite (proj2 (Z.eqb_neq _ _) Ho).
Qed.
End Spin.

(** ** A run of two threads that lock the same mutex *)

Definition race_rows : list (list snode) := [[SNode 1 0 []; SNode 2 0 []]; [SNode 3 0 [(0, 1)]; SNode 3 0 [(0, 2)]]].

(** The thread comes to the context of its call, locks, and records the result. *)
Definition race_thread (t c : Z) : C (cworld oplog) unit :=
  set_ctx t c;;
  r ← pthread_mutex_lock t 2 100;
  cx_mod (fun w => x_set_user ((t, Z.to_nat r) :: x_user w) w).

Definition race_world : cworld oplog := x_set_mutexes {[ 100 := mutex_zero ]} (demo_world race_rows).

Definition race_pool : pool :=
  Pool race_world {[ 0 := Spin (fun _ => true) race_world (race_thread 0 1);
                     1 := Spin (fun _ => true) race_world (race_thread 1 3) ]}.

Definition both_locked (p : pool) : bool :=
  bool_decide (x_user (p_world p) = [(0, 0%nat); (1, 0%nat)]) &&
  match p_threads p !! 0, p_threads p !! 1 with Some (Ret _ _), Some (Ret _ _) => true | _, _ => false end.

(** C35: two threads can hold a mutex together.  [dolock] marks the mutex as taken
    only after [AdvanceHbNode] has released the threads that wait for its node.
    Thread 1's call is ordered after thread 0's; it can still find the mutex
    free, and both calls of [pthread_mutex_lock] return 0 without an unlock. *)
Theorem dolock_race : exists p, rtc pool_run race_pool p /\ both_locked p = true.
Proof.
  destruct (run_all [0; 1; 1; 1; 0] race_pool) as [p|] eqn:Hp; [|vm_compute in Hp; discriminate].
  exists p. split; [by eapply run_all_sound|].
  assert (both_locked <$> run_all [0; 1; 1; 1; 0] race_pool = Some true) as H by (vm_compute; reflexivity).
  rewrite Hp in H. by injection H.
Qed.

Lemma spinlock_inverted_witness :
  let w := x_set_mutexes {[ 100 := Mutex 0 0 7 1 1 ]} (demo_world []) in
  spinlock_lock 3 1 100 true w = Ret 0 (with_mutex 100 (Mutex 0 0 3 1 1) w).
Proof.
  intros w. destruct (spinlock_inverted 3 1 100 (Mutex 0 0 7 1 1) w) as [H _]; [vm_compute; reflexivity|].
  apply H. discriminate.
Defined.
