(* ===== verification/CxRegion.v ===== *)
(** * The barrier between regions

    All threads of the program meet at [RegionBarrier] ([ConstrainedExec/lib.cpp]):
    the last one to arrive finds the next region, selects its schedule, resets
    the clocks and releases the others; every thread then starts with its part of
    the new schedule. *)

From stdpp Require Import base gmap list fin_maps relations sets.
From Stdlib Require Import ZArith Lia.
From S2P Require Import Prelude PthreadTypes CxState CxSched CxPool.

(** Who has arrived at the barrier, and who has left it. *)
Definition visits : Type := gset Z * gset Z.

Section Region.
Context `{!Instrumented visits}.
Abbreviation W := (cworld visits).
Context (n : nat) (k0 : Z) (rid : Z) (ctxs : list (Z * Z)) (lm lm' : list Z).
Context (frags0 : list (option HBSchedule)).

Definition arrived (w : W) : gset Z := (x_user w).1.
Definition departed (w : W) : gset Z := (x_user w).2.
Definition everyone : gset Z := list_to_set (Z.of_nat <$> seq 0 n).

(** A thread records its arrival, passes the barrier, and records that it left. *)
Definition meet (t : Z) : C W unit :=
  cx_mod (fun w => x_set_user ({[t]} ∪ arrived w, departed w) w);;
  RegionBarrier t 1;;
  cx_mod (fun w => x_set_user (arrived w, {[t]} ∪ departed w) w).

(** A schedule with a part for every thread that does not start with a skipped
    node. *)
Definition usable (s : HBSchedule) : Prop :=
  Z.of_nat n <= h_numThreads s /\
  forall t, 0 <= t < Z.of_nat n -> exists x r, at_ (h_threadSchedules s) t = Some (x :: r) /\ x <> SkipHbNodeFlag.

(** The tables have the next region; its selector gives a usable schedule,
    whichever it takes for a state; snapshot functions change the snapshot
    buffer only. *)
Record region_known : Prop := {
  rk_n : (1 <= n <= NTHREADS)%nat;
  rk_k0 : 0 <= k0 < 2 ^ 64 - 1;
  rk_found : find_region regionctx_table 1 (qsort ctxs) lm = (Some rid, lm');
  rk_snapshot w : exists m, snapshot_functions rid None w = x_set_snap m w;
  rk_selector w : usable (schedule_selectors rid w);
  rk_frags : (0 < length frags0)%nat
}.

(** ** Invariant, rely and guarantee *)

Definition gathering (w : W) : Prop :=
  x_ticker w = k0 /\ x_frags w = frags0 /\ x_lmap w = lm /\ arrived w ⊂ everyone /\ departed w = ∅ /\
  x_running w = Z.of_nat n - Z.of_nat (size (arrived w)).

Definition released (w : W) : Prop :=
  x_ticker w = k0 + 1 /\ (exists s, x_frags w !! 0%nat = Some (Some s) /\ usable s) /\ x_fragId w = 0%nat /\ x_lmap w = lm' /\
  arrived w = everyone /\ departed w ⊆ everyone /\ x_running w = Z.of_nat n /\ x_clock w = replicate NTHREADS 0.

Definition region_inv (w : W) : Prop :=
  x_total w = Z.of_nat n /\ gather_contexts w = Some ctxs /\ (gathering w \/ released w).

Definition region_rely (t : Z) (w w' : W) : Prop :=
  x_tls w' !! t = x_tls w !! t /\ (t ∈ arrived w' <-> t ∈ arrived w) /\ (t ∈ departed w' <-> t ∈ departed w) /\
  x_ticker w <= x_ticker w' /\ (k0 < x_ticker w -> x_frags w' = x_frags w).

Definition region_guar (t : Z) (w w' : W) : Prop :=
  x_ticker w <= x_ticker w' /\ (k0 < x_ticker w -> x_frags w' = x_frags w) /\
  forall t', t' <> t -> x_tls w' !! t' = x_tls w !! t' /\ (t' ∈ arrived w' <-> t' ∈ arrived w) /\ (t' ∈ departed w' <-> t' ∈ departed w).

(** A thread waits because it has arrived and somebody else has not. *)
Definition region_blocked (t : Z) (c : W -> bool) (w : W) : Prop := t ∈ arrived w /\ gathering w.

#[export] Instance region_rg : RelyGuarantee region_rely region_guar.
Proof.
  split; unfold region_rely, region_guar.
  - intros t w. repeat split; try done; lia.
  - intros t w1 w2 w3 (H1 & H2 & H3 & H4 & F1) (H5 & H6 & H7 & H8 & F2). split; [congruence|]. split; [tauto|]. split; [tauto|]. split; [lia|].
    intros Hk. rewrite F2 by lia. by apply F1.
  - intros t w. split; [lia|done].
  - intros t w1 w2 w3 (H1 & F1 & H2) (H3 & F2 & H4). split; [lia|]. split; [intros Hk; rewrite F2 by lia; by apply F1|].
    intros t' Ht. destruct (H2 t' Ht) as (? & ? & ?), (H4 t' Ht) as (? & ? & ?). split; [congruence|]. tauto.
  - intros t t' w1 w2 Ht (H1 & F1 & H2). destruct (H2 t' ltac:(done)) as (? & ? & ?). done.
Qed.

Lemma everyone_spec t : t ∈ everyone <-> 0 <= t < Z.of_nat n.
Proof.
  unfold everyone. rewrite elem_of_list_to_set, list_elem_of_fmap. split.
  - intros (k & -> & Hk%elem_of_seq). lia.
  - intros Ht. exists (Z.to_nat t). rewrite elem_of_seq. lia.
Qed.

Lemma everyone_size : size everyone = n.
Proof.
  unfold everyone. rewrite size_list_to_set; [by rewrite length_fmap, length_seq|].
  apply NoDup_fmap_2; [|apply NoDup_seq]. intros a b; lia.
Qed.

(** Contexts are gathered from what the barrier leaves alone. *)
Lemma gather_contexts_ext (w w' : W) :
  x_threadctx w' = x_threadctx w ->
  (forall k, (fun l => (l_ctx l, l_ctxp l)) <$> x_tls w' !! k = (fun l => (l_ctx l, l_ctxp l)) <$> x_tls w !! k) ->
  gather_contexts w' = gather_contexts w.
Proof.
  intros Hc Htls. unfold gather_contexts. rewrite Hc. apply mapM_ext. intros k. specialize (Htls (Z.of_nat k)).
  destruct (x_tls w' !! Z.of_nat k) as [l1|], (x_tls w !! Z.of_nat k) as [l2|]; cbn in *; try done.
  by injection Htls as -> ->.
Qed.

(** ** The last thread *)

Lemma start_region_run (w : W) :
  region_known -> gather_contexts w = Some ctxs -> x_lmap w = lm -> x_frags w = frags0 -> x_ticker w = k0 ->
  x_total w = Z.of_nat n ->
  exists w', start_region w = Ret tt w' /\ x_ticker w' = k0 + 1 /\ (exists s, x_frags w' !! 0%nat = Some (Some s) /\ usable s) /\
    x_fragId w' = 0%nat /\ x_lmap w' = lm' /\ x_running w' = Z.of_nat n /\ x_clock w' = replicate NTHREADS 0 /\
    x_tls w' = x_tls w /\ x_user w' = x_user w /\ x_threadctx w' = x_threadctx w /\ x_total w' = Z.of_nat n.
Proof.
  intros [Hn Hk Hfound Hsnap Hsel Hfr] Hg Hl Hf Ht Htot. unfold start_region.
  erewrite cbind_ret by reflexivity.
  assert (GetNextRegionId (x_set_readidx LogCurrIndex w) = Ret rid (x_set_lmap lm' (x_set_readidx LogCurrIndex w))) as Hid.
  { unfold GetNextRegionId. erewrite cbind_ret; [|unfold cx_read; change (gather_contexts (x_set_readidx LogCurrIndex w)) with (gather_contexts w); rewrite Hg; reflexivity].
    erewrite cbind_ret by reflexivity. cbn [x_lmap x_set_readidx]. rewrite Hl, Hfound. by erewrite cbind_ret by reflexivity. }
  erewrite cbind_ret by exact Hid. set (w1 := x_set_lmap lm' (x_set_readidx LogCurrIndex w)).
  erewrite cbind_ret by reflexivity. destruct (Hsnap w1) as [m ->].
  erewrite cbind_ret by reflexivity. erewrite cbind_ret by reflexivity.
  match goal with |- context [schedule_selectors rid ?v] => pose proof (Hsel v) as Huse; set (first := schedule_selectors rid v) in * end.
  erewrite cbind_ret; cycle 1.
  { unfold set_fragment. rewrite bool_decide_true; [reflexivity|]. cbn. by rewrite Hf. }
  set (w2 := x_set_frags _ _).
  assert (exists w3, (if h_nextScheduleSelectorId first =? 0 then mret tt
      else SnapshotStackVars;; cx_mod (x_set_readidx LogSnapshotIndex)) w2 = Ret tt w3 /\
    (w3 = w2 \/ w3 = x_set_readidx LogSnapshotIndex (x_set_log (copy_log (x_total w2) (x_log w2)) w2))) as (w3 & H3 & Hw3).
  { destruct (h_nextScheduleSelectorId first =? 0); [exists w2; auto|]. eexists. split; [reflexivity|auto]. }
  erewrite cbind_ret by exact H3.
  assert (x_ticker w3 = k0 /\ x_frags w3 !! 0%nat = Some (Some first) /\ x_fragId w3 = 0%nat /\ x_lmap w3 = lm' /\
    x_tls w3 = x_tls w /\ x_user w3 = x_user w /\ x_threadctx w3 = x_threadctx w /\ x_total w3 = Z.of_nat n) as Hall.
  { assert (x_frags w2 !! 0%nat = Some (Some first)) by (cbn; apply list_lookup_insert_eq; by rewrite Hf).
    destruct Hw3 as [-> | ->]; cbn [x_ticker x_frags x_fragId x_lmap x_tls x_user x_threadctx x_total x_set_readidx x_set_log]; done. }
  destruct Hall as (A1 & A2 & A3 & A4 & A5 & A6 & A7 & A8). unfold ReleaseRegionBarrier, ResetVectorClocks.
  erewrite cbind_ret by reflexivity. erewrite cbind_ret by reflexivity. eexists. split; [reflexivity|]. cbn.
  rewrite A1, A8. split; [apply u64_small; lia|]. split; [by exists first|]. done.
Qed.

(** ** After the barrier *)

Lemma enter_region_run (w : W) t l first :
  usable first -> 0 <= t < Z.of_nat n -> x_frags w !! 0%nat = Some (Some first) -> x_tls w !! t = Some l ->
  exists l', (mod_tls t (l_set_frag 0);; InitializeMyThreadSchedulePtr t 1) w = Ret tt (x_set_tls (<[t := l']> (x_tls w)) w) /\
    l_frag l' = 0%nat /\ at_ (h_threadSchedules first) t = Some (l_ptr l') /\ l_ctx l' = l_ctx l /\ l_ctxp l' = l_ctxp l.
Proof.
  intros [Hth Hrows] Ht Hf Hl. destruct (Hrows t Ht) as (x & r & Hrow & Hx).
  erewrite cbind_ret by (unfold mod_tls; rewrite Hl; reflexivity). set (w1 := x_set_tls _ w).
  assert (x_tls w1 !! t = Some (l_set_frag 0 l)) as Hl1 by apply lookup_insert_eq.
  cbn [InitializeMyThreadSchedulePtr]. erewrite cbind_ret; cycle 1.
  { unfold MyThreadCurrSchedule. erewrite cbind_ret by (unfold my_tls, cx_read; rewrite Hl1; reflexivity).
    unfold cx_read. cbn [l_frag l_set_frag]. change (x_frags w1) with (x_frags w). rewrite Hf. reflexivity. }
  rewrite (proj2 (Z.leb_gt _ _)) by lia. erewrite cbind_ret by (unfold cx_read; rewrite Hrow; reflexivity).
  erewrite cbind_ret by (unfold mod_tls; rewrite Hl1; reflexivity).
  set (l' := l_set_ptr (x :: r) (l_set_frag 0 l)).
  assert (x_set_tls (<[t := l']> (x_tls w1)) w1 = with_ptr t (l_set_frag 0 l) (x :: r) w) as ->.
  { unfold with_ptr, w1. cbn. by rewrite insert_insert_eq. }
  rewrite skip_run by done. exists l'. by rewrite Hrow.
Qed.

(** ** One thread at the barrier *)

Abbreviation rsafe := (safe region_inv region_rely region_guar region_blocked).

(** The thread has its part of the schedule that was selected. *)
Definition entered (t : Z) (w : W) : Prop :=
  exists s l, x_frags w !! 0%nat = Some (Some s) /\ x_tls w !! t = Some l /\ l_frag l = 0%nat /\ at_ (h_threadSchedules s) t = Some (l_ptr l).

Definition through (t : Z) (w : W) : Prop := t ∈ arrived w /\ t ∈ departed w /\ k0 < x_ticker w /\ entered t w.

Lemma tls_ctx_same (w : W) t l l' :
  x_tls w !! t = Some l -> l_ctx l' = l_ctx l -> l_ctxp l' = l_ctxp l ->
  gather_contexts (x_set_tls (<[t := l']> (x_tls w)) w) = gather_contexts w.
Proof.
  intros Hl H1 H2. apply gather_contexts_ext; [done|]. intros k. cbn. destruct (decide (t = k)) as [<-|Hne].
  - rewrite lookup_insert_eq, Hl. cbn. by rewrite H1, H2.
  - by rewrite lookup_insert_ne.
Qed.

Lemma enter_safe t w l :
  region_inv w -> released w -> 0 <= t < Z.of_nat n -> x_tls w !! t = Some l ->
  rsafe t w ((mod_tls t (l_set_frag 0);; InitializeMyThreadSchedulePtr t 1) w) (fun _ w' => released w' /\ entered t w').
Proof.
  intros (Htot & Hg & _) Hrel Ht Hl. pose proof Hrel as (_ & (first & Hf & Huse) & _).
  destruct (enter_region_run w t l first Huse Ht Hf Hl) as (l' & -> & H1 & H2 & H3 & H4). cbn [safe].
  split; [|split; [split; [done|split; [|by right]]|split; [done|]]].
  - split; [done|]. split; [done|]. intros t' Hne. cbn. by rewrite lookup_insert_ne.
  - by rewrite (tls_ctx_same w t l l').
  - exists first, l'. cbn. by rewrite lookup_insert_eq.
Qed.

Lemma depart_safe t w :
  region_inv w -> released w -> 0 <= t < Z.of_nat n -> entered t w ->
  rsafe t w (cx_mod (fun w => x_set_user (arrived w, {[t]} ∪ departed w) w) w) (fun _ => through t).
Proof.
  intros (Htot & Hg & _) Hrel Ht He. pose proof Hrel as (R1 & R2 & R3 & R4 & R5 & R6 & R7 & R8). cbn [cx_mod safe].
  pose proof (proj2 (everyone_spec t) Ht) as Hin. unfold region_guar, region_inv, released, through, arrived, departed in *. cbn.
  split; [split; [apply Z.le_refl|]; split; [done|]; intros t' Hne; split; [done|]; set_solver|].
  split; [|split; [by rewrite R5|]; split; [set_solver|]; split; [change (k0 < x_ticker w); lia|exact He]].
  split; [done|]. split; [exact Hg|]. right. repeat split; try done. set_solver.
Qed.

Lemma arrive_count (a : gset Z) t :
  a ⊂ everyone -> 0 <= t < Z.of_nat n -> t ∉ a ->
  Z.of_nat (size ({[t]} ∪ a)) = Z.of_nat (size a) + 1 /\ {[t]} ∪ a ⊆ everyone /\
  (Z.of_nat (size ({[t]} ∪ a)) <= Z.of_nat n) /\ (size ({[t]} ∪ a) = n -> {[t]} ∪ a = everyone).
Proof.
  intros Ha Ht Hnin. assert ({[t]} ∪ a ⊆ everyone) as Hsub.
  { apply union_subseteq. split; [apply singleton_subseteq_l; by apply everyone_spec|set_solver]. }
  split; [by apply size_insert_fresh|]. split; [done|]. split; [apply subseteq_size in Hsub; rewrite everyone_size in Hsub; lia|].
  intros Hsz. apply set_eq. intros x. split; [apply Hsub|]. intros Hx. destruct (decide (x ∈ {[t]} ∪ a)) as [|Hno]; [done|].
  assert (size ({[t]} ∪ a) < size everyone)%nat as Hlt by (apply subset_size; set_solver). rewrite everyone_size in Hlt. lia.
Qed.

Lemma meet_safe t w l s :
  region_known -> region_inv w -> 0 <= t < Z.of_nat n -> t ∉ arrived w -> x_tls w !! t = Some l ->
  frags0 !! l_frag l = Some (Some s) -> h_exitsProgram s = false ->
  rsafe t w (meet t w) (fun _ => through t).
Proof.
  intros Hrk (Htot & Hg & Hphase) Ht Hnin Hl Hs Hex. pose proof (proj2 (everyone_spec t) Ht) as Hev.
  destruct Hphase as [(G1 & G2 & G3 & G4 & G5 & G6)|(_ & _ & _ & _ & R5 & _)]; [|set_solver].
  pose proof (rk_n Hrk) as Hn. pose proof (rk_k0 Hrk) as Hk. destruct (arrive_count _ _ G4 Ht Hnin) as (Hsz & Hsub & Hle & Hall).
  unfold meet. set (w1 := x_set_user ({[t]} ∪ arrived w, departed w) w).
  rewrite (cbind_ret _ _ w tt w1) by reflexivity.
  eapply safe_bind with (Q := fun _ w' => released w' /\ entered t w'); [apply region_rg| |].
  2:{ intros _ w' Hinv [Hrel Hent]. by apply depart_safe. }
  unfold RegionBarrier, RegionBarrier_with. erewrite cbind_ret; cycle 1.
  { unfold MyThreadCurrSchedule. erewrite cbind_ret by (unfold my_tls, cx_read; change (x_tls w1) with (x_tls w); rewrite Hl; reflexivity).
    unfold cx_read. change (x_frags w1) with (x_frags w). rewrite G2, Hs. reflexivity. }
  rewrite Hex. rewrite (cbind_ret _ _ w1 tt w1) by reflexivity.
  rewrite (cbind_ret _ _ w1 (x_ticker w1) w1) by reflexivity. set (w2 := x_set_running (u32 (x_running w1 - 1)) w1).
  rewrite (cbind_ret _ _ w1 tt w2), (cbind_ret _ _ w2 (x_running w2) w2) by reflexivity.
  assert (x_running w2 = Z.of_nat n - Z.of_nat (size ({[t]} ∪ arrived w))) as Hrun.
  { change (x_running w2) with (u32 (x_running w - 1)). rewrite G6. rewrite u32_small; [lia|]. unfold NTHREADS, KLEE_MAX_THREADS in Hn. lia. }
  rewrite Hrun. destruct (Z.eqb_spec (Z.of_nat n - Z.of_nat (size ({[t]} ∪ arrived w))) 0) as [Hz|Hnz].
  - destruct (start_region_run w2 Hrk) as (w3 & H3 & B1 & B2 & B3 & B4 & B5 & B6 & B7 & B8 & B9 & B10); try done.
    erewrite cbind_ret by exact H3.
    assert (released w3) as Hrel.
    { unfold released, arrived, departed. rewrite B8. cbn. rewrite G5. repeat split; try done. apply Hall. lia. }
    eapply safe_guar with (w1 := w3); [apply region_rg| |].
    + split; [rewrite B1, G1; lia|]. split; [rewrite G1; lia|]. intros t' Hne. unfold arrived, departed. rewrite B7, B8. cbn. set_solver.
    + apply (enter_safe t w3 l); try done; [|by rewrite B7].
      split; [done|]. split; [|by right]. rewrite (gather_contexts_ext w); [done|done|]. intros k. by rewrite B7.
  - erewrite cbind_spin by reflexivity. cbn [safe act_bind]. split; [|split].
    + split; [done|]. split; [done|]. intros t' Hne. unfold arrived, departed. cbn. set_solver.
    + split; [done|]. split; [exact Hg|]. left. unfold gathering, arrived, departed. cbn [x_user x_set_running w2 w1 x_set_user fst snd].
      repeat split; try done. intros Heq. apply Hnz. apply subseteq_size in Heq. rewrite everyone_size in Heq. unfold arrived in *. lia.
    + intros w' (Htls & Harr & Hdep & Htick & _) Hinv'. split.
      * intros Hc. change (x_ticker w1) with (x_ticker w) in Hc. rewrite G1 in Hc. pose proof Hinv' as (Htot' & Hg' & [Hgath|Hrel]).
        { destruct Hgath as (T & _). rewrite T, Z.eqb_refl in Hc. done. }
        apply (enter_safe t w' l); try done. by rewrite Htls.
      * intros Hc. change (x_ticker w1) with (x_ticker w) in Hc. rewrite G1 in Hc. split.
        { apply Harr. unfold arrived. cbn. set_solver. }
        destruct Hinv' as (_ & _ & [Hgath|Hrel]); [done|]. destruct Hrel as (T & _). rewrite T in Hc.
        destruct (Z.eqb_spec (k0 + 1) k0); [lia|done].
Qed.

(** ** All threads *)

Definition meet_pool (w : W) : pool := Pool w (spawn n (fun t => Spin (fun _ => true) w (meet t))).

(** The threads are about to reach the barrier, in fragments that do not end the
    program. *)
Definition before_barrier (w : W) : Prop :=
  x_total w = Z.of_nat n /\ x_running w = Z.of_nat n /\ gather_contexts w = Some ctxs /\
  x_ticker w = k0 /\ x_frags w = frags0 /\ x_lmap w = lm /\ x_user w = (∅, ∅) /\
  forall t, 0 <= t < Z.of_nat n -> exists l s,
    x_tls w !! t = Some l /\ frags0 !! l_frag l = Some (Some s) /\ h_exitsProgram s = false.

Abbreviation rpool_ok := (pool_ok region_inv region_rely region_guar region_blocked through).

Lemma meet_pool_ok w : region_known -> before_barrier w -> rpool_ok (meet_pool w).
Proof.
  intros Hrk (H1 & H2 & H3 & H4 & H5 & H6 & H7 & H8). pose proof (rk_n Hrk) as Hn. split.
  - split; [done|]. split; [done|]. constructor. unfold gathering, arrived, departed. cbn [p_world meet_pool].
    rewrite H7. cbn [fst snd]. repeat split; try done; [|rewrite H2, size_empty; lia].
    intros Hsub. assert (0 ∈ everyone) as H0 by (apply everyone_spec; lia). set_solver.
  - intros t o Ho. cbn [p_threads meet_pool] in Ho. rewrite spawn_lookup in Ho. case_decide as Ht; [|done]. injection Ho as <-.
    cbn. exists w. split; [apply (rely_refl region_rely region_guar)|]. intros w' (Htls & Harr & _) Hinv. split; [|done]. intros _.
    destruct (H8 t Ht) as (l & s & Hl & Hs & Hex). eapply meet_safe; try done; [|by rewrite Htls].
    intros Hin%Harr. unfold arrived in Hin. rewrite H7 in Hin. set_solver.
Qed.

(** C16: the region barrier.  Let the tables have the region that the threads'
    contexts lead to, let its selector give, for every state, a schedule with a part for
    every thread that does not start with a skipped node, and let its
    snapshot function change the snapshot buffer only.  When all threads of the program, at
    most 16, in fragments that do not end it, come to the barrier, in any interleaving: no thread leaves it before everybody has arrived; once
    somebody has left, the clocks are reset and all threads count as running in
    the next region; nothing fails; and the threads cannot get stuck: every run
    ends with all of them past the barrier, in the first fragment of the new
    region, each at its own part of the one schedule that was selected. *)
Theorem region_barrier_meets (w : W) :
  region_known -> before_barrier w ->
  (forall p, rtc pool_run (meet_pool w) p -> departed (p_world p) <> ∅ ->
     arrived (p_world p) = everyone /\ x_running (p_world p) = Z.of_nat n /\
     x_clock (p_world p) = replicate NTHREADS 0 /\ x_ticker (p_world p) = k0 + 1) /\
  sn pool_run (meet_pool w) /\
  (forall p, rtc pool_run (meet_pool w) p -> nf pool_run p ->
     forall t, 0 <= t < Z.of_nat n -> t ∈ departed (p_world p) /\ entered t (p_world p)).
Proof.
  intros Hrk Hb. assert (forall p, rtc pool_run (meet_pool w) p -> rpool_ok p) as Hok.
  { intros p Hr. eapply (pool_ok_rtc _ _ _ _ _ _ _ Hr). by apply meet_pool_ok. }
  split; [|split; [apply pool_run_sn|]].
  - intros p Hr Hd. destruct (Hok p Hr) as [(_ & _ & [G|(R1 & _ & _ & _ & R5 & _ & R7 & R8)]) _]; [|done].
    destruct G as (_ & _ & _ & _ & G5 & _). done.
  - intros p Hr Hnf. assert (forall t, 0 <= t < Z.of_nat n -> t ∈ arrived (p_world p) \/ exists p', pool_run p p') as Harr.
    { intros t Ht. destruct (proj2 (pool_run_dom _ _ t Hr)) as [o Ho]; [cbn; by rewrite spawn_lookup, decide_True|].
      destruct (pool_ok_thread _ _ _ _ _ _ _ _ (Hok p Hr) Ho) as [[_ (w1 & (_ & Ha & _) & Hin & _)]|[Hp|(c & w0 & k & -> & Hin & _)]];
        [left; by apply Ha|by right|by left]. }
    intros t Ht. destruct (proj2 (pool_run_dom _ _ t Hr)) as [o Ho]; [cbn; by rewrite spawn_lookup, decide_True|].
    destruct (pool_ok_thread _ _ _ _ _ _ _ _ (Hok p Hr) Ho) as [[_ (w1 & Hrely & Hthr)]|[Hp|(c & w0 & k & -> & _ & G)]].
    + destruct Hrely as (Htls & _ & Hdep & _ & Hfr), Hthr as (_ & Hd & Hk & s & l & Hf & Hrest). split; [by apply Hdep|].
      exists s, l. by rewrite Htls, (Hfr Hk).
    + by destruct Hnf.
    + destruct G as (_ & _ & _ & G4 & _). destruct G4 as [_ Hno]. destruct Hno. intros x Hx%everyone_spec.
      destruct (Harr x Hx) as [|Hp]; [done|]. by destruct Hnf.
Qed.
End Region.

(** ** An example with two threads *)

Definition next_schedule : HBSchedule := Sched 2 0 0 false [[1; 0; 0]; [2; 0; 0]].

#[export] Instance region_instrumented : Instrumented visits := {
  callctx_table c := c;
  regionctx_table := [[(4, 0)]; [(5, 0); (6, 1)]];
  schedule_selectors _ _ := next_schedule;
  snapshot_functions _ _ w := x_set_snap ∅ w;
  qsort l := l;
  schedule_fragment_1 := next_schedule
}.

Definition region_world : cworld visits :=
  CW [Some (Sched 2 0 0 false [[0]; [0]])] 0 [3; 4] [true; true] [0; 1] 2 2 9 1 1 ∅ ∅ ∅
     (spawn 2 (fun t => Tls false 0 [5 + t] 0 [0] false)) [] 2 ∅ ∅ ∅ ∅ ∅ ∅ 0 [] (∅, ∅).

Lemma region_barrier_meets_witness :
  before_barrier 2 9 [(5, 0); (6, 1)] [0; 1] (x_frags region_world) region_world /\
  forall p, rtc pool_run (meet_pool 2 region_world) p -> nf pool_run p -> 1 ∈ departed (p_world p).
Proof.
  assert (before_barrier 2 9 [(5, 0); (6, 1)] [0; 1] (x_frags region_world) region_world) as Hb.
  { repeat (split; [reflexivity|]). intros t Ht. exists (Tls false 0 [5 + t] 0 [0] false), (Sched 2 0 0 false [[0]; [0]]).
    split; [|done]. cbn [region_world x_tls]. rewrite spawn_lookup, decide_True by done. reflexivity. }
  split; [exact Hb|]. intros p Hr Hn.
  destruct (region_barrier_meets 2 9 2 [(5, 0); (6, 1)] [0; 1] [0; 1] (x_frags region_world) region_world)
    as (_ & _ & Hall); [|exact Hb|apply (proj1 (Hall p Hr Hn 1 ltac:(lia)))].
  split.
  - unfold NTHREADS, KLEE_MAX_THREADS. lia.
  - lia.
  - reflexivity.
  - intros w. exists ∅. reflexivity.
  - intros w. split; [apply Z.leb_le; reflexivity|].
    intros t Ht. assert (t = 0 \/ t = 1) as [-> | ->] by lia; do 2 eexists; (split; [reflexivity|discriminate]).
  - apply Nat.ltb_lt. reflexivity.
Defined.
