(* ===== verification/Intrinsics.v ===== *)
(** * Intrinsics of the symbolic environment ([runtime/Intrinsic])

    The block operations, the additions with carry and the division check that
    are linked into the program under test.  Memory is a map from addresses to
    bytes; a missing address is outside of every object. *)

From stdpp Require Import base gmap list fin_maps.
From Stdlib Require Import ZArith Lia.
From S2P Require Import Prelude.

Abbreviation bytes := (gmap Z Z).

(** ** Block operations *)

(** [while (len-- > 0) *dest++ = *src++;] *)
Fixpoint copy_up (len : nat) (dest src : Z) (m : bytes) : option bytes :=
  match len with
  | O => Some m
  | S len => x ← m !! src; _ ← m !! dest; copy_up len (dest + 1) (src + 1) (<[dest := x]> m)
  end.

(** [while (count--) *a-- = *b--;] *)
Fixpoint copy_down (count : nat) (a b : Z) (m : bytes) : option bytes :=
  match count with
  | O => Some m
  | S count => x ← m !! b; _ ← m !! a; copy_down count (a - 1) (b - 1) (<[a := x]> m)
  end.

Definition memcpy (destaddr srcaddr : Z) (len : nat) (m : bytes) : option (Z * bytes) :=
  m' ← copy_up len destaddr srcaddr m; Some (destaddr, m').

Definition mempcpy (destaddr srcaddr : Z) (len : nat) (m : bytes) : option (Z * bytes) :=
  m' ← copy_up len destaddr srcaddr m; Some (destaddr + Z.of_nat len, m').

Definition memmove (dst src : Z) (count : nat) (m : bytes) : option (Z * bytes) :=
  if src =? dst then Some (dst, m)
  else if dst <? src then m' ← copy_up count dst src m; Some (dst, m')
  else m' ← copy_down count (dst + Z.of_nat count - 1) (src + Z.of_nat count - 1) m; Some (dst, m').

(** ** Addition with carry *)

Definition cmax (a b : Z) : Z := if b <? a then a else b.

Definition uadds (a b : Z) : Z * bool := let v := u16 (a + b) in (v, v <? cmax a b).
Definition uadd (a b : Z) : Z * bool := let v := u32 (a + b) in (v, v <? cmax a b).
Definition uaddl (a b : Z) : Z * bool := let v := u64 (a + b) in (v, v <? cmax a b).

(** ** Division *)

Inductive report := Continue | DivideByZero.
Definition klee_div_zero_check (z : Z) : report := if z =? 0 then DivideByZero else Continue.

(** ** Specifications *)

(** [n] bytes from an address on are inside of objects. *)
Definition block (m : bytes) (a : Z) (n : nat) : Prop := forall k, a <= k < a + Z.of_nat n -> is_Some (m !! k).

Lemma block_insert m a n k x : block m a n -> block (<[k := x]> m) a n.
Proof. intros H j Hj. apply lookup_insert_is_Some'. right. by apply H. Qed.

(** What a copy leaves at an address, with the source read in the old memory. *)
Definition copied (m m' : bytes) (dst src : Z) (n : nat) : Prop :=
  forall k, m' !! k = if decide (dst <= k < dst + Z.of_nat n) then m !! (src + (k - dst)) else m !! k.

(** Copying upwards is right unless the destination starts inside of the source. *)
Lemma copy_up_spec n dst src m :
  block m dst n -> block m src n -> dst <= src \/ src + Z.of_nat n <= dst ->
  exists m', copy_up n dst src m = Some m' /\ copied m m' dst src n.
Proof.
  revert dst src m. induction n as [|n IH]; intros dst src m Hd Hs Hov; cbn [copy_up].
  { exists m. split; [done|]. intros k. by rewrite decide_False by lia. }
  destruct (Hs src) as [x Hx]; [lia|]. destruct (Hd dst) as [y Hy]; [lia|]. rewrite Hx, Hy. cbn.
  destruct (IH (dst + 1) (src + 1) (<[dst := x]> m)) as (m' & Hm' & Hc).
  - apply block_insert. intros k Hk. apply Hd. lia.
  - apply block_insert. intros k Hk. apply Hs. lia.
  - lia.
  - exists m'. split; [done|]. intros k. rewrite Hc. destruct (decide (k = dst)) as [->|Hne].
    + rewrite decide_False, decide_True, lookup_insert_eq by lia. by rewrite Z.sub_diag, Z.add_0_r.
    + destruct (decide (dst + 1 <= k < dst + 1 + Z.of_nat n)) as [Hk|Hk].
      * rewrite decide_True by lia. rewrite lookup_insert_ne by lia. f_equal. lia.
      * rewrite lookup_insert_ne by done. by rewrite decide_False by lia.
Qed.

(** Copying downwards is right unless the source starts inside of the destination. *)
Lemma copy_down_spec n a b m :
  let dst := a - Z.of_nat n + 1 in let src := b - Z.of_nat n + 1 in
  block m dst n -> block m src n -> src <= dst \/ dst + Z.of_nat n <= src ->
  exists m', copy_down n a b m = Some m' /\ copied m m' dst src n.
Proof.
  cbv zeta. revert a b m. induction n as [|n IH]; intros a b m Hd Hs Hov; cbn [copy_down].
  { exists m. split; [done|]. intros k. by rewrite decide_False by lia. }
  destruct (Hs b) as [x Hx]; [lia|]. destruct (Hd a) as [y Hy]; [lia|]. rewrite Hx, Hy. cbn.
  destruct (IH (a - 1) (b - 1) (<[a := x]> m)) as (m' & Hm' & Hc).
  - apply block_insert. intros k Hk. apply Hd. lia.
  - apply block_insert. intros k Hk. apply Hs. lia.
  - lia.
  - exists m'. split; [done|]. intros k. rewrite Hc. destruct (decide (k = a)) as [->|Hne].
    + rewrite decide_False, decide_True, lookup_insert_eq by lia. rewrite <- Hx. f_equal. lia.
    + destruct (decide (a - 1 - Z.of_nat n + 1 <= k < a - 1 - Z.of_nat n + 1 + Z.of_nat n)) as [Hk|Hk].
      * rewrite decide_True by lia. rewrite lookup_insert_ne by lia. f_equal. lia.
      * rewrite lookup_insert_ne by done. by rewrite decide_False by lia.
Qed.

(** Blocks may overlap in any way for [memmove]. *)
Lemma memmove_spec dst src n m :
  block m dst n -> block m src n ->
  exists m', memmove dst src n m = Some (dst, m') /\ copied m m' dst src n.
Proof.
  intros Hd Hs. unfold memmove. destruct (Z.eqb_spec src dst) as [->|Hne].
  { exists m. split; [done|]. intros k. case_decide; [|done]. f_equal. lia. }
  destruct (Z.ltb_spec dst src).
  - destruct (copy_up_spec n dst src m) as (m' & -> & Hc); [done|done|lia|]. by exists m'.
  - destruct (copy_down_spec n (dst + Z.of_nat n - 1) (src + Z.of_nat n - 1) m) as (m' & -> & Hc).
    + by replace (dst + Z.of_nat n - 1 - Z.of_nat n + 1) with dst by lia.
    + by replace (src + Z.of_nat n - 1 - Z.of_nat n + 1) with src by lia.
    + lia.
    + exists m'. split; [done|].
      by replace (dst + Z.of_nat n - 1 - Z.of_nat n + 1) with dst in Hc by lia;
         replace (src + Z.of_nat n - 1 - Z.of_nat n + 1) with src in Hc by lia.
Qed.

(** The carry says whether the sum did not fit. *)
Lemma carry_spec w a b :
  0 < w -> 0 <= a < 2 ^ w -> 0 <= b < 2 ^ w ->
  let v := (a + b) mod 2 ^ w in (v <? cmax a b) = (2 ^ w <=? a + b) /\ v = a + b - (if 2 ^ w <=? a + b then 2 ^ w else 0).
Proof.
  intros Hw Ha Hb. cbv zeta. assert ((a + b) mod 2 ^ w = a + b - (if 2 ^ w <=? a + b then 2 ^ w else 0)) as ->.
  { destruct (Z.leb_spec (2 ^ w) (a + b)).
    - rewrite <- (Z.mod_small (a + b - 2 ^ w) (2 ^ w)) by lia.
      rewrite <- (Z.mod_add (a + b - 2 ^ w) 1) by lia. f_equal. lia.
    - rewrite Z.mod_small by lia. lia. }
  split; [|done]. unfold cmax. destruct (Z.leb_spec (2 ^ w) (a + b)), (Z.ltb_spec b a); zbool.
Qed.

(** An addition of two [w]-bit numbers: the sum modulo [2 ^ w], and whether it did not fit. *)
Definition exact_sum (w : Z) (add : Z -> Z -> Z * bool) : Prop :=
  forall a b, 0 <= a < 2 ^ w -> 0 <= b < 2 ^ w ->
    add a b = (a + b - (if 2 ^ w <=? a + b then 2 ^ w else 0), 2 ^ w <=? a + b).

Lemma carry_exact w : 0 < w -> exact_sum w (fun a b => let v := (a + b) mod 2 ^ w in (v, v <? cmax a b)).
Proof. intros Hw a b Ha Hb. destruct (carry_spec w a b Hw Ha Hb) as [H1 H2]. cbv zeta. by rewrite H1, H2. Qed.

(** C31: memory can be moved whatever way the blocks overlap: the destination
    gets the old contents of the source and nothing else changes; [memcpy] and
    [mempcpy] do the same when the destination does not start inside of the
    source.  The 16-, 32- and 64-bit additions return the sum modulo
    their width and set the carry exactly when the sum does not fit, for all
    operands of their width. *)
Theorem intrinsics_spec (m : bytes) (dst src : Z) (n : nat) :
  block m dst n -> block m src n ->
  (exists m', memmove dst src n m = Some (dst, m') /\ copied m m' dst src n) /\
  (dst <= src \/ src + Z.of_nat n <= dst ->
     exists m', memcpy dst src n m = Some (dst, m') /\ mempcpy dst src n m = Some (dst + Z.of_nat n, m') /\
       copied m m' dst src n) /\
  exact_sum 16 uadds /\ exact_sum 32 uadd /\ exact_sum 64 uaddl.
Proof.
  intros Hd Hs. split; [by apply memmove_spec|]. split; [|split_and!; by apply carry_exact].
  intros Hov. destruct (copy_up_spec n dst src m Hd Hs Hov) as (m' & Hm & Hc). exists m'. unfold memcpy, mempcpy. by rewrite Hm.
Qed.

Lemma intrinsics_spec_witness :
  exists m', memmove 11 10 2 (<[10 := 1]> (<[11 := 2]> (<[12 := 3]> ∅))) = Some (11, m') /\ m' !! 12 = Some 2 /\
    uadd 4294967295 1 = (0, true) /\ uaddl (2 ^ 64 - 1) 2 = (1, true).
Proof.
  destruct (intrinsics_spec (<[10 := 1]> (<[11 := 2]> (<[12 := 3]> ∅))) 11 10 2) as ((m' & Hm & Hc) & _ & _ & Hu & Hl).
  - intros k Hk. assert (k = 11 \/ k = 12) as [-> | ->] by lia; eexists; reflexivity.
  - intros k Hk. assert (k = 10 \/ k = 11) as [-> | ->] by lia; eexists; reflexivity.
  - exists m'. split; [exact Hm|]. split; [rewrite (Hc 12); reflexivity|]. split; [apply Hu; lia|apply Hl; lia].
Defined.
