(* ===== verification/BitVec.v ===== *)
(** * Constants of the expression language ([lib/Expr/Expr.cpp])

    A constant of width [w] is an integer in [0 .. 2^w - 1]; the operations of
    [ConstantExpr] work on such integers and wrap around.  The facts about them
    that the expression creators rely on are proved here. *)

From stdpp Require Import base list.
From Stdlib Require Import ZArith Lia.
From S2P Require Import Prelude.

(** ** Kinds *)

Inductive binkind :=
  Add | Sub | Mul | UDiv | SDiv | URem | SRem | And | Or | Xor | Shl | LShr | AShr.

Inductive cmpkind := Eq | Ne | Ult | Ule | Ugt | Uge | Slt | Sle | Sgt | Sge.

#[global] Instance binkind_eq_dec : EqDecision binkind.
Proof. solve_decision. Defined.
#[global] Instance cmpkind_eq_dec : EqDecision cmpkind.
Proof. solve_decision. Defined.

(** ** Operations on constants *)

Definition zextOrTrunc (w v : Z) : Z := v mod 2 ^ w.
Definition sextOrTrunc (from w v : Z) : Z := swrap from v mod 2 ^ w.

(** [ConstantExpr::Concat], with the width of the right operand. *)
Definition c_concat (wr l r : Z) : Z := Z.lor (Z.shiftl l wr) r.
(** [ConstantExpr::Extract]: an arithmetic shift, then a truncation. *)
Definition c_extract (from off w v : Z) : Z := zextOrTrunc w (Z.shiftr (swrap from v) off).
Definition c_not (w v : Z) : Z := 2 ^ w - 1 - v.

Definition c_bin (k : binkind) (w a b : Z) : Z :=
  match k with
  | Add => (a + b) mod 2 ^ w
  | Sub => (a - b) mod 2 ^ w
  | Mul => (a * b) mod 2 ^ w
  | UDiv => a / b
  | SDiv => Z.quot (swrap w a) (swrap w b) mod 2 ^ w
  | URem => a mod b
  | SRem => Z.rem (swrap w a) (swrap w b) mod 2 ^ w
  | And => Z.land a b
  | Or => Z.lor a b
  | Xor => Z.lxor a b
  | Shl => Z.shiftl a b mod 2 ^ w
  | LShr => Z.shiftr a b
  | AShr => Z.shiftr (swrap w a) b mod 2 ^ w
  end.

Definition c_cmp (k : cmpkind) (w a b : Z) : bool :=
  match k with
  | Eq => a =? b
  | Ne => negb (a =? b)
  | Ult => a <? b
  | Ule => a <=? b
  | Ugt => b <? a
  | Uge => b <=? a
  | Slt => swrap w a <? swrap w b
  | Sle => swrap w a <=? swrap w b
  | Sgt => swrap w b <? swrap w a
  | Sge => swrap w b <=? swrap w a
  end.

(** ** Ranges *)

Definition inrange (w v : Z) : Prop := 0 < w /\ 0 <= v < 2 ^ w.

Lemma pow2_pos w : 0 <= w -> 0 < 2 ^ w.
Proof. intros. apply Z.pow_pos_nonneg; lia. Qed.

Lemma inrange_mod w v : 0 < w -> inrange w (v mod 2 ^ w).
Proof. intros Hw. split; [done|]. apply Z.mod_pos_bound, pow2_pos. lia. Qed.

Lemma inrange_bool (b : bool) : inrange 1 (Z_of_bool b).
Proof. split; [lia|]. destruct b; cbn; lia. Qed.

(** The two values of width one. *)
Lemma inrange_1 v : inrange 1 v -> v = 0 \/ v = 1.
Proof. intros [_ H]. lia. Qed.

Lemma testbit_inrange w v i : inrange w v -> w <= i -> Z.testbit v i = false.
Proof.
  intros [Hw Hv] Hi. destruct (Z.eq_dec v 0) as [->|]; [apply Z.bits_0|].
  apply Z.bits_above_log2; [lia|]. apply Z.lt_le_trans with w; [|done]. apply Z.log2_lt_pow2; lia.
Qed.

(** An integer without bits from [w] on is in the range. *)
Lemma inrange_bits w v : 0 < w -> 0 <= v -> (forall i, w <= i -> Z.testbit v i = false) -> inrange w v.
Proof.
  intros Hw Hv H. split; [done|]. split; [done|].
  destruct (Z.lt_ge_cases v (2 ^ w)) as [|Hge]; [done|].
  assert (0 < v) as Hpos by (pose proof (pow2_pos w); lia).
  exfalso. specialize (H (Z.log2 v)).
  rewrite Z.bit_log2 in H by done. assert (w <= Z.log2 v) as Hl by (apply Z.log2_le_pow2; lia). discriminate (H Hl).
Qed.

Lemma inrange_div w a b : inrange w a -> inrange w b -> inrange w (a / b).
Proof.
  intros [Hw Ha] [_ Hb]. split; [done|]. destruct (Z.eq_dec b 0) as [->|]; [rewrite Z.div_0_r; lia|].
  split; [apply Z.div_pos; lia|]. apply Z.le_lt_trans with a; [|lia]. apply Z.div_le_upper_bound; nia.
Qed.

Lemma inrange_rem w a b : inrange w a -> inrange w b -> inrange w (a mod b).
Proof.
  intros [Hw Ha] [_ Hb]. split; [done|]. destruct (Z.eq_dec b 0) as [->|]; [by rewrite Z.mod_0_r|].
  pose proof (Z.mod_pos_bound a b). lia.
Qed.

Lemma c_bin_range k w a b : inrange w a -> inrange w b -> inrange w (c_bin k w a b).
Proof.
  intros Ha Hb. pose proof (proj1 Ha) as Hw.
  destruct k; cbn [c_bin]; try (by apply inrange_mod); try (by apply inrange_div); try (by apply inrange_rem);
    apply inrange_bits; try done.
  - apply Z.land_nonneg. destruct Ha; lia.
  - intros i Hi. by rewrite Z.land_spec, (testbit_inrange w a) by done.
  - apply Z.lor_nonneg. destruct Ha, Hb; lia.
  - intros i Hi. by rewrite Z.lor_spec, (testbit_inrange w a), (testbit_inrange w b) by done.
  - apply Z.lxor_nonneg. destruct Ha, Hb; lia.
  - intros i Hi. by rewrite Z.lxor_spec, (testbit_inrange w a), (testbit_inrange w b) by done.
  - apply Z.shiftr_nonneg. destruct Ha; lia.
  - intros i Hi. destruct Hb. rewrite Z.shiftr_spec by lia. apply (testbit_inrange w); [done|lia].
Qed.

Lemma c_not_range w v : inrange w v -> inrange w (c_not w v).
Proof. unfold c_not. intros [Hw Hv]. split; lia. Qed.

(** ** Concatenation and extraction, bit by bit *)

(** Value of a concatenation and of an extraction, as arithmetic. *)
Definition cat (wr l r : Z) : Z := l * 2 ^ wr + r.
Definition ext (off w v : Z) : Z := v / 2 ^ off mod 2 ^ w.

Lemma ext_bits off w v i : 0 <= off -> 0 <= w -> 0 <= i -> Z.testbit (ext off w v) i = (i <? w) && Z.testbit v (i + off).
Proof.
  intros Ho Hw Hi. unfold ext. rewrite <- Z.shiftr_div_pow2, Z.testbit_mod_pow2, Z.shiftr_spec by lia. done.
Qed.

Lemma cat_lor wr l r : inrange wr r -> cat wr l r = c_concat wr l r.
Proof.
  intros Hr. pose proof (proj1 Hr). unfold cat, c_concat. rewrite <- Z.shiftl_mul_pow2 by lia.
  assert (Z.land (Z.shiftl l wr) r = 0) as E.
  { apply Z.bits_inj_0. intros i. rewrite Z.land_spec. destruct (Z.lt_ge_cases i wr).
    - destruct (Z.lt_ge_cases i 0); [by rewrite Z.testbit_neg_r by lia|].
      by rewrite Z.shiftl_spec_low by lia.
    - rewrite (testbit_inrange wr r) by done. apply andb_false_r. }
  by rewrite Z.add_nocarry_lxor, Z.lxor_lor.
Qed.

Lemma cat_bits wr l r i :
  inrange wr r -> 0 <= i -> Z.testbit (cat wr l r) i = if i <? wr then Z.testbit r i else Z.testbit l (i - wr).
Proof.
  intros Hr Hi. rewrite cat_lor by done. unfold c_concat. rewrite Z.lor_spec, Z.shiftl_spec by lia.
  destruct (Z.ltb_spec i wr); [by rewrite Z.testbit_neg_r by lia|].
  rewrite (testbit_inrange wr r) by done. apply orb_false_r.
Qed.

Lemma cat_range wl wr l r : inrange wl l -> inrange wr r -> inrange (wl + wr) (cat wr l r).
Proof.
  intros [Hwl Hl] [Hwr Hr]. split; [lia|]. unfold cat. rewrite Z.pow_add_r by lia. nia.
Qed.

Lemma ext_range off w v : 0 < w -> inrange w (ext off w v).
Proof. apply inrange_mod. Qed.

(** Equality of two values by their bits. *)
Ltac bits :=
  apply Z.bits_inj'; let i := fresh "i" in let Hi := fresh "Hi" in intros i Hi;
  repeat first [ rewrite cat_bits by (first [done | lia | apply ext_range; lia])
               | rewrite ext_bits by lia | rewrite Z.testbit_mod_pow2 by lia ].

Lemma ext_all w v : inrange w v -> ext 0 w v = v.
Proof. intros [Hw Hv]. unfold ext. rewrite Z.pow_0_r, Z.div_1_r. by apply Z.mod_small. Qed.

Lemma ext_ext off w off' w' v :
  0 <= off -> 0 <= off' -> 0 <= w' -> off' + w' <= w -> ext off' w' (ext off w v) = ext (off + off') w' v.
Proof.
  intros. bits. destruct (Z.ltb_spec i w'), (Z.ltb_spec (i + off') w); try lia; try done. cbn. f_equal. lia.
Qed.

(** Extraction from a concatenation. *)
Lemma ext_cat_left wr l r off w : inrange wr r -> wr <= off -> 0 <= w -> ext off w (cat wr l r) = ext (off - wr) w l.
Proof.
  intros Hr Ho Hw. pose proof (proj1 Hr). bits. destruct (Z.ltb_spec (i + off) wr); [lia|]. do 2 f_equal. lia.
Qed.

Lemma ext_cat_right wr l r off w :
  inrange wr r -> 0 <= off -> 0 <= w -> off + w <= wr -> ext off w (cat wr l r) = ext off w r.
Proof.
  intros Hr Ho Hw Hle. bits. destruct (Z.ltb_spec i w); [|done]. destruct (Z.ltb_spec (i + off) wr); [done|lia].
Qed.

Lemma ext_cat_both wr l r off w :
  inrange wr r -> 0 <= off < wr -> wr < off + w ->
  ext off w (cat wr l r) = cat (wr - off) (ext 0 (w - wr + off) l) (ext off (wr - off) r).
Proof.
  intros Hr Ho Hw. bits. destruct (Z.ltb_spec (i + off) wr), (Z.ltb_spec i (wr - off)); try lia.
  - destruct (Z.ltb_spec i w); [done|lia].
  - rewrite ext_bits by lia. destruct (Z.ltb_spec i w), (Z.ltb_spec (i - (wr - off)) (w - wr + off)); try lia; try done.
    cbn. f_equal. lia.
Qed.

(** Adjacent extractions of one value. *)
Lemma cat_ext_ext v off w off' w' :
  0 <= off -> 0 < w -> 0 <= w' -> off' = off + w -> cat w (ext off' w' v) (ext off w v) = ext off (w' + w) v.
Proof.
  intros Ho Hw Hw' ->. bits. destruct (Z.ltb_spec i w).
  - rewrite !ext_bits by lia. destruct (Z.ltb_spec i w), (Z.ltb_spec i (w' + w)); try lia. done.
  - rewrite !ext_bits by lia. destruct (Z.ltb_spec (i - w) w'), (Z.ltb_spec i (w' + w)); try lia; try done.
    cbn. f_equal. lia.
Qed.

Lemma cat_assoc wm wr l m r : inrange wm m -> inrange wr r -> cat wr (cat wm l m) r = cat (wm + wr) l (cat wr m r).
Proof. intros [? _] [? _]. unfold cat. rewrite Z.pow_add_r by lia. ring. Qed.

Lemma cat_zero wr r : cat wr 0 r = r.
Proof. done. Qed.

(** ** Sign extension *)

Lemma swrap_mod w v : 0 < w -> swrap w v mod 2 ^ w = v mod 2 ^ w.
Proof.
  intros Hw. unfold swrap. rewrite Zminus_mod_idemp_l. f_equal. lia.
Qed.

Lemma swrap_bits w v i : 0 < w -> 0 <= i < w -> Z.testbit (swrap w v) i = Z.testbit v i.
Proof.
  intros Hw Hi. rewrite <- (Z.mod_pow2_bits_low (swrap w v) w i), <- (Z.mod_pow2_bits_low v w i) by lia.
  by rewrite swrap_mod.
Qed.

(** The shift of [ConstantExpr::Extract] may be arithmetic: the extracted bits
    are below the sign. *)
Lemma c_extract_ext from off w v : 0 < from -> 0 <= off -> 0 < w -> off + w <= from -> c_extract from off w v = ext off w v.
Proof.
  intros. unfold c_extract, zextOrTrunc. bits. rewrite Z.shiftr_spec by lia.
  destruct (Z.ltb_spec i w); [|done]. cbn. by rewrite swrap_bits by lia.
Qed.

(** Two values of width [w] have the same extension only if they are equal. *)
Lemma sext_inj from w a b :
  0 < from <= w -> inrange from a -> inrange from b -> sextOrTrunc from w a = sextOrTrunc from w b -> a = b.
Proof.
  intros Hw [_ Ha] [_ Hb] E. assert (a mod 2 ^ from = b mod 2 ^ from) as E'.
  { rewrite <- (swrap_mod from a), <- (swrap_mod from b) by lia.
    unfold sextOrTrunc in E. apply (f_equal (fun z => z mod 2 ^ from)) in E.
    assert (forall z, (z mod 2 ^ w) mod 2 ^ from = z mod 2 ^ from) as H.
    { intros z. replace w with (from + (w - from)) by lia. rewrite Z.pow_add_r by lia.
      rewrite Z.rem_mul_r by (pose proof (pow2_pos from); pose proof (pow2_pos (w - from)); lia).
      rewrite Z.mul_comm, Z_mod_plus_full, Z.mod_mod by (pose proof (pow2_pos from); lia). done. }
    by rewrite !H in E. }
  by rewrite !Z.mod_small in E' by lia.
Qed.

Lemma trunc_sext from w v : 0 < from <= w -> inrange from v -> zextOrTrunc from (sextOrTrunc from w v) = v.
Proof.
  intros Hw Hv. apply (sext_inj from from); [lia| apply inrange_mod; lia | done |].
  unfold sextOrTrunc, zextOrTrunc. rewrite !swrap_mod by lia. rewrite Z.mod_mod by (pose proof (pow2_pos from); lia).
  replace w with (from + (w - from)) by lia. rewrite Z.pow_add_r by lia.
  rewrite Z.rem_mul_r by (pose proof (pow2_pos from); pose proof (pow2_pos (w - from)); lia).
  rewrite Z.mul_comm, Z_mod_plus_full, Z.mod_mod by (pose proof (pow2_pos from); lia). by rewrite swrap_mod by lia.
Qed.

Lemma sext_range from w v : 0 < w -> inrange w (sextOrTrunc from w v).
Proof. apply inrange_mod. Qed.

Lemma zext_small w v : inrange w v -> zextOrTrunc w v = v.
Proof. intros [_ H]. by apply Z.mod_small. Qed.

Lemma inrange_wider w w' v : inrange w v -> w <= w' -> inrange w' v.
Proof. intros [Hw Hv] Hle. split; [lia|]. pose proof (Z.pow_le_mono_r 2 w w'). lia. Qed.

(** ** Arithmetic modulo a power of two *)

(** Normalizes an equation between sums and differences that wrap around. *)
Ltac wrap :=
  cbn [c_bin];
  repeat first [ rewrite Zplus_mod_idemp_l | rewrite Zplus_mod_idemp_r
               | rewrite Zminus_mod_idemp_l | rewrite Zminus_mod_idemp_r ];
  first [ done | f_equal; lia ].

Lemma add_small w a : inrange w a -> (0 + a) mod 2 ^ w = a.
Proof. intros [_ H]. by apply Z.mod_small. Qed.

(** A nonzero summand changes the value. *)
Lemma add_neq w k a : inrange w k -> inrange w a -> k <> 0 -> (k + a) mod 2 ^ w <> a.
Proof.
  intros [_ Hk] [_ Ha] Hne E. destruct (Z.lt_ge_cases (k + a) (2 ^ w)).
  - rewrite Z.mod_small in E by lia. lia.
  - replace (k + a) with (k + a - 2 ^ w + 1 * 2 ^ w) in E by lia. rewrite Z_mod_plus_full, Z.mod_small in E by lia. lia.
Qed.

Lemma add_eq_sub w c k a : inrange w c -> inrange w a -> (c =? (k + a) mod 2 ^ w) = ((c - k) mod 2 ^ w =? a).
Proof.
  intros [Hw Hc] [_ Ha]. apply eq_true_iff_eq. rewrite !Z.eqb_eq. split.
  - intros ->. rewrite Zminus_mod_idemp_l. replace (k + a - k) with a by lia. by apply Z.mod_small.
  - intros <-. rewrite Zplus_mod_idemp_r. replace (k + (c - k)) with c by lia. by rewrite Z.mod_small.
Qed.

Lemma sub_eq_sub w c k a : inrange w c -> inrange w a -> (c =? (k - a) mod 2 ^ w) = ((k - c) mod 2 ^ w =? a).
Proof.
  intros [Hw Hc] [_ Ha]. apply eq_true_iff_eq. rewrite !Z.eqb_eq. split.
  - intros ->. rewrite Zminus_mod_idemp_r. replace (k - (k - a)) with a by lia. by apply Z.mod_small.
  - intros <-. rewrite Zminus_mod_idemp_r. replace (k - (k - c)) with c by lia. by rewrite Z.mod_small.
Qed.

Lemma land_ones w a : inrange w a -> Z.land a (2 ^ w - 1) = a.
Proof. intros [Hw Ha]. rewrite Z.sub_1_r, <- Z.ones_equiv, Z.land_ones by lia. by apply Z.mod_small. Qed.

Lemma lor_ones w a : inrange w a -> Z.lor a (2 ^ w - 1) = 2 ^ w - 1.
Proof.
  intros Ha. pose proof (proj1 Ha). rewrite Z.sub_1_r, <- Z.ones_equiv. apply Z.bits_inj'. intros i Hi. rewrite Z.lor_spec.
  destruct (Z.lt_ge_cases i w).
  - rewrite Z.ones_spec_low by lia. apply orb_true_r.
  - rewrite Z.ones_spec_high by lia. rewrite orb_false_r. by apply (testbit_inrange w).
Qed.
