(* ===== verification/Expr.v ===== *)
(** * Symbolic expressions ([include/klee/Expr.h], [lib/Expr/Updates.cpp])

    The expression trees of the symbolic executor, with arrays and update lists,
    the comparison of two trees, the value of a tree under an assignment of the
    symbolic arrays, and the well-formedness that the creators establish.  Left
    out are the quantifiers with the arrays constrained by them, and the
    [isSymbolicPointer] mark, which takes no part in comparisons and values. *)

From stdpp Require Import base list.
From Stdlib Require Import ZArith Lia.
From S2P Require Import Prelude BitVec.

(** ** Data *)

(** Symbolic arrays are compared by address, constant ones by their contents. *)
Inductive array :=
  | Symbolic (addr : Z)
  | ConstantInitialValues (vs : list Z).

#[global] Instance array_eq_dec : EqDecision array.
Proof. solve_decision. Defined.

(** [UNull] is the end of an update list; the other two are the kinds of
    [UpdateNode], with the most recent update first. *)
Inductive expr : Set :=
  | Constant (w v : Z)
  | NotOptimized (src : expr)
  | Read (root : array) (head : updates) (index : expr)
  | Select (cond trueExpr falseExpr : expr)
  | Concat (left right : expr)
  | Extract (e : expr) (offset w : Z)
  | ZExt (src : expr) (w : Z)
  | SExt (src : expr) (w : Z)
  | Not (e : expr)
  | Bin (k : binkind) (left right : expr)
  | Cmp (k : cmpkind) (left right : expr)
  | Implies (left right : expr)
with updates : Set :=
  | UNull
  | USingle (guard byteIndex byteValue : expr) (next : updates)
  | UMulti (guard : expr) (src : array) (next : updates).

Scheme expr_mut := Induction for expr Sort Prop
  with updates_mut := Induction for updates Sort Prop.
Combined Scheme expr_updates_ind from expr_mut, updates_mut.

Definition Bool : Z := 1.
Definition Int8 : Z := 8.
Definition Int32 : Z := 32.

Definition true_ : expr := Constant Bool 1.
Definition false_ : expr := Constant Bool 0.

Fixpoint getWidth (e : expr) : Z :=
  match e with
  | Constant w _ => w
  | NotOptimized src => getWidth src
  | Read _ _ _ => Int8
  | Select _ t _ => getWidth t
  | Concat l r => getWidth l + getWidth r
  | Extract _ _ w | ZExt _ w | SExt _ w => w
  | Not e => getWidth e
  | Bin _ l _ => getWidth l
  | Cmp _ _ _ => Bool
  | Implies l _ => getWidth l
  end.

(** ** Comparison: [Expr::compare] returns zero *)

Fixpoint expr_eqb (a b : expr) : bool :=
  match a, b with
  | Constant w v, Constant w' v' => (w =? w') && (v =? v')
  | NotOptimized s, NotOptimized s' => expr_eqb s s'
  | Read r h i, Read r' h' i' => bool_decide (r = r') && updates_eqb h h' && expr_eqb i i'
  | Select c t f, Select c' t' f' => expr_eqb c c' && expr_eqb t t' && expr_eqb f f'
  | Concat l r, Concat l' r' => expr_eqb l l' && expr_eqb r r'
  | Extract e o w, Extract e' o' w' => (o =? o') && (w =? w') && expr_eqb e e'
  | ZExt e w, ZExt e' w' => (w =? w') && expr_eqb e e'
  | SExt e w, SExt e' w' => (w =? w') && expr_eqb e e'
  | Not e, Not e' => expr_eqb e e'
  | Bin k l r, Bin k' l' r' => bool_decide (k = k') && expr_eqb l l' && expr_eqb r r'
  | Cmp k l r, Cmp k' l' r' => bool_decide (k = k') && expr_eqb l l' && expr_eqb r r'
  | Implies l r, Implies l' r' => expr_eqb l l' && expr_eqb r r'
  | _, _ => false
  end
with updates_eqb (a b : updates) : bool :=
  match a, b with
  | UNull, UNull => true
  | USingle g i v n, USingle g' i' v' n' => expr_eqb i i' && expr_eqb v v' && expr_eqb g g' && updates_eqb n n'
  | UMulti g s n, UMulti g' s' n' => bool_decide (s = s') && expr_eqb g g' && updates_eqb n n'
  | _, _ => false
  end.

(** Splits boolean conjunctions and turns the tests into propositions. *)
Ltac btests := repeat (rewrite ?andb_true_iff, ?Z.eqb_eq, ?bool_decide_eq_true in *).

Lemma eqb_spec :
  (forall a b, expr_eqb a b = true <-> a = b) /\ (forall a b, updates_eqb a b = true <-> a = b).
Proof.
  apply expr_updates_ind; intros; destruct b; cbn [expr_eqb updates_eqb]; try (by split);
    btests; repeat match goal with H : forall b, _ <-> _ |- _ => rewrite H end; naive_solver.
Qed.

#[global] Instance expr_eq_dec : EqDecision expr.
Proof.
  refine (fun a b => match expr_eqb a b as x return expr_eqb a b = x -> _ with
    | true => fun E => left (proj1 (proj1 eqb_spec a b) E)
    | false => fun E => right _
    end eq_refl).
  intros H. apply (proj1 eqb_spec) in H. congruence.
Defined.

Lemma expr_eqb_eq a b : expr_eqb a b = true <-> a = b.
Proof. apply eqb_spec. Qed.

Lemma expr_eqbP a b : reflect (a = b) (expr_eqb a b).
Proof. apply iff_reflect. symmetry. apply expr_eqb_eq. Qed.

(** ** Values *)

(** An assignment gives the bytes of every array; the bytes of a constant array
    are used only outside of its initial values. *)
Definition assignment := array -> Z -> Z.

(** The byte of an array at an index, as [ReadExpr] means it. *)
Definition array_byte (rho : assignment) (a : array) (i : Z) : Z :=
  match a with
  | Symbolic _ => u8 (rho a i)
  | ConstantInitialValues vs =>
      match vs !! Z.to_nat i with Some v => v | None => u8 (rho a i) end
  end.

Fixpoint eval (rho : assignment) (e : expr) : Z :=
  match e with
  | Constant _ v => v
  | NotOptimized src => eval rho src
  | Read root head index => eval_updates rho head (eval rho index) (array_byte rho root (eval rho index))
  | Select c t f => if eval rho c =? 0 then eval rho f else eval rho t
  | Concat l r => cat (getWidth r) (eval rho l) (eval rho r)
  | Extract e off w => ext off w (eval rho e)
  | ZExt src w => zextOrTrunc w (eval rho src)
  | SExt src w => sextOrTrunc (getWidth src) w (eval rho src)
  | Not e => c_not (getWidth e) (eval rho e)
  | Bin k l r => c_bin k (getWidth l) (eval rho l) (eval rho r)
  | Cmp k l r => Z_of_bool (c_cmp k (getWidth l) (eval rho l) (eval rho r))
  | Implies l r => if eval rho l =? 0 then 1 else eval rho r
  end
with eval_updates (rho : assignment) (u : updates) (i : Z) (below : Z) : Z :=
  match u with
  | UNull => below
  | USingle g idx v next =>
      if negb (eval rho g =? 0) && (eval rho idx =? i) then eval rho v else eval_updates rho next i below
  | UMulti g src next =>
      if negb (eval rho g =? 0) then array_byte rho src i else eval_updates rho next i below
  end.

(** ** Well-formed expressions

    Widths fit, constants are in range, no node has constant operands only, a
    constant summand is not zero, there is no division of booleans and no
    extraction from a concatenation: the creators keep all of this, and rely on
    it. *)

Definition isa_Constant (e : expr) : bool := match e with Constant _ _ => true | _ => false end.

Definition isa_Concat (e : expr) : bool := match e with Concat _ _ => true | _ => false end.

Definition good_array (a : array) : Prop :=
  match a with Symbolic _ => True | ConstantInitialValues vs => Forall (inrange Int8) vs end.

Definition good_bin (k : binkind) (l r : expr) : Prop :=
  match k with
  | Add => forall w v, l = Constant w v -> v <> 0
  | UDiv | SDiv | URem | SRem => getWidth l <> Bool
  | _ => True
  end.

Fixpoint good (e : expr) : Prop :=
  match e with
  | Constant w v => inrange w v
  | NotOptimized src => good src
  | Read root head index => good_array root /\ good_updates head /\ good index /\ getWidth index = Int32
  | Select c t f =>
      good c /\ good t /\ good f /\ getWidth c = Bool /\ getWidth t = getWidth f /\ isa_Constant c = false
  | Concat l r => good l /\ good r /\ (isa_Constant l = false \/ isa_Constant r = false)
  | Extract e off w => good e /\ 0 <= off /\ 0 < w /\ off + w <= getWidth e /\ isa_Constant e = false /\ isa_Concat e = false
  | ZExt src w | SExt src w => good src /\ getWidth src <= w /\ isa_Constant src = false
  | Not e => good e /\ isa_Constant e = false
  | Bin k l r =>
      good l /\ good r /\ getWidth l = getWidth r /\ good_bin k l r /\ (isa_Constant l = false \/ isa_Constant r = false)
  | Cmp k l r => good l /\ good r /\ getWidth l = getWidth r /\ (isa_Constant l = false \/ isa_Constant r = false)
  | Implies l r =>
      good l /\ good r /\ getWidth l = Bool /\ getWidth r = Bool /\ (isa_Constant l = false \/ isa_Constant r = false)
  end
with good_updates (u : updates) : Prop :=
  match u with
  | UNull => True
  | USingle g i v next =>
      good g /\ good i /\ good v /\ getWidth g = Bool /\ getWidth i = Int32 /\ getWidth v = Int8 /\ good_updates next
  | UMulti g src next => good g /\ getWidth g = Bool /\ good_array src /\ good_updates next
  end.

Lemma array_byte_range rho a i : good_array a -> inrange Int8 (array_byte rho a i).
Proof.
  intros Ha. destruct a as [|vs]; cbn.
  - split; [done|]. apply u8_range.
  - destruct (vs !! _) eqn:E; [by eapply Forall_lookup_1 in Ha|]. split; [done|]. apply u8_range.
Qed.

(** Every value fits into the width. *)
Lemma good_range :
  (forall e, good e -> forall rho, inrange (getWidth e) (eval rho e)) /\
  (forall u, good_updates u -> forall rho i d, inrange Int8 d -> inrange Int8 (eval_updates rho u i d)).
Proof.
  apply expr_updates_ind; cbn [good good_updates getWidth eval eval_updates]; intros;
    repeat match goal with H : _ /\ _ |- _ => destruct H end; try done.
  - by apply H.
  - apply H; [done|]. by apply array_byte_range.
  - case_match; [|by apply H0]. replace (getWidth trueExpr) with (getWidth falseExpr) by done. by apply H1.
  - apply cat_range; auto.
  - by apply ext_range.
  - apply inrange_mod. destruct (H H0 rho). lia.
  - apply sext_range. destruct (H H0 rho). lia.
  - apply c_not_range. by apply H.
  - apply c_bin_range; [by apply H|]. replace (getWidth left) with (getWidth right) by done. by apply H0.
  - apply inrange_bool.
  - case_match; [by replace (getWidth left) with Bool by done|].
    replace (getWidth left) with (getWidth right) by congruence. by apply H0.
  - case_match; [|by apply H2]. replace Int8 with (getWidth byteValue) by done. by apply H1.
  - case_match; [by apply array_byte_range|by apply H0].
Qed.

Lemma eval_range e rho : good e -> inrange (getWidth e) (eval rho e).
Proof. intros. by apply good_range. Qed.

Lemma width_pos e : good e -> 0 < getWidth e.
Proof. intros He. apply (eval_range e (fun _ _ => 0) He). Qed.

(** ** Leaves: the measure that replacing an expression by a constant decreases *)

Fixpoint leaves (e : expr) : nat :=
  match e with
  | Constant _ _ => 0
  | NotOptimized src => S (leaves src)
  | Read _ head index => S (leaves_updates head + leaves index)
  | Select c t f => leaves c + leaves t + leaves f
  | Concat l r | Bin _ l r | Cmp _ l r | Implies l r => leaves l + leaves r
  | Extract e _ _ | ZExt e _ | SExt e _ | Not e => leaves e
  end
with leaves_updates (u : updates) : nat :=
  match u with
  | UNull => 0
  | USingle g i v next => leaves g + leaves i + leaves v + leaves_updates next
  | UMulti g _ next => S (leaves g + leaves_updates next)
  end.

Lemma leaves_pos e : good e -> isa_Constant e = false -> (0 < leaves e)%nat.
Proof.
  induction e; cbn; try done; try lia; naive_solver lia.
Qed.
