(* ===== verification/ExprSound.v ===== *)
(** * The creators of expressions are right

    For every creator of [ExprCreate]: the result is well-formed, has the width
    and, under every assignment, the value of the plain operation, and has no
    more leaves than the operands together. *)

From stdpp Require Import base list.
From Stdlib Require Import ZArith Lia.
From S2P Require Import Prelude BitVec Expr ExprCreate.

(** ** What an expression denotes *)

Record denotes (e : expr) (w : Z) (n : nat) (v : assignment -> Z) : Prop := Denotes {
  d_good : good e;
  d_width : getWidth e = w;
  d_leaves : (leaves e <= n)%nat;
  d_eval : forall rho, eval rho e = v rho;
}.

Lemma denotes_self e : good e -> denotes e (getWidth e) (leaves e) (fun rho => eval rho e).
Proof. by split. Qed.

Lemma denotes_weaken e w n v n' v' :
  denotes e w n v -> (n <= n')%nat -> (forall rho, v rho = v' rho) -> denotes e w n' v'.
Proof. intros [? ? ? He] Hn Hv. split; try done; [lia|]. intros. by rewrite He. Qed.

Lemma denotes_constant w v n f : inrange w v -> (forall rho, f rho = v) -> denotes (Constant w v) w n f.
Proof. intros Hv Hf. split; cbn; [done|done|lia|]. intros. by rewrite Hf. Qed.

Lemma denotes_bool (b : bool) n f : (forall rho, f rho = Z_of_bool b) -> denotes (Constant Bool (Z_of_bool b)) Bool n f.
Proof. intros. apply denotes_constant; [|done]. apply inrange_bool. Qed.

Lemma denotes_range e w n v rho : denotes e w n v -> inrange w (v rho).
Proof. intros [Hg <- _ <-]. by apply eval_range. Qed.

(** The value of a boolean expression is 0 or 1. *)
Lemma bool_value e rho : good e -> getWidth e = Bool -> eval rho e = 0 \/ eval rho e = 1.
Proof. intros Hg Hw. pose proof (eval_range e rho Hg) as H. rewrite Hw in H. by apply inrange_1. Qed.

Ltac conj := repeat match goal with H : _ /\ _ |- _ => destruct H end.

(** All values of boolean expressions, by cases. *)
Ltac bool_cases :=
  repeat match goal with
  | H : getWidth ?e = Bool |- context [eval ?rho ?e] =>
      let Hv := fresh "Hv" in
      destruct (bool_value e rho ltac:(done) H) as [Hv|Hv]; rewrite ?Hv
  end; cbn in *; try lia; try done.

(** ** Conjunction and disjunction *)

Lemma absorb_some l r c ts e :
  absorb l r c ts = Some e -> (e = r /\ l ∈ ts) \/ (e = c /\ exists t, t ∈ ts /\ isNegation l t = true).
Proof.
  induction ts as [|t ts IH]; cbn; [done|]. destruct (expr_eqbP l t) as [->|].
  { intros [= <-]. left. split; [done|]. apply list_elem_of_here. }
  destruct (isNegation l t) eqn:En.
  { intros [= <-]. right. split; [done|]. exists t. split; [apply list_elem_of_here|done]. }
  intros [[-> H]|(-> & t' & H & ?)]%IH; [left|right]; (split; [done|]); [by apply list_elem_of_further|].
  exists t'. split; [by apply list_elem_of_further|done].
Qed.

Lemma isNegation_value l t rho :
  good l -> good t -> getWidth l = Bool -> getWidth t = Bool -> isNegation l t = true -> eval rho l + eval rho t = 1.
Proof.
  assert (forall a b, good b -> getWidth b = Bool -> isNegation_Partial a b = true -> eval rho a + eval rho b = 1) as H.
  { intros a b Hb Hw Hn. destruct a as [| | | | | | | | | |[] x y|]; try done. cbn in Hn.
    apply andb_true_iff in Hn as [->%expr_eqb_eq ->%expr_eqb_eq]. cbn. bool_cases. }
  intros Hl Ht Hwl Hwt [Hn|Hn]%orb_true_iff; [by apply H|]. rewrite Z.add_comm. by apply H.
Qed.

(** The terms of a boolean conjunction or disjunction. *)
Lemma nary_terms k e :
  good e -> getWidth e = Bool ->
  Forall (fun t => good t /\ getWidth t = Bool) (nary k e) /\
  (forall rho, k = And -> eval rho e = 1 <-> Forall (fun t => eval rho t = 1) (nary k e)) /\
  (forall rho, k = Or -> eval rho e = 0 <-> Forall (fun t => eval rho t = 0) (nary k e)).
Proof.
  assert (forall e, good e -> getWidth e = Bool ->
    Forall (fun t => good t /\ getWidth t = Bool) [e] /\
    (forall rho, k = And -> eval rho e = 1 <-> Forall (fun t => eval rho t = 1) [e]) /\
    (forall rho, k = Or -> eval rho e = 0 <-> Forall (fun t => eval rho t = 0) [e])) as Hone.
  { intros e' Hg Hw. rewrite Forall_singleton. setoid_rewrite Forall_singleton. naive_solver. }
  induction e; try apply Hone. cbn [nary]. case_decide as Hk; [|apply Hone]. subst k0.
  intros Hg Hw. pose proof Hg as Hg'. cbn in Hg, Hw. conj.
  assert (getWidth e2 = Bool) as Hw2 by congruence. destruct (IHe2 ltac:(done) Hw2) as (Hts & Ha & Ho).
  split; [by constructor|]. split; intros rho ->; rewrite Forall_cons; [rewrite <- Ha by done | rewrite <- Ho by done];
    cbn; bool_cases; naive_solver.
Qed.

Lemma absorb_and l r e :
  good l -> good r -> getWidth l = Bool -> getWidth r = Bool -> absorb l r false_ (nary And r) = Some e ->
  denotes e Bool (leaves l + leaves r) (fun rho => Z.land (eval rho l) (eval rho r)).
Proof.
  intros Hl Hr Hwl Hwr Ha. destruct (nary_terms And r Hr Hwr) as (Hts & Hand & _). rewrite Forall_forall in Hts.
  apply absorb_some in Ha as [[-> Hin]|(-> & t & Hin & Hneg)].
  - split; try done; [lia|]. intros rho. specialize (Hand rho eq_refl). rewrite Forall_forall in Hand.
    bool_cases. destruct Hand as [Hand _]. specialize (Hand ltac:(done) l Hin). lia.
  - apply denotes_constant; [by apply (inrange_bool false)|]. intros rho. specialize (Hand rho eq_refl).
    rewrite Forall_forall in Hand. destruct (Hts t Hin) as [Hgt Hwt].
    pose proof (isNegation_value l t rho Hl Hgt Hwl Hwt Hneg) as Hsum. bool_cases.
    destruct Hand as [Hand _]. specialize (Hand ltac:(done) t Hin). lia.
Qed.

Lemma absorb_or l r e :
  good l -> good r -> getWidth l = Bool -> getWidth r = Bool -> absorb l r true_ (nary Or r) = Some e ->
  denotes e Bool (leaves l + leaves r) (fun rho => Z.lor (eval rho l) (eval rho r)).
Proof.
  intros Hl Hr Hwl Hwr Ha. destruct (nary_terms Or r Hr Hwr) as (Hts & _ & Hor). rewrite Forall_forall in Hts.
  apply absorb_some in Ha as [[-> Hin]|(-> & t & Hin & Hneg)].
  - split; try done; [lia|]. intros rho. specialize (Hor rho eq_refl). rewrite Forall_forall in Hor.
    bool_cases. destruct Hor as [Hor _]. specialize (Hor ltac:(done) l Hin). lia.
  - apply denotes_constant; [by apply (inrange_bool true)|]. intros rho. specialize (Hor rho eq_refl).
    rewrite Forall_forall in Hor. destruct (Hts t Hin) as [Hgt Hwt].
    pose proof (isNegation_value l t rho Hl Hgt Hwl Hwt Hneg) as Hsum. bool_cases.
    destruct Hor as [Hor _]. specialize (Hor ltac:(done) t Hin). lia.
Qed.

(** A creator for two operands of one width. *)
Definition creates (create : expr -> expr -> expr) (op : Z -> Z -> Z -> Z) : Prop :=
  forall l r, good l -> good r -> getWidth l = getWidth r ->
  denotes (create l r) (getWidth l) (leaves l + leaves r) (fun rho => op (getWidth l) (eval rho l) (eval rho r)).

Lemma creates_app create op l r w n m a b :
  creates create op -> denotes l w n a -> denotes r w m b ->
  denotes (create l r) w (n + m) (fun rho => op w (a rho) (b rho)).
Proof.
  intros Hc [Hgl Hwl Hnl Hel] [Hgr Hwr Hnr Her]. destruct (Hc l r Hgl Hgr ltac:(congruence)) as [Hg Hw Hn He].
  split; [done|congruence|lia|]. intros rho. by rewrite He, Hwl, Hel, Her.
Qed.

Lemma AndExpr_createPartial_sound l w c :
  good l -> getWidth l = w -> inrange w c -> isa_Constant l = false ->
  denotes (AndExpr_createPartial l w c) (getWidth l) (leaves l) (fun rho => Z.land (eval rho l) c).
Proof.
  intros Hl Hw Hc Hn. rewrite Hw. unfold AndExpr_createPartial, isAllOnes. destruct (Z.eqb_spec c (2 ^ w - 1)) as [->|].
  { split; try done. intros rho. rewrite land_ones; [done|]. rewrite <- Hw. by apply eval_range. }
  destruct (Z.eqb_spec c 0) as [->|]; [apply denotes_constant; [done|]; intros; apply Z.land_0_r|].
  split; cbn; [naive_solver|done|lia|done].
Qed.

Lemma OrExpr_createPartial_sound l w c :
  good l -> getWidth l = w -> inrange w c -> isa_Constant l = false ->
  denotes (OrExpr_createPartial l w c) (getWidth l) (leaves l) (fun rho => Z.lor (eval rho l) c).
Proof.
  intros Hl Hw Hc Hn. rewrite Hw. unfold OrExpr_createPartial, isAllOnes. destruct (Z.eqb_spec c (2 ^ w - 1)) as [->|].
  { apply denotes_constant; [done|]. intros. apply lor_ones. rewrite <- Hw. by apply eval_range. }
  destruct (Z.eqb_spec c 0) as [->|]; [split; try done; intros; by rewrite Z.lor_0_r|].
  split; cbn; [naive_solver|done|lia|done].
Qed.

(** The cases of the two creators. *)
Lemma AndExpr_create_cases l r :
  AndExpr_create l r =
  match isa_Constant l, isa_Constant r with
  | true, true => AndExpr_create l r
  | true, false => match l with Constant w a => AndExpr_createPartial r w a | _ => r end
  | false, true => match r with Constant w b => AndExpr_createPartial l w b | _ => l end
  | false, false =>
      match l with
      | Bin And a b => AndExpr_create a (AndExpr_create b r)
      | _ =>
          if getWidth l =? Bool then match absorb l r false_ (nary And r) with Some e => e | None => Bin And l r end
          else Bin And l r
      end
  end.
Proof. destruct l; try (by destruct r). destruct k; by destruct r. Qed.

Lemma OrExpr_create_cases l r :
  OrExpr_create l r =
  match isa_Constant l, isa_Constant r with
  | true, true => OrExpr_create l r
  | true, false => match l with Constant w a => OrExpr_createPartial r w a | _ => r end
  | false, true => match r with Constant w b => OrExpr_createPartial l w b | _ => l end
  | false, false =>
      match l with
      | Bin Or a b => OrExpr_create a (OrExpr_create b r)
      | _ =>
          if getWidth l =? Bool then match absorb l r true_ (nary Or r) with Some e => e | None => Bin Or l r end
          else Bin Or l r
      end
  end.
Proof. destruct l; try (by destruct r). destruct k; by destruct r. Qed.

(** A plain node. *)
Lemma denotes_bin k l r :
  good l -> good r -> getWidth l = getWidth r -> good_bin k l r -> isa_Constant l = false \/ isa_Constant r = false ->
  denotes (Bin k l r) (getWidth l) (leaves l + leaves r) (fun rho => c_bin k (getWidth l) (eval rho l) (eval rho r)).
Proof. intros. by split. Qed.

Lemma and_general l r :
  good l -> good r -> getWidth l = getWidth r -> isa_Constant l = false -> isa_Constant r = false ->
  denotes (if getWidth l =? Bool then match absorb l r false_ (nary And r) with Some e => e | None => Bin And l r end
           else Bin And l r) (getWidth l) (leaves l + leaves r) (fun rho => Z.land (eval rho l) (eval rho r)).
Proof.
  intros Hl Hr Hw Hcl Hcr. destruct (Z.eqb_spec (getWidth l) Bool) as [E|]; [|apply (denotes_bin And); auto; done].
  destruct (absorb _ _ _ _) eqn:Ha; [|apply (denotes_bin And); auto; done].
  rewrite E. apply absorb_and; congruence.
Qed.

Lemma or_general l r :
  good l -> good r -> getWidth l = getWidth r -> isa_Constant l = false -> isa_Constant r = false ->
  denotes (if getWidth l =? Bool then match absorb l r true_ (nary Or r) with Some e => e | None => Bin Or l r end
           else Bin Or l r) (getWidth l) (leaves l + leaves r) (fun rho => Z.lor (eval rho l) (eval rho r)).
Proof.
  intros Hl Hr Hw Hcl Hcr. destruct (Z.eqb_spec (getWidth l) Bool) as [E|]; [|apply (denotes_bin Or); auto; done].
  destruct (absorb _ _ _ _) eqn:Ha; [|apply (denotes_bin Or); auto; done].
  rewrite E. apply absorb_or; congruence.
Qed.

(** Constants: either an expression is one, or it is not. *)
Lemma constant_or e : (exists w v, e = Constant w v) \/ isa_Constant e = false.
Proof. destruct e; eauto. Qed.

Lemma AndExpr_create_sound : creates AndExpr_create (c_bin And).
Proof.
  intros l. induction l; intros r Hl Hr Hw; rewrite AndExpr_create_cases;
    (destruct (constant_or r) as [(rw & rv & ->)|Hcr]; [cbn [isa_Constant] | rewrite Hcr; cbn [isa_Constant]]);
    try (by apply and_general);
    try (eapply denotes_weaken; [by apply AndExpr_createPartial_sound| cbn; lia | done]).
  - cbn in *. subst. apply denotes_constant; [|done]. by apply (c_bin_range And).
  - cbn in *. subst. eapply denotes_weaken; [by apply AndExpr_createPartial_sound|lia|].
    intros. apply Z.land_comm.
  - destruct k; try (by apply and_general). cbn [good getWidth] in Hl, Hw. conj.
    destruct (IHl2 r ltac:(done) Hr ltac:(congruence)) as [Hg2 Hw2 Hn2 He2].
    destruct (IHl1 _ ltac:(done) Hg2 ltac:(congruence)) as [Hg1 Hw1 Hn1 He1].
    split; cbn [getWidth leaves eval]; [done|done|lia|]. intros rho. rewrite He1, He2. cbn [c_bin]. apply Z.land_assoc.
Qed.

Lemma OrExpr_create_sound : creates OrExpr_create (c_bin Or).
Proof.
  intros l. induction l; intros r Hl Hr Hw; rewrite OrExpr_create_cases;
    (destruct (constant_or r) as [(rw & rv & ->)|Hcr]; [cbn [isa_Constant] | rewrite Hcr; cbn [isa_Constant]]);
    try (by apply or_general);
    try (eapply denotes_weaken; [by apply OrExpr_createPartial_sound| cbn; lia | done]).
  - cbn in *. subst. apply denotes_constant; [|done]. by apply (c_bin_range Or).
  - cbn in *. subst. eapply denotes_weaken; [by apply OrExpr_createPartial_sound|lia|].
    intros. apply Z.lor_comm.
  - destruct k; try (by apply or_general). cbn [good getWidth] in Hl, Hw. conj.
    destruct (IHl2 r ltac:(done) Hr ltac:(congruence)) as [Hg2 Hw2 Hn2 He2].
    destruct (IHl1 _ ltac:(done) Hg2 ltac:(congruence)) as [Hg1 Hw1 Hn1 He1].
    split; cbn [getWidth leaves eval]; [done|done|lia|]. intros rho. rewrite He1, He2. cbn [c_bin]. apply Z.lor_assoc.
Qed.

(** ** Equality *)

Lemma EqExpr_isNeq_sound l r rho : good l -> good r -> EqExpr_isNeq l r = true -> eval rho l <> eval rho r.
Proof.
  intros Hl Hr Hn. destruct l as [| | | | | | | | |[] [] b| |]; try done. cbn in Hn. apply expr_eqb_eq in Hn as ->.
  cbn in Hl |- *. conj. apply add_neq; [done| |by eapply H2].
  cbn in H1. rewrite H1. by apply eval_range.
Qed.

Lemma EqExpr_create0_sound l r :
  good l -> good r -> getWidth l = getWidth r -> isa_Constant l = false \/ isa_Constant r = false ->
  denotes (EqExpr_create0 l r) Bool (leaves l + leaves r) (fun rho => Z_of_bool (eval rho l =? eval rho r)).
Proof.
  intros Hl Hr Hw Hc. unfold EqExpr_create0. destruct (expr_eqbP l r) as [<-|].
  { apply (denotes_bool true). intros. by rewrite Z.eqb_refl. }
  destruct (EqExpr_isNeq l r || EqExpr_isNeq r l) eqn:En; [|by split].
  apply (denotes_bool false). intros rho.
  apply orb_true_iff in En as [En|En]; apply (EqExpr_isNeq_sound _ _ rho) in En; try done; zbool.
Qed.

Definition eq_partial_ok (e : expr) : Prop :=
  forall w c, getWidth e = w -> inrange w c -> isa_Constant e = false ->
  denotes (EqExpr_createPartialR w c e) Bool (leaves e) (fun rho => Z_of_bool (c =? eval rho e)).

(** The call of [EqExpr::create] with a constant on the right. *)
Lemma eq_create_ok e c :
  (isa_Constant e = false -> eq_partial_ok e) -> good e -> inrange (getWidth e) c ->
  denotes (match e with
           | Constant _ v => Constant Bool (Z_of_bool (v =? c))
           | _ => EqExpr_createPartialR (getWidth e) c e
           end) Bool (leaves e) (fun rho => Z_of_bool (c =? eval rho e)).
Proof.
  intros IH He Hc. destruct (constant_or e) as [(w & v & ->)|Hn].
  - apply denotes_bool. intros. cbn. by rewrite Z.eqb_sym.
  - specialize (IH Hn (getWidth e) c eq_refl Hc Hn). by destruct e.
Qed.

Lemma eq_default_ok e w c :
  good e -> getWidth e = w -> inrange w c -> isa_Constant e = false ->
  denotes (EqExpr_create0 (Constant w c) e) Bool (leaves e) (fun rho => Z_of_bool (c =? eval rho e)).
Proof. intros He <- Hc Hn. by apply (EqExpr_create0_sound (Constant _ c) e); auto. Qed.

Lemma eq_true_ok e : good e -> getWidth e = Bool -> denotes e Bool (leaves e) (fun rho => Z_of_bool (1 =? eval rho e)).
Proof. intros He Hw. split; try done. intros rho. bool_cases. Qed.

Lemma eq_or_ok a b ea eb :
  good (Bin Or a b) -> getWidth a = Bool ->
  denotes ea Bool (leaves a) (fun rho => Z_of_bool (0 =? eval rho a)) ->
  denotes eb Bool (leaves b) (fun rho => Z_of_bool (0 =? eval rho b)) ->
  denotes (AndExpr_create ea eb) Bool (leaves (Bin Or a b)) (fun rho => Z_of_bool (0 =? eval rho (Bin Or a b))).
Proof.
  intros Hg Hw Ha Hb. cbn in Hg. conj. assert (getWidth b = Bool) by congruence.
  eapply denotes_weaken; [by eapply creates_app; [apply AndExpr_create_sound| |]|done|].
  intros rho. cbn. bool_cases.
Qed.

Lemma eq_sext_ok s w c e :
  good (SExt s w) -> inrange w c ->
  denotes e Bool (leaves s) (fun rho => Z_of_bool (zextOrTrunc (getWidth s) c =? eval rho s)) ->
  denotes (if c =? sextOrTrunc (getWidth s) w (zextOrTrunc (getWidth s) c) then e else Constant Bool 0) Bool
    (leaves (SExt s w)) (fun rho => Z_of_bool (c =? eval rho (SExt s w))).
Proof.
  intros Hg Hc He. cbn in Hg. conj. pose proof (width_pos s ltac:(done)).
  destruct (Z.eqb_spec c (sextOrTrunc (getWidth s) w (zextOrTrunc (getWidth s) c))) as [E|E].
  - eapply denotes_weaken; [exact He|done|]. intros rho. cbn. f_equal. apply eq_true_iff_eq. rewrite !Z.eqb_eq. split.
    + intros <-. done.
    + intros E'. rewrite E in E'. apply (sext_inj (getWidth s) w) in E'; [done|lia|by apply inrange_mod|by apply eval_range].
  - apply (denotes_bool false). intros rho. cbn [eval]. destruct (Z.eqb_spec c (sextOrTrunc (getWidth s) w (eval rho s)));
      [|done]. subst c. destruct E. by rewrite trunc_sext by (by lia || by apply eval_range).
Qed.

Lemma eq_zext_ok s w c e :
  good (ZExt s w) -> inrange w c ->
  denotes e Bool (leaves s) (fun rho => Z_of_bool (zextOrTrunc (getWidth s) c =? eval rho s)) ->
  denotes (if c =? zextOrTrunc w (zextOrTrunc (getWidth s) c) then e else Constant Bool 0) Bool
    (leaves (ZExt s w)) (fun rho => Z_of_bool (c =? eval rho (ZExt s w))).
Proof.
  intros Hg Hc He. cbn in Hg. conj. pose proof (width_pos s ltac:(done)).
  assert (forall rho, zextOrTrunc w (eval rho s) = eval rho s) as Hs.
  { intros. apply zext_small. eapply inrange_wider; [by apply eval_range|done]. }
  assert (zextOrTrunc w (zextOrTrunc (getWidth s) c) = zextOrTrunc (getWidth s) c) as Ht.
  { apply zext_small. eapply inrange_wider; [by apply inrange_mod|done]. }
  rewrite Ht. destruct (Z.eqb_spec c (zextOrTrunc (getWidth s) c)) as [E|E].
  - eapply denotes_weaken; [exact He|done|]. intros rho. cbn. by rewrite Hs, <- E.
  - apply (denotes_bool false). intros rho. cbn [eval]. rewrite Hs. destruct (Z.eqb_spec c (eval rho s)); [|done].
    subst c. destruct E. symmetry. apply zext_small. by apply eval_range.
Qed.

Lemma EqExpr_createPartialR_sound e : good e -> eq_partial_ok e.
Proof.
  induction e; intros Hg w' c Hw Hc Hn; cbn [EqExpr_createPartialR]; try done;
    (destruct (Z.eqb_spec w' Bool) as [->|Hnb];
     [destruct (Z.eqb_spec c 1) as [->|]; [by apply eq_true_ok|
       assert (c = 0) as -> by (apply inrange_1 in Hc as [|]; done)]|]);
    try (by apply eq_default_ok).
  - cbn [getWidth] in Hw. subst w'. apply eq_zext_ok; [done|done|]. cbn in Hg. conj.
    apply eq_create_ok; [auto|done|by apply inrange_mod, width_pos].
  - cbn [getWidth] in Hw. subst w'. apply eq_sext_ok; [done|done|]. cbn in Hg. conj.
    apply eq_create_ok; [auto|done|by apply inrange_mod, width_pos].
  - destruct k; try (by apply eq_default_ok). cbn [getWidth] in Hw. apply eq_or_ok; [done|done| |];
      cbn in Hg; conj; (apply eq_create_ok; [auto|done|]); [by rewrite Hw|]. replace (getWidth e2) with Bool by congruence. done.
  - destruct k; try (by apply eq_default_ok); destruct e1; try (by apply eq_default_ok);
      cbn in Hg, Hw; conj; subst w'; destruct H3; try done;
      (eapply denotes_weaken; [apply IHe2; [done|congruence|by apply (c_bin_range Sub)|done]|done|]); intros rho; cbn; f_equal.
    + symmetry. apply add_eq_sub; [done|]. rewrite H1. by apply eval_range.
    + symmetry. apply sub_eq_sub; [done|]. rewrite H1. by apply eval_range.
  - destruct k; try (by apply eq_default_ok). destruct e1 as [cw cv| | | | | | | | | | |]; try (by apply eq_default_ok).
    destruct ((cw =? Bool) && (cv =? 0)) eqn:E; [|by apply eq_default_ok]. apply andb_true_iff in E as [->%Z.eqb_eq ->%Z.eqb_eq].
    cbn in Hg. conj. split; try done. intros rho. cbn. assert (getWidth e2 = Bool) by done. bool_cases.
Qed.

Lemma EqExpr_create_sound l r :
  good l -> good r -> getWidth l = getWidth r ->
  denotes (EqExpr_create l r) Bool (leaves l + leaves r) (fun rho => Z_of_bool (eval rho l =? eval rho r)).
Proof.
  intros Hl Hr Hw. destruct (constant_or l) as [(lw & lv & ->)|Hcl], (constant_or r) as [(rw & rv & ->)|Hcr].
  - by apply denotes_bool.
  - replace (EqExpr_create _ r) with (EqExpr_createPartialR lw lv r) by (by destruct r).
    by apply (EqExpr_createPartialR_sound r Hr lw lv).
  - replace (EqExpr_create l _) with (EqExpr_createPartialR rw rv l) by (by destruct l).
    eapply denotes_weaken; [by apply (EqExpr_createPartialR_sound l Hl rw rv)|lia|]. intros. cbn. by rewrite Z.eqb_sym.
  - replace (EqExpr_create l r) with (EqExpr_create0 l r) by (by destruct l, r). apply EqExpr_create0_sound; auto.
Qed.

Lemma createIsZero_sound e :
  good e -> denotes (createIsZero e) Bool (leaves e) (fun rho => Z_of_bool (eval rho e =? 0)).
Proof.
  intros He. eapply denotes_weaken; [apply (EqExpr_create_sound e (Constant (getWidth e) 0)); [done| |done]|cbn; lia|done].
  split; [by apply width_pos|]. pose proof (pow2_pos (getWidth e)). pose proof (width_pos e He). lia.
Qed.

(** ** Sums *)

Lemma XorExpr_createPartialR_sound w c r :
  good r -> getWidth r = w -> inrange w c -> isa_Constant r = false ->
  denotes (XorExpr_createPartialR w c r) w (leaves r) (fun rho => Z.lxor c (eval rho r)).
Proof.
  intros Hr Hw Hc Hn. unfold XorExpr_createPartialR. destruct (Z.eqb_spec c 0) as [->|]; [by split|].
  destruct (Z.eqb_spec w Bool) as [->|]; [|split; cbn; naive_solver].
  assert (c = 1) as -> by (apply inrange_1 in Hc as [|]; done).
  eapply denotes_weaken; [by apply (EqExpr_createPartialR_sound r Hr Bool 0)|done|]. intros rho. bool_cases.
Qed.

Lemma XorExpr_create_sound : creates XorExpr_create (c_bin Xor).
Proof.
  intros l r Hl Hr Hw. destruct (constant_or l) as [(lw & lv & ->)|Hcl], (constant_or r) as [(rw & rv & ->)|Hcr].
  - cbn in *. subst. apply denotes_constant; [|done]. by apply (c_bin_range Xor).
  - replace (XorExpr_create _ r) with (XorExpr_createPartialR lw lv r) by (by destruct r).
    by apply (XorExpr_createPartialR_sound lw lv r).
  - replace (XorExpr_create l _) with (XorExpr_createPartialR rw rv l) by (by destruct l).
    cbn in Hw. rewrite Hw. eapply denotes_weaken; [by apply (XorExpr_createPartialR_sound rw rv l)|lia|].
    intros. apply Z.lxor_comm.
  - replace (XorExpr_create l r) with (Bin Xor l r) by (by destruct l, r). apply denotes_bin; auto; done.
Qed.

(** Sums and differences of booleans are exclusive disjunctions. *)
Lemma addsub_bool sub a b : inrange Bool a -> inrange Bool b -> c_bin (addsub sub) Bool a b = Z.lxor a b.
Proof. intros [->| ->]%inrange_1 [->| ->]%inrange_1; by destruct sub. Qed.

Definition addsub_partial_ok (r : expr) : Prop :=
  forall sub w c, getWidth r = w -> inrange w c -> isa_Constant r = false ->
  denotes (addsub_partialR sub w c r) w (leaves r) (fun rho => c_bin (addsub sub) w c (eval rho r)).

Lemma addsub_const_ok sub w c e :
  (isa_Constant e = false -> addsub_partial_ok e) -> good e -> getWidth e = w -> inrange w c ->
  denotes (addsub_const sub w c e) w (leaves e) (fun rho => c_bin (addsub sub) w c (eval rho e)).
Proof.
  intros IH He Hw Hc. destruct (constant_or e) as [(w' & v & ->)|Hn].
  - cbn in Hw. subst w'. apply denotes_constant; [|done]. by apply c_bin_range.
  - specialize (IH Hn sub w c Hw Hc Hn). by destruct e.
Qed.

Lemma addsub_default_ok sub w c r :
  good r -> getWidth r = w -> inrange w c -> isa_Constant r = false -> negb sub && (c =? 0) = false ->
  denotes (Bin (addsub sub) (Constant w c) r) w (leaves r) (fun rho => c_bin (addsub sub) w c (eval rho r)).
Proof.
  intros Hr Hw Hc Hn Hz. split; try done. cbn. split_and!; auto. destruct sub; [done|]. cbn in Hz |- *.
  intros ? ? [= <- <-]. zbool.
Qed.

Lemma addsub_partialR_sound r : good r -> addsub_partial_ok r.
Proof.
  induction r; intros Hg sub w' c Hw Hc Hn; cbn [addsub_partialR]; try done;
    (destruct (Z.eqb_spec w' Bool) as [->|Hnb];
     [eapply denotes_weaken; [by apply XorExpr_createPartialR_sound|done|];
      intros rho; symmetry; apply addsub_bool; [done|by rewrite <- Hw; apply eval_range]|]);
    (destruct (negb sub && (c =? 0)) eqn:Hz;
     [apply andb_true_iff in Hz as [->%negb_true_iff ->%Z.eqb_eq]; split; try done; intros rho;
      symmetry; apply add_small; rewrite <- Hw; by apply eval_range|]);
    try (by apply addsub_default_ok).
  destruct k; try (by apply addsub_default_ok); destruct r1 as [kw kv| | | | | | | | | | |]; try (by apply addsub_default_ok);
    cbn in Hg, Hw; conj; subst w'; destruct H3 as [|Hc2]; try done;
    (eapply denotes_weaken;
      [apply (addsub_const_ok _ kw _ r2 (fun _ => IHr2 ltac:(done))); [done|done|by apply c_bin_range]|done|]);
    intros rho; destruct sub; cbn [addsub negb eval getWidth]; wrap.
Qed.

Lemma addsub_const_sound sub w c e :
  good e -> getWidth e = w -> inrange w c ->
  denotes (addsub_const sub w c e) w (leaves e) (fun rho => c_bin (addsub sub) w c (eval rho e)).
Proof. intros He. apply addsub_const_ok; [|done]. intros _. by apply addsub_partialR_sound. Qed.

Lemma addsub_create_cases n sub l r :
  addsub_create n sub l r =
  match isa_Constant l, isa_Constant r with
  | true, _ => match l with Constant w a => addsub_const sub w a r | _ => l end
  | false, true => match r with Constant w b => addsub_partialR false w (if sub then c_bin Sub w 0 b else b) l | _ => r end
  | false, false =>
      if getWidth l =? Bool then Bin Xor l r
      else if sub && expr_eqb l r then Constant (getWidth l) 0
      else match n with O => Bin (addsub sub) l r | S n => addsub_step (addsub_create n) sub l r end
  end.
Proof.
  by destruct n, l, r.
Qed.

Lemma addsub_const_app sub w c e n v :
  denotes e w n v -> inrange w c -> denotes (addsub_const sub w c e) w n (fun rho => c_bin (addsub sub) w c (v rho)).
Proof.
  intros [Hg Hw Hn He] Hc. eapply denotes_weaken; [by apply addsub_const_sound|done|]. intros. cbn. by rewrite He.
Qed.

Section addsub_step.
Context (create : bool -> expr -> expr -> expr).
Context (IH : forall sub, creates (create sub) (c_bin (addsub sub))).

Lemma addsub_plain sub l r :
  good l -> good r -> getWidth l = getWidth r -> isa_Constant l = false ->
  denotes (Bin (addsub sub) l r) (getWidth l) (leaves l + leaves r)
    (fun rho => c_bin (addsub sub) (getWidth l) (eval rho l) (eval rho r)).
Proof. intros Hl Hr Hw Hn. apply denotes_bin; auto. destruct sub; [done|]. intros ? ? ->. done. Qed.

Lemma addsub_right_sound sub l r :
  good l -> good r -> getWidth l = getWidth r -> isa_Constant l = false ->
  denotes (addsub_right create sub l r) (getWidth l) (leaves l + leaves r)
    (fun rho => c_bin (addsub sub) (getWidth l) (eval rho l) (eval rho r)).
Proof.
  intros Hl Hr Hw Hn. destruct r as [| | | | | | | | |k [kw kv| | | | | | | | | | |] b| |]; try (by apply addsub_plain);
    destruct k; try (by apply addsub_plain); cbn in Hr, Hw; conj;
    assert (denotes (Constant kw kv) kw 0 (fun _ => kv)) as Hk by (by apply denotes_constant);
    pose proof (fun s => IH s l b Hl ltac:(done) ltac:(congruence)) as Hlb; rewrite Hw in *;
    destruct sub; cbn [addsub_right];
    (eapply denotes_weaken;
      [first [ apply addsub_const_app; [apply Hlb|done] | apply (creates_app _ _ _ _ _ _ _ _ _ (IH true) (Hlb _) Hk) ]
      | cbn; lia
      | intros rho; cbn [addsub eval getWidth]; wrap ]).
Qed.

Lemma addsub_step_sound sub l r :
  good l -> good r -> getWidth l = getWidth r -> isa_Constant l = false ->
  denotes (addsub_step create sub l r) (getWidth l) (leaves l + leaves r)
    (fun rho => c_bin (addsub sub) (getWidth l) (eval rho l) (eval rho r)).
Proof.
  intros Hl Hr Hw Hn. destruct l as [| | | | | | | | |k [kw kv| | | | | | | | | | |] a| |]; try (by apply addsub_right_sound);
    destruct k; try (by apply addsub_right_sound); cbn [good getWidth] in Hl, Hw |- *; conj; cbn [getWidth] in *;
    pose proof (fun s => IH s a r ltac:(done) Hr ltac:(congruence)) as Har;
    pose proof (fun s => IH s r a Hr ltac:(done) ltac:(congruence)) as Hra; rewrite <- Hw in Hra;
    replace (getWidth a) with kw in Har by done;
    destruct sub; cbn [addsub_step];
    (eapply denotes_weaken;
      [first [ apply addsub_const_app; [apply Har|done] | apply addsub_const_app; [apply Hra|done] ]
      | cbn; lia
      | intros rho; cbn [addsub eval getWidth]; wrap ]).
Qed.

End addsub_step.

Lemma addsub_create_sound n sub : creates (addsub_create n sub) (c_bin (addsub sub)).
Proof.
  revert sub. induction n as [|n IH]; intros sub l r Hl Hr Hw; rewrite addsub_create_cases.
  all: destruct (constant_or l) as [(lw & lv & ->)|Hcl]; [by apply addsub_const_sound|].
  all: rewrite Hcl; destruct (constant_or r) as [(rw & rv & ->)|Hcr]; [|rewrite Hcr].
  1, 3: cbn in Hr, Hw |- *; rewrite Hw;
    (eapply denotes_weaken; [apply (addsub_partialR_sound l Hl false rw); [done| |done]|lia|]);
    [destruct sub; [by apply inrange_mod, Hr|done] | intros rho; destruct sub; cbn [addsub]; wrap].
  all: destruct (Z.eqb_spec (getWidth l) Bool) as [E|];
    [eapply denotes_weaken; [apply denotes_bin; auto; done|done|];
     intros rho; cbn; rewrite E; symmetry; apply addsub_bool; [rewrite <- E|rewrite <- E, Hw]; by apply eval_range|].
  all: destruct (sub && expr_eqb l r) eqn:Eq;
    [apply andb_true_iff in Eq as [-> ->%expr_eqb_eq]; apply denotes_constant;
     [split; [by apply width_pos|]; pose proof (pow2_pos (getWidth r)); pose proof (width_pos r Hr); lia|];
     intros rho; cbn; by rewrite Z.sub_diag|].
  - by apply addsub_plain.
  - by apply addsub_step_sound.
Qed.

Lemma AddExpr_create_sound : creates AddExpr_create (c_bin Add).
Proof. intros l r. apply (addsub_create_sound _ false). Qed.

Lemma SubExpr_create_sound : creates SubExpr_create (c_bin Sub).
Proof. intros l r. apply (addsub_create_sound _ true). Qed.

(** The fuel is enough: the creators satisfy the recursive equations of the code. *)
Lemma addsub_const_right n m sub l w k : addsub_create n sub l (Constant w k) = addsub_create m sub l (Constant w k).
Proof. rewrite !addsub_create_cases. destruct (constant_or l) as [(? & ? & ->)| ->]; done. Qed.

Lemma addsub_step_ext f g sub l r :
  (forall s w k e, f s e (Constant w k) = g s e (Constant w k)) ->
  (forall s a b, (esize a + esize b < esize l + esize r)%nat -> f s a b = g s a b) ->
  addsub_step f sub l r = addsub_step g sub l r.
Proof.
  intros Hc H. destruct l as [| | | | | | | | |k [kw kv| | | | | | | | | | |] a| |].
  all: try (destruct k; cbn [addsub_step]; try (destruct sub; rewrite !H by (cbn; lia); done)).
  all: cbn [addsub_step]; destruct r as [| | | | | | | | |k' [kw' kv'| | | | | | | | | | |] b| |]; try done.
  all: destruct k'; try done; cbn [addsub_right]; destruct sub; rewrite ?Hc, !H by (cbn; lia); done.
Qed.

Lemma addsub_fuel n m sub l r :
  (esize l + esize r <= n)%nat -> (esize l + esize r <= m)%nat -> addsub_create n sub l r = addsub_create m sub l r.
Proof.
  revert m sub l r. induction n as [|n IH]; intros m sub l r Hn Hm; [destruct l; cbn in Hn; lia|].
  destruct m as [|m]; [destruct l; cbn in Hm; lia|]. rewrite !addsub_create_cases.
  destruct (isa_Constant l), (isa_Constant r); try done. destruct (getWidth l =? Bool), (sub && expr_eqb l r); try done.
  apply addsub_step_ext; [intros; apply addsub_const_right|]. intros s a b Hlt. apply IH; lia.
Qed.

Lemma addsub_unfold sub l r :
  isa_Constant l = false -> isa_Constant r = false -> getWidth l <> Bool -> sub && expr_eqb l r = false ->
  (if sub then SubExpr_create l r else AddExpr_create l r) =
  addsub_step (fun s => if s then SubExpr_create else AddExpr_create) sub l r.
Proof.
  intros Hl Hr Hw He. transitivity (addsub_create (esize l + esize r) sub l r); [by destruct sub|].
  rewrite addsub_create_cases, Hl, Hr, He. destruct (Z.eqb_spec (getWidth l) Bool); [done|].
  destruct (esize l + esize r)%nat as [|p] eqn:En; [destruct l; discriminate En|].
  apply addsub_step_ext; [intros [] w k e; apply addsub_const_right|].
  intros [] a b Hlt; apply addsub_fuel; lia.
Qed.

(** ** Other arithmetic *)

Lemma MulExpr_createPartialR_sound w c r :
  good r -> getWidth r = w -> inrange w c -> isa_Constant r = false ->
  denotes (MulExpr_createPartialR w c r) w (leaves r) (fun rho => c_bin Mul w c (eval rho r)).
Proof.
  intros Hr Hw Hc Hn. unfold MulExpr_createPartialR. destruct (Z.eqb_spec w Bool) as [->|].
  { rewrite <- Hw at 2. eapply denotes_weaken; [by apply AndExpr_createPartial_sound|done|].
    intros rho. apply inrange_1 in Hc as [->| ->]; bool_cases. }
  destruct (Z.eqb_spec c 1) as [->|].
  { split; try done. intros rho. cbn [c_bin]. rewrite Z.mul_1_l, Z.mod_small; [done|].
    pose proof (eval_range r rho Hr) as [_ ?]. congruence. }
  destruct (Z.eqb_spec c 0) as [->|]; [by apply denotes_constant|]. split; cbn; naive_solver.
Qed.

Lemma MulExpr_create_sound : creates MulExpr_create (c_bin Mul).
Proof.
  intros l r Hl Hr Hw. destruct (constant_or l) as [(lw & lv & ->)|Hcl], (constant_or r) as [(rw & rv & ->)|Hcr].
  - cbn in *. subst. apply denotes_constant; [|done]. by apply (c_bin_range Mul).
  - replace (MulExpr_create _ r) with (MulExpr_createPartialR lw lv r) by (by destruct r).
    by apply (MulExpr_createPartialR_sound lw lv r).
  - replace (MulExpr_create l _) with (MulExpr_createPartialR rw rv l) by (by destruct l).
    cbn in Hw. rewrite Hw. eapply denotes_weaken; [by apply (MulExpr_createPartialR_sound rw rv l)|lia|].
    intros rho. cbn. by rewrite Z.mul_comm.
  - replace (MulExpr_create l r) with (if getWidth l =? Bool then Bin And l r else Bin Mul l r) by (by destruct l, r).
    destruct (Z.eqb_spec (getWidth l) Bool) as [E|]; [|apply denotes_bin; auto; done].
    eapply denotes_weaken; [apply denotes_bin; auto; done|done|]. intros rho. assert (getWidth r = Bool) by congruence.
    cbn [c_bin]. rewrite E. bool_cases.
Qed.

Lemma bcreate_sound k boolean l r :
  good l -> good r -> getWidth l = getWidth r ->
  (getWidth l = Bool -> denotes boolean Bool (leaves l + leaves r) (fun rho => c_bin k Bool (eval rho l) (eval rho r))) ->
  good_bin k l r \/ getWidth l = Bool ->
  denotes (bcreate k boolean l r) (getWidth l) (leaves l + leaves r)
    (fun rho => c_bin k (getWidth l) (eval rho l) (eval rho r)).
Proof.
  intros Hl Hr Hw Hb Hk.
  assert (isa_Constant l = false \/ isa_Constant r = false ->
    denotes (if getWidth l =? Bool then boolean else Bin k l r) (getWidth l) (leaves l + leaves r)
      (fun rho => c_bin k (getWidth l) (eval rho l) (eval rho r))) as Hgen.
  { intros Hc. destruct (Z.eqb_spec (getWidth l) Bool) as [E|]; [rewrite E; by apply Hb|].
    apply denotes_bin; try done. by destruct Hk. }
  destruct (constant_or l) as [(lw & lv & ->)|Hcl], (constant_or r) as [(rw & rv & ->)|Hcr].
  - cbn in *. subst. apply denotes_constant; [|done]. by apply c_bin_range.
  - replace (bcreate k boolean _ r) with (if getWidth (Constant lw lv) =? Bool then boolean else Bin k (Constant lw lv) r)
      by (by destruct r). auto.
  - replace (bcreate k boolean l _) with (if getWidth l =? Bool then boolean else Bin k l (Constant rw rv))
      by (by destruct l). auto.
  - replace (bcreate k boolean l r) with (if getWidth l =? Bool then boolean else Bin k l r) by (by destruct l, r). auto.
Qed.

(** Shifts of booleans. *)
Lemma shift_bool_sound k l r :
  good l -> good r -> getWidth l = getWidth r -> k = Shl \/ k = LShr -> getWidth l = Bool ->
  denotes (AndExpr_create l (createIsZero r)) Bool (leaves l + leaves r) (fun rho => c_bin k Bool (eval rho l) (eval rho r)).
Proof.
  intros Hl Hr Hw Hk E. assert (getWidth r = Bool) by congruence. pose proof (denotes_self l Hl) as Dl. rewrite E in Dl.
  eapply denotes_weaken; [apply (creates_app _ _ _ _ _ _ _ _ _ AndExpr_create_sound Dl (createIsZero_sound r Hr))|done|].
  intros rho. destruct Hk as [->| ->]; bool_cases.
Qed.

Lemma ShlExpr_create_sound : creates ShlExpr_create (c_bin Shl).
Proof. intros l r Hl Hr Hw. apply bcreate_sound; auto; [|by left]. apply shift_bool_sound; auto. Qed.

Lemma LShrExpr_create_sound : creates LShrExpr_create (c_bin LShr).
Proof. intros l r Hl Hr Hw. apply bcreate_sound; auto; [|by left]. apply shift_bool_sound; auto. Qed.

Lemma AShrExpr_create_sound : creates AShrExpr_create (c_bin AShr).
Proof.
  intros l r Hl Hr Hw. apply bcreate_sound; auto; [|by left]. intros E. assert (getWidth r = Bool) by congruence.
  split; [done|done|lia|]. intros rho. bool_cases.
Qed.

(** Divisions: the code relies on the divisor of booleans being one. *)
Definition is_division (k : binkind) : bool := match k with UDiv | SDiv | URem | SRem => true | _ => false end.

Lemma division_sound k l r :
  is_division k = true -> good l -> good r -> getWidth l = getWidth r ->
  (getWidth l = Bool -> forall rho, eval rho r = 1) ->
  denotes (bin_create k l r) (getWidth l) (leaves l + leaves r) (fun rho => c_bin k (getWidth l) (eval rho l) (eval rho r)).
Proof.
  intros Hk Hl Hr Hw Hone. destruct k; try done; (apply bcreate_sound; auto;
    [|destruct (decide (getWidth l = Bool)); [by right|by left]]); intros E; specialize (Hone E).
  1, 2: split; [done|done|lia|]; intros rho; rewrite Hone; bool_cases.
  all: apply denotes_constant; [by apply (inrange_bool false)|]; intros rho; rewrite Hone; bool_cases.
Qed.

Lemma bin_create_sound k : is_division k = false -> creates (bin_create k) (c_bin k).
Proof.
  destruct k; try done; intros _.
  - apply AddExpr_create_sound.
  - apply SubExpr_create_sound.
  - apply MulExpr_create_sound.
  - apply AndExpr_create_sound.
  - apply OrExpr_create_sound.
  - apply XorExpr_create_sound.
  - apply ShlExpr_create_sound.
  - apply LShrExpr_create_sound.
  - apply AShrExpr_create_sound.
Qed.

(** ** Comparisons *)

Definition compares (create : expr -> expr -> expr) (k : cmpkind) : Prop :=
  forall l r, good l -> good r -> getWidth l = getWidth r ->
  denotes (create l r) Bool (leaves l + leaves r) (fun rho => Z_of_bool (c_cmp k (getWidth l) (eval rho l) (eval rho r))).

Lemma cmpcreate_sound k boolean l r :
  good l -> good r -> getWidth l = getWidth r ->
  (getWidth l = Bool -> denotes boolean Bool (leaves l + leaves r) (fun rho => Z_of_bool (c_cmp k Bool (eval rho l) (eval rho r)))) ->
  denotes (cmpcreate k boolean l r) Bool (leaves l + leaves r)
    (fun rho => Z_of_bool (c_cmp k (getWidth l) (eval rho l) (eval rho r))).
Proof.
  intros Hl Hr Hw Hb.
  assert (isa_Constant l = false \/ isa_Constant r = false ->
    denotes (if getWidth l =? Bool then boolean else Cmp k l r) Bool (leaves l + leaves r)
      (fun rho => Z_of_bool (c_cmp k (getWidth l) (eval rho l) (eval rho r)))) as Hgen.
  { intros Hc. destruct (Z.eqb_spec (getWidth l) Bool) as [E|]; [rewrite E; by apply Hb|]. by split. }
  destruct (constant_or l) as [(lw & lv & ->)|Hcl], (constant_or r) as [(rw & rv & ->)|Hcr].
  - by apply denotes_bool.
  - replace (cmpcreate k boolean _ r) with (if getWidth (Constant lw lv) =? Bool then boolean else Cmp k (Constant lw lv) r)
      by (by destruct r). auto.
  - replace (cmpcreate k boolean l _) with (if getWidth l =? Bool then boolean else Cmp k l (Constant rw rv))
      by (by destruct l). auto.
  - replace (cmpcreate k boolean l r) with (if getWidth l =? Bool then boolean else Cmp k l r) by (by destruct l, r). auto.
Qed.

(** The boolean forms: one operand is negated. *)
Ltac boolean_form create Dl Dr :=
  eapply denotes_weaken; [apply (creates_app _ _ _ _ _ _ _ _ _ create Dl Dr)|lia|intros rho; bool_cases].

Lemma UltExpr_create_sound : compares UltExpr_create Ult.
Proof.
  intros l r Hl Hr Hw. apply cmpcreate_sound; auto. intros E. assert (getWidth r = Bool) as E' by congruence.
  pose proof (denotes_self r Hr) as Dr. rewrite E' in Dr. boolean_form AndExpr_create_sound (createIsZero_sound l Hl) Dr.
Qed.

Lemma UleExpr_create_sound : compares UleExpr_create Ule.
Proof.
  intros l r Hl Hr Hw. apply cmpcreate_sound; auto. intros E. assert (getWidth r = Bool) as E' by congruence.
  pose proof (denotes_self r Hr) as Dr. rewrite E' in Dr. boolean_form OrExpr_create_sound (createIsZero_sound l Hl) Dr.
Qed.

Lemma SltExpr_create_sound : compares SltExpr_create Slt.
Proof.
  intros l r Hl Hr Hw. apply cmpcreate_sound; auto. intros E. assert (getWidth r = Bool) as E' by congruence.
  pose proof (denotes_self l Hl) as Dl. rewrite E in Dl. boolean_form AndExpr_create_sound Dl (createIsZero_sound r Hr).
Qed.

Lemma SleExpr_create_sound : compares SleExpr_create Sle.
Proof.
  intros l r Hl Hr Hw. apply cmpcreate_sound; auto. intros E. assert (getWidth r = Bool) as E' by congruence.
  pose proof (denotes_self l Hl) as Dl. rewrite E in Dl. boolean_form OrExpr_create_sound Dl (createIsZero_sound r Hr).
Qed.

Lemma NeExpr_create_sound : compares NeExpr_create Ne.
Proof.
  intros l r Hl Hr Hw. destruct (EqExpr_create_sound l r Hl Hr Hw) as [Hg Hwe Hn He].
  eapply denotes_weaken; [apply (EqExpr_create_sound (Constant Bool 0)); [by apply (inrange_bool false)|done|done]|cbn; lia|].
  intros rho. cbn beta. rewrite He. cbn. by destruct (eval rho l =? eval rho r).
Qed.

Lemma compares_swap create k k' :
  compares create k -> (forall w a b, c_cmp k w a b = c_cmp k' w b a) -> compares (fun l r => create r l) k'.
Proof.
  intros Hc Hk l r Hl Hr Hw. eapply denotes_weaken; [by apply Hc|lia|]. intros rho. cbn. by rewrite Hk, Hw.
Qed.

Lemma cmp_create_sound k : compares (cmp_create k) k.
Proof.
  destruct k; cbn [cmp_create].
  - intros l r. apply EqExpr_create_sound.
  - apply NeExpr_create_sound.
  - apply UltExpr_create_sound.
  - apply UleExpr_create_sound.
  - exact (compares_swap _ _ Ugt UltExpr_create_sound (fun _ _ _ => eq_refl)).
  - exact (compares_swap _ _ Uge UleExpr_create_sound (fun _ _ _ => eq_refl)).
  - apply SltExpr_create_sound.
  - apply SleExpr_create_sound.
  - exact (compares_swap _ _ Sgt SltExpr_create_sound (fun _ _ _ => eq_refl)).
  - exact (compares_swap _ _ Sge SleExpr_create_sound (fun _ _ _ => eq_refl)).
Qed.

(** ** Logic *)

Lemma NotExpr_create_sound e :
  good e -> denotes (NotExpr_create e) (getWidth e) (leaves e) (fun rho => c_not (getWidth e) (eval rho e)).
Proof.
  intros He. destruct (constant_or e) as [(w & v & ->)|Hn]; [by apply denotes_constant; [apply c_not_range|]|].
  replace (NotExpr_create e) with (Not e) by (by destruct e). by split.
Qed.

Lemma select_bool_true c t f :
  good c -> good f -> getWidth c = Bool -> getWidth f = Bool -> forall tv, inrange Bool tv -> t = Constant Bool tv ->
  denotes (if tv =? 1 then OrExpr_create c f else AndExpr_create (createIsZero c) f) Bool (leaves c + leaves f)
    (fun rho => if eval rho c =? 0 then eval rho f else tv).
Proof.
  intros Hc Hf Hwc Hwf tv Htv ->. pose proof (denotes_self c Hc) as Dc. pose proof (denotes_self f Hf) as Df.
  rewrite Hwc in Dc. rewrite Hwf in Df. apply inrange_1 in Htv as [->| ->]; cbn.
  - boolean_form AndExpr_create_sound (createIsZero_sound c Hc) Df.
  - boolean_form OrExpr_create_sound Dc Df.
Qed.

Lemma select_bool_false c t f :
  good c -> good t -> getWidth c = Bool -> getWidth t = Bool -> forall fv, inrange Bool fv -> f = Constant Bool fv ->
  denotes (if fv =? 1 then OrExpr_create (createIsZero c) t else AndExpr_create c t) Bool (leaves c + leaves t)
    (fun rho => if eval rho c =? 0 then fv else eval rho t).
Proof.
  intros Hc Ht Hwc Hwt fv Hfv ->. pose proof (denotes_self c Hc) as Dc. pose proof (denotes_self t Ht) as Dt.
  rewrite Hwc in Dc. rewrite Hwt in Dt. apply inrange_1 in Hfv as [->| ->]; cbn.
  - boolean_form AndExpr_create_sound Dc Dt.
  - boolean_form OrExpr_create_sound (createIsZero_sound c Hc) Dt.
Qed.

Lemma SelectExpr_create_sound c t f :
  good c -> good t -> good f -> getWidth c = Bool -> getWidth t = getWidth f ->
  denotes (SelectExpr_create c t f) (getWidth t) (leaves c + leaves t + leaves f)
    (fun rho => if eval rho c =? 0 then eval rho f else eval rho t).
Proof.
  intros Hc Ht Hf Hwc Hw. destruct (constant_or c) as [(cw & cv & ->)|Hn].
  { cbn in Hwc, Hc. subst cw. apply inrange_1 in Hc as [->| ->]; cbn; split; try done; lia. }
  replace (SelectExpr_create c t f) with
    (if expr_eqb t f then t
     else if getWidth t =? Bool then
       match t, f with
       | Constant _ tv, _ => if tv =? 1 then OrExpr_create c f else AndExpr_create (createIsZero c) f
       | _, Constant _ fv => if fv =? 1 then OrExpr_create (createIsZero c) t else AndExpr_create c t
       | _, _ => Select c t f
       end
     else Select c t f) by (by destruct c).
  destruct (expr_eqbP t f) as [<-|]; [split; try done; [lia|]; intros rho; by case_match|].
  destruct (Z.eqb_spec (getWidth t) Bool) as [E|]; [|by split].
  destruct (constant_or t) as [(tw & tv & ->)|Hnt].
  { cbn in E. subst tw. eapply denotes_weaken; [by eapply select_bool_true|cbn; lia|done]. }
  destruct (constant_or f) as [(fw & fv & ->)|Hnf].
  { assert (fw = Bool) as -> by (cbn in Hw; congruence).
    match goal with |- denotes ?x _ _ _ => replace x with (if fv =? 1 then OrExpr_create (createIsZero c) t else AndExpr_create c t)
      by (by destruct t) end.
    rewrite E. eapply denotes_weaken; [by eapply select_bool_false|lia|done]. }
  match goal with |- denotes ?x _ _ _ => replace x with (Select c t f) by (by destruct t, f) end. by split.
Qed.

Lemma ImpliesExpr_create_sound h c :
  good h -> good c -> getWidth h = Bool -> getWidth c = Bool ->
  denotes (ImpliesExpr_create h c) Bool (leaves h + leaves c) (fun rho => if eval rho h =? 0 then 1 else eval rho c).
Proof.
  intros Hh Hc Hwh Hwc. destruct (constant_or h) as [(hw & hv & ->)|Hnh].
  { cbn in Hwh, Hh. subst hw. apply inrange_1 in Hh as [->| ->]; cbn; [by apply (denotes_bool true)|]. by split. }
  destruct (constant_or c) as [(cw & cv & ->)|Hnc].
  { cbn in Hwc, Hc. subst cw.
    replace (ImpliesExpr_create h _) with (if cv =? 1 then true_ else createIsZero h) by (by destruct h).
    apply inrange_1 in Hc as [->| ->]; cbn.
    - eapply denotes_weaken; [by apply createIsZero_sound|lia|]. intros rho. bool_cases.
    - apply (denotes_bool true). intros rho. by case_match. }
  replace (ImpliesExpr_create h c) with (Implies h c) by (by destruct h, c). split; cbn; naive_solver.
Qed.
