(* ===== verification/ExprBits.v ===== *)
(** * Concatenations, extractions, extensions and reads are right

    The creators that move bits, continued from [ExprSound], and the read of an
    array with updates.  [ConcatExpr::create] and [ExtractExpr::create] call each
    other; two levels of nesting are enough for well-formed expressions. *)

From stdpp Require Import base list.
From Stdlib Require Import ZArith Lia.
From S2P Require Import Prelude BitVec Expr ExprCreate ExprSound.

(** ** Extraction and concatenation *)

(** An [ExtractExpr::create] that is right on an expression; on all those that
    are neither constants nor concatenations. *)
Definition extracts_at (extract : expr -> Z -> Z -> expr) (e : expr) : Prop :=
  forall off w, good e -> 0 <= off -> 0 < w -> off + w <= getWidth e ->
  denotes (extract e off w) w (leaves e) (fun rho => ext off w (eval rho e)).

Definition extracts_flat (extract : expr -> Z -> Z -> expr) : Prop :=
  forall e, isa_Constant e = false -> isa_Concat e = false -> extracts_at extract e.

Lemma zext_value s w rho : good s -> getWidth s <= w -> zextOrTrunc w (eval rho s) = eval rho s.
Proof. intros Hs Hw. apply zext_small. eapply inrange_wider; [by apply eval_range|done]. Qed.

(** Widening. *)
Lemma zext_wide extract e w :
  good e -> isa_Constant e = false -> getWidth e < w ->
  denotes (zext_with extract e w) w (leaves e) (fun rho => eval rho e).
Proof.
  intros He Hn Hw. unfold zext_with. destruct (Z.eqb_spec w (getWidth e)), (Z.ltb_spec w (getWidth e)); try lia.
  assert (denotes (ZExt e w) w (leaves e) (fun rho => eval rho e)) as Hplain.
  { split; cbn; [split_and!; [done|lia|done]|done|done|]. intros rho. apply zext_value; [done|lia]. }
  destruct e; try done. cbn in He, Hw |- *. conj. split; cbn; [split_and!; [done|lia|done]|done|done|].
  intros rho. rewrite !zext_value by (done || lia). done.
Qed.

Lemma denotes_concat l r :
  good l -> good r -> isa_Constant l = false \/ isa_Constant r = false ->
  denotes (Concat l r) (getWidth l + getWidth r) (leaves l + leaves r) (fun rho => cat (getWidth r) (eval rho l) (eval rho r)).
Proof. intros. by split. Qed.

Section concat.
Context (extract : expr -> Z -> Z -> expr) (Hext : extracts_flat extract).

Lemma concat_sound l r :
  good l -> good r ->
  denotes (concat_with extract l r) (getWidth l + getWidth r) (leaves l + leaves r)
    (fun rho => cat (getWidth r) (eval rho l) (eval rho r)).
Proof.
  revert r. induction l; intros r0 Hl Hr; cbn [concat_with];
    try (by apply denotes_concat; auto).
  - destruct (constant_or r0) as [(rw & rv & ->)|Hnr].
    { cbn in *. rewrite <- cat_lor by done. apply denotes_constant; [by apply cat_range|done]. }
    match goal with |- denotes ?x _ _ _ => replace x with
      (if v =? 0 then zext_with extract r0 (w + getWidth r0) else Concat (Constant w v) r0) by (by destruct r0) end.
    destruct (Z.eqb_spec v 0) as [->|]; [|by apply denotes_concat; auto].
    cbn in Hl. pose proof (proj1 Hl). eapply denotes_weaken; [apply zext_wide; [done|done|cbn; lia]|done|done].
  - destruct r0 as [| | |c t f| | | | | | | |]; try (by apply denotes_concat; auto).
    destruct (expr_eqbP l1 c) as [<-|]; [|by apply denotes_concat; auto]. cbn [good getWidth] in Hl, Hr |- *. conj.
    destruct (IHl2 t ltac:(done) ltac:(done)) as [Hg2 Hw2 Hn2 He2].
    destruct (IHl3 f ltac:(done) ltac:(done)) as [Hg3 Hw3 Hn3 He3].
    destruct (SelectExpr_create_sound l1 _ _ ltac:(done) Hg2 Hg3 ltac:(done) ltac:(congruence)) as [Hg Hw Hn He].
    split; [done|congruence|cbn; lia|]. intros rho. rewrite He, He2, He3. cbn.
    by destruct (eval rho l1 =? 0); [replace (getWidth f) with (getWidth t) by done|].
  - cbn [good getWidth] in Hl |- *. conj. destruct (IHl2 r0 ltac:(done) Hr) as [Hg2 Hw2 Hn2 He2].
    destruct (IHl1 _ ltac:(done) Hg2) as [Hg1 Hw1 Hn1 He1].
    split; [done|rewrite Hw1, Hw2; lia|cbn; lia|]. intros rho. rewrite He1, He2, Hw2. cbn. symmetry.
    by apply cat_assoc; apply eval_range.
  - destruct r0 as [| | | | |e off' w'| | | | | |]; try (by apply denotes_concat; auto).
    destruct (expr_eqb l e && (off' + w' =? offset)) eqn:E; [|by apply denotes_concat; auto].
    apply andb_true_iff in E as [<-%expr_eqb_eq <-%Z.eqb_eq]. cbn [good getWidth] in Hl, Hr |- *. conj.
    eapply denotes_weaken; [apply Hext; try done; lia|cbn; lia|].
    intros rho. cbn. symmetry. apply cat_ext_ext; lia.
Qed.
End concat.

Lemma denotes_extract e off w :
  good e -> isa_Constant e = false -> isa_Concat e = false -> 0 <= off -> 0 < w -> off + w <= getWidth e ->
  denotes (Extract e off w) w (leaves e) (fun rho => ext off w (eval rho e)).
Proof. intros. by split. Qed.

(** A whole expression. *)
Lemma denotes_whole e off :
  good e -> 0 <= off -> off + getWidth e <= getWidth e ->
  denotes e (getWidth e) (leaves e) (fun rho => ext off (getWidth e) (eval rho e)).
Proof.
  intros He H0 Hle. assert (off = 0) as -> by lia. split; try done. intros rho. symmetry. apply ext_all. by apply eval_range.
Qed.

Lemma extract_zext e we off w :
  good (ZExt e we) -> 0 <= off -> 0 < w -> off + w <= we ->
  denotes (if (off =? 0) && (w =? getWidth e) then e else if getWidth e <=? off then Constant w 0 else Extract (ZExt e we) off w)
    w (leaves e) (fun rho => ext off w (eval rho (ZExt e we))).
Proof.
  intros Hg H0 Hw Hle. pose proof Hg as Hg'. cbn in Hg'. conj.
  destruct ((off =? 0) && (w =? getWidth e)) eqn:E.
  { apply andb_true_iff in E as [->%Z.eqb_eq ->%Z.eqb_eq]. split; try done. intros rho. cbn. rewrite zext_value by done.
    symmetry. apply ext_all. by apply eval_range. }
  destruct (Z.leb_spec (getWidth e) off) as [Hge|]; [|by apply (denotes_extract (ZExt e we))].
  apply denotes_constant; [split; [done|]; pose proof (pow2_pos w); lia|]. intros rho. cbn. rewrite zext_value by done.
  apply Z.bits_inj_0. intros i. destruct (Z.lt_ge_cases i 0); [by apply Z.testbit_neg_r|].
  rewrite ext_bits by lia. rewrite (testbit_inrange (getWidth e)) by (by apply eval_range || lia). apply andb_false_r.
Qed.

(** One level more: the cases of [extract_level]. *)
Lemma extract_level_cases n e off w :
  extract_level (S n) e off w =
  if w =? getWidth e then e
  else
    match e with
    | Constant cw v => Constant w (c_extract cw off w v)
    | Concat l r =>
        if getWidth r <=? off then extract_level (S n) l (off - getWidth r) w
        else if off + w <=? getWidth r then extract_level (S n) r off w
        else concat_with (extract_level n) (extract_level (S n) l 0 (w - getWidth r + off))
               (extract_level (S n) r off (getWidth r - off))
    | ZExt src _ =>
        if (off =? 0) && (w =? getWidth src) then src
        else if getWidth src <=? off then Constant w 0
        else Extract e off w
    | _ => Extract e off w
    end.
Proof. by destruct e. Qed.

Lemma extract_concat n l r off w :
  extracts_flat (extract_level n) -> extracts_at (extract_level (S n)) l -> extracts_at (extract_level (S n)) r ->
  good l -> good r -> 0 <= off -> 0 < w -> off + w <= getWidth l + getWidth r ->
  denotes (if getWidth r <=? off then extract_level (S n) l (off - getWidth r) w
           else if off + w <=? getWidth r then extract_level (S n) r off w
           else concat_with (extract_level n) (extract_level (S n) l 0 (w - getWidth r + off))
                  (extract_level (S n) r off (getWidth r - off)))
    w (leaves l + leaves r) (fun rho => ext off w (cat (getWidth r) (eval rho l) (eval rho r))).
Proof.
  intros Hflat Hxl Hxr Hl Hr H0 Hw Hle.
  destruct (Z.leb_spec (getWidth r) off).
  { eapply denotes_weaken; [apply Hxl; [done|lia..]|lia|]. intros rho. symmetry. apply ext_cat_left; [by apply eval_range|lia..]. }
  destruct (Z.leb_spec (off + w) (getWidth r)).
  { eapply denotes_weaken; [apply Hxr; [done|lia..]|lia|]. intros rho. symmetry. apply ext_cat_right; [by apply eval_range|lia..]. }
  destruct (Hxl 0 (w - getWidth r + off)) as [Hg1 Hw1 Hn1 He1]; [done|lia..|].
  destruct (Hxr off (getWidth r - off)) as [Hg2 Hw2 Hn2 He2]; [done|lia..|].
  destruct (concat_sound _ Hflat _ _ Hg1 Hg2) as [Hg Hwc Hn He].
  split; [done|lia|lia|]. intros rho. rewrite He, He1, He2, Hw2. symmetry. apply ext_cat_both; [by apply eval_range|lia..].
Qed.

(** Every level is right on flat expressions, and from the first on, on all. *)
Lemma extract_level_all n : extracts_flat (extract_level n) -> forall e, extracts_at (extract_level (S n)) e.
Proof.
  intros Hflat e. induction e; intros off w0 Hg H0 Hw Hle; rewrite extract_level_cases;
    match goal with |- denotes (if ?w =? getWidth ?e then _ else _) _ _ _ => destruct (Z.eqb_spec w (getWidth e)) as [->|Hne] end;
    try (by apply denotes_whole); try (by apply denotes_extract).
  - cbn in Hg, Hle. pose proof (proj1 Hg). rewrite c_extract_ext by lia. by apply denotes_constant; [apply ext_range|].
  - cbn in Hg. conj. by apply extract_concat; auto.
  - by apply (extract_zext e w).
Qed.

Lemma extract_level_flat n : extracts_flat (extract_level n).
Proof.
  induction n as [|n IH]; intros e Hn Hc; [|by apply extract_level_all]. intros off w Hg H0 Hw Hle. by apply denotes_extract.
Qed.

Lemma ExtractExpr_create_sound e off w :
  good e -> 0 <= off -> 0 < w -> off + w <= getWidth e ->
  denotes (ExtractExpr_create e off w) w (leaves e) (fun rho => ext off w (eval rho e)).
Proof. apply (extract_level_all 1), extract_level_flat. Qed.

Lemma ConcatExpr_create_sound l r :
  good l -> good r ->
  denotes (ConcatExpr_create l r) (getWidth l + getWidth r) (leaves l + leaves r)
    (fun rho => cat (getWidth r) (eval rho l) (eval rho r)).
Proof. apply concat_sound, (extract_level_flat 2). Qed.

Lemma ZExtExpr_create_sound e w :
  good e -> 0 < w -> denotes (ZExtExpr_create e w) w (leaves e) (fun rho => zextOrTrunc w (eval rho e)).
Proof.
  intros He Hw. unfold ZExtExpr_create.
  destruct (Z.lt_trichotomy w (getWidth e)) as [Hlt|[->|Hgt]].
  - unfold zext_with. destruct (Z.eqb_spec w (getWidth e)), (Z.ltb_spec w (getWidth e)); try lia.
    eapply denotes_weaken; [apply ExtractExpr_create_sound; [done|lia..]|done|].
    intros rho. unfold ext, zextOrTrunc. by rewrite Z.pow_0_r, Z.div_1_r.
  - unfold zext_with. rewrite Z.eqb_refl. split; try done. intros rho. symmetry. by apply zext_value.
  - destruct (constant_or e) as [(cw & cv & ->)|Hn].
    + unfold zext_with. cbn in Hgt |- *. destruct (Z.eqb_spec w cw), (Z.ltb_spec w cw); try lia.
      by apply denotes_constant; [apply inrange_mod|].
    + eapply denotes_weaken; [by apply zext_wide|done|]. intros rho. symmetry. apply zext_value; [done|lia].
Qed.

Lemma SExtExpr_create_sound e w :
  good e -> 0 < w -> denotes (SExtExpr_create e w) w (leaves e) (fun rho => sextOrTrunc (getWidth e) w (eval rho e)).
Proof.
  intros He Hw. pose proof (width_pos e He). unfold SExtExpr_create.
  destruct (Z.eqb_spec w (getWidth e)) as [->|].
  { split; try done. intros rho. unfold sextOrTrunc. rewrite swrap_mod by done. symmetry. by apply zext_value. }
  destruct (Z.ltb_spec w (getWidth e)).
  - eapply denotes_weaken; [apply ExtractExpr_create_sound; [done|lia..]|done|].
    intros rho. unfold sextOrTrunc. bits. rewrite Z.add_0_r. destruct (Z.ltb_spec i w); [|done].
    by rewrite swrap_bits by lia.
  - destruct (constant_or e) as [(cw & cv & ->)|Hn]; [by apply denotes_constant; [apply sext_range|]|].
    replace (match e with Constant cw v => _ | _ => _ end) with (SExt e w) by (by destruct e).
    split; cbn; [split_and!; [done|lia|done]|done|done|done].
Qed.

(** *** The nesting is bounded *)

(** On flat expressions all levels from the first on agree, hence on all
    expressions those from the second on: [ExtractExpr_create] satisfies the
    recursive equations of the code. *)
Lemma extract_flat_levels n m e off w :
  isa_Concat e = false -> extract_level (S n) e off w = extract_level (S m) e off w.
Proof. intros Hc. rewrite (extract_level_cases n), (extract_level_cases m). by destruct e. Qed.

Lemma concat_ext f g l r :
  good l -> (forall e off w, isa_Concat e = false -> f e off w = g e off w) ->
  (forall e w, getWidth e < w -> zext_with f e w = zext_with g e w) ->
  concat_with f l r = concat_with g l r.
Proof.
  intros Hl Hfg Hz. revert r Hl. induction l; intros r0 Hl; cbn [concat_with]; try done.
  - destruct r0; try done; (destruct (v =? 0); [|done]); apply Hz; cbn in Hl |- *; pose proof (proj1 Hl); lia.
  - cbn in Hl. conj. destruct r0; try done. by rewrite IHl2, IHl3.
  - cbn in Hl. conj. by rewrite IHl2, IHl1.
  - cbn in Hl. conj. destruct r0; try done. case_match; [|done]. by apply Hfg.
Qed.

Lemma extract_levels n m e off w :
  good e -> 0 <= off -> 0 < w -> off + w <= getWidth e ->
  extract_level (S (S n)) e off w = extract_level (S (S m)) e off w.
Proof.
  revert off w. induction e; intros off w0 Hg H0 Hw Hle;
    rewrite (extract_level_cases (S n)), (extract_level_cases (S m)); try done.
  cbn in Hg, Hle. conj. destruct (w0 =? _); [done|].
  destruct (Z.leb_spec (getWidth e2) off); [apply IHe1; [done|lia..]|].
  destruct (Z.leb_spec (off + w0) (getWidth e2)); [apply IHe2; [done|lia..]|].
  rewrite IHe1, IHe2 by (done || lia). apply concat_ext.
  - apply (extract_level_all (S m)); [apply extract_level_flat|done|lia..].
  - intros. by apply extract_flat_levels.
  - intros e w1 Hlt. unfold zext_with. destruct (Z.eqb_spec w1 (getWidth e)), (Z.ltb_spec w1 (getWidth e)); try lia. done.
Qed.

Lemma ExtractExpr_create_concat l r off w :
  good (Concat l r) -> 0 <= off < getWidth r -> getWidth r < off + w -> off + w <= getWidth l + getWidth r ->
  w <> getWidth (Concat l r) ->
  ExtractExpr_create (Concat l r) off w =
  ConcatExpr_create (ExtractExpr_create l 0 (w - getWidth r + off)) (ExtractExpr_create r off (getWidth r - off)).
Proof.
  intros Hg Ho Hr Hle Hne. cbn in Hg. conj. unfold ExtractExpr_create, ConcatExpr_create.
  rewrite (extract_levels 0 1) by (cbn; auto || lia). rewrite extract_level_cases.
  destruct (Z.eqb_spec w (getWidth (Concat l r))); [done|].
  destruct (Z.leb_spec (getWidth r) off), (Z.leb_spec (off + w) (getWidth r)); try lia.
  by rewrite (extract_levels 1 0 l), (extract_levels 1 0 r) by (done || lia).
Qed.

(** ** Reads *)

Lemma Array_getValueAtIndex_sound a index :
  good_array a -> good index -> getWidth index = Int32 ->
  denotes (Array_getValueAtIndex a index) Int8 (S (leaves index)) (fun rho => array_byte rho a (eval rho index)).
Proof.
  intros Ha Hi Hw. assert (denotes (Read a UNull index) Int8 (S (leaves index)) (fun rho => array_byte rho a (eval rho index)))
    as Hplain by (by split).
  destruct a as [|vs]; [done|]. destruct index; try done. cbn in *.
  destruct (vs !! Z.to_nat v) eqn:E; [|done]. apply denotes_constant; [|done]. by eapply Forall_lookup_1 in Ha.
Qed.

(** The condition under which a single-byte update applies. *)
Lemma single_guard g i index :
  good g -> good i -> good index -> getWidth g = Bool -> getWidth i = getWidth index ->
  denotes (AndExpr_create g (EqExpr_create i index)) Bool (leaves g + (leaves i + leaves index))
    (fun rho => Z_of_bool (negb (eval rho g =? 0) && (eval rho i =? eval rho index))).
Proof.
  intros Hg Hi Hx Hwg Hw. pose proof (denotes_self g Hg) as Dg. rewrite Hwg in Dg.
  eapply denotes_weaken; [apply (creates_app _ _ _ _ _ _ _ _ _ AndExpr_create_sound Dg (EqExpr_create_sound i index Hi Hx Hw))|done|].
  intros rho. cbn. destruct (eval rho i =? eval rho index); bool_cases.
Qed.

Lemma read_updates_sound root ul index un :
  good (Read root ul index) -> good_updates un -> (leaves_updates un <= leaves_updates ul)%nat ->
  (forall rho d, eval_updates rho ul (eval rho index) d = eval_updates rho un (eval rho index) d) ->
  denotes (read_updates root ul index un) Int8 (S (leaves_updates ul + leaves index)) (fun rho => eval rho (Read root ul index)).
Proof.
  intros Hg. pose proof Hg as Hg'. cbn in Hg'. conj. induction un as [|g i v next IH|g src next IH]; intros Hu Hn Heq.
  - split; cbn; [done|done|lia|]. intros rho. by rewrite Heq.
  - cbn in Hu, Hn |- *. conj.
    pose proof (single_guard g i index ltac:(done) ltac:(done) ltac:(done) ltac:(done) ltac:(congruence)) as [Hgd Hwd _ Hed].
    destruct (constant_or (AndExpr_create g (EqExpr_create i index))) as [(cw & cv & Hc)|Hc].
    + rewrite Hc in *. cbn in Hed. destruct (Z.eqb_spec cv 1) as [->|Hne].
      * split; [done|done|lia|]. intros rho. cbn. rewrite Heq. cbn. specialize (Hed rho).
        destruct (negb _ && _); [done|discriminate Hed].
      * apply IH; [done|lia|]. intros rho d. rewrite Heq. cbn. specialize (Hed rho).
        destruct (negb _ && _); [by destruct Hne|done].
    + replace (match AndExpr_create g _ with Constant _ _ => _ | _ => _ end) with (Read root ul index)
        by (by destruct (AndExpr_create g (EqExpr_create i index))).
      by split.
  - cbn in Hu, Hn |- *. conj. destruct (constant_or g) as [(cw & cv & ->)|Hc].
    + match goal with H : getWidth (Constant cw cv) = Bool |- _ => cbn in H; subst cw end.
      assert (cv = 0 \/ cv = 1) as [->| ->] by (by apply inrange_1); cbn.
      * apply IH; [done|cbn in Hn; lia|]. intros rho d. by rewrite Heq.
      * eapply denotes_weaken; [by apply Array_getValueAtIndex_sound|lia|]. intros rho. cbn. by rewrite Heq.
    + replace (match g with Constant _ _ => _ | _ => _ end) with (Read root ul index) by (by destruct g). by split.
Qed.

Lemma ReadExpr_create_sound root ul index :
  good (Read root ul index) ->
  denotes (ReadExpr_create root ul index) Int8 (leaves (Read root ul index)) (fun rho => eval rho (Read root ul index)).
Proof. intros Hg. apply read_updates_sound; try done. by cbn in Hg; conj. Qed.
