(* ===== verification/ExprVisit.v ===== *)
(** * Visitors ([lib/Expr/ExprVisitor.cpp])

    A visitor rebuilds an expression from its visited operands and may replace
    nodes before and after.  The table of visited expressions only remembers
    results, and is left out.  The two replacing visitors of the constraint
    manager are shown to keep the value under every assignment that satisfies
    the replacements, and to end: a replacement removes leaves. *)

From stdpp Require Import base list.
From Stdlib Require Import ZArith Lia.
From S2P Require Import Prelude BitVec Expr ExprCreate ExprSound ExprBits.

(** ** Rebuilding *)

(** The node with other operands, and [rebuild], which creates it anew. *)
Definition map_kids (f : expr -> expr) (e : expr) : expr :=
  match e with
  | Constant _ _ => e
  | NotOptimized s => NotOptimized (f s)
  | Read root ul i => Read root ul (f i)
  | Select c t fl => Select (f c) (f t) (f fl)
  | Concat l r => Concat (f l) (f r)
  | Extract e off w => Extract (f e) off w
  | ZExt s w => ZExt (f s) w
  | SExt s w => SExt (f s) w
  | Not e => Not (f e)
  | Bin k l r => Bin k (f l) (f r)
  | Cmp k l r => Cmp k (f l) (f r)
  | Implies l r => Implies (f l) (f r)
  end.

Definition rebuild (e : expr) : expr :=
  match e with
  | Constant _ _ => e
  | NotOptimized s => NotOptimized s
  | Read root ul i => ReadExpr_create root ul i
  | Select c t f => SelectExpr_create c t f
  | Concat l r => ConcatExpr_create l r
  | Extract e off w => ExtractExpr_create e off w
  | ZExt s w => ZExtExpr_create s w
  | SExt s w => SExtExpr_create s w
  | Not e => NotExpr_create e
  | Bin k l r => bin_create k l r
  | Cmp k l r => cmp_create k l r
  | Implies l r => ImpliesExpr_create l r
  end.

(** ** Visiting *)

Section visitor.
Context (visitExpr visitExprPost : expr -> option expr).

(** [visitActual], where [again] is the visit of the rebuilt expression; an
    action [ChangeTo] is [Some], [None] stands for visiting the operands. *)
Fixpoint visit_with (again : expr -> expr) (e : expr) : expr :=
  match e with
  | Constant _ _ => e
  | _ =>
      match visitExpr e with
      | Some r => r
      | None =>
          let kids := map_kids (visit_with again) e in
          let e' := if expr_eqb kids e then e else again (rebuild kids) in
          match e' with
          | Constant _ _ => e'
          | _ => match visitExprPost e' with Some r => r | None => e' end
          end
      end
  end.

(** A visitor that is not [recursive], and one that is; every repeated visit has
    fewer leaves to go. *)
Definition visit_once : expr -> expr := visit_with (fun e => e).

Fixpoint visit_again (n : nat) : expr -> expr :=
  match n with
  | O => visit_once
  | S n => visit_with (visit_again n)
  end.

Definition visit_recursive (e : expr) : expr := visit_again (leaves e) e.

End visitor.

(** [ExprReplaceVisitor]: one expression by another, before and after. *)
Definition ExprReplaceVisitor (src dst : expr) : expr -> expr :=
  visit_once (fun e => if expr_eqb e src then Some dst else None) (fun e => if expr_eqb e src then Some dst else None).

(** The replacements of [ExprReplaceVisitor2]; the first entry for a key counts,
    as [std::map::insert] keeps it. *)
Fixpoint find_replacement (replacements : list (expr * expr)) (e : expr) : option expr :=
  match replacements with
  | [] => None
  | (k, v) :: rest => if expr_eqb k e then Some v else find_replacement rest e
  end.

Definition ExprReplaceVisitor2 (replacements : list (expr * expr)) : expr -> expr :=
  visit_recursive (fun _ => None) (find_replacement replacements).

(** ** Rebuilding is right *)

(** The conditions the creators ask for. *)
Definition kids_good (e : expr) : Prop :=
  match e with
  | Constant w v => inrange w v
  | NotOptimized s => good s
  | Read root ul i => good e
  | Select c t f => good c /\ good t /\ good f /\ getWidth c = Bool /\ getWidth t = getWidth f
  | Concat l r => good l /\ good r
  | Extract e off w => good e /\ 0 <= off /\ 0 < w /\ off + w <= getWidth e
  | ZExt s w | SExt s w => good s /\ 0 < w
  | Not e => good e
  | Bin k l r => good l /\ good r /\ getWidth l = getWidth r /\ (is_division k = true -> getWidth l <> Bool)
  | Cmp k l r => good l /\ good r /\ getWidth l = getWidth r
  | Implies l r => good l /\ good r /\ getWidth l = Bool /\ getWidth r = Bool
  end.

Lemma rebuild_sound e : kids_good e -> denotes (rebuild e) (getWidth e) (leaves e) (fun rho => eval rho e).
Proof.
  intros Hk. destruct e; cbn [kids_good rebuild] in *; conj.
  - by apply denotes_constant.
  - by split.
  - by apply ReadExpr_create_sound.
  - by apply (SelectExpr_create_sound e1 e2 e3).
  - by apply (ConcatExpr_create_sound e1 e2).
  - by apply (ExtractExpr_create_sound e).
  - by apply (ZExtExpr_create_sound e).
  - by apply (SExtExpr_create_sound e).
  - by apply (NotExpr_create_sound e).
  - destruct (is_division k) eqn:Ed; [|by apply (bin_create_sound k Ed e1 e2)].
    apply (division_sound k e1 e2); try done. intros E. by destruct (H2 eq_refl).
  - by apply (cmp_create_sound k e1 e2).
  - replace (getWidth (Implies e1 e2)) with Bool by done. by apply (ImpliesExpr_create_sound e1 e2).
Qed.

(** ** Replacing is right *)

(** What a visit may do to an expression, for the assignments in [P]. *)
Record same (P : assignment -> Prop) (e e' : expr) : Prop := Same {
  s_good : good e';
  s_width : getWidth e' = getWidth e;
  s_leaves : e' = e \/ (leaves e' < leaves e)%nat;
  s_eval : forall rho, P rho -> eval rho e' = eval rho e;
}.

Lemma same_refl P e : good e -> same P e e.
Proof. intros. split; auto. Qed.

Lemma same_leaves P e e' : same P e e' -> (leaves e' <= leaves e)%nat.
Proof. intros [_ _ [->|] _]; lia. Qed.

Lemma same_trans P e1 e2 e3 : same P e1 e2 -> same P e2 e3 -> same P e1 e3.
Proof.
  intros [? Hw1 Hl1 He1] [? Hw2 Hl2 He2]. split; [done|congruence| |].
  - destruct Hl1 as [->|], Hl2 as [->|]; auto; right; lia.
  - intros rho HP. rewrite He2, He1; done.
Qed.

(** A replacement by a constant of the same value. *)
Definition replaces (P : assignment -> Prop) (f : expr -> option expr) : Prop :=
  forall e r, good e -> isa_Constant e = false -> f e = Some r ->
  exists v, r = Constant (getWidth e) v /\ inrange (getWidth e) v /\ forall rho, P rho -> eval rho e = v.

Lemma replaces_same P f e r : replaces P f -> good e -> isa_Constant e = false -> f e = Some r -> same P e r.
Proof.
  intros Hf He Hn Hr. destruct (Hf e r He Hn Hr) as (v & -> & Hv & Hval). split; [done|done| |].
  - right. cbn. by apply leaves_pos.
  - intros rho HP. cbn. by rewrite Hval.
Qed.

(** Visited operands: the node keeps its width and value, and loses leaves if it
    changes. *)
Lemma map_kids_same P f e :
  good e -> isa_Constant e = false -> (forall e', (esize e' < esize e)%nat -> (leaves e' <= leaves e)%nat -> good e' -> same P e' (f e')) ->
  kids_good (map_kids f e) /\ getWidth (map_kids f e) = getWidth e /\
  (map_kids f e = e \/ (leaves (map_kids f e) < leaves e)%nat) /\
  (forall rho, P rho -> eval rho (map_kids f e) = eval rho e).
Proof.
  intros Hg Hn Hf. pose proof (width_pos e Hg) as Hpos.
  destruct e; try done; cbn [good map_kids] in *; conj;
  repeat match goal with
    | H : good ?x |- context [f ?x] =>
        let S := fresh "S" in
        pose proof (Hf x ltac:(cbn; lia) ltac:(cbn; lia) H) as S; revert H; pose proof (same_leaves _ _ _ S);
        let Hw := fresh "Hw" in let Hl := fresh "Hl" in let He := fresh "He" in
        destruct S as [? Hw Hl He]; generalize dependent (f x); intros
    end; intros.
  all: split_and!; cbn [kids_good good getWidth leaves] in *.
  all: try (split_and?; (done || congruence || lia)).
  all: try (repeat match goal with H : _ \/ _ |- _ => destruct H end; subst; auto; right; lia).
  all: try (intros rho HP; cbn [eval]; repeat match goal with H : forall r, ?Q r -> eval r _ = _ |- _ => rewrite (H rho HP) end; congruence).
  split_and!; [done|done|congruence|]. intros Hd. replace (getWidth e) with (getWidth e1) by congruence.
  destruct k; done.
Qed.

(** Changed operands are created anew. *)
Lemma rebuild_same P e kids :
  kids_good kids -> getWidth kids = getWidth e -> kids = e \/ (leaves kids < leaves e)%nat ->
  (forall rho, P rho -> eval rho kids = eval rho e) -> kids <> e ->
  same P e (rebuild kids) /\ (leaves (rebuild kids) < leaves e)%nat.
Proof.
  intros Hk Hw Hl He Hne. destruct (rebuild_sound kids Hk) as [Hg Hwr Hn Her]. destruct Hl as [|Hl]; [done|].
  split; [|lia]. split; [done|congruence|right; lia|]. intros rho HP. by rewrite Her, He.
Qed.

Section visit_sound.
Context (P : assignment -> Prop) (pre post : expr -> option expr).
Context (Hpre : replaces P pre) (Hpost : replaces P post).

Lemma post_same e : good e -> same P e (match e with Constant _ _ => e | _ => match post e with Some r => r | None => e end end).
Proof.
  intros He. assert (isa_Constant e = false -> same P e (match post e with Some r => r | None => e end)) as H.
  { intros Hn. destruct (post e) eqn:E; [by apply (replaces_same P post)|by apply same_refl]. }
  destruct e; try (by apply H). by apply same_refl.
Qed.

Lemma visit_with_cases again e :
  isa_Constant e = false ->
  visit_with pre post again e =
  match pre e with
  | Some r => r
  | None =>
      let e' := if expr_eqb (map_kids (visit_with pre post again) e) e then e
                else again (rebuild (map_kids (visit_with pre post again) e)) in
      match e' with Constant _ _ => e' | _ => match post e' with Some r => r | None => e' end end
  end.
Proof. by destruct e. Qed.

(** The visit is right if the visit of the rebuilt expressions is. *)
Lemma visit_with_same again (n : nat) :
  (forall e, good e -> (leaves e < n)%nat -> same P e (again e)) ->
  forall e, good e -> (leaves e <= n)%nat -> same P e (visit_with pre post again e).
Proof.
  intros Hagain e. remember (esize e) as m eqn:Em. revert e Em. induction (lt_wf m) as [m _ IH]. intros e -> He Hn.
  destruct (constant_or e) as [(w & v & ->)|Hc]; [by apply same_refl|].
  rewrite visit_with_cases by done. destruct (pre e) eqn:Ep; [by apply (replaces_same P pre)|]. cbv zeta.
  assert (same P e (if expr_eqb (map_kids (visit_with pre post again) e) e then e
                    else again (rebuild (map_kids (visit_with pre post again) e)))) as Hs.
  { destruct (expr_eqbP (map_kids (visit_with pre post again) e) e) as [|Hne]; [by apply same_refl|].
    destruct (map_kids_same P (visit_with pre post again) e He Hc) as (Hk & Hw & Hl & Hv).
    - intros e' Hlt Hle Hg. apply (IH _ Hlt); [done|done|lia].
    - destruct (rebuild_same P e _ Hk Hw Hl Hv Hne) as [Hr Hlt]. eapply same_trans; [exact Hr|].
      apply Hagain; [by destruct Hr|lia]. }
  eapply same_trans; [exact Hs|]. apply post_same. by destruct Hs.
Qed.

Lemma visit_once_same e : good e -> same P e (visit_once pre post e).
Proof.
  intros He. apply (visit_with_same (fun e => e) (leaves e)); [|done|done]. intros. by apply same_refl.
Qed.

Lemma visit_again_same n e : good e -> (leaves e <= n)%nat -> same P e (visit_again pre post n e).
Proof.
  revert e. induction n as [|n IH]; intros e He Hn; [by apply visit_once_same|].
  apply (visit_with_same (visit_again pre post n) (S n)); [|done|done]. intros e' He' Hlt. apply IH; [done|lia].
Qed.

(** *** The repeated visits end *)

Lemma visit_with_ext f g (n : nat) :
  (forall e, good e -> (leaves e < n)%nat -> f e = g e /\ same P e (f e)) ->
  forall e, good e -> (leaves e <= n)%nat -> visit_with pre post f e = visit_with pre post g e.
Proof.
  intros Hfg e. remember (esize e) as m eqn:Em. revert e Em. induction (lt_wf m) as [m _ IH]. intros e -> He Hn.
  destruct (constant_or e) as [(w & v & ->)|Hc]; [done|]. rewrite !visit_with_cases by done.
  destruct (pre e); [done|]. cbv zeta.
  assert (map_kids (visit_with pre post f) e = map_kids (visit_with pre post g) e) as <-.
  { destruct e; try done; cbn [map_kids good] in *; conj; f_equal; (eapply IH; [|reflexivity|done|]); cbn in *; lia. }
  destruct (expr_eqbP (map_kids (visit_with pre post f) e) e) as [|Hne]; [done|].
  destruct (map_kids_same P (visit_with pre post f) e He Hc) as (Hk & Hw & Hl & Hv).
  { intros e' _ Hle Hg. apply (visit_with_same f n); [|done|lia]. intros. by apply Hfg. }
  destruct (rebuild_same P e _ Hk Hw Hl Hv Hne) as [Hr Hlt]. destruct (Hfg _ (s_good _ _ _ Hr)) as [<- _]; [lia|done].
Qed.

(** More repetitions than leaves change nothing. *)
Lemma visit_again_enough n m e :
  good e -> (leaves e <= n)%nat -> (leaves e <= m)%nat -> visit_again pre post n e = visit_again pre post m e.
Proof.
  revert m e. induction n as [|n IH]; intros m e He Hn Hm.
  - destruct (constant_or e) as [(w & v & ->)|Hc]; [by destruct m|]. pose proof (leaves_pos e He Hc). lia.
  - destruct m as [|m].
    + destruct (constant_or e) as [(w & v & ->)|Hc]; [done|]. pose proof (leaves_pos e He Hc). lia.
    + apply (visit_with_ext _ _ (S (min n m))); [|done|lia]. intros e' He' Hlt. split; [apply IH; [done|lia..]|].
      apply visit_again_same; [done|lia].
Qed.

(** The recursive visitor satisfies the equation of the code. *)
Lemma visit_recursive_eq e :
  good e -> visit_recursive pre post e = visit_with pre post (visit_recursive pre post) e.
Proof.
  intros He. unfold visit_recursive at 1. destruct (constant_or e) as [(w & v & ->)|Hc]; [done|].
  pose proof (leaves_pos e He Hc). destruct (leaves e) as [|n] eqn:En; [lia|]. cbn [visit_again].
  apply (visit_with_ext _ _ (S n)); [|done|lia]. intros e' He' Hlt. split; [|apply visit_again_same; [done|lia]].
  apply visit_again_enough; [done|lia|done].
Qed.

Lemma visit_recursive_same e : good e -> same P e (visit_recursive pre post e).
Proof. intros He. by apply visit_again_same. Qed.

End visit_sound.

(** ** The two replacing visitors *)

Lemma replaces_none P : replaces P (fun _ => None).
Proof. intros e r _ _ [=]. Qed.

Lemma replaces_one P src v :
  good src -> inrange (getWidth src) v -> (forall rho, P rho -> eval rho src = v) ->
  replaces P (fun e => if expr_eqb e src then Some (Constant (getWidth src) v) else None).
Proof. intros Hs Hv HP e r He Hn. destruct (expr_eqbP e src) as [->|]; [|done]. intros [= <-]. by exists v. Qed.

Lemma ExprReplaceVisitor_same P src v e :
  good src -> inrange (getWidth src) v -> (forall rho, P rho -> eval rho src = v) -> good e ->
  same P e (ExprReplaceVisitor src (Constant (getWidth src) v) e).
Proof. intros Hs Hv HP He. apply visit_once_same; [by apply replaces_one..|done]. Qed.

Lemma ExprReplaceVisitor2_same P replacements e :
  replaces P (find_replacement replacements) -> good e -> same P e (ExprReplaceVisitor2 replacements e).
Proof. intros Hr He. apply visit_recursive_same; [apply replaces_none|done|done]. Qed.


(** ** Properties *)

(** C9: Every creator simplifies only what it may.  Whatever the kind of an
    expression, creating it from well-formed operands gives a well-formed
    expression of the width of the plain operation that has its value under every
    assignment, and never one with more symbolic leaves.  For division and
    remainder the operands are not boolean. *)
Theorem creators_exact e :
  kids_good e -> good (rebuild e) /\ getWidth (rebuild e) = getWidth e /\ (leaves (rebuild e) <= leaves e)%nat /\ forall rho, eval rho (rebuild e) = eval rho e.
Proof. intros [Hg Hw Hl He]%rebuild_sound. auto. Qed.

(** C24: The recursive visitor that puts constants for expressions known to be
    equal to them ends, as visiting what it rebuilds is again the visitor, and its
    result has the value of the original under every assignment that satisfies
    the equalities.  It is the original or has fewer symbolic leaves. *)
Theorem replacing_exact P replacements e :
  replaces P (find_replacement replacements) -> good e ->
  let e' := ExprReplaceVisitor2 replacements e in
  e' = visit_with (fun _ => None) (find_replacement replacements) (ExprReplaceVisitor2 replacements) e /\
  good e' /\ getWidth e' = getWidth e /\ (e' = e \/ (leaves e' < leaves e)%nat) /\ forall rho, P rho -> eval rho e' = eval rho e.
Proof.
  intros Hr He e'. split; [by apply (visit_recursive_eq P); [apply replaces_none|..]|]. destruct (ExprReplaceVisitor2_same P replacements e Hr He). auto.
Qed.

(** ** Example: [3 + x] less [x], and [x] replaced by 5 in it *)

Definition some_byte (a : Z) : expr := Read (Symbolic a) UNull (Constant Int32 0).
Definition three_plus : expr := Bin Add (Constant Int8 3) (some_byte 0).

Lemma creators_exact_witness : rebuild (Bin Sub three_plus (some_byte 0)) = Constant Int8 3 /\ forall rho, eval rho (Bin Sub three_plus (some_byte 0)) = 3.
Proof.
  assert (kids_good (Bin Sub three_plus (some_byte 0))) as Hk.
  { vm_compute. split_and!; try done; auto; congruence. }
  destruct (creators_exact _ Hk) as (_ & _ & _ & He). split; [vm_compute; reflexivity|]. intros rho. rewrite <- He. reflexivity.
Defined.

Definition known_five : list (expr * expr) := [(some_byte 0, Constant Int8 5)].
Definition five_plus : expr := Bin Add three_plus (some_byte 1).

Lemma replacing_exact_witness :
  ExprReplaceVisitor2 known_five five_plus = Bin Add (Constant Int8 8) (some_byte 1) /\
  forall rho, eval rho (some_byte 0) = 5 -> eval rho (ExprReplaceVisitor2 known_five five_plus) = eval rho five_plus.
Proof.
  split; [vm_compute; reflexivity|]. assert (replaces (fun rho => eval rho (some_byte 0) = 5) (find_replacement known_five)) as Hr.
  { intros e r He Hn H. cbn [find_replacement known_five] in H. destruct (expr_eqbP (some_byte 0) e) as [<-|]; [|done]. injection H as <-.
    exists 5. split; [reflexivity|]. split; [vm_compute; split_and!; done|auto]. }
  assert (good five_plus) as Hg by (vm_compute; split_and!; try done; auto; congruence).
  intros rho. exact (proj2 (proj2 (proj2 (proj2 (replacing_exact _ known_five five_plus Hr Hg)))) rho).
Defined.
