(* ===== verification/Constraints.v ===== *)
(** * The constraint manager ([lib/Expr/Constraints.cpp], [include/klee/Constraints.h])

    A set of boolean constraints, kept as one conjunction.  Adding a constraint
    simplifies it with the equalities known so far, splits conjunctions, and
    rewrites the other constraints with a new equality.  The result is
    equivalent to the old constraints together with the new one, and the mutual
    recursion of adding and rewriting ends. *)

From stdpp Require Import base list.
From Stdlib Require Import ZArith Lia.
From S2P Require Import Prelude BitVec Expr ExprCreate ExprSound ExprBits ExprVisit.

Record ConstraintManager := CM {
  cm_summary : expr;
  cm_size : Z;
}.

Definition cm_clear : ConstraintManager := CM true_ 0.

Definition cm_empty (cm : ConstraintManager) : bool := expr_eqb (cm_summary cm) true_.

(** The constraints from [begin()] to [end()]. *)
Definition cm_terms (cm : ConstraintManager) : list expr :=
  if cm_empty cm then [] else nary And (cm_summary cm).

Definition pushConstraint (e : expr) (cm : ConstraintManager) : ConstraintManager :=
  CM (AndExpr_create e (cm_summary cm)) (u64 (cm_size cm + 1)).

(** The constructors from a list of constraints and from a summary. *)
Definition cm_of_list (es : list expr) : ConstraintManager := fold_left (fun cm e => pushConstraint e cm) es cm_clear.
Definition cm_of_summary (e : expr) : ConstraintManager := CM e (Z.of_nat (length (cm_terms (CM e 0)))).

(** ** Simplification *)

Definition equality_of (it : expr) : expr * expr :=
  match it with
  | Cmp Eq (Constant w v) r => (r, Constant w v)
  | _ => (it, true_)
  end.

Definition simplifyExpr (cm : ConstraintManager) (e : expr) : expr :=
  if isa_Constant e then e else ExprReplaceVisitor2 (map equality_of (cm_terms cm)) e.

(** ** Adding *)

(** [true], [false] and the failed assertion; [Exhausted] marks the end of the
    fuel and is never reached. *)
Inductive outcome :=
  | Added (cm : ConstraintManager)
  | Refused (cm : ConstraintManager)
  | Aborted
  | Exhausted.

(** The loop of [rewriteConstraints], with the visitor and the recursive call
    that adds a changed constraint. *)
Fixpoint rewrite_loop (visit : expr -> expr) (add : expr -> ConstraintManager -> outcome) (old : ConstraintManager)
    (ts : list expr) (changed : bool) (cm : ConstraintManager) : outcome :=
  match ts with
  | [] => Added (if changed then cm else old)
  | ce :: ts =>
      let e := visit ce in
      if expr_eqb e ce then rewrite_loop visit add old ts changed (pushConstraint ce cm)
      else
        match add e cm with
        | Added cm => rewrite_loop visit add old ts true cm
        | x => x
        end
  end.

Definition rewriteConstraints (visit : expr -> expr) (add : expr -> ConstraintManager -> outcome)
    (cm : ConstraintManager) : outcome :=
  rewrite_loop visit add cm (cm_terms cm) false cm_clear.

Section add.
Context (canFail : bool).

Fixpoint addConstraintWithSimplification (n : nat) : expr -> ConstraintManager -> outcome :=
  fix add (e : expr) (cm : ConstraintManager) : outcome :=
    match e with
    | Constant _ v => if v =? 1 then Added cm else if canFail then Refused cm else Aborted
    | Bin And l r => match add l cm with Added cm => add r cm | x => x end
    | Cmp Eq (Constant w v) r =>
        match
          rewriteConstraints (ExprReplaceVisitor r (Constant w v))
            (match n with O => fun _ _ => Exhausted | S n => addConstraintWithSimplification n end) cm
        with
        | Added cm => Added (pushConstraint e cm)
        | x => x
        end
    | _ => Added (pushConstraint e cm)
    end.

End add.

(** Each nested rewriting has fewer leaves to work on. *)
Definition add_fuel (e : expr) (cm : ConstraintManager) : nat := leaves e + leaves (cm_summary cm).

Definition addConstraint (e : expr) (cm : ConstraintManager) : outcome :=
  let e := simplifyExpr cm e in addConstraintWithSimplification false (add_fuel e cm) e cm.

Definition addConstraintCanFail (e : expr) (cm : ConstraintManager) : outcome :=
  let e := simplifyExpr cm e in addConstraintWithSimplification true (add_fuel e cm) e cm.

Definition addConstraintNoSimplify (e : expr) (cm : ConstraintManager) : ConstraintManager := pushConstraint e cm.

(** [PushConstraints]: what the manager holds again at the end of the scope. *)
Record PushConstraints := PC { pc_original : ConstraintManager; pc_popped : bool }.
Definition push_constraints (cm : ConstraintManager) : PushConstraints := PC cm false.
Definition pop_constraints (p : PushConstraints) : option (ConstraintManager * PushConstraints) :=
  if pc_popped p then None else Some (pc_original p, PC (pc_original p) true).

(** ** Meaning *)

Definition boolean (e : expr) : Prop := good e /\ getWidth e = Bool.
Definition sat (rho : assignment) (e : expr) : Prop := eval rho e = 1.
Definition cm_good (cm : ConstraintManager) : Prop := boolean (cm_summary cm).
Definition cm_sat (rho : assignment) (cm : ConstraintManager) : Prop := sat rho (cm_summary cm).

Lemma true_boolean : boolean true_.
Proof. split; [by apply (inrange_bool true)|done]. Qed.

Lemma clear_good : cm_good cm_clear.
Proof. apply true_boolean. Qed.

Lemma sat_and a b rho : boolean a -> boolean b -> sat rho (Bin And a b) <-> sat rho a /\ sat rho b.
Proof. intros [Ha Hwa] [Hb Hwb]. unfold sat. cbn. bool_cases; naive_solver. Qed.

Lemma and_create_sat a b :
  boolean a -> boolean b ->
  boolean (AndExpr_create a b) /\ (leaves (AndExpr_create a b) <= leaves a + leaves b)%nat /\
  (forall rho, sat rho (AndExpr_create a b) <-> sat rho a /\ sat rho b).
Proof.
  intros Ha Hb. pose proof Ha as [Hga Hwa]. pose proof Hb as [Hgb Hwb].
  destruct (AndExpr_create_sound a b Hga Hgb ltac:(congruence)) as [Hg Hw Hl He].
  split; [split; [done|congruence]|]. split; [done|]. intros rho. rewrite <- sat_and by done. unfold sat. by rewrite He.
Qed.

Lemma push_spec e cm :
  boolean e -> cm_good cm ->
  cm_good (pushConstraint e cm) /\
  (leaves (cm_summary (pushConstraint e cm)) <= leaves e + leaves (cm_summary cm))%nat /\
  (forall rho, cm_sat rho (pushConstraint e cm) <-> sat rho e /\ cm_sat rho cm).
Proof. intros He Hcm. by apply and_create_sat. Qed.

Lemma terms_spec cm :
  cm_good cm ->
  Forall boolean (cm_terms cm) /\ (sum_list_with leaves (cm_terms cm) <= leaves (cm_summary cm))%nat /\
  (forall rho, cm_sat rho cm <-> Forall (sat rho) (cm_terms cm)).
Proof.
  intros [Hg Hw]. unfold cm_terms, cm_empty. destruct (expr_eqbP (cm_summary cm) true_) as [E|_].
  { split; [constructor|]. split; [cbn; lia|]. intros rho. unfold cm_sat, sat. rewrite E. by split; [constructor|]. }
  destruct (nary_terms And _ Hg Hw) as (Hts & Hsat & _). split; [done|]. split; [|intros rho; by apply Hsat].
  clear. induction (cm_summary cm); cbn; try lia. case_decide; cbn; lia.
Qed.

(** ** Simplification is right *)

Lemma simplifyExpr_same cm e : cm_good cm -> good e -> same (fun rho => cm_sat rho cm) e (simplifyExpr cm e).
Proof.
  intros Hcm He. unfold simplifyExpr. destruct (isa_Constant e); [by apply same_refl|].
  apply ExprReplaceVisitor2_same; [|done]. destruct (terms_spec cm Hcm) as (Hts & _ & Hsat).
  assert (forall rho, cm_sat rho cm -> Forall (sat rho) (cm_terms cm)) as Hall by (intros rho; apply Hsat). clear Hsat.
  induction (cm_terms cm) as [|it ts IH]; [by intros ? ? _ _ [=]|]. inversion Hts as [|? ? [Hg Hw] Hts']; subst.
  intros e' r He' Hn'. cbn. destruct (equality_of it) as [k v] eqn:Eq. destruct (expr_eqbP k e') as [->|]; [|].
  2: { apply IH; try done. intros rho Hs. by apply Hall, Forall_inv_tail in Hs. }
  intros [= <-]. assert (forall rho, cm_sat rho cm -> sat rho it) as Hit by (intros rho Hs; by apply Hall, Forall_inv in Hs).
  assert ((it, true_) = (e', v) -> exists x, v = Constant (getWidth e') x /\ inrange (getWidth e') x /\
            forall rho, cm_sat rho cm -> eval rho e' = x) as Hdef.
  { intros [= <- <-]. exists 1. rewrite Hw. split; [done|]. split; [by apply (inrange_bool true)|]. done. }
  destruct it as [| | | | | | | | | |[] [w c| | | | | | | | | | |] b|]; try (by apply Hdef).
  cbn in Eq, Hg. injection Eq as -> <-. conj. exists c. replace (getWidth e') with w by done. split; [done|]. split; [done|].
  intros rho Hs. specialize (Hit rho Hs). unfold sat in Hit. cbn in Hit. zbool.
Qed.

Lemma simplifyExpr_spec cm e :
  cm_good cm -> boolean e ->
  boolean (simplifyExpr cm e) /\ forall rho, cm_sat rho cm -> sat rho (simplifyExpr cm e) <-> sat rho e.
Proof.
  intros Hcm [He Hw]. destruct (simplifyExpr_same cm e Hcm He) as [Hg Hw' _ Hv]. split; [split; [done|congruence]|].
  intros rho Hs. unfold sat. by rewrite Hv.
Qed.

(** ** Adding is right *)

(** What adding [e] to [cm] must do, at least for the assignments in [P]. *)
Definition adds (canFail : bool) (P : assignment -> Prop) (cm : ConstraintManager) (hyp : assignment -> Prop) (n : nat)
    (r : outcome) : Prop :=
  match r with
  | Added cm' =>
      cm_good cm' /\ (leaves (cm_summary cm') <= n)%nat /\
      forall rho, P rho -> cm_sat rho cm' <-> cm_sat rho cm /\ hyp rho
  | Refused _ => canFail = true /\ forall rho, P rho -> ~ (cm_sat rho cm /\ hyp rho)
  | Aborted => canFail = false /\ forall rho, P rho -> ~ (cm_sat rho cm /\ hyp rho)
  | Exhausted => False
  end.

Section add_sound.
Context (canFail : bool).

(** A recursive call that is right below a number of leaves. *)
Definition adds_below (n : nat) (add : expr -> ConstraintManager -> outcome) : Prop :=
  forall e cm, boolean e -> cm_good cm -> (leaves e + leaves (cm_summary cm) < n)%nat ->
  adds canFail (fun _ => True) cm (fun rho => sat rho e) (leaves e + leaves (cm_summary cm)) (add e cm).

Lemma rewrite_loop_sound P visit add n old ts changed cm :
  adds_below n add -> (forall e, good e -> same P e (visit e)) ->
  cm_good old -> cm_good cm -> Forall boolean ts ->
  (sum_list_with leaves ts + leaves (cm_summary cm) <= n)%nat ->
  (changed = false -> (leaves (cm_summary old) <= n)%nat /\
     forall rho, P rho -> cm_sat rho old <-> cm_sat rho cm /\ Forall (sat rho) ts) ->
  adds canFail P cm (fun rho => Forall (sat rho) ts) n (rewrite_loop visit add old ts changed cm).
Proof.
  intros Hadd Hvisit Hold. revert changed cm.
  induction ts as [|ce ts IH]; intros changed cm Hcm Hts Hn Hch; cbn [rewrite_loop].
  { destruct changed; cbn in Hn |- *.
    - split; [done|]. split; [lia|]. intros rho _. split; [by split|by intros []].
    - destruct (Hch eq_refl) as [Hl Heq]. done. }
  inversion Hts as [|? ? Hce Hts']; subst. cbn in Hn. pose proof Hce as [Hg Hw].
  destruct (Hvisit ce Hg) as [Hg' Hw' Hl' Hv]. destruct (expr_eqbP (visit ce) ce) as [E|Hne].
  - destruct (push_spec ce cm Hce Hcm) as (Hp & Hpl & Hps).
    assert (adds canFail P (pushConstraint ce cm) (fun rho => Forall (sat rho) ts) n
              (rewrite_loop visit add old ts changed (pushConstraint ce cm))) as Hr.
    { apply IH; [done|done|lia|]. intros Hc. destruct (Hch Hc) as [Hl Heq]. split; [done|].
      intros rho HP. rewrite Heq by done. rewrite Hps, Forall_cons. naive_solver. }
    assert (forall rho, cm_sat rho (pushConstraint ce cm) /\ Forall (sat rho) ts <->
                        cm_sat rho cm /\ Forall (sat rho) (ce :: ts)) as Hiff.
    { intros rho. rewrite Hps, Forall_cons. naive_solver. }
    destruct (rewrite_loop _ _ _ _ _ _); cbn in Hr |- *; [| | |done]; setoid_rewrite Hiff in Hr; done.
  - destruct Hl' as [|Hlt]; [done|]. assert (boolean (visit ce)) as Hb by (split; [done|congruence]).
    specialize (Hadd (visit ce) cm Hb Hcm ltac:(lia)). destruct (add (visit ce) cm) as [cm'|cm'| |]; cbn in Hadd; conj.
    + assert (adds canFail P cm' (fun rho => Forall (sat rho) ts) n (rewrite_loop visit add old ts true cm')) as Hr
        by (apply IH; [done|done|lia|done]).
      assert (forall rho, P rho -> cm_sat rho cm' /\ Forall (sat rho) ts <-> cm_sat rho cm /\ Forall (sat rho) (ce :: ts)) as Hiff.
      { intros rho HP. rewrite H1, Forall_cons by done. unfold sat at 1. rewrite Hv by done. unfold sat at 2. naive_solver. }
      destruct (rewrite_loop _ _ _ _ _ _); cbn in Hr |- *; [| | |done].
      all: conj; split_and?; try done; intros rho HP; try rewrite <- Hiff by done; auto.
    + split; [done|]. intros rho HP [Hs Hf%Forall_inv]. apply (H0 rho I). split; [done|]. unfold sat. by rewrite Hv.
    + split; [done|]. intros rho HP [Hs Hf%Forall_inv]. apply (H0 rho I). split; [done|]. unfold sat. by rewrite Hv.
    + done.
Qed.

(** Rewriting with an equality is right where the equality holds. *)
Lemma rewriteConstraints_sound w v r add cm :
  good (Cmp Eq (Constant w v) r) -> cm_good cm -> adds_below (leaves (cm_summary cm)) add ->
  adds canFail (fun rho => eval rho r = v) cm_clear (fun rho => cm_sat rho cm) (leaves (cm_summary cm))
    (rewriteConstraints (ExprReplaceVisitor r (Constant w v)) add cm).
Proof.
  intros Hg Hcm Hadd. cbn in Hg. conj. destruct (terms_spec cm Hcm) as (Hts & Hle & Hsat).
  replace w with (getWidth r) by done.
  assert (adds canFail (fun rho => eval rho r = v) cm_clear (fun rho => Forall (sat rho) (cm_terms cm)) (leaves (cm_summary cm))
    (rewriteConstraints (ExprReplaceVisitor r (Constant (getWidth r) v)) add cm)) as Hr.
  { apply rewrite_loop_sound; [done| |done|apply clear_good|done|cbn; lia|].
    - intros e He. apply ExprReplaceVisitor_same; try done. by replace (getWidth r) with w.
    - intros _. split; [done|]. intros rho _. rewrite Hsat. by split; [split|intros []]. }
  destruct (rewriteConstraints _ _ _); cbn in Hr |- *; [| | |done]; setoid_rewrite <- Hsat in Hr; done.
Qed.

(** A constraint that is neither split nor used for rewriting. *)
Lemma push_adds P e cm :
  boolean e -> cm_good cm ->
  adds canFail P cm (fun rho => sat rho e) (leaves e + leaves (cm_summary cm)) (Added (pushConstraint e cm)).
Proof.
  intros He Hcm. destruct (push_spec e cm He Hcm) as (Hg & Hl & Hs). split; [done|]. split; [done|].
  intros rho _. rewrite Hs. naive_solver.
Qed.

(** An equality is pushed after the others have been rewritten with it. *)
Lemma equality_adds w v r cm x :
  boolean (Cmp Eq (Constant w v) r) -> cm_good cm ->
  adds canFail (fun rho => eval rho r = v) cm_clear (fun rho => cm_sat rho cm) (leaves (cm_summary cm)) x ->
  adds canFail (fun _ => True) cm (fun rho => sat rho (Cmp Eq (Constant w v) r))
    (leaves (Cmp Eq (Constant w v) r) + leaves (cm_summary cm))
    (match x with
     | Added cm => Added (pushConstraint (Cmp Eq (Constant w v) r) cm)
     | Refused cm => Refused cm
     | Aborted => Aborted
     | Exhausted => Exhausted
     end).
Proof.
  intros He Hcm Hx.
  assert (forall rho, sat rho (Cmp Eq (Constant w v) r) -> eval rho r = v) as Hval.
  { intros rho Hs. unfold sat in Hs. cbn in Hs. zbool. }
  destruct x as [cm'|cm'| |]; cbn in Hx; [| | |done]; conj.
  - destruct (push_spec _ cm' He ltac:(done)) as (Hg & Hl & Hs). split; [done|]. split; [cbn in *; lia|].
    intros rho _. rewrite Hs. specialize (Hval rho). specialize (H1 rho). unfold cm_sat, sat in *. cbn in *. naive_solver.
  - split; [done|]. intros rho _ [Hs Hq]. apply (H0 rho (Hval rho Hq)). done.
  - split; [done|]. intros rho _ [Hs Hq]. apply (H0 rho (Hval rho Hq)). done.
Qed.

Lemma and_adds l r cm (add : expr -> ConstraintManager -> outcome) :
  boolean (Bin And l r) -> cm_good cm ->
  (forall cm', cm_good cm' -> (leaves (cm_summary cm') <= leaves l + leaves (cm_summary cm))%nat ->
     adds canFail (fun _ => True) cm' (fun rho => sat rho r) (leaves r + leaves (cm_summary cm')) (add r cm')) ->
  adds canFail (fun _ => True) cm (fun rho => sat rho l) (leaves l + leaves (cm_summary cm)) (add l cm) ->
  adds canFail (fun _ => True) cm (fun rho => sat rho (Bin And l r)) (leaves (Bin And l r) + leaves (cm_summary cm))
    (match add l cm with Added cm => add r cm | x => x end).
Proof.
  intros [Hg Hw] Hcm Hr Hl. cbn in Hg, Hw. conj.
  assert (forall rho, sat rho (Bin And l r) <-> sat rho l /\ sat rho r) as Hand by (intros; apply sat_and; split; congruence).
  destruct (add l cm) as [cm'|cm'| |]; cbn in Hl; [| | |done]; conj.
  - specialize (Hr cm' ltac:(done) ltac:(lia)). assert (forall rho, cm_sat rho cm' /\ sat rho r <-> cm_sat rho cm /\ sat rho (Bin And l r)) as Hiff.
    { intros rho. rewrite Hand. specialize (H6 rho I). naive_solver. }
    destruct (add r cm'); cbn in Hr |- *; [| | |done]; conj; split_and?; try done; try lia; intros rho _; rewrite <- Hiff; auto.
  - split; [done|]. intros rho _. rewrite Hand. specialize (H5 rho I). naive_solver.
  - split; [done|]. intros rho _. rewrite Hand. specialize (H5 rho I). naive_solver.
Qed.

Lemma add_cases n e cm :
  addConstraintWithSimplification canFail n e cm =
  match e with
  | Constant _ v => if v =? 1 then Added cm else if canFail then Refused cm else Aborted
  | Bin And l r =>
      match addConstraintWithSimplification canFail n l cm with
      | Added cm => addConstraintWithSimplification canFail n r cm
      | x => x
      end
  | Cmp Eq (Constant w v) r =>
      match
        rewriteConstraints (ExprReplaceVisitor r (Constant w v))
          (match n with O => fun _ _ => Exhausted | S n => addConstraintWithSimplification canFail n end) cm
      with
      | Added cm => Added (pushConstraint e cm)
      | x => x
      end
  | _ => Added (pushConstraint e cm)
  end.
Proof. destruct n; by destruct e. Qed.

Lemma add_sound n e cm :
  boolean e -> cm_good cm -> (leaves e + leaves (cm_summary cm) <= n)%nat ->
  adds canFail (fun _ => True) cm (fun rho => sat rho e) (leaves e + leaves (cm_summary cm))
    (addConstraintWithSimplification canFail n e cm).
Proof.
  revert e cm. induction n as [n IHn] using lt_wf_ind. intros e. induction e; intros cm He Hcm Hn; rewrite add_cases;
    try (by apply push_adds).
  - destruct He as [Hg Hw]. cbn in Hg, Hw. subst w. apply inrange_1 in Hg as [->| ->]; cbn.
    + destruct canFail; split; try done; intros rho _ [_ [=]].
    + split; [done|]. split; [done|]. intros rho _. by split; [split|intros []].
  - destruct k; try (by apply push_adds). pose proof He as [Hg Hw]. cbn in Hg, Hw, Hn. conj.
    apply and_adds; try done.
    + intros cm' Hcm' Hle. apply IHe2; [split; congruence|done|lia].
    + apply IHe1; [split; congruence|done|lia].
  - destruct k; try (by apply push_adds). destruct e1 as [w v| | | | | | | | | | |]; try (by apply push_adds).
    pose proof He as [Hg Hw]. refine (equality_adds w v e2 cm _ He Hcm _). apply rewriteConstraints_sound; [done|done|].
    assert (0 < leaves e2)%nat. { cbn in Hg. conj. apply leaves_pos; [done|]. by destruct H2. }
    cbn in Hn. destruct n as [|n]; [lia|]. intros e' cm' He' Hcm' Hlt. apply IHn; [lia|done|done|lia].
Qed.

End add_sound.

(** Under the constraints, the simplified expression stands for the given one. *)
Lemma add_simplified canFail e cm :
  boolean e -> cm_good cm ->
  adds canFail (fun _ => True) cm (fun rho => sat rho e) (leaves (simplifyExpr cm e) + leaves (cm_summary cm))
    (addConstraintWithSimplification canFail (add_fuel (simplifyExpr cm e) cm) (simplifyExpr cm e) cm).
Proof.
  intros He Hcm. destruct (simplifyExpr_spec cm e Hcm He) as [Hb Hs].
  pose proof (add_sound canFail _ (simplifyExpr cm e) cm Hb Hcm (reflexivity _)) as H. unfold add_fuel.
  assert (forall rho, cm_sat rho cm /\ sat rho (simplifyExpr cm e) <-> cm_sat rho cm /\ sat rho e) as Hiff by naive_solver.
  destruct (addConstraintWithSimplification _ _ _ _); cbn in H |- *; [| | |done]; conj; split_and?; try done;
    intros rho HP; rewrite <- Hiff; auto.
Qed.

(** A constraint that some model of the others satisfies is added. *)
Lemma addConstraint_feasible e cm rho :
  boolean e -> cm_good cm -> cm_sat rho cm -> sat rho e -> exists cm', addConstraint e cm = Added cm'.
Proof.
  intros He Hcm Hs Hq. pose proof (add_simplified false e cm He Hcm) as H. unfold addConstraint. cbv zeta.
  destruct (addConstraintWithSimplification false _ _ _); cbn in H; [by eexists|by destruct H| |done].
  destruct H as [_ H]. by destruct (H rho I).
Qed.

Lemma addConstraint_added e cm cm' :
  boolean e -> cm_good cm -> addConstraint e cm = Added cm' ->
  cm_good cm' /\ forall rho, cm_sat rho cm' <-> cm_sat rho cm /\ sat rho e.
Proof.
  intros He Hcm E. pose proof (add_simplified false e cm He Hcm) as H. unfold addConstraint in E. cbv zeta in E. rewrite E in H.
  destruct H as (Hg & _ & H). split; [done|]. intros rho. by apply H.
Qed.

(** C8: Adding a constraint keeps exactly the assignments that satisfy the old
    constraints and the new one, however they are simplified, split and
    rewritten.  The assertion fails, and the variant that may fail returns
    false, only for a constraint that contradicts the others; the mutual
    recursion always ends. *)
Theorem addConstraint_equivalent e cm :
  boolean e -> cm_good cm ->
  match addConstraint e cm with
  | Added cm' => cm_good cm' /\ forall rho, cm_sat rho cm' <-> cm_sat rho cm /\ sat rho e
  | Aborted => forall rho, ~ (cm_sat rho cm /\ sat rho e)
  | _ => False
  end /\
  match addConstraintCanFail e cm with
  | Added cm' => cm_good cm' /\ forall rho, cm_sat rho cm' <-> cm_sat rho cm /\ sat rho e
  | Refused _ => forall rho, ~ (cm_sat rho cm /\ sat rho e)
  | _ => False
  end.
Proof.
  intros He Hcm. pose proof (add_simplified false e cm He Hcm) as H1. pose proof (add_simplified true e cm He Hcm) as H2.
  unfold addConstraint, addConstraintCanFail. cbv zeta.
  split; [destruct (addConstraintWithSimplification false _ _ _) | destruct (addConstraintWithSimplification true _ _ _)];
    cbn in H1, H2 |- *; naive_solver.
Qed.

(** ** Example: a byte equal to 5 is added to the constraint that it is below 9 *)

Definition demo_byte0 : expr := some_byte 0.
Definition below_nine : expr := UltExpr_create demo_byte0 (Constant Int8 9).
Definition equals_five : expr := EqExpr_create (Constant Int8 5) demo_byte0.

Definition nine_cm : ConstraintManager := Eval vm_compute in match addConstraint below_nine cm_clear with Added cm => cm | _ => cm_clear end.
Definition five_cm : ConstraintManager := Eval vm_compute in match addConstraint equals_five nine_cm with Added cm => cm | _ => cm_clear end.

Lemma addConstraint_equivalent_witness :
  addConstraint equals_five nine_cm = Added five_cm /\ cm_terms five_cm = [equals_five] /\
  forall rho, cm_sat rho five_cm <-> cm_sat rho nine_cm /\ sat rho equals_five.
Proof.
  assert (boolean equals_five) as B by (split; [vm_compute; split_and!; try done; auto|reflexivity]).
  assert (cm_good nine_cm) as G by (split; [vm_compute; split_and!; try done; auto|reflexivity]).
  assert (addConstraint equals_five nine_cm = Added five_cm) as E by (vm_compute; reflexivity).
  pose proof (addConstraint_equivalent equals_five nine_cm B G) as [H _]. rewrite E in H.
  split; [exact E|]. split; [reflexivity|exact (proj2 H)].
Defined.
