(* ===== verification/ForkTrace.v ===== *)
(** * Forkable traces ([include/ics/ForkableTrace.h], [include/klee/util/Ref.h])

    A trace is a path through a tree of reference-counted nodes that other
    traces share.  Copying a trace forks it: both copies keep the nodes and get
    a tail of their own.  The nodes live in a heap, a trace holds their
    addresses.  The operations refine independent lists, the reference counts
    are exact, nothing is used after it is freed, and iterators walk the list in
    both directions.  [back()] hands out a reference into a shared node. *)

From stdpp Require Import base gmap list.
From Stdlib Require Import ZArith Lia.
From S2P Require Import Prelude.

Section trace.
Context {T : Type}.

(** ** Nodes and references *)

Record node := Node { refCount : Z; data : list T }.
Record heap := Heap { hp_next : nat; hp_nodes : gmap nat node }.

(** [ref<Node>(new Node)]: the only reference to a new node. *)
Definition new_ref (d : list T) (h : heap) : nat * heap :=
  (hp_next h, Heap (S (hp_next h)) (<[hp_next h := Node 1 d]> (hp_nodes h))).

Definition set_node (i : nat) (n : node) (h : heap) : heap := Heap (hp_next h) (<[i := n]> (hp_nodes h)).

Definition inc (i : nat) (h : heap) : option heap :=
  n ← hp_nodes h !! i; Some (set_node i (Node (u32 (refCount n + 1)) (data n)) h).

Definition dec (i : nat) (h : heap) : option heap :=
  n ← hp_nodes h !! i;
  let c := u32 (refCount n - 1) in
  Some (if c =? 0 then Heap (hp_next h) (delete i (hp_nodes h)) else set_node i (Node c (data n)) h).

(** Copying and destroying a vector of references. *)
Fixpoint inc_all (ids : list nat) (h : heap) : option heap :=
  match ids with [] => Some h | i :: ids => h ← inc i h; inc_all ids h end.
Fixpoint dec_all (ids : list nat) (h : heap) : option heap :=
  match ids with [] => Some h | i :: ids => h ← dec i h; dec_all ids h end.

(** ** Traces *)

Record trace := Trace { t_nodes : list nat; t_size : Z }.

Definition size (t : trace) : Z := t_size t.
Definition empty (t : trace) : bool := t_size t =? 0.

Definition clear (t : trace) (h : heap) : option (trace * heap) :=
  h ← dec_all (t_nodes t) h;
  let '(i, h) := new_ref [] h in Some (Trace [i] 0, h).

Definition ForkableTrace_new (h : heap) : option (trace * heap) := clear (Trace [] 0) h.

Definition ForkableTrace_destroy (t : trace) (h : heap) : option heap := dec_all (t_nodes t) h.

(** The copy constructor: the new trace, and [rhs], whose nodes are [mutable]. *)
Definition ForkableTrace_copy (rhs : trace) (h : heap) : option (trace * trace * heap) :=
  tail ← last (t_nodes rhs);
  n ← hp_nodes h !! tail;
  let '(ns, h) :=
    match data n with
    | [] => (t_nodes rhs, h)
    | _ => let '(i, h) := new_ref [] h in (t_nodes rhs ++ [i], h)
    end in
  h ← inc_all ns h;
  tail ← last ns;
  let '(i, h) := new_ref [] h in
  h ← dec tail h;
  Some (Trace (removelast ns ++ [i]) (t_size rhs), Trace ns (t_size rhs), h).

Definition push_back (x : T) (t : trace) (h : heap) : option (trace * heap) :=
  i ← last (t_nodes t);
  n ← hp_nodes h !! i;
  Some (Trace (t_nodes t) (u64 (t_size t + 1)), set_node i (Node (refCount n) (data n ++ [x])) h).

Definition swap (a b : trace) : trace * trace := (b, a).

Definition node_data (h : heap) (i : nat) : option (list T) := data <$> hp_nodes h !! i.

Definition reverse (t : trace) (h : heap) : option (trace * heap) :=
  ds ← mapM (node_data h) (rev (t_nodes t));
  let d := concat (map (@rev T) ds) in
  let '(n, h) := new_ref d h in
  h ← dec_all (t_nodes t) h;
  if Z.of_nat (length d) =? t_size t then Some (Trace [n] (t_size t), h) else None.

(** The search of [getElementAt] and [getMutableElementPtr]: the node and the
    index in it. *)
Fixpoint locate (h : heap) (ids : list nat) (idx : nat) : option (nat * nat) :=
  match ids with
  | [] => None
  | i :: ids =>
      d ← node_data h i;
      if decide (idx < length d)%nat then Some (i, idx) else locate h ids (idx - length d)
  end.

Definition getElementAt (t : trace) (h : heap) (idx : nat) : option T :=
  if Z.of_nat idx <? t_size t then
    p ← locate h (t_nodes t) idx; d ← node_data h p.1; d !! p.2
  else None.

(** The inner [None] is [NULL]. *)
Definition getMutableElementPtr (t : trace) (h : heap) (idx : nat) : option (option (nat * nat)) :=
  if Z.of_nat idx <? t_size t then
    p ← locate h (t_nodes t) idx; n ← hp_nodes h !! p.1;
    Some (if refCount n =? 1 then Some p else None)
  else None.

(** Assigning through a reference to an element. *)
Definition assign (p : nat * nat) (x : T) (h : heap) : option heap :=
  n ← hp_nodes h !! p.1;
  if decide (p.2 < length (data n))%nat then Some (set_node p.1 (Node (refCount n) (<[p.2 := x]> (data n))) h) else None.

(** ** Iterators *)

Record iterator := Iter { it_node : nat; it_elem : option nat }.

Definition data_at (t : trace) (h : heap) (k : nat) : option (list T) := i ← t_nodes t !! k; node_data h i.

Fixpoint skip_forward (h : heap) (ids : list nat) (k : nat) : option iterator :=
  match ids with
  | [] => Some (Iter k None)
  | i :: ids =>
      d ← node_data h i;
      match d with [] => skip_forward h ids (S k) | _ => Some (Iter k (Some 0%nat)) end
  end.

Definition skipForwardOverEmptyNodes (t : trace) (h : heap) (k : nat) : option iterator :=
  skip_forward h (drop k (t_nodes t)) k.

Fixpoint skipBackwardOverEmptyNodes (t : trace) (h : heap) (k : nat) : option iterator :=
  d ← data_at t h k;
  match d, k with
  | [], S k => skipBackwardOverEmptyNodes t h k
  | [], O => skipForwardOverEmptyNodes t h 0
  | _, _ => Some (Iter k (Some (length d - 1)%nat))
  end.

Definition makeFromBegin (t : trace) (h : heap) : option iterator := skipForwardOverEmptyNodes t h 0.
Definition makeFromEnd (t : trace) : iterator := Iter (length (t_nodes t)) None.

Definition iterator_eqb (a b : iterator) : bool :=
  (it_node a =? it_node b)%nat && bool_decide (it_elem a = it_elem b).

(** The element an iterator refers to: the node's address and the index. *)
Definition element (t : trace) (it : iterator) : option (nat * nat) :=
  i ← t_nodes t !! it_node it; e ← it_elem it; Some (i, e).

Definition deref (t : trace) (h : heap) (it : iterator) : option T :=
  p ← element t it; d ← node_data h p.1; d !! p.2.

Definition increment (t : trace) (h : heap) (it : iterator) : option iterator :=
  d ← data_at t h (it_node it);
  e ← it_elem it;
  let e := if decide (e = length d) then e else S e in
  if decide (e = length d) then skipForwardOverEmptyNodes t h (S (it_node it)) else Some (Iter (it_node it) (Some e)).

Definition decrement (t : trace) (h : heap) (it : iterator) : option iterator :=
  let back := match it_node it with O => None | S k => skipBackwardOverEmptyNodes t h k end in
  if decide (it_node it = length (t_nodes t)) then back
  else
    match it_elem it with
    | Some O => back
    | Some (S e) => Some (Iter (it_node it) (Some e))
    | None => None
    end.

(** [*rbegin()]: a reverse iterator refers to the element before its base. *)
Definition back (t : trace) (h : heap) : option (nat * nat) := it ← decrement t h (makeFromEnd t); element t it.
Definition front (t : trace) (h : heap) : option (nat * nat) := it ← makeFromBegin t h; element t it.

(** A loop from [it] to [end()], and one in reverse from the end. *)
Fixpoint walk (n : nat) (t : trace) (h : heap) (it : iterator) : option (list T) :=
  if iterator_eqb it (makeFromEnd t) then Some []
  else
    match n with
    | O => None
    | S n => x ← deref t h it; it ← increment t h it; xs ← walk n t h it; Some (x :: xs)
    end.

Fixpoint walk_back (n : nat) (t : trace) (h : heap) (begin it : iterator) : option (list T) :=
  if iterator_eqb it begin then Some []
  else
    match n with
    | O => None
    | S n => it ← decrement t h it; x ← deref t h it; xs ← walk_back n t h begin it; Some (x :: xs)
    end.

Definition elements (t : trace) (h : heap) : option (list T) :=
  it ← makeFromBegin t h; walk (Z.to_nat (t_size t)) t h it.
Definition elements_reversed (t : trace) (h : heap) : option (list T) :=
  it ← makeFromBegin t h; walk_back (Z.to_nat (t_size t)) t h it (makeFromEnd t).

(** [operator==] *)
Definition trace_eqb (eqb : T -> T -> bool) (a b : trace) (h : heap) : option bool :=
  if t_size a =? t_size b then
    xs ← elements a h; ys ← elements b h; Some (forallb (fun p => eqb p.1 p.2) (zip xs ys))
  else Some false.

(** ** All traces of a program *)

Record world := World { w_heap : heap; w_traces : list (option trace) }.

Inductive op :=
  | New
  | Copy (k : nat)
  | Destroy (k : nat)
  | Push (k : nat) (x : T)
  | Clear (k : nat)
  | Swap (j k : nat)
  | Reverse (k : nat).

Definition live (w : world) (k : nat) : option trace := mjoin (w_traces w !! k).

Definition on_trace (k : nat) (f : trace -> heap -> option (trace * heap)) (w : world) : option world :=
  t ← live w k; '(t, h) ← f t (w_heap w); Some (World h (<[k := Some t]> (w_traces w))).

Definition exec (o : op) (w : world) : option world :=
  match o with
  | New => '(t, h) ← ForkableTrace_new (w_heap w); Some (World h (w_traces w ++ [Some t]))
  | Copy k =>
      t ← live w k; '(a, b, h) ← ForkableTrace_copy t (w_heap w);
      Some (World h (<[k := Some b]> (w_traces w) ++ [Some a]))
  | Destroy k => t ← live w k; h ← ForkableTrace_destroy t (w_heap w); Some (World h (<[k := None]> (w_traces w)))
  | Push k x => on_trace k (push_back x) w
  | Clear k => on_trace k clear w
  | Swap j k =>
      a ← live w j; b ← live w k;
      let '(a, b) := swap a b in Some (World (w_heap w) (<[k := Some b]> (<[j := Some a]> (w_traces w))))
  | Reverse k => on_trace k reverse w
  end.

(** ** The specification: independent lists *)

Definition spec (o : op) (ls : list (option (list T))) : option (list (option (list T))) :=
  match o with
  | New => Some (ls ++ [Some []])
  | Copy k => l ← mjoin (ls !! k); Some (ls ++ [Some l])
  | Destroy k => _ ← mjoin (ls !! k); Some (<[k := None]> ls)
  | Push k x => l ← mjoin (ls !! k); Some (<[k := Some (l ++ [x])]> ls)
  | Clear k => _ ← mjoin (ls !! k); Some (<[k := Some []]> ls)
  | Swap j k => a ← mjoin (ls !! j); b ← mjoin (ls !! k); Some (<[k := Some a]> (<[j := Some b]> ls))
  | Reverse k => l ← mjoin (ls !! k); Some (<[k := Some (rev l)]> ls)
  end.

(** ** The invariant *)

Definition occ (i : nat) (ids : list nat) : nat := length (filter (eq i) ids).
Definition occ_trace (i : nat) (o : option trace) : nat := match o with Some t => occ i (t_nodes t) | None => 0 end.
Definition occs (i : nat) (ts : list (option trace)) : nat := sum_list_with (occ_trace i) ts.

#[local] Arguments occ : simpl never.
#[local] Arguments occs : simpl never.

(** Each node's count is the number of references to it, and it is positive. *)
Definition counted (cnt : nat -> nat) (h : heap) : Prop :=
  (forall i, match hp_nodes h !! i with
             | Some n => refCount n = Z.of_nat (cnt i) /\ (0 < cnt i)%nat
             | None => cnt i = 0%nat
             end) /\
  (forall i, (hp_next h <= i)%nat -> hp_nodes h !! i = None).

Definition contents (h : heap) (ids : list nat) : option (list T) := ds ← mapM (node_data h) ids; Some (concat ds).

(** Only the tail of a trace may be empty, and the size is the number of elements. *)
Record trace_ok (h : heap) (t : trace) (l : list T) : Prop := {
  ok_nodes : t_nodes t <> [];
  ok_full : Forall (fun i => node_data h i <> Some []) (removelast (t_nodes t));
  ok_contents : contents h (t_nodes t) = Some l;
  ok_size : t_size t = Z.of_nat (length l);
  ok_nodup : NoDup (t_nodes t);
}.

Definition slot_ok (h : heap) (ot : option trace) (ol : option (list T)) : Prop :=
  match ot, ol with
  | Some t, Some l => trace_ok h t l
  | None, None => True
  | _, _ => False
  end.

(** The traces of [w] stand for the lists [ls]; every tail has one owner. *)
Record represents (w : world) (ls : list (option (list T))) : Prop := {
  rep_counted : counted (fun i => occs i (w_traces w)) (w_heap w);
  rep_slots : Forall2 (slot_ok (w_heap w)) (w_traces w) ls;
  rep_tails : forall k t i, live w k = Some t -> last (t_nodes t) = Some i -> occs i (w_traces w) = 1%nat;
}.

(** No counter can overflow: fewer than [2^31 - 1] references, fewer than
    [2^64 - 1] elements in a trace. *)
Definition room (w : world) (ls : list (option (list T))) : Prop :=
  (forall i, 2 * Z.of_nat (occs i (w_traces w)) + 2 < 2 ^ 32) /\
  Forall (fun o => match o with Some l => Z.of_nat (length l) + 1 < 2 ^ 64 | None => True end) ls.

(** ** References *)

Lemma occ_nil i : occ i [] = 0%nat.
Proof. done. Qed.

Lemma occ_cons i j ids : occ i (j :: ids) = ((if decide (i = j) then 1 else 0) + occ i ids)%nat.
Proof. unfold occ. rewrite filter_cons. by case_decide. Qed.

Lemma occ_app i a b : occ i (a ++ b) = (occ i a + occ i b)%nat.
Proof. unfold occ. by rewrite filter_app, length_app. Qed.

Lemma occ_elem i ids : (0 < occ i ids)%nat <-> i ∈ ids.
Proof.
  induction ids as [|j ids IH]; [rewrite occ_nil; split; [lia|intros []%elem_of_nil]|]. rewrite occ_cons, elem_of_cons, <- IH.
  case_decide; naive_solver lia.
Qed.

Lemma counted_ext c c' h : (forall i, c i = c' i) -> counted c h -> counted c' h.
Proof. intros E [H Hf]. split; [|done]. intros i. specialize (H i). by rewrite E in H. Qed.

Lemma counted_data c h i : counted c h -> (0 < c i)%nat -> is_Some (node_data h i).
Proof. intros [H _] Hi. specialize (H i). unfold node_data. destruct (hp_nodes h !! i); [by eexists|lia]. Qed.

Lemma counted_node c h i : counted c h -> (0 < c i)%nat -> exists n, hp_nodes h !! i = Some n /\ refCount n = Z.of_nat (c i).
Proof. intros [H _] Hi. specialize (H i). destruct (hp_nodes h !! i); [naive_solver|lia]. Qed.

Lemma new_ref_spec c d h :
  counted c h ->
  let '(i, h') := new_ref d h in
  c i = 0%nat /\ counted (fun j => (if decide (j = i) then 1 else 0) + c j)%nat h' /\ node_data h' i = Some d /\
  forall j, j <> i -> node_data h' j = node_data h j.
Proof.
  intros [H Hf]. cbn. pose proof (H (hp_next h)) as H0. rewrite Hf in H0 by lia. split; [done|].
  split; [split|split; [by unfold node_data; cbn; rewrite lookup_insert_eq|intros j Hj; unfold node_data; cbn; by rewrite lookup_insert_ne]].
  - intros j. cbn. case_decide; [subst; rewrite lookup_insert_eq; cbn; lia|]. rewrite lookup_insert_ne by done. apply H.
  - intros j Hj. cbn in *. rewrite lookup_insert_ne by lia. apply Hf. lia.
Qed.

Lemma inc_spec c i h :
  counted c h -> (0 < c i)%nat -> Z.of_nat (c i) + 1 < 2 ^ 32 ->
  exists h', inc i h = Some h' /\ counted (fun j => (if decide (j = i) then 1 else 0) + c j)%nat h' /\
    forall j, node_data h' j = node_data h j.
Proof.
  intros Hc Hi Hb. destruct (counted_node c h i Hc Hi) as (n & Hn & Hr). unfold inc. rewrite Hn. cbn. eexists. split; [done|].
  destruct Hc as [H Hf]. rewrite u32_small by lia. split; [split|].
  - intros j. cbn. case_decide; [subst; rewrite lookup_insert_eq; cbn; lia|]. rewrite lookup_insert_ne by done. apply H.
  - intros j Hj. cbn in *. destruct (decide (j = i)) as [->|]; [by rewrite Hf in Hn|]. rewrite lookup_insert_ne by done. by apply Hf.
  - intros j. unfold node_data. cbn. destruct (decide (j = i)) as [->|]; [by rewrite lookup_insert_eq, Hn|]. by rewrite lookup_insert_ne.
Qed.

Lemma dec_spec c i h :
  counted c h -> (0 < c i)%nat -> Z.of_nat (c i) < 2 ^ 32 ->
  exists h', dec i h = Some h' /\ counted (fun j => c j - (if decide (j = i) then 1 else 0))%nat h' /\
    forall j, (if decide (j = i) then 1 else 0)%nat <> c j -> node_data h' j = node_data h j.
Proof.
  intros Hc Hi Hb. destruct (counted_node c h i Hc Hi) as (n & Hn & Hr). unfold dec. rewrite Hn. cbn. eexists. split; [done|].
  destruct Hc as [H Hf]. rewrite u32_small by lia.
  destruct (Z.eqb_spec (refCount n - 1) 0) as [E|E]; (split; [split|]); cbn.
  - intros j. case_decide; [subst; rewrite lookup_delete_eq; lia|]. rewrite lookup_delete_ne by done. specialize (H j).
    destruct (hp_nodes h !! j); lia.
  - intros j Hj. destruct (decide (i = j)) as [->|]; [by rewrite lookup_delete_eq|]. rewrite lookup_delete_ne by done. by apply Hf.
  - intros j Hj. unfold node_data. cbn. case_decide; [subst; lia|]. by rewrite lookup_delete_ne.
  - intros j. case_decide; [subst; rewrite lookup_insert_eq; cbn; lia|]. rewrite lookup_insert_ne by done. specialize (H j).
    destruct (hp_nodes h !! j); lia.
  - intros j Hj. destruct (decide (j = i)) as [->|]; [by rewrite Hf in Hn|]. rewrite lookup_insert_ne by done. by apply Hf.
  - intros j _. unfold node_data. cbn. destruct (decide (j = i)) as [->|]; [by rewrite lookup_insert_eq, Hn|]. by rewrite lookup_insert_ne.
Qed.

Lemma inc_all_spec ids c h :
  counted c h -> (forall i, i ∈ ids -> (0 < c i)%nat) -> (forall i, i ∈ ids -> Z.of_nat (c i + occ i ids) < 2 ^ 32) ->
  exists h', inc_all ids h = Some h' /\ counted (fun j => occ j ids + c j)%nat h' /\
    forall j, node_data h' j = node_data h j.
Proof.
  revert c h. induction ids as [|i ids IH]; intros c h Hc Hpos Hb; cbn [inc_all].
  { exists h. by split. }
  assert (i ∈ i :: ids) as Hi by set_solver.
  destruct (inc_spec c i h Hc (Hpos i Hi)) as (h1 & -> & Hc1 & Hd1).
  { specialize (Hb i Hi). rewrite occ_cons in Hb. case_decide; [lia|done]. }
  destruct (IH _ h1 Hc1) as (h2 & Hh2 & Hc2 & Hd2).
  - intros j Hj. specialize (Hpos j ltac:(set_solver)). lia.
  - intros j Hj. specialize (Hb j ltac:(set_solver)). rewrite occ_cons in Hb. lia.
  - exists h2. split; [done|]. split; [|intros j; by rewrite Hd2].
    revert Hc2. apply counted_ext. intros j. rewrite occ_cons. lia.
Qed.

Lemma dec_all_spec ids c h :
  counted c h -> (forall i, (occ i ids <= c i)%nat) -> (forall i, Z.of_nat (c i) < 2 ^ 32) ->
  exists h', dec_all ids h = Some h' /\ counted (fun j => c j - occ j ids)%nat h' /\
    forall j, (occ j ids < c j)%nat -> node_data h' j = node_data h j.
Proof.
  revert c h. induction ids as [|i ids IH]; intros c h Hc Hle Hb; cbn [dec_all].
  { exists h. split_and!; [done| |done]. revert Hc. apply counted_ext. intros j. rewrite occ_nil. lia. }
  pose proof (Hle i) as Hi. rewrite occ_cons, decide_True in Hi by done.
  destruct (dec_spec c i h Hc ltac:(lia) (Hb i)) as (h1 & -> & Hc1 & Hd1).
  destruct (IH _ h1 Hc1) as (h2 & Hh2 & Hc2 & Hd2).
  - intros j. specialize (Hle j). rewrite occ_cons in Hle. lia.
  - intros j. specialize (Hb j). lia.
  - exists h2. split; [done|]. split.
    + revert Hc2. apply counted_ext. intros j. rewrite occ_cons. lia.
    + intros j Hj. rewrite occ_cons in Hj. rewrite Hd2 by lia. apply Hd1. lia.
Qed.

(** ** Contents *)

Lemma contents_ext h h' ids : (forall i, i ∈ ids -> node_data h' i = node_data h i) -> contents h' ids = contents h ids.
Proof.
  intros H. unfold contents. assert (mapM (node_data h') ids = mapM (node_data h) ids) as ->; [|done].
  induction ids as [|i ids IH]; [done|]. cbn. rewrite H, IH by set_solver. done.
Qed.

Lemma contents_nil h : contents h [] = Some [].
Proof. done. Qed.

Lemma contents_cons h i ids l :
  contents h (i :: ids) = Some l <-> exists d l', node_data h i = Some d /\ contents h ids = Some l' /\ l = d ++ l'.
Proof.
  unfold contents. cbn. split.
  - destruct (node_data h i) as [d|]; [|done]. cbn. destruct (mapM _ ids) as [ds|]; [|done]. cbn. intros [= <-]. by eauto.
  - intros (d & l' & -> & H & ->). cbn. destruct (mapM _ ids) as [ds|]; [|done]. cbn in *. by simplify_eq.
Qed.

Lemma contents_app h a b l :
  contents h (a ++ b) = Some l <-> exists la lb, contents h a = Some la /\ contents h b = Some lb /\ l = la ++ lb.
Proof.
  revert l. induction a as [|i a IH]; intros l; [cbn [app]; rewrite contents_nil; naive_solver|].
  cbn [app]. rewrite contents_cons. setoid_rewrite contents_cons. setoid_rewrite IH. split.
  - intros (d & l' & Hd & (la & lb & Ha & Hb & ->) & ->). exists (d ++ la), lb. split; [eauto|]. split; [done|]. by rewrite app_assoc.
  - intros (la & lb & (d & l' & Hd & Ha & ->) & Hb & ->). exists d, (l' ++ lb). split; [done|]. split; [eauto|]. by rewrite <- app_assoc.
Qed.

Lemma contents_one h i l : contents h [i] = Some l <-> node_data h i = Some l.
Proof. rewrite contents_cons, contents_nil. split; [intros (d & l' & ? & [= <-] & ->); by rewrite app_nil_r|exists l, []; by rewrite app_nil_r]. Qed.

Lemma contents_snoc h a i l :
  contents h (a ++ [i]) = Some l <-> exists la d, contents h a = Some la /\ node_data h i = Some d /\ l = la ++ d.
Proof. rewrite contents_app. by setoid_rewrite contents_one. Qed.

Lemma contents_present h ids l i : contents h ids = Some l -> i ∈ ids -> is_Some (node_data h i).
Proof.
  intros H Hi. apply list_elem_of_split in Hi as (a & b & ->). apply contents_app in H as (? & ? & _ & H & _).
  apply contents_cons in H as (d & ? & ? & _). by eexists.
Qed.

(** A trace as its first nodes and its tail. *)
Lemma nodes_split (ids : list nat) : ids <> [] -> exists a i, ids = a ++ [i] /\ removelast ids = a /\ last ids = Some i.
Proof.
  intros H. destruct (exists_last H) as (a & i & ->). exists a, i. by rewrite removelast_last, last_snoc.
Qed.

Lemma trace_ok_ext h h' t l :
  (forall i, i ∈ t_nodes t -> node_data h' i = node_data h i) -> trace_ok h t l -> trace_ok h' t l.
Proof.
  intros E [Hn Hf Hc Hs Hu]. split; [done| |by rewrite (contents_ext h h')|done|done].
  destruct (nodes_split (t_nodes t) Hn) as (a & i & Ht & Hr & _). rewrite Hr in *. apply Forall_forall. intros j Hj.
  rewrite E by (rewrite Ht; set_solver). by apply (proj1 (Forall_forall _ _) Hf).
Qed.

(** ** Slots *)

Lemma live_lookup w k t : live w k = Some t <-> w_traces w !! k = Some (Some t).
Proof. unfold live. destruct (w_traces w !! k) as [[]|]; cbn; naive_solver. Qed.

Lemma occs_app i a b : occs i (a ++ b) = (occs i a + occs i b)%nat.
Proof. unfold occs. by rewrite sum_list_with_app. Qed.

Lemma occs_insert i k ts o o' :
  ts !! k = Some o -> (occs i (<[k := o']> ts) + occ_trace i o = occs i ts + occ_trace i o')%nat.
Proof.
  intros Hk. rewrite <- (take_drop_middle ts k o Hk) at 2. rewrite (insert_take_drop ts k o') by (by eapply lookup_lt_Some).
  rewrite !occs_app. unfold occs. cbn. lia.
Qed.

Lemma occs_two i j k ts a b :
  ts !! j = Some a -> ts !! k = Some b -> j <> k -> (occ_trace i a + occ_trace i b <= occs i ts)%nat.
Proof.
  intros Hj Hk Hne. pose proof (occs_insert i j ts a None Hj) as H1.
  pose proof (occs_insert i k (<[j := None]> ts) b None ltac:(by rewrite list_lookup_insert_ne)). cbn in *. lia.
Qed.

Lemma occs_one i k ts o : ts !! k = Some o -> (occ_trace i o <= occs i ts)%nat.
Proof. intros Hk. pose proof (occs_insert i k ts o None Hk) as H. cbn in H. lia. Qed.

Lemma last_occ i ids : last ids = Some i -> (0 < occ i ids)%nat.
Proof. intros H%last_Some_elem_of. by apply occ_elem. Qed.

(** One trace changes; the nodes that other traces have keep their data. *)
Lemma replace_slot w ls k t h' o' ol' :
  represents w ls -> live w k = Some t ->
  counted (fun i => occs i (<[k := o']> (w_traces w))) h' -> slot_ok h' o' ol' ->
  (forall i, (occ i (t_nodes t) < occs i (w_traces w))%nat -> node_data h' i = node_data (w_heap w) i) ->
  (forall t' i, o' = Some t' -> last (t_nodes t') = Some i -> (occs i (<[k := o']> (w_traces w)) = 1)%nat) ->
  (forall i, occ i (t_nodes t) = 0%nat -> (0 < occs i (w_traces w))%nat -> occ_trace i o' = 0%nat) ->
  represents (World h' (<[k := o']> (w_traces w))) (<[k := ol']> ls).
Proof.
  intros [Hc Hs Ht] Hk Hc' Hok Hd Hlast Hnew. rewrite live_lookup in Hk. split; [done| |].
  - apply Forall2_same_length_lookup. cbn. split; [rewrite !length_insert; by eapply Forall2_length|].
    intros j ot ol Hot Hol. destruct (decide (j = k)) as [->|Hne].
    + rewrite list_lookup_insert_eq in Hot by (by eapply lookup_lt_Some).
      rewrite list_lookup_insert_eq in Hol by (erewrite <- Forall2_length by done; by eapply lookup_lt_Some). by simplify_eq.
    + rewrite list_lookup_insert_ne in Hot by done. rewrite list_lookup_insert_ne in Hol by done.
      pose proof (Forall2_lookup_lr _ _ _ _ _ _ Hs Hot Hol) as Hslot.
      destruct ot as [tj|], ol as [lj|]; [|done..]. cbn in Hslot |- *. revert Hslot. apply trace_ok_ext. intros i Hi. apply Hd.
      pose proof (occs_two i j k _ _ _ Hot Hk Hne) as H. cbn in H. apply occ_elem in Hi. lia.
  - intros j tj i. rewrite live_lookup. cbn. intros Hj Hi. destruct (decide (j = k)) as [->|Hne].
    + rewrite list_lookup_insert_eq in Hj by (by eapply lookup_lt_Some). simplify_eq. by eapply Hlast.
    + rewrite list_lookup_insert_ne in Hj by done. pose proof (occs_two i j k _ _ _ Hj Hk Hne) as H.
      pose proof (Ht j tj i ltac:(by apply live_lookup) Hi) as H1. pose proof (last_occ _ _ Hi). cbn in H.
      pose proof (occs_insert i k _ _ o' Hk) as Hins. cbn in Hins. rewrite Hnew in Hins by lia. lia.
Qed.

(** One trace is added. *)
Lemma add_slot w ls h' t' l' :
  represents w ls -> counted (fun i => occs i (w_traces w) + occ i (t_nodes t'))%nat h' -> trace_ok h' t' l' ->
  (forall i, (0 < occs i (w_traces w))%nat -> node_data h' i = node_data (w_heap w) i) ->
  (forall i, last (t_nodes t') = Some i -> (occs i (w_traces w) + occ i (t_nodes t') = 1)%nat) ->
  (forall k t i, live w k = Some t -> last (t_nodes t) = Some i -> occ i (t_nodes t') = 0%nat) ->
  represents (World h' (w_traces w ++ [Some t'])) (ls ++ [Some l']).
Proof.
  intros [Hc Hs Ht] Hc' Hok Hd Hlast Hnew.
  assert (forall i, occs i (w_traces w ++ [Some t']) = occs i (w_traces w) + occ i (t_nodes t'))%nat as Hocc.
  { intros i. rewrite occs_app. unfold occs at 2. cbn. lia. }
  split; cbn [w_heap w_traces].
  - revert Hc'. apply counted_ext. intros i. by rewrite Hocc.
  - apply Forall2_app; [|by constructor]. apply Forall2_same_length_lookup. split; [by eapply Forall2_length|].
    intros j ot ol Hot Hol. pose proof (Forall2_lookup_lr _ _ _ _ _ _ Hs Hot Hol) as Hslot.
    destruct ot as [tj|], ol as [lj|]; [|done..]. cbn in Hslot |- *. revert Hslot. apply trace_ok_ext. intros i Hi. apply Hd.
    pose proof (occs_one i j _ _ Hot) as H. cbn in H. apply occ_elem in Hi. lia.
  - intros k t i. rewrite live_lookup. cbn. rewrite Hocc. intros [Hk|[Hk Hx]]%lookup_app_Some Hi.
    + apply (live_lookup w) in Hk. by rewrite (Ht k t i Hk Hi), (Hnew k t i Hk Hi).
    + apply list_lookup_singleton_Some in Hx as [_ [= <-]]. by apply Hlast.
Qed.

(** ** Each operation *)

Section ops.
Context (w : world) (ls : list (option (list T))) (k : nat) (t : trace).
Context (Hrep : represents w ls) (Hroom : room w ls) (Hk : live w k = Some t).

Lemma slot_list : exists l, ls !! k = Some (Some l) /\ trace_ok (w_heap w) t l.
Proof.
  apply live_lookup in Hk as Hl. destruct (Forall2_lookup_l _ _ _ _ _ (rep_slots _ _ Hrep) Hl) as ([l|] & Hls & Hok); [by eauto|done].
Qed.

Lemma own_occ i : (occ i (t_nodes t) <= occs i (w_traces w))%nat.
Proof. apply live_lookup in Hk. by apply (occs_one i k _ (Some t)). Qed.

Lemma set_occ i t' : (occs i (<[k := Some t']> (w_traces w)) + occ i (t_nodes t) = occs i (w_traces w) + occ i (t_nodes t'))%nat.
Proof. apply live_lookup in Hk. by apply (occs_insert i k _ (Some t) (Some t')). Qed.

Lemma bound_occ i : Z.of_nat (occs i (w_traces w)) < 2 ^ 32.
Proof. destruct Hroom as [H _]. specialize (H i). lia. Qed.

(** All references of the trace go away, and a new node takes their place. *)
Lemma one_node d h :
  counted (fun i => occs i (w_traces w)) h -> (forall i, (0 < occs i (w_traces w))%nat -> node_data h i = node_data (w_heap w) i) ->
  exists h', (let '(n, h) := new_ref d h in h ← dec_all (t_nodes t) h; Some (n, h)) = Some (hp_next h, h') /\
    represents (World h' (<[k := Some (Trace [hp_next h] (Z.of_nat (length d)))]> (w_traces w))) (<[k := Some d]> ls).
Proof.
  intros Hc Hd. pose proof (new_ref_spec _ d h Hc) as Hn. destruct (new_ref d h) as [n h1] eqn:En. injection En as <- _.
  destruct Hn as (Hz & Hc1 & Hd1 & Hne). set (n := hp_next h) in *.
  pose proof own_occ as Ho. pose proof bound_occ as Hb.
  destruct (dec_all_spec (t_nodes t) _ h1 Hc1) as (h2 & -> & Hc2 & Hd2).
  { intros i. specialize (Ho i). lia. }
  { intros i. specialize (Hb i). case_decide; [subst; lia|lia]. }
  exists h2. split; [done|]. eapply (replace_slot _ _ _ _ _ (Some _) (Some _)); [done|done| | | | |].
  - revert Hc2. apply counted_ext. intros i. pose proof (set_occ i (Trace [n] (Z.of_nat (length d)))) as H. specialize (Ho i).
    cbn [t_nodes] in H. rewrite occ_cons, occ_nil in H. lia.
  - split; [done|by cbn| |done|apply NoDup_singleton]. cbn. apply contents_one. rewrite Hd2, Hd1; [done|]. specialize (Ho n). rewrite decide_True by done. lia.
  - intros i Hi. rewrite Hd2 by (case_decide; lia). rewrite Hne by (intros ->; lia). apply Hd. lia.
  - intros t' i [= <-] [= <-]. pose proof (set_occ n (Trace [n] (Z.of_nat (length d)))) as H. specialize (Ho n).
    cbn [t_nodes] in H. rewrite occ_cons, occ_nil, decide_True in H by done. lia.
  - intros i Hi Hpos. cbn. rewrite occ_cons. rewrite decide_False; [done|]. intros ->. lia.
Qed.

Lemma clear_refines :
  exists t' h', clear t (w_heap w) = Some (t', h') /\ represents (World h' (<[k := Some t']> (w_traces w))) (<[k := Some []]> ls).
Proof.
  pose proof own_occ as Ho. pose proof (rep_counted _ _ Hrep) as Hc. unfold clear.
  destruct (dec_all_spec (t_nodes t) _ _ Hc Ho bound_occ) as (h1 & -> & Hc1 & Hd1). cbn.
  pose proof (new_ref_spec _ [] h1 Hc1) as Hn. cbn in Hn. destruct Hn as (Hz & Hc2 & Hd2 & Hne). set (n := hp_next h1) in *.
  eexists _, _. split; [done|].
  assert (forall i, occs i (<[k := Some (Trace [n] 0)]> (w_traces w)) = occ i [n] + (occs i (w_traces w) - occ i (t_nodes t)))%nat as Hset.
  { intros i. pose proof (set_occ i (Trace [n] 0)). specialize (Ho i). cbn in *. lia. }
  eapply (replace_slot _ _ _ _ _ (Some _) (Some _)); [done|done| | | | |].
  - revert Hc2. apply counted_ext. intros i. rewrite Hset, occ_cons, occ_nil. lia.
  - split; [done|by cbn| |done|apply NoDup_singleton]. cbn. by apply contents_one.
  - intros i Hi. rewrite Hne by (intros ->; lia). apply Hd1. lia.
  - intros t' i [= <-] [= <-]. rewrite Hset, occ_cons, decide_True, occ_nil by done. lia.
  - intros i Hi Hpos. cbn. rewrite occ_cons, decide_False; [done|]. intros ->. lia.
Qed.

Lemma reverse_contents h l : contents h (t_nodes t) = Some l ->
  exists ds, mapM (node_data h) (rev (t_nodes t)) = Some ds /\ concat (map (@rev T) ds) = rev l.
Proof.
  generalize (t_nodes t) as ids. clear. intros ids. revert l. induction ids as [|i ids IH]; intros l H.
  - injection H as <-. by exists [].
  - apply contents_cons in H as (d & l' & Hd & Hl & ->). destruct (IH _ Hl) as (ds & Hm & Hr). exists (ds ++ [d]). split.
    + cbn. apply mapM_Some_2. apply mapM_Some_1 in Hm. apply Forall2_app; [done|]. by constructor.
    + rewrite map_app, concat_app, Hr. cbn. by rewrite app_nil_r, rev_app_distr.
Qed.

Lemma reverse_refines l :
  trace_ok (w_heap w) t l ->
  exists t' h', reverse t (w_heap w) = Some (t', h') /\ represents (World h' (<[k := Some t']> (w_traces w))) (<[k := Some (rev l)]> ls).
Proof.
  intros [_ _ Hl Hsz _]. unfold reverse. destruct (reverse_contents _ _ Hl) as (ds & -> & E). cbn [mbind option_bind]. rewrite E. cbv zeta.
  destruct (one_node (rev l) (w_heap w) (rep_counted _ _ Hrep) ltac:(done)) as (h' & Hn & Hr).
  destruct (new_ref (rev l) (w_heap w)) as [n h1]. destruct (dec_all (t_nodes t) h1) as [h2|]; [|done]. cbn in Hn |- *. injection Hn as -> ->.
  rewrite length_rev in Hr |- *. rewrite Hsz, Z.eqb_refl. by eexists _, _.
Qed.

Lemma push_refines l x :
  trace_ok (w_heap w) t l -> ls !! k = Some (Some l) ->
  exists t' h', push_back x t (w_heap w) = Some (t', h') /\
    represents (World h' (<[k := Some t']> (w_traces w))) (<[k := Some (l ++ [x])]> ls).
Proof.
  intros [Hne Hf Hl Hsz Hnd] Hlk. pose proof own_occ as Ho. destruct (rep_counted _ _ Hrep) as [Hc Hfr].
  destruct (nodes_split _ Hne) as (a & i & Ht & Hrl & Hlast). rewrite Hrl in Hf. unfold push_back. rewrite Hlast. cbn [mbind option_bind].
  pose proof (rep_tails _ _ Hrep k t i Hk Hlast) as H1. pose proof (Hc i) as Hi.
  destruct (hp_nodes (w_heap w) !! i) as [n|] eqn:En; [|lia]. cbn [mbind option_bind]. eexists _, _. split; [done|].
  set (h' := set_node i _ _).
  assert (forall j, j <> i -> node_data h' j = node_data (w_heap w) j) as Hd by (intros j Hj; unfold node_data; cbn; by rewrite lookup_insert_ne).
  assert (node_data h' i = Some (data n ++ [x])) as Hdi by (unfold node_data; cbn; by rewrite lookup_insert_eq).
  assert (i ∉ a) as Hia.
  { intros Hin%occ_elem. specialize (Ho i). rewrite Ht, occ_app, occ_cons, decide_True, occ_nil in Ho by done. lia. }
  assert (forall j t', t_nodes t' = t_nodes t -> occs j (<[k := Some t']> (w_traces w)) = occs j (w_traces w)) as Hset.
  { intros j t' E. pose proof (set_occ j t') as H. rewrite E in H. lia. }
  eapply (replace_slot _ _ _ _ _ (Some _) (Some _)); [done|done| | | | |].
  - split.
    + intros j. rewrite Hset by done. specialize (Hc j). cbn. destruct (decide (j = i)) as [->|].
      * rewrite lookup_insert_eq. by rewrite En in Hc.
      * by rewrite lookup_insert_ne.
    + intros j Hj. cbn. rewrite lookup_insert_ne by (intros ->; by rewrite Hfr in En). by apply Hfr.
  - split; cbn; [done| | | |done].
    + rewrite Hrl. apply Forall_forall. intros j Hj. rewrite Hd by set_solver. by apply (proj1 (Forall_forall _ _) Hf).
    + rewrite Ht in Hl |- *. apply contents_snoc in Hl as (la & d & Ha & Hdd & ->). apply contents_snoc. exists la, (d ++ [x]).
      split; [rewrite (contents_ext (w_heap w)); [done|intros j Hj; apply Hd; set_solver]|]. split; [|by rewrite app_assoc].
      rewrite Hdi. unfold node_data in Hdd. rewrite En in Hdd. by injection Hdd as ->.
    + destruct Hroom as [_ Hr]. rewrite (Forall_lookup _ ls) in Hr. specialize (Hr _ _ Hlk). cbn in Hr. rewrite Hsz, length_app. cbn.
      unfold u64. rewrite Z.mod_small by lia. lia.
  - intros j Hj. apply Hd. intros ->. apply last_occ in Hlast. lia.
  - intros t' j [= <-] Hj. rewrite Hset by done. by apply (rep_tails _ _ Hrep k t).
  - done.
Qed.

Lemma destroy_refines :
  exists h', ForkableTrace_destroy t (w_heap w) = Some h' /\ represents (World h' (<[k := None]> (w_traces w))) (<[k := None]> ls).
Proof.
  pose proof (rep_counted _ _ Hrep) as Hc. unfold ForkableTrace_destroy.
  destruct (dec_all_spec (t_nodes t) _ _ Hc own_occ bound_occ) as (h1 & -> & Hc1 & Hd1). exists h1. split; [done|].
  eapply replace_slot; [done|done| |done|done|done|done].
  revert Hc1. apply counted_ext. intros i. apply live_lookup in Hk. pose proof (occs_insert i k _ _ None Hk) as H. cbn in H. lia.
Qed.

(** The first step of a copy: the trace ends in an empty tail of its own. *)
Lemma seal_tail l tail n :
  trace_ok (w_heap w) t l -> ls !! k = Some (Some l) -> last (t_nodes t) = Some tail -> hp_nodes (w_heap w) !! tail = Some n ->
  let '(ns, h1) :=
    match data n with
    | [] => (t_nodes t, w_heap w)
    | _ => let '(i, h) := new_ref [] (w_heap w) in (t_nodes t ++ [i], h)
    end in
  let w1 := World h1 (<[k := Some (Trace ns (t_size t))]> (w_traces w)) in
  represents w1 ls /\ room w1 ls /\ trace_ok h1 (Trace ns (t_size t)) l /\
  exists a i, ns = a ++ [i] /\ node_data h1 i = Some [].
Proof.
  intros [Hne Hf Hl Hsz Hnd] Hlk Hlast Hn. destruct (nodes_split _ Hne) as (a & i & Ht & Hrl & Hlast').
  assert (i = tail) as -> by congruence. apply live_lookup in Hk as Hlv. destruct (data n) as [|x d] eqn:Hdat.
  - assert (Trace (t_nodes t) (t_size t) = t) as -> by (by destruct t). rewrite list_insert_id by done. destruct w as [h ts].
    split; [done|]. split; [done|]. split; [by split|]. exists a, tail. split; [done|]. unfold node_data. cbn in *. rewrite Hn. cbn. by rewrite Hdat.
  - pose proof (rep_counted _ _ Hrep) as Hc. pose proof (new_ref_spec _ [] (w_heap w) Hc) as Hnew. destruct (new_ref [] (w_heap w)) as [i h1].
    destruct Hnew as (Hz & Hc1 & Hdi & Hd). cbv beta in Hz. set (t' := Trace (t_nodes t ++ [i]) (t_size t)).
    assert (forall j, occs j (<[k := Some t']> (w_traces w)) = (if decide (j = i) then 1 else 0) + occs j (w_traces w))%nat as Hset.
    { intros j. pose proof (set_occ j t') as H. change (t_nodes t') with (t_nodes t ++ [i]) in H. rewrite occ_app, occ_cons, occ_nil in H. lia. }
    assert (trace_ok h1 t' l) as Hok.
    { assert (forall j, j ∈ t_nodes t -> node_data h1 j = node_data (w_heap w) j) as Hdj.
      { intros j Hj. apply Hd. intros ->. apply occ_elem in Hj. pose proof (own_occ i). lia. }
      split; cbn [t' t_nodes t_size]; [by destruct (t_nodes t)| | |done|].
      - rewrite removelast_last. apply Forall_forall. intros j Hj. rewrite Hdj by done. rewrite Hrl in Hf. rewrite Ht in Hj.
        apply elem_of_app in Hj as [Hj|Hj%list_elem_of_singleton]; [by apply (proj1 (Forall_forall _ _) Hf)|]. subst j.
        unfold node_data. rewrite Hn. cbn. by rewrite Hdat.
      - apply contents_snoc. exists l, []. split; [by rewrite (contents_ext (w_heap w))|]. by rewrite app_nil_r.
      - apply NoDup_app. split; [done|]. split; [|apply NoDup_singleton]. intros j Hj Hji%list_elem_of_singleton. subst j.
        apply occ_elem in Hj. pose proof (own_occ i). lia. }
    split; [|split; [|split; [done|by exists (t_nodes t), i]]].
    + rewrite <- (list_insert_id ls k (Some l)) by done. eapply replace_slot; [done|done| |done| | |].
      * revert Hc1. apply counted_ext. intros j. by rewrite Hset.
      * intros j Hj. apply Hd. intros ->. lia.
      * intros t2 j [= <-]. cbn. rewrite last_snoc. intros [= <-]. rewrite Hset, decide_True by done. lia.
      * intros j Hj Hpos. cbn. rewrite occ_app, occ_cons, occ_nil, decide_False; [lia|]. intros ->. lia.
    + destruct Hroom as [Hr1 Hr2]. split; [|done]. intros j. cbn. rewrite Hset. specialize (Hr1 j). case_decide; [subst; lia|lia].
Qed.

End ops.

(** The second step: the new trace shares all nodes but the tail. *)
Lemma copy_nodes w ls k t l a tail :
  represents w ls -> room w ls -> live w k = Some t -> trace_ok (w_heap w) t l ->
  t_nodes t = a ++ [tail] -> node_data (w_heap w) tail = Some [] ->
  exists i h', (h ← inc_all (t_nodes t) (w_heap w); tail ← last (t_nodes t); let '(i, h) := new_ref [] h in h ← dec tail h; Some (i, h)) = Some (i, h') /\
    represents (World h' (w_traces w ++ [Some (Trace (a ++ [i]) (t_size t))])) (ls ++ [Some l]).
Proof.
  intros Hrep Hroom Hk [Hne Hf Hl Hsz Hnd] Ht Hdt. pose proof (own_occ w k t Hk) as Ho. destruct Hroom as [Hr _].
  pose proof (rep_counted _ _ Hrep) as Hc. assert (last (t_nodes t) = Some tail) as Hlast by (rewrite Ht; apply last_snoc).
  pose proof (rep_tails _ _ Hrep k t tail Hk Hlast) as H1.
  assert (occ tail a = 0)%nat as Hta. { specialize (Ho tail). rewrite Ht, occ_app, occ_cons, decide_True, occ_nil in Ho by done. lia. }
  destruct (inc_all_spec (t_nodes t) _ _ Hc) as (h1 & -> & Hc1 & Hd1).
  { intros i Hi%occ_elem. specialize (Ho i). lia. }
  { intros i Hi. specialize (Ho i). specialize (Hr i). lia. }
  cbn [mbind option_bind]. rewrite Hlast. cbn [mbind option_bind].
  pose proof (new_ref_spec _ [] h1 Hc1) as Hnew. destruct (new_ref [] h1) as [i h2]. destruct Hnew as (Hz & Hc2 & Hdi & Hd2). cbv beta in Hz.
  assert (tail <> i) as Hti by (intros ->; lia).
  destruct (dec_spec _ tail h2 Hc2) as (h3 & -> & Hc3 & Hd3).
  { rewrite decide_False by done. lia. }
  { specialize (Hr tail). specialize (Ho tail). rewrite decide_False by done. lia. }
  cbn [mbind option_bind]. exists i, h3. split; [done|].
  assert (forall j, occ j (t_nodes t) = occ j a + if decide (j = tail) then 1 else 0)%nat as Hocct.
  { intros j. rewrite Ht, occ_app, occ_cons, occ_nil. lia. }
  assert (forall j, (0 < occs j (w_traces w))%nat -> node_data h3 j = node_data (w_heap w) j) as Hd.
  { intros j Hj. rewrite Hd3, Hd2, Hd1; [done|intros ->; lia|]. pose proof (Hocct j). repeat case_decide; subst; lia. }
  rewrite Ht, removelast_last in Hf. apply add_slot; [done| | |done| |].
  - revert Hc3. apply counted_ext. intros j. cbn. rewrite Hocct, occ_app, occ_cons, occ_nil. repeat case_decide; lia.
  - split; cbn; [by destruct a| | |done|].
    + rewrite removelast_last. apply Forall_forall. intros j Hj. rewrite Hd; [by apply (proj1 (Forall_forall _ _) Hf)|].
      specialize (Ho j). rewrite Hocct in Ho. apply occ_elem in Hj. lia.
    + rewrite Ht in Hl. apply contents_snoc in Hl as (la & d & Ha & Hdd & ->). apply contents_snoc. exists la, [].
      split; [rewrite (contents_ext (w_heap w)); [done|]|].
      * intros j Hj%occ_elem. apply Hd. specialize (Ho j). rewrite Hocct in Ho. lia.
      * split; [|congruence]. rewrite Hd3, Hdi; [done|]. rewrite !decide_False by done. rewrite decide_True by done. lia.
    + rewrite Ht in Hnd. apply NoDup_app in Hnd as (Hna & _ & _). apply NoDup_app. split; [done|]. split; [|apply NoDup_singleton].
      intros j Hj Hji%list_elem_of_singleton. subst j. apply occ_elem in Hj. specialize (Ho i). rewrite Hocct in Ho. lia.
  - intros j. cbn. rewrite last_snoc. intros [= <-]. rewrite occ_app, occ_cons, decide_True, occ_nil by done.
    specialize (Ho i). rewrite Hocct in Ho. lia.
  - intros k2 t2 j Hk2 Hlast2. cbn. pose proof (rep_tails _ _ Hrep k2 t2 j Hk2 Hlast2) as H2.
    rewrite occ_app, occ_cons, occ_nil. rewrite decide_False by (intros ->; lia).
    destruct (decide (k2 = k)) as [->|Hne2]; [assert (j = tail) as -> by congruence; lia|].
    apply live_lookup in Hk2, Hk. pose proof (occs_two j k2 k _ _ _ Hk2 Hk Hne2) as H3. cbn in H3. apply last_occ in Hlast2.
    rewrite Hocct in H3. lia.
Qed.

Lemma copy_refines w ls k t l :
  represents w ls -> room w ls -> live w k = Some t -> trace_ok (w_heap w) t l -> ls !! k = Some (Some l) ->
  exists a b h', ForkableTrace_copy t (w_heap w) = Some (a, b, h') /\
    represents (World h' (<[k := Some b]> (w_traces w) ++ [Some a])) (ls ++ [Some l]).
Proof.
  intros Hrep Hroom Hk Hok Hlk. unfold ForkableTrace_copy. destruct (nodes_split _ (ok_nodes _ _ _ Hok)) as (a & tail & _ & _ & Hlast).
  rewrite Hlast. cbn [mbind option_bind]. pose proof (own_occ w k t Hk tail) as Ho. pose proof (last_occ _ _ Hlast).
  destruct (counted_node _ _ tail (rep_counted _ _ Hrep) ltac:(cbn; lia)) as (n & Hn & _). rewrite Hn. cbn [mbind option_bind].
  pose proof (seal_tail w ls k t Hrep Hroom Hk l tail n Hok Hlk Hlast Hn) as Hseal. destruct (match data n with [] => _ | _ => _ end) as [ns h1].
  destruct Hseal as (Hrep1 & Hroom1 & Hok1 & a1 & i1 & Hns & Hd1). set (t1 := Trace ns (t_size t)) in *.
  assert (live (World h1 (<[k := Some t1]> (w_traces w))) k = Some t1) as Hk1.
  { apply live_lookup. cbn. apply live_lookup in Hk. rewrite list_lookup_insert_eq; [done|by eapply lookup_lt_Some]. }
  destruct (copy_nodes _ ls k t1 l a1 i1 Hrep1 Hroom1 Hk1 Hok1 Hns Hd1) as (i & h' & Hrun & Hrep2). cbn [t1 t_nodes w_heap] in Hrun.
  destruct (inc_all ns h1) as [h2|]; [|done]. cbn [mbind option_bind] in Hrun |- *. destruct (last ns) as [tl|]; [|done].
  cbn [mbind option_bind] in Hrun |- *. destruct (new_ref [] h2) as [i2 h3]. destruct (dec tl h3) as [h4|]; [|done]. cbn in Hrun |- *.
  injection Hrun as -> ->. eexists _, _, _. split; [done|]. replace (removelast ns) with a1 by (rewrite Hns; symmetry; apply removelast_last). exact Hrep2.
Qed.

(** Swapping two traces exchanges their owners only. *)
Lemma swap_refines w ls j k a b la lb :
  represents w ls -> live w j = Some a -> live w k = Some b -> ls !! j = Some (Some la) -> ls !! k = Some (Some lb) ->
  represents (World (w_heap w) (<[k := Some a]> (<[j := Some b]> (w_traces w)))) (<[k := Some la]> (<[j := Some lb]> ls)).
Proof.
  intros Hrep Hj Hk Hlj Hlk. apply live_lookup in Hj, Hk. destruct Hrep as [Hc Hs Ht].
  assert (forall i, occs i (<[k := Some a]> (<[j := Some b]> (w_traces w))) = occs i (w_traces w)) as Hocc.
  { intros i. pose proof (occs_insert i j _ _ (Some b) Hj) as H1. destruct (decide (j = k)) as [->|Hne].
    - simplify_eq. rewrite !list_insert_id; [done|done|]. by rewrite list_insert_id.
    - pose proof (occs_insert i k (<[j := Some b]> (w_traces w)) (Some b) (Some a) ltac:(by rewrite list_lookup_insert_ne)). lia. }
  split; cbn.
  - revert Hc. apply counted_ext. intros i. by rewrite Hocc.
  - pose proof (Forall2_lookup_lr _ _ _ _ _ _ Hs Hj Hlj). pose proof (Forall2_lookup_lr _ _ _ _ _ _ Hs Hk Hlk).
    by apply Forall2_insert; [apply Forall2_insert|].
  - intros m t i Hm Hi. rewrite Hocc. apply live_lookup in Hm. cbn in Hm.
    apply list_lookup_insert_Some in Hm as [(_ & [= <-] & _)|(_ & Hm)]; [by apply (Ht j a); [apply live_lookup|]|].
    apply list_lookup_insert_Some in Hm as [(_ & [= <-] & _)|(_ & Hm)]; [by apply (Ht k b); [apply live_lookup|]|].
    by apply (Ht m t); [apply live_lookup|].
Qed.

Lemma new_refines w ls :
  represents w ls ->
  exists t h, ForkableTrace_new (w_heap w) = Some (t, h) /\ represents (World h (w_traces w ++ [Some t])) (ls ++ [Some []]).
Proof.
  intros Hrep. unfold ForkableTrace_new, clear. cbn [t_nodes dec_all mbind option_bind].
  pose proof (new_ref_spec _ [] (w_heap w) (rep_counted _ _ Hrep)) as Hnew. destruct (new_ref [] (w_heap w)) as [i h].
  destruct Hnew as (Hz & Hc & Hdi & Hd). cbv beta in Hz. eexists _, _. split; [done|]. apply add_slot; [done| | | | |]; cbn.
  - revert Hc. apply counted_ext. intros j. rewrite occ_cons, occ_nil. lia.
  - split; [done|by cbn|by apply contents_one|done|apply NoDup_singleton].
  - intros j Hj. apply Hd. intros ->. lia.
  - intros j [= <-]. rewrite occ_cons, occ_nil, decide_True by done. lia.
  - intros k t j Hk Hj. rewrite occ_cons, occ_nil, decide_False; [done|]. intros ->. pose proof (rep_tails _ _ Hrep k t i Hk Hj). lia.
Qed.

(** ** Refinement *)

Lemma exec_step w ls o ls' :
  represents w ls -> room w ls -> spec o ls = Some ls' -> exists w', exec o w = Some w' /\ represents w' ls'.
Proof.
  intros Hrep Hroom Hspec.
  assert (forall k l, mjoin (ls !! k) = Some l -> exists t, live w k = Some t /\ ls !! k = Some (Some l) /\ trace_ok (w_heap w) t l) as Hget.
  { intros k l Hl. destruct (ls !! k) as [[l'|]|] eqn:Elk; cbn in Hl; simplify_eq.
    destruct (Forall2_lookup_r _ _ _ _ _ (rep_slots _ _ Hrep) Elk) as ([t|] & Ht & Hok); [|done].
    exists t. split; [by apply live_lookup|done]. }
  destruct o as [|k|k|k x|k|j k|k]; cbn [spec exec] in *; unfold on_trace.
  1: { injection Hspec as <-. destruct (new_refines w ls Hrep) as (t & h & -> & H). by eexists. }
  all: apply bind_Some in Hspec as (l & Hl & Hspec); destruct (Hget _ l Hl) as (t & Hk & Hlk & Hok); rewrite Hk; cbn [mbind option_bind].
  5: { apply bind_Some in Hspec as (lb & Hlb & [= <-]). destruct (Hget _ lb Hlb) as (t' & Hk' & Hlk' & Hok'). rewrite Hk'. cbn.
       eexists. split; [done|]. by apply swap_refines. }
  all: injection Hspec as <-.
  - destruct (copy_refines w ls k t l Hrep Hroom Hk Hok Hlk) as (a & b & h & -> & H). by eexists.
  - destruct (destroy_refines w ls k t Hrep Hroom Hk) as (h & -> & H). by eexists.
  - destruct (push_refines w ls k t Hrep Hroom Hk l x Hok Hlk) as (t' & h & -> & H). by eexists.
  - destruct (clear_refines w ls k t Hrep Hroom Hk) as (t' & h & -> & H). by eexists.
  - destruct (reverse_refines w ls k t Hrep Hroom Hk l Hok) as (t' & h & -> & H). by eexists.
Qed.

(** ** Iterators *)

(** The iterator is at an element, or at the end; [rest] is what is still ahead. *)
Definition at_rest (t : trace) (h : heap) (it : iterator) (rest : list T) : Prop :=
  (it = makeFromEnd t /\ rest = []) \/
  exists i d e lb, it = Iter (it_node it) (Some e) /\ t_nodes t !! it_node it = Some i /\ node_data h i = Some d /\
    (e < length d)%nat /\ contents h (drop (S (it_node it)) (t_nodes t)) = Some lb /\ rest = drop e d ++ lb.

Lemma at_rest_node t h it i d e lb :
  t_nodes t !! it_node it = Some i -> node_data h i = Some d -> it_elem it = Some e -> (e < length d)%nat ->
  contents h (drop (S (it_node it)) (t_nodes t)) = Some lb -> at_rest t h it (drop e d ++ lb).
Proof. intros. destruct it as [k o]. cbn in *. subst o. right. cbn. by exists i, d, e, lb. Qed.

Lemma at_end t h it : at_rest t h it [] -> it = makeFromEnd t.
Proof.
  intros [[-> _]|(i & d & e & lb & _ & _ & _ & He & _ & E)]; [done|]. symmetry in E. apply app_eq_nil in E as [E _].
  apply (f_equal length) in E. rewrite length_drop in E. cbn in E. lia.
Qed.

Lemma not_at_end t h it x rest : at_rest t h it (x :: rest) -> iterator_eqb it (makeFromEnd t) = false.
Proof.
  intros [[_ [=]]|(i & d & e & lb & _ & Hi & _)]. unfold iterator_eqb. cbn. apply andb_false_intro1. apply Nat.eqb_neq.
  apply lookup_lt_Some in Hi. lia.
Qed.

Lemma skip_forward_rest t h k rest :
  contents h (drop k (t_nodes t)) = Some rest -> (k <= length (t_nodes t))%nat ->
  exists it, skipForwardOverEmptyNodes t h k = Some it /\ at_rest t h it rest.
Proof.
  unfold skipForwardOverEmptyNodes. intros Hc Hk. remember (drop k (t_nodes t)) as ids eqn:E.
  revert k E Hk rest Hc. induction ids as [|i ids IH]; intros k E Hk rest Hc; cbn [skip_forward].
  - injection Hc as <-. eexists. split; [done|]. left. split; [|done]. unfold makeFromEnd. f_equal.
    apply (f_equal length) in E. rewrite length_drop in E. cbn in E. lia.
  - apply contents_cons in Hc as (d & l' & Hd & Hl & ->). rewrite Hd. cbn [mbind option_bind].
    assert (t_nodes t !! k = Some i) as Hi by (by rewrite <- (Nat.add_0_r k), <- lookup_drop, <- E).
    assert (ids = drop (S k) (t_nodes t)) as E' by (apply drop_S in Hi; congruence).
    destruct d as [|x d]; [apply IH; [done|by apply lookup_lt_Some in Hi|done]|].
    eexists. split; [done|]. apply (at_rest_node t h _ i (x :: d) 0); cbn; try done; [lia|]. by rewrite <- E'.
Qed.

Lemma increment_rest t h it x rest :
  at_rest t h it (x :: rest) -> deref t h it = Some x /\ exists it', increment t h it = Some it' /\ at_rest t h it' rest.
Proof.
  intros [[_ [=]]|(i & d & e & lb & E & Hi & Hd & He & Hlb & Hrest)]. destruct it as [k o]. cbn in *. injection E as ->.
  destruct (lookup_lt_is_Some_2 d e He) as [y Hy]. rewrite (drop_S _ _ _ Hy) in Hrest. injection Hrest as <- ->.
  unfold deref, element, increment, data_at. cbn. rewrite Hi. cbn. rewrite Hd. cbn. split; [done|].
  rewrite (decide_False (P := e = length d)) by lia. case_decide as Hend.
  - rewrite (drop_ge d (S e)) by lia. apply skip_forward_rest; [done|]. by apply lookup_lt_Some in Hi.
  - eexists. split; [done|]. by apply (at_rest_node t h _ i d (S e)); cbn; try done; lia.
Qed.

Lemma walk_rest t h it rest n : at_rest t h it rest -> (length rest <= n)%nat -> walk n t h it = Some rest.
Proof.
  revert it rest. induction n as [|n IH]; intros it rest Hit Hn; cbn [walk].
  - destruct rest; [|cbn in Hn; lia]. rewrite (at_end _ _ _ Hit). unfold iterator_eqb. by rewrite Nat.eqb_refl, bool_decide_true.
  - destruct rest as [|x rest]; [rewrite (at_end _ _ _ Hit); unfold iterator_eqb; by rewrite Nat.eqb_refl, bool_decide_true|].
    rewrite (not_at_end _ _ _ _ _ Hit). destruct (increment_rest _ _ _ _ _ Hit) as (-> & it' & -> & Hit'). cbn.
    rewrite (IH it' rest) by (done || cbn in Hn; lia). done.
Qed.

Lemma begin_rest t h l : trace_ok h t l -> exists it, makeFromBegin t h = Some it /\ at_rest t h it l.
Proof. intros Hok. apply skip_forward_rest; [apply (ok_contents _ _ _ Hok)|lia]. Qed.

(** At the last element of a node. *)
Lemma last_of_node t h k i d x rest :
  t_nodes t !! k = Some i -> node_data h i = Some (d ++ [x]) -> contents h (drop (S k) (t_nodes t)) = Some rest ->
  at_rest t h (Iter k (Some (length (d ++ [x]) - 1)%nat)) (x :: rest).
Proof.
  intros Hi Hd Hrest. replace (x :: rest) with (drop (length (d ++ [x]) - 1) (d ++ [x]) ++ rest).
  - apply (at_rest_node t h _ i (d ++ [x])); cbn; try done. rewrite length_app. cbn. lia.
  - rewrite length_app. cbn. replace (length d + 1 - 1)%nat with (length d) by lia. by rewrite drop_app_length.
Qed.

Lemma skip_backward_rest t h k pre x rest :
  contents h (take (S k) (t_nodes t)) = Some (pre ++ [x]) -> contents h (drop (S k) (t_nodes t)) = Some rest -> (k < length (t_nodes t))%nat ->
  exists it, skipBackwardOverEmptyNodes t h k = Some it /\ at_rest t h it (x :: rest).
Proof.
  revert rest. induction k as [|k IH]; intros rest Hc Hd Hk; destruct (lookup_lt_is_Some_2 _ _ Hk) as [i Hi];
    rewrite (take_S_r _ _ _ Hi) in Hc; apply contents_snoc in Hc as (la & d & Ha & Hdi & E);
    cbn [skipBackwardOverEmptyNodes]; unfold data_at at 1; rewrite Hi; cbn [mbind option_bind]; rewrite Hdi; cbn [mbind option_bind];
    (destruct d as [|y d _] using rev_ind;
     [|rewrite app_assoc in E; apply app_inj_tail in E as [_ ->]; pose proof (last_of_node _ _ _ _ _ _ _ Hi Hdi Hd);
       destruct (d ++ [y]) eqn:Ed; [by destruct d|]; rewrite <- Ed in *; by eexists]).
  - cbn in Ha. injection Ha as <-. by destruct pre.
  - rewrite app_nil_r in E. subst la. apply (IH rest); [done| |lia]. rewrite (drop_S _ _ _ Hi). apply contents_cons. by exists [], rest.
Qed.

Lemma decrement_rest t h l it pre x rest :
  contents h (t_nodes t) = Some l -> at_rest t h it rest -> l = pre ++ x :: rest ->
  exists it', decrement t h it = Some it' /\ at_rest t h it' (x :: rest).
Proof.
  intros Hl Hit El. pose proof Hit as [[-> ->]|(i & d & e & lb & E & Hi & Hd & He & Hlb & Hrest)]; unfold decrement.
  - cbn. rewrite decide_True by done. destruct (length (t_nodes t)) as [|k] eqn:Ek.
    { apply nil_length_inv in Ek. rewrite Ek in Hl. injection Hl as <-. by destruct pre. }
    apply (skip_backward_rest _ _ _ pre); [by rewrite take_ge, Hl, El by lia|by rewrite drop_ge by lia|lia].
  - destruct it as [k o]. cbn in *. injection E as ->. pose proof (lookup_lt_Some _ _ _ Hi) as Hlt. rewrite decide_False by lia.
    rewrite <- (take_drop (S k) (t_nodes t)) in Hl. apply contents_app in Hl as (l1 & l2 & Hl1 & Hl2 & ->).
    assert (l2 = lb) as -> by congruence. pose proof Hl1 as Hl1'. rewrite (take_S_r _ _ _ Hi) in Hl1.
    apply contents_snoc in Hl1 as (la & d' & Hla & Hd' & ->). assert (d' = d) as -> by congruence.
    rewrite Hrest in El. replace (pre ++ x :: drop e d ++ lb) with ((pre ++ x :: drop e d) ++ lb) in El by (by rewrite <- app_assoc).
    apply app_inv_tail in El. destruct e as [|e].
    + rewrite drop_0 in El, Hrest. change (pre ++ x :: d) with (pre ++ [x] ++ d) in El. rewrite app_assoc in El. apply app_inv_tail in El.
      destruct k as [|k]; [injection Hla as <-; by destruct pre|].
      apply (skip_backward_rest _ _ _ pre); [by rewrite Hla, El| |lia].
      rewrite (drop_S _ _ _ Hi). apply contents_cons. eauto.
    + eexists. split; [done|]. destruct (lookup_lt_is_Some_2 d e ltac:(lia)) as [y Hy].
      assert (la ++ take e d = pre /\ y = x) as [_ ->].
      { rewrite <- (take_drop_middle d e y Hy) in El at 1. rewrite app_assoc in El. apply app_inj_2 in El as [H1 H2]; [by injection H2 as ->|].
        cbn. by rewrite length_drop. }
      rewrite Hrest. change (x :: drop (S e) d ++ lb) with ((x :: drop (S e) d) ++ lb). rewrite <- (drop_S _ _ _ Hy).
      apply (at_rest_node t h _ i d e); cbn; try done. lia.
Qed.

(** What is ahead determines the iterator. *)
Lemma at_rest_node_le t h a b ra rb :
  at_rest t h a ra -> at_rest t h b rb -> (it_node a < it_node b)%nat -> (length rb < length ra)%nat.
Proof.
  intros [[-> _]|(i & d & e & la & _ & Hi & Hd & He & Hla & ->)] Hb Hlt.
  { destruct Hb as [[-> _]|(i & d & e & lb & _ & Hi & _)]; [cbn in Hlt; lia|]. apply lookup_lt_Some in Hi. cbn in Hlt. lia. }
  rewrite length_app, length_drop. destruct Hb as [[-> ->]|(j & d' & e' & lb & _ & Hj & Hd' & He' & Hlb & ->)]; [cbn; lia|].
  rewrite length_app, length_drop. enough (length d' + length lb <= length la)%nat by lia.
  replace (drop (S (it_node a)) (t_nodes t)) with (take (it_node b - S (it_node a)) (drop (S (it_node a)) (t_nodes t)) ++ drop (it_node b) (t_nodes t)) in Hla.
  - rewrite (drop_S _ _ _ Hj) in Hla. apply contents_app in Hla as (l1 & l2 & _ & H2 & ->). apply contents_cons in H2 as (d2 & l3 & ? & ? & ->).
    rewrite !length_app. simplify_eq. lia.
  - replace (drop (it_node b) (t_nodes t)) with (drop (it_node b - S (it_node a)) (drop (S (it_node a)) (t_nodes t))).
    + apply take_drop.
    + rewrite drop_drop. f_equal. lia.
Qed.

Lemma at_rest_inj t h a b r : at_rest t h a r -> at_rest t h b r -> a = b.
Proof.
  intros Ha Hb. pose proof (at_rest_node_le _ _ _ _ _ _ Ha Hb). pose proof (at_rest_node_le _ _ _ _ _ _ Hb Ha).
  destruct Ha as [[-> ->]|(i & d & e & la & Ea & Hi & Hd & He & Hla & ->)]; [symmetry; by eapply at_end|].
  destruct Hb as [[-> E]|(j & d' & e' & lb & Eb & Hj & Hd' & He' & Hlb & E)].
  { apply app_eq_nil in E as [E _]. apply (f_equal length) in E. rewrite length_drop in E. cbn in E. lia. }
  assert (it_node a = it_node b) as En by lia. destruct a as [k oa], b as [k2 ob]. cbn in *. subst k2. simplify_eq.
  apply (f_equal length) in E. rewrite !length_app, !length_drop in E. do 2 f_equal. lia.
Qed.

Lemma at_rest_fun t h it r r' : at_rest t h it r -> at_rest t h it r' -> r = r'.
Proof.
  assert (forall r, at_rest t h (makeFromEnd t) r -> r = []) as Hend.
  { intros r0 [[_ ->]|(i & d & e & lb & _ & Hi & _)]; [done|]. apply lookup_lt_Some in Hi. cbn in Hi. lia. }
  intros [[-> ->]|(i & d & e & la & E & Hi & Hd & He & Hla & ->)] Hr; [by rewrite (Hend r')|].
  destruct Hr as [[-> ->]|(j & d' & e' & lb & Eb & Hj & Hd' & He' & Hlb & ->)]; [apply lookup_lt_Some in Hi; cbn in Hi; lia|].
  destruct it as [k o]. cbn in *. by simplify_eq.
Qed.

Lemma iterator_eqbP a b : reflect (a = b) (iterator_eqb a b).
Proof.
  destruct a as [k o], b as [k' o']. unfold iterator_eqb. cbn. destruct (Nat.eqb_spec k k') as [->|H]; cbn; [|right; congruence].
  case_bool_decide; constructor; congruence.
Qed.

Lemma walk_back_rest t h l begin it pre rest n :
  contents h (t_nodes t) = Some l -> at_rest t h begin l -> at_rest t h it rest -> l = pre ++ rest -> (length pre <= n)%nat ->
  walk_back n t h begin it = Some (rev pre).
Proof.
  intros Hl Hb. revert it pre rest. induction n as [|n IH]; intros it pre rest Hit El Hn; cbn [walk_back];
    destruct (iterator_eqbP it begin) as [->|Hne].
  1, 3: rewrite (at_rest_fun _ _ _ _ _ Hit Hb) in El; apply (f_equal length) in El; rewrite length_app in El; destruct pre; [done|cbn in El; lia].
  all: destruct pre as [|x pre _] using rev_ind; [by destruct Hne; apply (at_rest_inj t h _ _ l); [rewrite El|]|].
  1: rewrite length_app in Hn; cbn in Hn; lia.
  rewrite <- app_assoc in El. destruct (decrement_rest t h l it pre x rest Hl Hit El) as (it' & -> & Hit'). cbn [mbind option_bind].
  destruct (increment_rest _ _ _ _ _ Hit') as (-> & _). cbn [mbind option_bind].
  rewrite (IH it' pre (x :: rest)); [|done|done|rewrite length_app in Hn; cbn in Hn; lia]. cbn. by rewrite rev_unit.
Qed.

(** ** Access by index *)

Lemma locate_spec h ids l idx x :
  contents h ids = Some l -> l !! idx = Some x ->
  exists a i b la d e, ids = a ++ i :: b /\ contents h a = Some la /\ node_data h i = Some d /\ d !! e = Some x /\
    idx = (length la + e)%nat /\ locate h ids idx = Some (i, e).
Proof.
  revert l idx. induction ids as [|i ids IH]; intros l idx Hl Hx; [by injection Hl as <-|].
  apply contents_cons in Hl as (d & l' & Hd & Hl & ->). cbn [locate]. rewrite Hd. cbn [mbind option_bind]. case_decide as Hlt.
  - rewrite lookup_app_l in Hx by done. by exists [], i, ids, [], d, idx.
  - rewrite lookup_app_r in Hx by lia. destruct (IH _ _ Hl Hx) as (a & j & b & la & d' & e & -> & Ha & Hdj & He & Hi & ->).
    exists (i :: a), j, b, (d ++ la), d', e. split_and!; try done; [apply contents_cons; eauto|]. rewrite length_app. lia.
Qed.

Lemma getElementAt_spec h t l idx : trace_ok h t l -> getElementAt t h idx = l !! idx.
Proof.
  intros [_ _ Hl Hs _]. unfold getElementAt. rewrite Hs. destruct (Z.ltb_spec (Z.of_nat idx) (Z.of_nat (length l))) as [Hlt|Hge].
  - destruct (lookup_lt_is_Some_2 l idx ltac:(lia)) as [x Hx].
    destruct (locate_spec _ _ _ _ _ Hl Hx) as (a & i & b & la & d & e & _ & _ & Hd & He & _ & ->). cbn. rewrite Hd. cbn. by rewrite He, Hx.
  - symmetry. apply lookup_ge_None_2. lia.
Qed.

(** Assigning to an element of a node that has one reference. *)
Lemma assign_owned w ls k t l a i b la d e x y :
  represents w ls -> live w k = Some t -> trace_ok (w_heap w) t l ->
  t_nodes t = a ++ i :: b -> contents (w_heap w) a = Some la -> node_data (w_heap w) i = Some d -> d !! e = Some y ->
  occs i (w_traces w) = 1%nat ->
  exists h', assign (i, e) x (w_heap w) = Some h' /\
    represents (World h' (w_traces w)) (<[k := Some (<[(length la + e)%nat := x]> l)]> ls).
Proof.
  intros Hrep Hk [Hne Hf Hl Hsz Hnd] Ht Ha Hd He H1. unfold assign. cbn [fst snd]. unfold node_data in Hd.
  destruct (hp_nodes (w_heap w) !! i) as [n|] eqn:En; [|done]. cbn in Hd |- *. injection Hd as Hd. rewrite Hd.
  pose proof (lookup_lt_Some _ _ _ He) as Hlt. rewrite decide_True by done. eexists. split; [done|]. set (h' := set_node _ _ _).
  assert (forall j, j <> i -> node_data h' j = node_data (w_heap w) j) as Hdj by (intros j Hj; unfold node_data; cbn; by rewrite lookup_insert_ne).
  assert (node_data h' i = Some (<[e := x]> d)) as Hdi by (unfold node_data; cbn; by rewrite lookup_insert_eq).
  assert (node_data (w_heap w) i = Some d) as Hdi0 by (unfold node_data; rewrite En; cbn; by rewrite Hd).
  rewrite Ht in Hnd. apply NoDup_app in Hnd as (_ & Hna & [Hnb _]%NoDup_cons). specialize (Hna i).
  apply live_lookup in Hk as Hlv. rewrite <- (list_insert_id (w_traces w) k (Some t)) at 1 by done.
  eapply (replace_slot _ _ _ _ _ (Some _) (Some _)); [done|done| | | | |].
  - rewrite list_insert_id by done. destruct (rep_counted _ _ Hrep) as [Hc Hfr]. split.
    + intros j. specialize (Hc j). cbn. destruct (decide (j = i)) as [->|]; [rewrite lookup_insert_eq; by rewrite En in Hc|by rewrite lookup_insert_ne].
    + intros j Hj. cbn. rewrite lookup_insert_ne by (intros ->; by rewrite Hfr in En). by apply Hfr.
  - split; [done| | |by rewrite length_insert|]; cbn.
    + apply Forall_forall. intros j Hj. destruct (decide (j = i)) as [->|Hji].
      * rewrite Hdi. intros [= E]. apply (f_equal length) in E. rewrite length_insert in E. cbn in E. lia.
      * rewrite Hdj by done. by apply (proj1 (Forall_forall _ _) Hf).
    + rewrite Ht in Hl |- *. apply contents_app in Hl as (l1 & l2 & Hl1 & Hl2 & ->). assert (l1 = la) as -> by congruence.
      apply contents_cons in Hl2 as (d2 & lb & Hd2 & Hlb & ->). assert (d2 = d) as -> by congruence.
      apply contents_app. exists la, (<[e := x]> d ++ lb). split; [|split].
      * rewrite (contents_ext (w_heap w)); [done|]. intros j Hj. apply Hdj. intros ->. destruct (Hna Hj). set_solver.
      * apply contents_cons. exists (<[e := x]> d), lb. split; [done|]. split; [|done].
        rewrite (contents_ext (w_heap w)); [done|]. intros j Hj. apply Hdj. by intros ->.
      * rewrite insert_app_r. by rewrite insert_app_l.
    + rewrite Ht. apply NoDup_app. destruct (slot_list w ls k t Hrep Hk) as (? & _ & [_ _ _ _ Hu]). rewrite Ht in Hu. by apply NoDup_app in Hu.
  - intros j Hj. apply Hdj. intros ->. pose proof (own_occ w k t Hk i). rewrite H1 in Hj.
    assert (0 < occ i (t_nodes t))%nat by (apply occ_elem; rewrite Ht; set_solver). lia.
  - intros t' j [= <-] Hj. rewrite list_insert_id by done. by apply (rep_tails _ _ Hrep k t).
  - done.
Qed.

(** ** Programs *)

Fixpoint run (os : list op) (w : world) : option world :=
  match os with [] => Some w | o :: os => w ← exec o w; run os w end.

Fixpoint run_spec (os : list op) (ls : list (option (list T))) : option (list (option (list T))) :=
  match os with [] => Some ls | o :: os => ls ← spec o ls; run_spec os ls end.

Definition no_traces : world := World (Heap 0 ∅) [].

Definition bounded (n : nat) (ls : list (option (list T))) : Prop :=
  (length ls <= n)%nat /\ Forall (fun o => match o with Some l => length l <= n | None => True end)%nat ls.

Lemma nodup_occ i ids : NoDup ids -> (occ i ids <= 1)%nat.
Proof.
  intros Hnd. induction Hnd as [|j ids Hj Hnd IH]; [rewrite occ_nil; lia|]. rewrite occ_cons. case_decide; [subst j|lia].
  rewrite <- occ_elem in Hj. lia.
Qed.

Lemma occs_length w ls i : represents w ls -> (occs i (w_traces w) <= length ls)%nat.
Proof.
  intros [_ Hs _]. revert Hs. generalize (w_traces w). intros ts Hs. induction Hs as [|ot ol ts ls Hslot Hs IH]; [done|].
  cbn. enough (occ_trace i ot <= 1)%nat by (unfold occs in *; cbn; lia). destruct ot as [t|], ol as [l|]; try done; cbn; [|lia].
  by apply nodup_occ, (ok_nodup _ _ _ Hslot).
Qed.

Lemma bounded_room w ls n : represents w ls -> bounded n ls -> 2 * Z.of_nat n + 2 < 2 ^ 32 -> room w ls.
Proof.
  intros Hrep [Hlen Hf] Hn. split.
  - intros i. pose proof (occs_length w ls i Hrep). lia.
  - apply (Forall_impl _ _ _ Hf). intros [l|]; [lia|done].
Qed.

Lemma spec_bounded o ls ls' n : spec o ls = Some ls' -> bounded n ls -> bounded (S n) ls'.
Proof.
  intros Hs [Hlen Hf].
  assert (Forall (fun o : option (list T) => match o with Some l => length l <= S n | None => True end)%nat ls) as Hf'.
  { apply (Forall_impl _ _ _ Hf). intros [l|]; [lia|done]. }
  assert (forall k l, mjoin (ls !! k) = Some l -> (length l <= n)%nat) as Hget.
  { intros k l Hl. destruct (ls !! k) as [[l'|]|] eqn:E; cbn in Hl; simplify_eq. by apply (proj1 (Forall_lookup _ _) Hf _ _ E). }
  unfold bounded. destruct o; cbn in Hs; repeat (apply bind_Some in Hs as (? & ?%Hget & Hs)); injection Hs as <-;
    rewrite ?length_app, ?length_insert; (split; [cbn; lia|]).
  all: repeat (apply Forall_insert || apply Forall_app_2 || apply Forall_cons_2 || apply Forall_nil_2); try done; cbn; try lia.
  all: rewrite ?length_app, ?length_rev; cbn; lia.
Qed.

Lemma run_bounded os n ls ls' : bounded n ls -> run_spec os ls = Some ls' -> bounded (n + length os) ls'.
Proof.
  revert n ls. induction os as [|o os IH]; intros n ls Hb Hs; cbn in Hs |- *.
  - injection Hs as <-. by rewrite Nat.add_0_r.
  - apply bind_Some in Hs as (ls1 & Ho & Hs). rewrite Nat.add_succ_r. apply (IH (S n) ls1); [by eapply spec_bounded|done].
Qed.

Lemma run_represents os w ls ls' n :
  represents w ls -> bounded n ls -> run_spec os ls = Some ls' -> 2 * Z.of_nat (n + length os) + 2 < 2 ^ 32 ->
  exists w', run os w = Some w' /\ represents w' ls'.
Proof.
  revert w ls n. induction os as [|o os IH]; intros w ls n Hrep Hb Hs Hn; cbn in Hs |- *; [injection Hs as <-; by eexists|].
  apply bind_Some in Hs as (ls1 & Hs1 & Hs). cbn in Hn.
  destruct (exec_step w ls o ls1 Hrep ltac:(eapply bounded_room; [done|done|lia]) Hs1) as (w1 & -> & Hrep1).
  apply (IH w1 ls1 (S n)); [done|by eapply spec_bounded|done|lia].
Qed.

Lemma no_traces_represents : represents no_traces [].
Proof. split; [|constructor|done]. split; [|done]. intros i. cbn. by rewrite lookup_empty. Qed.

(** What a reader of the trace in slot [k] sees. *)
Definition reads_as (w : world) (k : nat) (l : list T) : Prop :=
  exists t, live w k = Some t /\ size t = Z.of_nat (length l) /\ elements t (w_heap w) = Some l /\
    elements_reversed t (w_heap w) = Some (rev l) /\ forall idx, getElementAt t (w_heap w) idx = l !! idx.

Lemma represents_reads w ls k l : represents w ls -> mjoin (ls !! k) = Some l -> reads_as w k l.
Proof.
  intros Hrep Hl. destruct (ls !! k) as [[l'|]|] eqn:E; cbn in Hl; simplify_eq.
  destruct (Forall2_lookup_r _ _ _ _ _ (rep_slots _ _ Hrep) E) as ([t|] & Ht & Hok); [|done]. cbn in Hok.
  destruct (begin_rest _ _ _ Hok) as (it & Hit & Hrest). exists t. split; [by apply live_lookup|].
  pose proof (ok_size _ _ _ Hok) as Hsz. unfold size, elements, elements_reversed. rewrite Hit. cbn [mbind option_bind].
  split; [done|]. split; [|split].
  - apply walk_rest; [done|lia].
  - apply (walk_back_rest _ _ l _ _ l []); [apply (ok_contents _ _ _ Hok)|done|by left|by rewrite app_nil_r|lia].
  - intros idx. by apply getElementAt_spec.
Qed.

Lemma occs_pos i ts : (0 < occs i ts)%nat -> exists k t, ts !! k = Some (Some t) /\ i ∈ t_nodes t.
Proof.
  induction ts as [|o ts IH]; [unfold occs; cbn; lia|]. intros Hpos. destruct (decide (0 < occ_trace i o)%nat) as [Ho|Ho].
  - destruct o as [t|]; [|cbn in Ho; lia]. exists 0%nat, t. split; [done|]. by apply occ_elem.
  - destruct IH as (k & t & Hk & Hi); [unfold occs in *; cbn in Hpos; lia|]. by exists (S k), t.
Qed.

(** A node is allocated exactly as long as a trace refers to it. *)
Lemma represents_no_leak w ls i :
  represents w ls -> is_Some (hp_nodes (w_heap w) !! i) <-> exists k t, live w k = Some t /\ i ∈ t_nodes t.
Proof.
  intros Hrep. destruct (rep_counted _ _ Hrep) as [Hc _]. specialize (Hc i). split.
  - intros [n Hn]. rewrite Hn in Hc. destruct Hc as [_ Hpos]. apply occs_pos in Hpos as (k & t & Hk & Hi).
    exists k, t. split; [by apply live_lookup|done].
  - intros (k & t & Hk & Hi). apply occ_elem in Hi. pose proof (own_occ w k t Hk i). destruct (hp_nodes (w_heap w) !! i); [by eexists|lia].
Qed.

(** A node with another reference than that of the trace in slot [k]. *)
Lemma shared_node w ls k t l i :
  represents w ls -> live w k = Some t -> trace_ok (w_heap w) t l -> (1 < occs i (w_traces w))%nat ->
  exists j t', j <> k /\ live w j = Some t' /\ i ∈ t_nodes t'.
Proof.
  intros Hrep Hk Hok Hi. apply live_lookup in Hk. pose proof (occs_insert i k _ _ None Hk) as Hins. cbn in Hins.
  pose proof (nodup_occ i _ (ok_nodup _ _ _ Hok)). destruct (occs_pos i (<[k := None]> (w_traces w)) ltac:(lia)) as (j & t' & Hj & Hit).
  apply list_lookup_insert_Some in Hj as [(_ & [=] & _)|(Hne & Hj)]. exists j, t'. split; [congruence|]. split; [by apply live_lookup|done].
Qed.

(** [back()] refers to the last element; it is in the tail unless the tail is empty. *)
Lemma back_spec h t l a i d x :
  trace_ok h t l -> t_nodes t = a ++ [i] -> node_data h i = Some (d ++ [x]) ->
  exists la, contents h a = Some la /\ l = la ++ d ++ [x] /\ back t h = Some (i, length d).
Proof.
  intros Hok Ht Hd. pose proof (ok_contents _ _ _ Hok) as Hl. rewrite Ht in Hl. apply contents_snoc in Hl as (la & d' & Ha & Hd' & ->).
  assert (d' = d ++ [x]) as -> by congruence. exists la. split; [done|]. split; [done|]. unfold back, decrement. cbn [makeFromEnd it_node].
  rewrite decide_True by done. assert (t_nodes t !! length a = Some i) as Hi by (by rewrite Ht, list_lookup_middle).
  rewrite Ht at 1. rewrite length_app, Nat.add_1_r.
  assert (skipBackwardOverEmptyNodes t h (length a) = Some (Iter (length a) (Some (length (d ++ [x]) - 1)%nat))) as Hs.
  { destruct (length a) eqn:El; cbn [skipBackwardOverEmptyNodes]; unfold data_at at 1; rewrite Hi; cbn; rewrite Hd; cbn; by destruct (d ++ [x]) eqn:E; [destruct d|]. }
  rewrite Hs. unfold element. cbn. rewrite Hi. cbn. do 2 f_equal. rewrite length_app. cbn. lia.
Qed.

(** C11: Forkable traces refine independent lists.  Any program of fewer than
    [2^31 - 1] operations that makes, copies, extends, clears, swaps, reverses
    and destroys traces runs to its end without touching a freed node, and every
    trace then reads (by index, forwards, backwards) as the list that the same
    program computes with one list per trace; the allocated nodes are exactly
    those that the live traces refer to. *)
Theorem trace_refines (os : list op) ls :
  run_spec os [] = Some ls -> 2 * Z.of_nat (length os) + 2 < 2 ^ 32 ->
  exists w, run os no_traces = Some w /\
    (forall k l, mjoin (ls !! k) = Some l -> reads_as w k l) /\
    (forall i, is_Some (hp_nodes (w_heap w) !! i) <-> exists k t, live w k = Some t /\ i ∈ t_nodes t).
Proof.
  intros Hs Hn. destruct (run_represents os no_traces [] ls 0 no_traces_represents) as (w & Hw & Hrep); [by split; [|constructor]|done|lia|].
  exists w. split; [done|]. split; [intros k l; by apply (represents_reads w ls)|intros i; by apply (represents_no_leak w ls)].
Qed.

(** C25: [getMutableElementPtr] returns NULL only when another trace refers to
    the node, and an assignment through the pointer it returns changes that
    element of that trace and nothing in any other trace. *)
Theorem mutable_pointer_exclusive (os : list op) ls k l idx x :
  run_spec os [] = Some ls -> 2 * Z.of_nat (length os) + 2 < 2 ^ 32 -> mjoin (ls !! k) = Some l -> l !! idx = Some x ->
  exists w t p, run os no_traces = Some w /\ live w k = Some t /\ getMutableElementPtr t (w_heap w) idx = Some p /\
    match p with
    | None => exists i j t', locate (w_heap w) (t_nodes t) idx = Some i /\ j <> k /\ live w j = Some t' /\ i.1 ∈ t_nodes t'
    | Some p => forall y, exists h', assign p y (w_heap w) = Some h' /\
        forall j l', mjoin (<[k := Some (<[idx := y]> l)]> ls !! j) = Some l' -> reads_as (World h' (w_traces w)) j l'
    end.
Proof.
  intros Hs Hn Hlk Hx. destruct (run_represents os no_traces [] ls 0 no_traces_represents) as (w & Hw & Hrep); [by split; [|constructor]|done|lia|].
  destruct (ls !! k) as [[l'|]|] eqn:E; cbn in Hlk; simplify_eq.
  destruct (Forall2_lookup_r _ _ _ _ _ (rep_slots _ _ Hrep) E) as ([t|] & Ht & Hok); [|done]. cbn in Hok.
  apply live_lookup in Ht as Hk. pose proof (lookup_lt_Some _ _ _ Hx) as Hlt. exists w, t. unfold getMutableElementPtr.
  rewrite (ok_size _ _ _ Hok).
  destruct (locate_spec _ _ _ _ _ (ok_contents _ _ _ Hok) Hx) as (a & i & b & la & d & e & Hn' & Ha & Hd & He & -> & Hloc).
  destruct (rep_counted _ _ Hrep) as [Hc _]. specialize (Hc i). unfold node_data in Hd.
  destruct (hp_nodes (w_heap w) !! i) as [n|] eqn:En; [|done]. destruct Hc as [Hrc Hpos].
  destruct (Z.ltb_spec (Z.of_nat (length la + e)) (Z.of_nat (length l))) as [_|]; [|lia]. rewrite Hloc. cbn. rewrite En. cbn.
  eexists. split; [done|]. split; [done|]. split; [done|]. destruct (Z.eqb_spec (refCount n) 1) as [E1|E1].
  - intros y. destruct (assign_owned w ls k t l a i b la d e y x) as (h' & Hh & Hrep'); try done; [by unfold node_data; rewrite En|lia|].
    exists h'. split; [done|]. intros j l' Hj. by apply (represents_reads _ _ _ _ Hrep').
  - destruct (shared_node w ls k t l i Hrep Hk Hok ltac:(lia)) as (j & t' & Hne & Hj & Hi). by exists (i, e), j, t'.
Qed.

Lemma run_app os1 os2 w : run (os1 ++ os2) w = w ← run os1 w; run os2 w.
Proof. revert w. induction os1 as [|o os1 IH]; intros w; [done|]. cbn. destruct (exec o w); [apply IH|done]. Qed.

Lemma run_spec_app os1 os2 ls : run_spec (os1 ++ os2) ls = ls ← run_spec os1 ls; run_spec os2 ls.
Proof. revert ls. induction os1 as [|o os1 IH]; intros ls; [done|]. cbn. destruct (spec o ls); [apply IH|done]. Qed.

(** The trace in slot [k] was extended after it was last copied: its tail is not empty. *)
Definition extended (w : world) (k : nat) : Prop :=
  exists t a i d x, live w k = Some t /\ t_nodes t = a ++ [i] /\ node_data (w_heap w) i = Some (d ++ [x]).

Lemma push_extended w w' k x : exec (Push k x) w = Some w' -> extended w' k.
Proof.
  cbn. unfold on_trace. intros (t & Hk & H)%bind_Some. apply bind_Some in H as ((t' & h) & Hp & [= <-]).
  unfold push_back in Hp. apply bind_Some in Hp as (i & Hi & Hp). apply bind_Some in Hp as (n & Hn & [= <- <-]).
  apply last_Some in Hi as [a Ha]. apply live_lookup in Hk. eexists _, a, i, (data n), x. split.
  - apply live_lookup. cbn. rewrite list_lookup_insert_eq; [done|by eapply lookup_lt_Some].
  - split; [done|]. unfold node_data. cbn. by rewrite lookup_insert_eq.
Qed.

(** An assignment to [back()] of such a trace replaces the last element of that trace. *)
Lemma back_assign w ls k l x y :
  represents w ls -> extended w k -> ls !! k = Some (Some (l ++ [x])) ->
  exists t p h', live w k = Some t /\ back t (w_heap w) = Some p /\ (d ← node_data (w_heap w) p.1; d !! p.2) = Some x /\
    assign p y (w_heap w) = Some h' /\ represents (World h' (w_traces w)) (<[k := Some (l ++ [y])]> ls).
Proof.
  intros Hrep (t & a & i & d & z & Hk & Ht & Hd) Hlk. destruct (slot_list w ls k t Hrep Hk) as (l2 & Hl2 & Hok).
  rewrite Hl2 in Hlk. injection Hlk as ->. destruct (back_spec _ _ _ _ _ _ _ Hok Ht Hd) as (la & Ha & El & Hback).
  assert (occs i (w_traces w) = 1%nat) as H1 by (apply (rep_tails _ _ Hrep k t i Hk); by rewrite Ht, last_snoc).
  assert (l = la ++ d /\ x = z) as [-> ->] by (rewrite app_assoc in El; by apply app_inj_tail in El).
  destruct (assign_owned w ls k t ((la ++ d) ++ [z]) a i [] la (d ++ [z]) (length d) y z) as (h' & Hh & Hrep'); try done; [by rewrite list_lookup_middle|].
  exists t, (i, length d), h'. split; [done|]. split; [done|]. split; [cbn; rewrite Hd; cbn; by rewrite list_lookup_middle|]. split; [done|].
  rewrite <- length_app in Hrep'. by rewrite insert_app_r_alt, Nat.sub_diag in Hrep' by lia.
Qed.

(** An assignment through the reference that [back()] returns just after
    [push_back] changes the last element of that trace and nothing in any other
    trace.  Right after a copy it does not: the element is in a node that both
    traces have, and the assignment shows in the other one. *)
Theorem back_exclusive_after_push (os : list op) ls k l x y :
  run_spec (os ++ [Push k x]) [] = Some ls -> 2 * Z.of_nat (length os + 1) + 2 < 2 ^ 32 -> mjoin (ls !! k) = Some (l ++ [x]) ->
  (exists w t p h', run (os ++ [Push k x]) no_traces = Some w /\ live w k = Some t /\ back t (w_heap w) = Some p /\
    assign p y (w_heap w) = Some h' /\
    forall j l', mjoin (<[k := Some (l ++ [y])]> ls !! j) = Some l' -> reads_as (World h' (w_traces w)) j l') /\
  (exists w t p h', run [New; Push 0 x; Copy 0] no_traces = Some w /\ live w 1 = Some t /\ back t (w_heap w) = Some p /\
    assign p y (w_heap w) = Some h' /\ reads_as (World h' (w_traces w)) 0 [y]).
Proof.
  intros Hs Hn Hlk. split.
  - rewrite run_spec_app in Hs. apply bind_Some in Hs as (ls1 & Hs1 & Hs). cbn in Hs. apply bind_Some in Hs as (ls2 & Hs2 & [= ->]).
    destruct (run_represents os no_traces [] ls1 0 no_traces_represents) as (w1 & Hw1 & Hrep1); [by split; [|constructor]|done|lia|].
    pose proof (run_bounded os 0 [] ls1 ltac:(by split; [|constructor]) Hs1) as Hb1. cbn in Hb1.
    destruct (exec_step w1 ls1 (Push k x) ls Hrep1 ltac:(eapply bounded_room; [done|done|lia]) Hs2) as (w & Hw & Hrep).
    destruct (ls !! k) as [[l2|]|] eqn:El; cbn in Hlk; simplify_eq.
    destruct (back_assign w ls k l x y Hrep (push_extended _ _ _ _ Hw) El) as (t & p & h' & Hk & Hb & _ & Hh & Hrep').
    exists w, t, p, h'. split; [by rewrite run_app, Hw1; cbn [run mbind option_bind]; rewrite Hw|]. split; [done|]. split; [done|]. split; [done|].
    intros j l' Hj. by apply (represents_reads _ _ _ _ Hrep').
  - eexists _, _, (0%nat, 0%nat), _. split; [done|]. split; [done|]. split; [done|]. split; [done|]. eexists. split; [done|]. split; [done|].
    split; [done|]. split; [done|]. intros [|idx]; [done|]. unfold getElementAt.
    rewrite (proj2 (Z.ltb_ge _ _)); [done|]. change (1 <= Z.of_nat (S idx)). lia.
Qed.

End trace.
Arguments heap : clear implicits.
Arguments node : clear implicits.
Arguments world : clear implicits.
Arguments op : clear implicits.

(** ** Examples *)

Definition demo_ops : list (op Z) := [New; Push 0 1; Copy 0; Push 1 2; Push 0 3; Reverse 1; Copy 1; Destroy 0].

Lemma trace_refines_witness :
  exists w, run demo_ops no_traces = Some w /\ reads_as w 1 [2; 1] /\ reads_as w 2 [2; 1].
Proof.
  destruct (trace_refines demo_ops _ eq_refl eq_refl) as (w & Hw & Hr & _). exists w. split; [exact Hw|].
  split; apply Hr; reflexivity.
Defined.

(** The first element is shared by two traces, the second is not. *)
Lemma mutable_pointer_exclusive_witness :
  exists w t p, run (take 5 demo_ops) no_traces = Some w /\ live w 0 = Some t /\
    getMutableElementPtr t (w_heap w) 1 = Some p /\ p = Some (1%nat, 0%nat).
Proof.
  destruct (mutable_pointer_exclusive (take 5 demo_ops) _ 0 [1; 3] 1 3 eq_refl eq_refl eq_refl eq_refl) as (w & t & p & Hw & Ht & Hp & _).
  exists w, t, p. split; [exact Hw|]. split; [exact Ht|]. split; [exact Hp|]. vm_compute in Hw. injection Hw as <-.
  vm_compute in Ht. injection Ht as <-. vm_compute in Hp. by injection Hp as <-.
Defined.

Lemma back_exclusive_after_push_witness :
  exists w t p h', run (take 4 demo_ops ++ [Push 0 3]) no_traces = Some w /\ live w 0 = Some t /\ back t (w_heap w) = Some p /\
    assign p 9 (w_heap w) = Some h' /\ reads_as (World h' (w_traces w)) 0 [1; 9] /\ reads_as (World h' (w_traces w)) 1 [1; 2].
Proof.
  destruct (back_exclusive_after_push (take 4 demo_ops) _ 0 [1] 3 9 eq_refl eq_refl eq_refl) as [(w & t & p & h' & Hw & Ht & Hp & Hh & Hr) _].
  exists w, t, p, h'. split; [exact Hw|]. split; [exact Ht|]. split; [exact Hp|]. split; [exact Hh|]. split; apply Hr; reflexivity.
Defined.
