(* ===== verification/SliceTrace.v ===== *)
(** * Execution traces ([include/ics/PrecondSliceTrace.h], [lib/ICS/PrecondSliceTrace.cpp])

    The entries of a trace of symbolic execution and the operations that append
    them.  The kind of an entry, the class of its constraint and two flags share
    one 32-bit word; reading them back gives what was stored.  A control
    transfer is merged into the assertion before it. *)

From stdpp Require Import base gmap list.
From Stdlib Require Import ZArith Lia.
From S2P Require Import Prelude HbGraph BitVec Expr ForkTrace.

(** ** Fork classes ([include/klee/Constants.h]) *)

Inductive ForkClass :=
  | KLEE_FORK_BRANCH
  | KLEE_FORK_FAULTINJ
  | KLEE_FORK_RESOLVE_FN_POINTER
  | KLEE_FORK_SCHEDULE
  | KLEE_FORK_SCHEDULE_MULTI
  | KLEE_FORK_INTERNAL
  | KLEE_FORK_ASSUME
  | KLEE_FORK_CONVERTED_BRANCH
  | KLEE_FORK_INVARIANT_INTERNAL
  | KLEE_FORK_INVARIANT_INTERNAL_HIDDEN
  | KLEE_FORK_INVARIANT_INPUT
  | KLEE_FORK_CONCRETIZE_FP
  | KLEE_FORK_CONCRETIZE_ADDR_ON_SOLVER_FAILURE
  | KLEE_FORK_CONCRETIZE_ADDR_ON_BIG_SYMBOLIC_ARRAY
  | KLEE_FORK_POINTER_ALIASING
  | KLEE_FORK_BOUNDS_CHECK.

#[export] Instance ForkClass_eq_dec : EqDecision ForkClass.
Proof. solve_decision. Defined.

Definition ForkClasses : list ForkClass :=
  [KLEE_FORK_BRANCH; KLEE_FORK_FAULTINJ; KLEE_FORK_RESOLVE_FN_POINTER; KLEE_FORK_SCHEDULE; KLEE_FORK_SCHEDULE_MULTI;
   KLEE_FORK_INTERNAL; KLEE_FORK_ASSUME; KLEE_FORK_CONVERTED_BRANCH; KLEE_FORK_INVARIANT_INTERNAL;
   KLEE_FORK_INVARIANT_INTERNAL_HIDDEN; KLEE_FORK_INVARIANT_INPUT; KLEE_FORK_CONCRETIZE_FP;
   KLEE_FORK_CONCRETIZE_ADDR_ON_SOLVER_FAILURE; KLEE_FORK_CONCRETIZE_ADDR_ON_BIG_SYMBOLIC_ARRAY;
   KLEE_FORK_POINTER_ALIASING; KLEE_FORK_BOUNDS_CHECK].

Definition KLEE_FORK_FIRST_NON_BRANCHING : Z := 20.

Definition fc_value (fc : ForkClass) : Z :=
  match fc with
  | KLEE_FORK_BRANCH => 0
  | KLEE_FORK_FAULTINJ => 1
  | KLEE_FORK_RESOLVE_FN_POINTER => 3
  | KLEE_FORK_SCHEDULE => 4
  | KLEE_FORK_SCHEDULE_MULTI => 5
  | KLEE_FORK_INTERNAL => 6
  | KLEE_FORK_ASSUME => KLEE_FORK_FIRST_NON_BRANCHING
  | KLEE_FORK_CONVERTED_BRANCH => 21
  | KLEE_FORK_INVARIANT_INTERNAL => 22
  | KLEE_FORK_INVARIANT_INTERNAL_HIDDEN => 23
  | KLEE_FORK_INVARIANT_INPUT => 24
  | KLEE_FORK_CONCRETIZE_FP => 25
  | KLEE_FORK_CONCRETIZE_ADDR_ON_SOLVER_FAILURE => 26
  | KLEE_FORK_CONCRETIZE_ADDR_ON_BIG_SYMBOLIC_ARRAY => 27
  | KLEE_FORK_POINTER_ALIASING => 28
  | KLEE_FORK_BOUNDS_CHECK => 29
  end.

Definition IsBranchingForkClass (fc : ForkClass) : bool := fc_value fc <? KLEE_FORK_FIRST_NON_BRANCHING.
Definition IsBranchingOrInputForkClass (fc : ForkClass) : bool :=
  IsBranchingForkClass fc || bool_decide (fc = KLEE_FORK_INVARIANT_INPUT).
Definition IsNonBranchingForkClass (fc : ForkClass) : bool := KLEE_FORK_FIRST_NON_BRANCHING <=? fc_value fc.
Definition IsConcretizationForkClass (fc : ForkClass) : bool :=
  (fc_value KLEE_FORK_CONCRETIZE_FP <=? fc_value fc) &&
  (fc_value fc <=? fc_value KLEE_FORK_CONCRETIZE_ADDR_ON_BIG_SYMBOLIC_ARRAY).

(** ** Kinds of entries *)

Inductive Kind :=
  | Assertion
  | Branch
  | Call
  | Ret
  | CtxSwitch
  | Load
  | Store
  | Allocation
  | RegionMarker
  | ResolvedSymbolicPtr.

#[export] Instance Kind_eq_dec : EqDecision Kind.
Proof. solve_decision. Defined.

Definition Kinds : list Kind :=
  [Assertion; Branch; Call; Ret; CtxSwitch; Load; Store; Allocation; RegionMarker; ResolvedSymbolicPtr].

Definition kind_value (k : Kind) : Z :=
  match k with
  | Assertion => 0x10
  | Branch => 0x20
  | Call => 0x21
  | Ret => 0x22
  | CtxSwitch => 0x23
  | Load => 0x40
  | Store => 0x41
  | Allocation => 0x80
  | RegionMarker => 0x100
  | ResolvedSymbolicPtr => 0x200
  end.

Definition IsControlTransfer (k : Kind) : bool := negb (Z.land (kind_value k) 0x20 =? 0).
Definition IsMemoryAccess (k : Kind) : bool := negb (Z.land (kind_value k) 0x40 =? 0).

(** ** The type word *)

Definition UseFlippedConditions : Z := Z.shiftl 1 31.
Definition HasFlippableCtxSwitch : Z := Z.shiftl 1 30.
Definition ForkClassMask : Z := Z.shiftl 1 8 - 1.
Definition ForkClassShift : Z := 12.
Definition KindMask : Z := Z.shiftl 1 ForkClassShift - 1.

Definition MakeType (kind : Kind) (forkclass : ForkClass) : Z :=
  Z.lor (kind_value kind) (Z.shiftl (fc_value forkclass) ForkClassShift).

Definition ChangeTypeKind (type : Z) (newkind : Kind) : Z :=
  Z.lor (kind_value newkind) (Z.land type (u32 (Z.lnot KindMask))).

Definition ChangeTypeForkClass (type : Z) (newclass : ForkClass) : Z :=
  Z.lor (Z.shiftl (fc_value newclass) ForkClassShift)
    (Z.land type (u32 (Z.lnot (Z.shiftl ForkClassMask ForkClassShift)))).

(** The casts back to the enumerations. *)
Definition type_kind (type : Z) : option Kind :=
  List.find (fun k => kind_value k =? Z.land type KindMask) Kinds.
Definition type_forkclass (type : Z) : option ForkClass :=
  List.find (fun fc => fc_value fc =? Z.land (Z.shiftr type ForkClassShift) ForkClassMask) ForkClasses.

(** ** Entries *)

(** Pointers to instructions, memory objects and basic blocks are addresses,
    [0] is null.  A field that the constructor leaves uninitialised is [None]. *)
Record Entry := MkEntry {
  e_type : Z;
  e_tuid : ThreadUid;
  e_kinst : Z;
  e_e : option expr;
  e_nbytes : option expr;
  e_mo : option Z;
  e_number : option Z;
  e_targetTuid : ThreadUid;
  e_targetKinst : Z;
  e_ptrResolution : option Z;
  e_flippedConditions : list (expr * Z);
  e_otherCtxSwitches : list ThreadUid;
}.

Definition set_type (ty : Z) (e : Entry) : Entry :=
  MkEntry ty (e_tuid e) (e_kinst e) (e_e e) (e_nbytes e) (e_mo e) (e_number e) (e_targetTuid e) (e_targetKinst e)
    (e_ptrResolution e) (e_flippedConditions e) (e_otherCtxSwitches e).
Definition set_place (t : ThreadUid) (ki : Z) (e : Entry) : Entry :=
  MkEntry (e_type e) t ki (e_e e) (e_nbytes e) (e_mo e) (e_number e) (e_targetTuid e) (e_targetKinst e)
    (e_ptrResolution e) (e_flippedConditions e) (e_otherCtxSwitches e).
Definition set_e (c : option expr) (e : Entry) : Entry :=
  MkEntry (e_type e) (e_tuid e) (e_kinst e) c (e_nbytes e) (e_mo e) (e_number e) (e_targetTuid e) (e_targetKinst e)
    (e_ptrResolution e) (e_flippedConditions e) (e_otherCtxSwitches e).
Definition set_number (n : Z) (e : Entry) : Entry :=
  MkEntry (e_type e) (e_tuid e) (e_kinst e) (e_e e) (e_nbytes e) (e_mo e) (Some n) (e_targetTuid e) (e_targetKinst e)
    (e_ptrResolution e) (e_flippedConditions e) (e_otherCtxSwitches e).
Definition set_memory (mo : Z) (nbytes : option expr) (e : Entry) : Entry :=
  MkEntry (e_type e) (e_tuid e) (e_kinst e) (e_e e) nbytes (Some mo) (e_number e) (e_targetTuid e) (e_targetKinst e)
    (e_ptrResolution e) (e_flippedConditions e) (e_otherCtxSwitches e).
Definition set_target (t : ThreadUid) (ki : Z) (e : Entry) : Entry :=
  MkEntry (e_type e) (e_tuid e) (e_kinst e) (e_e e) (e_nbytes e) (e_mo e) (e_number e) t ki
    (e_ptrResolution e) (e_flippedConditions e) (e_otherCtxSwitches e).
Definition set_resolution (r : Z) (e : Entry) : Entry :=
  MkEntry (e_type e) (e_tuid e) (e_kinst e) (e_e e) (e_nbytes e) (e_mo e) (e_number e) (e_targetTuid e) (e_targetKinst e)
    (Some r) (e_flippedConditions e) (e_otherCtxSwitches e).
Definition set_flips (f : list (expr * Z)) (e : Entry) : Entry :=
  MkEntry (e_type e) (e_tuid e) (e_kinst e) (e_e e) (e_nbytes e) (e_mo e) (e_number e) (e_targetTuid e) (e_targetKinst e)
    (e_ptrResolution e) f (e_otherCtxSwitches e).
Definition set_switches (s : list ThreadUid) (e : Entry) : Entry :=
  MkEntry (e_type e) (e_tuid e) (e_kinst e) (e_e e) (e_nbytes e) (e_mo e) (e_number e) (e_targetTuid e) (e_targetKinst e)
    (e_ptrResolution e) (e_flippedConditions e) s.

(** What an entry is made from: the running thread and its instruction, the
    largest node id of the happens-before graph, and the instruction that a
    given thread executed last. *)
Record kstate_view := KState {
  crtThreadUid : ThreadUid;
  prevPC : Z;
  maxNodeId : Z;
  thread_prevPC : ThreadUid -> option Z;
}.

Definition Entry_new (kind : Kind) (forkclass : ForkClass) (ks : kstate_view) : Entry :=
  MkEntry (MakeType kind forkclass) (crtThreadUid ks) (prevPC ks) None None None None (Tuid 0 0) 0 None [] [].

Definition kind (e : Entry) : option Kind := type_kind (e_type e).
Definition forkclass (e : Entry) : option ForkClass := type_forkclass (e_type e).

Definition mightHaveCondition (e : Entry) : bool :=
  match kind e with Some (Assertion | Branch | Call) => true | _ => false end.
Definition condition (e : Entry) : option (option expr) := if mightHaveCondition e then Some (e_e e) else None.
Definition hasCondition (e : Entry) : bool :=
  mightHaveCondition e && match e_e e with Some _ => true | None => false end.
Definition useFlippedConditions (e : Entry) : option bool :=
  if mightHaveCondition e then Some (negb (Z.land (e_type e) UseFlippedConditions =? 0)) else None.
Definition flippedConditions (e : Entry) : option (list (expr * Z)) :=
  if mightHaveCondition e then Some (e_flippedConditions e) else None.
Definition maxHbNodeId (e : Entry) : option Z := if mightHaveCondition e then e_number e else None.
Definition targetTuid (e : Entry) : option ThreadUid :=
  k ← kind e; if IsControlTransfer k then Some (e_targetTuid e) else None.
Definition targetKinst (e : Entry) : option Z :=
  k ← kind e; if IsControlTransfer k then Some (e_targetKinst e) else None.
Definition otherCtxSwitches (e : Entry) : option (list ThreadUid) :=
  match kind e with Some CtxSwitch => Some (e_otherCtxSwitches e) | _ => None end.
Definition hasOtherCtxSwitches (e : Entry) : bool := negb (Z.land (e_type e) HasFlippableCtxSwitch =? 0).
Definition memoryobject (e : Entry) : option Z :=
  k ← kind e; if IsMemoryAccess k || bool_decide (k = Allocation) then e_mo e else None.
Definition offset (e : Entry) : option (option expr) :=
  k ← kind e; if IsMemoryAccess k then Some (e_e e) else None.
Definition nbytes (e : Entry) : option (option expr) :=
  k ← kind e; if IsMemoryAccess k then Some (e_nbytes e) else None.
Definition ptrResolution (e : Entry) : option Z :=
  match kind e with Some ResolvedSymbolicPtr => e_ptrResolution e | _ => None end.

Definition convertBranchToAssertion (e : Entry) : option Entry :=
  match kind e, e_e e with
  | Some Branch, Some _ =>
      let ty := ChangeTypeForkClass (ChangeTypeKind (e_type e) Assertion) KLEE_FORK_CONVERTED_BRANCH in
      Some (set_target (e_targetTuid e) 0 (set_type ty e))
  | _, _ => None
  end.

(** ** Appending entries *)

Section push.
Context (ks : kstate_view) (t : trace) (h : heap Entry).

Definition pushEntry (e : Entry) : option (trace * heap Entry) := push_back e t h.

Definition pushAssertion (cond : option expr) (fc : ForkClass) : option (trace * heap Entry) :=
  pushEntry (set_number (maxNodeId ks) (set_e cond (Entry_new Assertion fc ks))).

(** The assertion that a control transfer completes. *)
Definition merges (k : Kind) (e : Entry) : bool :=
  bool_decide (k = Call \/ k = Branch) && bool_decide (kind e = Some Assertion) &&
  bool_decide (e_tuid e = crtThreadUid ks) && (e_kinst e =? prevPC ks) &&
  negb (bool_decide (forkclass e = Some KLEE_FORK_INVARIANT_INPUT)).

Definition merged (tt : ThreadUid) (tk : Z) (k : Kind) (e : Entry) : Entry :=
  set_number (maxNodeId ks) (set_target tt tk (set_type (ChangeTypeKind (e_type e) k) e)).

Definition transfer (tt : ThreadUid) (tk : Z) (k : Kind) : Entry :=
  set_number (maxNodeId ks) (set_target tt tk (Entry_new k KLEE_FORK_BRANCH ks)).

(** The element that a reference points to. *)
Definition element_of (p : nat * nat) : option Entry := d ← node_data h p.1; d !! p.2.

Definition pushControlTransfer (tt : ThreadUid) (tk : Z) (k : Kind) : option (trace * heap Entry) :=
  if bool_decide (k = CtxSwitch) && bool_decide (tt = crtThreadUid ks) then None
  else if empty t || negb (bool_decide (k = Call \/ k = Branch)) then pushEntry (transfer tt tk k)
  else
    p ← back t h;
    e ← element_of p;
    if merges k e then h ← assign p (merged tt tk k e) h; Some (t, h) else pushEntry (transfer tt tk k).

Definition pushMemoryAccess (mo : Z) (off nb : option expr) (k : Kind) : option (trace * heap Entry) :=
  match k with
  | Load | Store => pushEntry (set_memory mo nb (set_e off (Entry_new k KLEE_FORK_BRANCH ks)))
  | _ => None
  end.

Definition pushAllocation (mo : Z) : option (trace * heap Entry) :=
  pushEntry (set_memory mo None (Entry_new Allocation KLEE_FORK_BRANCH ks)).

Definition pushRegionMarker (tu : ThreadUid) : option (trace * heap Entry) :=
  ki ← thread_prevPC ks tu; pushEntry (set_place tu ki (Entry_new RegionMarker KLEE_FORK_BRANCH ks)).

Definition pushResolvedSymbolicPtr (res : Z) : option (trace * heap Entry) :=
  pushEntry (set_resolution res (Entry_new ResolvedSymbolicPtr KLEE_FORK_POINTER_ALIASING ks)).

(** A change of [back()], which must be of one of the kinds [ok]. *)
Definition change_back (ok : Entry -> bool) (f : Entry -> Entry) : option (trace * heap Entry) :=
  if empty t then None
  else
    p ← back t h;
    e ← element_of p;
    if ok e then h ← assign p (f e) h; Some (t, h) else None.

Definition assertion_or_branch (e : Entry) : bool := bool_decide (kind e = Some Assertion \/ kind e = Some Branch).

Definition attachFlippedConditions (f : list (expr * Z)) : option (trace * heap Entry) :=
  change_back assertion_or_branch (fun e => set_type (Z.lor (e_type e) UseFlippedConditions) (set_flips f e)).

Definition attachNewCondition (cond : option expr) : option (trace * heap Entry) :=
  change_back assertion_or_branch (set_e cond).

Definition attachOtherCtxSwitches (s : list ThreadUid) : option (trace * heap Entry) :=
  change_back (fun e => bool_decide (kind e = Some CtxSwitch) && bool_decide (e_targetTuid e ∉ s))
    (fun e => set_type (Z.lor (e_type e) HasFlippableCtxSwitch) (set_switches s e)).

End push.

(** ** The events that are logged ([PrecondSliceTraceLogger], [SearchStrategy.cpp]) *)

Inductive ControlFlowEvent := STEP | BRANCH | CALL | RETURN | UNWIND | CONTEXT_SWITCH.

#[export] Instance ControlFlowEvent_eq_dec : EqDecision ControlFlowEvent.
Proof. solve_decision. Defined.

(** The kind of the entry, unless the event is not logged; [exCall] tells that
    the event belongs to a call of external code. *)
Definition event_kind (event : ControlFlowEvent) (exCall : bool) : option Kind :=
  if bool_decide (event = STEP) then None
  else if bool_decide (event = CALL) && exCall then None
  else
    let event := if bool_decide (event = UNWIND) then RETURN else event in
    let event := if bool_decide (event = RETURN) && exCall then BRANCH else event in
    match event with
    | BRANCH => Some Branch
    | CALL => Some Call
    | RETURN => Some Ret
    | CONTEXT_SWITCH => Some CtxSwitch
    | STEP | UNWIND => None
    end.

(** ** The type word holds four independent fields *)

Definition type_word (k : Kind) (fc : ForkClass) (flips switches : bool) : Z :=
  let w := MakeType k fc in
  let w := if flips then Z.lor w UseFlippedConditions else w in
  if switches then Z.lor w HasFlippableCtxSwitch else w.

Definition bools : list bool := [false; true].

Lemma in_Kinds k : k ∈ Kinds.
Proof. destruct k; set_solver. Qed.
Lemma in_ForkClasses fc : fc ∈ ForkClasses.
Proof. destruct fc; set_solver. Qed.
Lemma in_bools b : b ∈ bools.
Proof. destruct b; set_solver. Qed.

(** A decidable property of all fields, by enumeration. *)
Lemma all_words (P : Kind -> ForkClass -> bool -> bool -> bool) :
  forallb (fun k => forallb (fun fc => forallb (fun a => forallb (P k fc a) bools) bools) ForkClasses) Kinds = true ->
  forall k fc a b, P k fc a b = true.
Proof.
  intros H k fc a b. rewrite !forallb_forall in H. specialize (H k (proj1 (list_elem_of_In _ _) (in_Kinds k))).
  rewrite forallb_forall in H. specialize (H fc (proj1 (list_elem_of_In _ _) (in_ForkClasses fc))).
  rewrite forallb_forall in H. specialize (H a (proj1 (list_elem_of_In _ _) (in_bools a))).
  rewrite forallb_forall in H. apply H, list_elem_of_In, in_bools.
Qed.

Lemma word_read k fc a b :
  type_kind (type_word k fc a b) = Some k /\ type_forkclass (type_word k fc a b) = Some fc /\
  negb (Z.land (type_word k fc a b) UseFlippedConditions =? 0) = a /\
  negb (Z.land (type_word k fc a b) HasFlippableCtxSwitch =? 0) = b /\ 0 <= type_word k fc a b < 2 ^ 32.
Proof.
  enough (bool_decide (type_kind (type_word k fc a b) = Some k) && bool_decide (type_forkclass (type_word k fc a b) = Some fc) &&
    bool_decide (negb (Z.land (type_word k fc a b) UseFlippedConditions =? 0) = a) &&
    bool_decide (negb (Z.land (type_word k fc a b) HasFlippableCtxSwitch =? 0) = b) &&
    (0 <=? type_word k fc a b) && (type_word k fc a b <? 2 ^ 32) = true) as H.
  { rewrite !andb_true_iff, !bool_decide_eq_true in H. destruct H as [[[[[? ?] ?] ?] ?] ?]. split_and!; try done; zbool. }
  revert k fc a b. apply all_words. vm_compute. reflexivity.
Qed.

Lemma word_kind k fc a b k' : ChangeTypeKind (type_word k fc a b) k' = type_word k' fc a b.
Proof.
  enough (forallb (fun k' => ChangeTypeKind (type_word k fc a b) k' =? type_word k' fc a b) Kinds = true) as H.
  { rewrite forallb_forall in H. apply Z.eqb_eq, H, list_elem_of_In, in_Kinds. }
  revert k fc a b. apply all_words. vm_compute. reflexivity.
Qed.

Lemma word_forkclass k fc a b fc' : ChangeTypeForkClass (type_word k fc a b) fc' = type_word k fc' a b.
Proof.
  enough (forallb (fun fc' => ChangeTypeForkClass (type_word k fc a b) fc' =? type_word k fc' a b) ForkClasses = true) as H.
  { rewrite forallb_forall in H. apply Z.eqb_eq, H, list_elem_of_In, in_ForkClasses. }
  revert k fc a b. apply all_words. vm_compute. reflexivity.
Qed.

Lemma word_flags k fc a b :
  Z.lor (type_word k fc a b) UseFlippedConditions = type_word k fc true b /\
  Z.lor (type_word k fc a b) HasFlippableCtxSwitch = type_word k fc a true.
Proof.
  enough ((Z.lor (type_word k fc a b) UseFlippedConditions =? type_word k fc true b) &&
      (Z.lor (type_word k fc a b) HasFlippableCtxSwitch =? type_word k fc a true) = true) as H.
  { apply andb_prop in H as [H1%Z.eqb_eq H2%Z.eqb_eq]. done. }
  revert k fc a b. apply all_words. vm_compute. reflexivity.
Qed.

(** The kind, the fork class and the two flags of an entry are packed into
    32 bits without interfering: each is read back as stored, and changing the
    kind or the class or setting a flag changes only that field. *)
Theorem type_word_roundtrip k fc a b k' fc' :
  MakeType k fc = type_word k fc false false /\ 0 <= type_word k fc a b < 2 ^ 32 /\
  type_kind (type_word k fc a b) = Some k /\ type_forkclass (type_word k fc a b) = Some fc /\
  negb (Z.land (type_word k fc a b) UseFlippedConditions =? 0) = a /\
  negb (Z.land (type_word k fc a b) HasFlippableCtxSwitch =? 0) = b /\
  ChangeTypeKind (type_word k fc a b) k' = type_word k' fc a b /\
  ChangeTypeForkClass (type_word k fc a b) fc' = type_word k fc' a b /\
  Z.lor (type_word k fc a b) UseFlippedConditions = type_word k fc true b /\
  Z.lor (type_word k fc a b) HasFlippableCtxSwitch = type_word k fc a true.
Proof.
  destruct (word_read k fc a b) as (? & ? & ? & ? & ?). destruct (word_flags k fc a b).
  rewrite word_kind, word_forkclass. split_and!; try done; lia.
Qed.

(** ** Appending a control transfer *)

Lemma represents_push (w : world Entry) ls k t l e :
  represents w ls -> room w ls -> live w k = Some t -> ls !! k = Some (Some l) ->
  exists t' h', push_back e t (w_heap w) = Some (t', h') /\
    represents (World h' (<[k := Some t']> (w_traces w))) (<[k := Some (l ++ [e])]> ls).
Proof.
  intros Hrep Hroom Hk Hl. destruct (slot_list w ls k t Hrep Hk) as (l2 & Hl2 & Hok). assert (l2 = l) as -> by congruence.
  by apply (push_refines w ls k t Hrep Hroom Hk).
Qed.

(** The list that [pushControlTransfer] leaves. *)
Definition after_transfer (ks : kstate_view) (tt : ThreadUid) (tk : Z) (k : Kind) (l : list Entry) (e : Entry) : list Entry :=
  if merges ks k e then l ++ [merged ks tt tk k e] else l ++ [e; transfer ks tt tk k].

Lemma merged_fields ks tt tk k e kd fc a b :
  e_type e = type_word kd fc a b ->
  kind (merged ks tt tk k e) = Some k /\ forkclass (merged ks tt tk k e) = Some fc /\ e_e (merged ks tt tk k e) = e_e e /\
  e_targetTuid (merged ks tt tk k e) = tt /\ e_targetKinst (merged ks tt tk k e) = tk.
Proof.
  intros E. unfold kind, forkclass, merged. cbn. rewrite E, word_kind. by destruct (word_read k fc a b) as (? & ? & _).
Qed.

Lemma pushControlTransfer_represents ks (w : world Entry) ls k l e tt tk kd :
  represents w ls -> room w ls -> extended w k -> ls !! k = Some (Some (l ++ [e])) -> (kd = CtxSwitch -> tt <> crtThreadUid ks) ->
  exists t t' h', live w k = Some t /\ pushControlTransfer ks t (w_heap w) tt tk kd = Some (t', h') /\
    represents (World h' (<[k := Some t']> (w_traces w))) (<[k := Some (after_transfer ks tt tk kd l e)]> ls).
Proof.
  intros Hrep Hroom Hext Hl Hcs. destruct (back_assign w ls k l e (merged ks tt tk kd e) Hrep Hext Hl) as (t & p & h1 & Hk & Hb & He & Ha & Hrep1).
  destruct (represents_push w ls k t (l ++ [e]) (transfer ks tt tk kd) Hrep Hroom Hk Hl) as (t' & h2 & Hp & Hrep2). rewrite <- app_assoc in Hrep2.
  assert (empty t = false) as Hne.
  { destruct (slot_list w ls k t Hrep Hk) as (l2 & Hl2 & Hok). assert (l2 = l ++ [e]) as -> by congruence. unfold empty.
    rewrite (ok_size _ _ _ Hok), length_app. cbn. apply Z.eqb_neq. lia. }
  exists t. unfold pushControlTransfer, after_transfer, pushEntry, element_of. rewrite Hne, Hb. cbn [orb mbind option_bind]. rewrite He. cbn [mbind option_bind].
  assert (bool_decide (kd = CtxSwitch) && bool_decide (tt = crtThreadUid ks) = false) as ->.
  { destruct (decide (kd = CtxSwitch)); [rewrite (bool_decide_false (tt = _)) by auto; apply andb_false_r|by rewrite bool_decide_false]. }
  destruct (merges ks kd e) eqn:Hm.
  - assert (bool_decide (kd = Call \/ kd = Branch) = true) as ->. { unfold merges in Hm. apply andb_prop in Hm as [Hm _]. do 3 apply andb_prop in Hm as [Hm _]. done. }
    rewrite Ha. cbn. exists t, h1. split; [done|]. split; [done|]. apply live_lookup in Hk. by rewrite list_insert_id.
  - exists t', h2. split; [done|]. split; [|done]. by destruct (bool_decide _).
Qed.

(** C26: Take a trace to which an entry was pushed since it was last copied
    ([extended]), with reference counts and lengths in range ([room]);
    a context switch goes to another thread.  A branch or call that the running thread executes right after an
    assertion of the same instruction is merged into it, unless the assertion is
    one of an input invariant ([KLEE_FORK_INVARIANT_INPUT]): the trace ends in one
    entry with the condition and fork class of the assertion and the target of
    the transfer.  Otherwise the transfer is appended.  No other trace changes. *)
Theorem control_transfer_merges ks (w : world Entry) ls k l e kd fc a b tt tk kd' :
  represents w ls -> room w ls -> extended w k -> ls !! k = Some (Some (l ++ [e])) -> e_type e = type_word kd fc a b ->
  (kd' = CtxSwitch -> tt <> crtThreadUid ks) ->
  exists t t' h' e', live w k = Some t /\ pushControlTransfer ks t (w_heap w) tt tk kd' = Some (t', h') /\
    kind e' = Some kd' /\ e_targetTuid e' = tt /\ e_targetKinst e' = tk /\ e_number e' = Some (maxNodeId ks) /\
    let l' :=
      if bool_decide (kd' = Call \/ kd' = Branch) && bool_decide (kd = Assertion) && bool_decide (e_tuid e = crtThreadUid ks) &&
         (e_kinst e =? prevPC ks) && negb (bool_decide (fc = KLEE_FORK_INVARIANT_INPUT))
      then l ++ [e'] else l ++ [e; e'] in
    (length l' = S (length l) -> e_e e' = e_e e /\ forkclass e' = Some fc) /\
    forall j lj, mjoin (<[k := Some l']> ls !! j) = Some lj -> reads_as (World h' (<[k := Some t']> (w_traces w))) j lj.
Proof.
  intros Hrep Hroom Hext Hl Hty Hcs. destruct (pushControlTransfer_represents ks w ls k l e tt tk kd' Hrep Hroom Hext Hl Hcs) as (t & t' & h' & Hk & Hp & Hrep').
  destruct (word_read kd fc a b) as (Hkd & Hfc & _). unfold after_transfer, merges, kind, forkclass in Hrep'. rewrite Hty, Hkd, Hfc in Hrep'.
  rewrite (bool_decide_ext (Some kd = Some Assertion) (kd = Assertion)) in Hrep' by naive_solver.
  rewrite (bool_decide_ext (Some fc = Some KLEE_FORK_INVARIANT_INPUT) (fc = KLEE_FORK_INVARIANT_INPUT)) in Hrep' by naive_solver.
  exists t, t', h'. cbv zeta. destruct (_ && negb _) in Hrep' |- *.
  - destruct (merged_fields ks tt tk kd' e kd fc a b Hty) as (? & ? & ? & ? & ?). exists (merged ks tt tk kd' e).
    split_and!; try done. intros j lj Hj. by apply (represents_reads _ _ _ _ Hrep').
  - exists (transfer ks tt tk kd'). split_and!; try done.
    + unfold kind. cbn. apply (proj1 (word_read kd' KLEE_FORK_BRANCH false false)).
    + rewrite length_app. cbn. lia.
    + intros j lj Hj. by apply (represents_reads _ _ _ _ Hrep').
Qed.

(** ** Example: a thread asserts a condition and branches on it *)

Definition demo_ks : kstate_view := KState (Tuid 1 2) 40 7 (fun _ => None).
Definition demo_cond : expr := Cmp Eq (Constant Int8 0) (Constant Int8 0).
Definition demo_assertion : Entry := set_number 7 (set_e (Some demo_cond) (Entry_new Assertion KLEE_FORK_BRANCH demo_ks)).

Lemma control_transfer_merges_witness :
  exists (w : world Entry) t t' h' e', run [New; Push 0 demo_assertion] no_traces = Some w /\ live w 0 = Some t /\
    pushControlTransfer demo_ks t (w_heap w) (Tuid 1 2) 44 Branch = Some (t', h') /\ kind e' = Some Branch /\ e_e e' = Some demo_cond /\
    reads_as (World h' (<[0%nat := Some t']> (w_traces w))) 0 [e'].
Proof.
  destruct (run_represents [New; Push 0 demo_assertion] no_traces [] _ 0 no_traces_represents ltac:(by split; [|constructor]) eq_refl eq_refl) as (w & Hw & Hrep).
  assert (extended w 0) as Hext by (vm_compute in Hw; injection Hw as <-; by eexists _, [], 0%nat, [], demo_assertion).
  assert (bounded 2 [Some [demo_assertion]]) as Hb by (split; [cbn; lia|repeat constructor]).
  destruct (control_transfer_merges demo_ks w _ 0 [] demo_assertion Assertion KLEE_FORK_BRANCH false false (Tuid 1 2) 44 Branch Hrep
    (bounded_room _ _ _ Hrep Hb eq_refl) Hext eq_refl eq_refl ltac:(done)) as (t & t' & h' & e' & Hk & Hp & Hkd & _ & _ & _ & Hm & Hr).
  exists w, t, t', h', e'. split; [exact Hw|]. split; [exact Hk|]. split; [exact Hp|]. split; [exact Hkd|].
  split; [apply Hm; reflexivity|]. apply Hr. reflexivity.
Defined.
