(* ===== verification/Solver.v ===== *)
(** * Solvers ([lib/Solver/Solver.cpp], [include/klee/Solver.h], [SolverImpl.h])

    The interface that every solver implements, what it promises, and the
    front end that the executor uses: queries for truth and validity, and the
    binary searches of [getRange].  A solver may keep a state (a cache) and may
    fail; a failed assertion is [Stopped]. *)

From stdpp Require Import base list.
From Stdlib Require Import ZArith Lia.
From S2P Require Import Prelude BitVec Expr ExprCreate ExprSound ExprBits ExprVisit Constraints.

(** ** Queries *)

Record Query := MkQuery { q_constraints : ConstraintManager; q_expr : expr }.

Definition withExpr (e : expr) (q : Query) : Query := MkQuery (q_constraints q) e.
Definition withFalse (q : Query) : Query := withExpr false_ q.
Definition negateExpr (q : Query) : Query := withExpr (createIsZero (q_expr q)) q.

Inductive Validity := VTrue | VFalse | VUnknown.

(** An assignment of bytes of arrays that a solver returns. *)
Definition bindings := list (array * Z * Z).

(** ** The interface *)

Inductive result (A : Type) :=
  | Success (a : A)
  | Failure
  | Stopped.
Arguments Success {A}. Arguments Failure {A}. Arguments Stopped {A}.

(** A computation over the solver's state. *)
Definition SM (S A : Type) := S -> result A * S.

Section monad.
Context {S : Type}.

Definition sret {A} (a : A) : SM S A := fun s => (Success a, s).
Definition sstop {A} : SM S A := fun s => (Stopped, s).
Definition sbind {A B} (m : SM S A) (f : A -> SM S B) : SM S B :=
  fun s =>
    match m s with
    | (Success a, s) => f a s
    | (Failure, s) => (Failure, s)
    | (Stopped, s) => (Stopped, s)
    end.

(** [assert(success)] *)
Definition must {A} (m : SM S A) : SM S A :=
  fun s => match m s with (Failure, s) => (Stopped, s) | r => r end.

End monad.

Declare Scope solver_scope.
Delimit Scope solver_scope with solver.
Notation "x <- m ; k" := (sbind m (fun x => k)) (at level 100, m at next level, right associativity) : solver_scope.
Open Scope solver_scope.

Record SolverImpl (S : Type) := MkSolver {
  computeTruth : Query -> SM S bool;
  computeValidity : Query -> SM S Validity;
  computeValue : Query -> SM S expr;
  computeInitialValues : Query -> list array -> SM S (option bindings);
}.
Arguments MkSolver {S}. Arguments computeTruth {S}. Arguments computeValidity {S}.
Arguments computeValue {S}. Arguments computeInitialValues {S}.

(** [SolverImpl::computeValidity], which a solver may override. *)
Definition default_computeValidity {S} (truth : Query -> SM S bool) (q : Query) : SM S Validity :=
  isTrue <- truth q;
  if (isTrue : bool) then sret VTrue
  else isFalse <- truth (negateExpr q); sret (if (isFalse : bool) then VFalse else VUnknown).

(** ** The front end *)

Section front.
Context {S : Type} (impl : SolverImpl S).

Definition constant_value (e : expr) : option Z := match e with Constant _ v => Some v | _ => None end.
Definition is_true_constant (e : expr) : option bool := match e with Constant _ v => Some (v =? 1) | _ => None end.

Definition evaluate (q : Query) : SM S Validity :=
  if getWidth (q_expr q) =? Bool then
    match is_true_constant (q_expr q) with
    | Some b => sret (if b then VTrue else VFalse)
    | None => computeValidity impl q
    end
  else sstop.

Definition mustBeTrue (q : Query) : SM S bool :=
  if getWidth (q_expr q) =? Bool then
    match is_true_constant (q_expr q) with
    | Some b => sret b
    | None => computeTruth impl q
    end
  else sstop.

Definition mustBeFalse (q : Query) : SM S bool := mustBeTrue (negateExpr q).
Definition mayBeTrue (q : Query) : SM S bool := res <- mustBeFalse q; sret (negb res).
Definition mayBeFalse (q : Query) : SM S bool := res <- mustBeTrue q; sret (negb res).

Definition getValue (q : Query) : SM S expr :=
  match q_expr q with
  | Constant w v => sret (Constant w v)
  | _ => tmp <- computeValue impl q; match tmp with Constant w v => sret (Constant w v) | _ => sstop end
  end.

Definition getInitialValues (q : Query) (objects : list array) : SM S bindings :=
  fun s =>
    match computeInitialValues impl q objects s with
    | (Success (Some b), s) => (Success b, s)
    | (Success None, s) => (Failure, s)
    | (Failure, s) => (Failure, s)
    | (Stopped, s) => (Stopped, s)
    end.

(** A binary search of [getRange]: [while (lo < hi)] with a test at the middle. *)
Fixpoint search (fuel : nat) (test : Z -> SM S bool) (lo hi : Z) : SM S Z :=
  if lo <? hi then
    match fuel with
    | O => sstop
    | Datatypes.S fuel =>
        let mid := u64 (lo + u64 (hi - lo) / 2) in
        res <- must (test mid);
        if (res : bool) then search fuel test lo mid else search fuel test (u64 (mid + 1)) hi
    end
  else sret lo.

Definition maxValueOfNBits (n : Z) : Z := if n =? 0 then 0 else Z.shiftr (2 ^ 64 - 1) (64 - n).

(** The interval is halved in each round, so its logarithm bounds the rounds. *)
Definition search_fuel : nat := 65.

Definition getRange (q : Query) : SM S (expr * expr) :=
  let e := q_expr q in
  let width := getWidth e in
  let pair lo hi := sret (Constant width lo, Constant width hi) in
  if width =? 1 then
    r <- must (evaluate q);
    match r with
    | VTrue => pair 1 1
    | VFalse => pair 0 0
    | VUnknown => pair 0 1
    end
  else
    match constant_value e with
    | Some v => pair v v
    | None =>
        bits <- search search_fuel (fun mid =>
          mustBeTrue (withExpr (EqExpr_create (LShrExpr_create e (Constant width mid)) (Constant width 0)) q)) 0 width;
        zero <- must (mayBeTrue (withExpr (EqExpr_create e (Constant width 0)) q));
        min <- (if (zero : bool) then sret 0
                else search search_fuel (fun mid => mayBeTrue (withExpr (UleExpr_create e (Constant width mid)) q))
                       0 (maxValueOfNBits bits));
        max <- search search_fuel (fun mid => mustBeTrue (withExpr (UleExpr_create e (Constant width mid)) q))
                 min (maxValueOfNBits bits);
        pair min max
    end.

End front.

(** ** What a solver promises *)

Definition valid (q : Query) : Prop := forall rho, cm_sat rho (q_constraints q) -> sat rho (q_expr q).
Definition refuted (q : Query) : Prop := forall rho, cm_sat rho (q_constraints q) -> ~ sat rho (q_expr q).
Definition consistent (cm : ConstraintManager) : Prop := exists rho, cm_sat rho cm.

(** Queries with satisfiable constraints. *)
Definition wf_constraints (cm : ConstraintManager) : Prop := cm_good cm /\ consistent cm.
Definition wf_query (q : Query) : Prop := wf_constraints (q_constraints q) /\ boolean (q_expr q).

Definition has_validity (q : Query) (v : Validity) : Prop :=
  match v with
  | VTrue => valid q
  | VFalse => refuted q
  | VUnknown => ~ valid q /\ ~ refuted q
  end.

Definition fits (rho : assignment) (b : bindings) : Prop := Forall (fun x => array_byte rho x.1.1 x.1.2 = x.2) b.

(** A computation keeps the invariant of the state, returns nothing wrong and
    fails no assertion. *)
Definition returns {S A} (Inv : S -> Prop) (m : SM S A) (P : A -> Prop) : Prop :=
  forall s, Inv s -> let '(r, s') := m s in Inv s' /\ match r with Success a => P a | Failure => True | Stopped => False end.

(** The laws of a solver for the queries in [Q] (of any width for values). *)
Class SolverLaws {S} (impl : SolverImpl S) (Inv : S -> Prop) (Q : Query -> Prop) := {
  truth_law : forall q, Q q -> wf_query q -> returns Inv (computeTruth impl q) (fun b => b = true <-> valid q);
  validity_law : forall q, Q q -> wf_query q -> returns Inv (computeValidity impl q) (has_validity q);
  value_law : forall q, Q q -> wf_constraints (q_constraints q) -> good (q_expr q) ->
    returns Inv (computeValue impl q) (fun e => exists v rho, e = Constant (getWidth (q_expr q)) v /\
      cm_sat rho (q_constraints q) /\ eval rho (q_expr q) = v);
  initial_law : forall q objects, Q q -> wf_query q ->
    returns Inv (computeInitialValues impl q objects) (fun b =>
      match b with
      | Some b => exists rho, cm_sat rho (q_constraints q) /\ ~ sat rho (q_expr q) /\ fits rho b
      | None => valid q
      end);
}.

Definition any_query (q : Query) : Prop := Logic.True.

(** ** Reasoning about computations *)

Section rules.
Context {S : Type} (Inv : S -> Prop).

Lemma returns_ret {A} (a : A) (P : A -> Prop) : P a -> returns Inv (sret a) P.
Proof. by intros Ha s Hs. Qed.

Lemma returns_bind {A B} (m : SM S A) (f : A -> SM S B) P R :
  returns Inv m P -> (forall a, P a -> returns Inv (f a) R) -> returns Inv (sbind m f) R.
Proof.
  intros Hm Hf s Hs. unfold sbind. specialize (Hm s Hs). destruct (m s) as [[a| |] s']; [|done|done].
  destruct Hm as [Hs' Ha]. by apply Hf.
Qed.

Lemma returns_weaken {A} (m : SM S A) (P R : A -> Prop) : returns Inv m P -> (forall a, P a -> R a) -> returns Inv m R.
Proof.
  intros Hm H s Hs. specialize (Hm s Hs). destruct (m s) as [[a| |] s']; [|done|done]. destruct Hm. auto.
Qed.

(** A computation that also never fails. *)
Definition yields {A} (m : SM S A) (P : A -> Prop) : Prop :=
  forall s, Inv s -> exists a s', m s = (Success a, s') /\ Inv s' /\ P a.

Definition never_fails {A} (m : SM S A) : Prop := forall s, Inv s -> exists a s', m s = (Success a, s').

Lemma returns_yields {A} (m : SM S A) P : returns Inv m P -> never_fails m -> yields m P.
Proof. intros H Hn s Hs. specialize (H s Hs). destruct (Hn s Hs) as (a & s' & E). rewrite E in H. exists a, s'. done. Qed.

Lemma yields_ret {A} (a : A) (P : A -> Prop) : P a -> yields (sret a) P.
Proof. intros Ha s Hs. by exists a, s. Qed.

Lemma yields_bind {A B} (m : SM S A) (f : A -> SM S B) P R :
  yields m P -> (forall a, P a -> yields (f a) R) -> yields (sbind m f) R.
Proof. intros Hm Hf s Hs. destruct (Hm s Hs) as (a & s' & E & Hs' & Ha). unfold sbind. rewrite E. by apply Hf. Qed.

Lemma yields_must {A} (m : SM S A) P : yields m P -> yields (must m) P.
Proof. intros Hm s Hs. destruct (Hm s Hs) as (a & s' & E & H). exists a, s'. unfold must. by rewrite E. Qed.

Lemma yields_weaken {A} (m : SM S A) (P R : A -> Prop) : yields m P -> (forall a, P a -> R a) -> yields m R.
Proof. intros Hm H s Hs. destruct (Hm s Hs) as (a & s' & E & Hs' & Ha). exists a, s'. auto. Qed.

(** Binary search for the least number with an upward closed property. *)
Lemma search_spec fuel test P lo hi :
  0 <= lo <= hi -> hi < 2 ^ 64 -> hi - lo < 2 ^ (Z.of_nat fuel) ->
  (forall x y, lo <= x <= y -> y <= hi -> P x -> P y) -> P hi ->
  (forall mid, lo <= mid < hi -> yields (test mid) (fun b => b = true <-> P mid)) ->
  yields (search fuel test lo hi) (fun r => lo <= r <= hi /\ P r /\ forall x, lo <= x < r -> ~ P x).
Proof.
  revert lo hi. induction fuel as [|fuel IH]; intros lo hi Hlo Hhi Hf Hup HP Htest; cbn [search].
  - assert (lo = hi) as -> by (cbn in Hf; lia). rewrite (proj2 (Z.ltb_ge hi hi)) by lia. apply yields_ret. split; [lia|]. split; [done|lia].
  - destruct (Z.ltb_spec lo hi) as [Hlt|Hge].
    2: { assert (lo = hi) as -> by lia. apply yields_ret. split; [lia|]. split; [done|lia]. }
    pose proof (Z.div_mod (hi - lo) 2 ltac:(lia)) as Hdm. pose proof (Z.mod_pos_bound (hi - lo) 2 ltac:(lia)) as Hmod.
    cbv zeta. unfold u64. rewrite (Z.mod_small (hi - lo)) by lia. rewrite (Z.mod_small (lo + (hi - lo) / 2)) by lia.
    set (mid := lo + (hi - lo) / 2). assert (lo <= mid < hi) as Hmid by (unfold mid; lia).
    rewrite Nat2Z.inj_succ, Z.pow_succ_r in Hf by lia.
    eapply yields_bind; [apply yields_must, Htest, Hmid|]. intros [] Hb; cbv beta in Hb.
    + eapply yields_weaken.
      * apply (IH lo mid); [lia|lia|unfold mid; lia|intros x y ? ?; apply Hup; lia|by apply Hb|intros; apply Htest; lia].
      * intros r (Hr & HPr & Hmin). split; [lia|]. done.
    + rewrite (Z.mod_small (mid + 1)) by lia. eapply yields_weaken.
      * apply (IH (mid + 1) hi); [lia|lia|unfold mid; lia|intros x y ? ?; apply Hup; lia|done|intros; apply Htest; lia].
      * intros r (Hr & HPr & Hmin). split; [lia|]. split; [done|]. intros x Hx HPx.
        destruct (Z.lt_ge_cases mid x); [apply (Hmin x); [lia|done]|]. assert (P mid) by (apply (Hup x mid); [lia|lia|done]).
        assert (false = true) by (by apply Hb). done.
Qed.

End rules.

(** ** The front end is right *)

Lemma negate_wf q : wf_query q -> wf_query (negateExpr q).
Proof.
  intros [Hc [Hg Hw]]. split; [done|]. destruct (createIsZero_sound _ Hg) as [Hg' Hw' _ _]. by split.
Qed.

Lemma negate_sat e rho : boolean e -> sat rho (createIsZero e) <-> ~ sat rho e.
Proof.
  intros [Hg Hw]. destruct (createIsZero_sound _ Hg) as [_ _ _ He]. unfold sat. rewrite He.
  destruct (bool_value e rho Hg Hw) as [-> | ->]; cbn; lia.
Qed.

Lemma negate_valid q : wf_query q -> valid (negateExpr q) <-> refuted q.
Proof. intros [_ Hb]. unfold valid, refuted. cbn. by setoid_rewrite negate_sat. Qed.

Lemma negate_refuted q : wf_query q -> refuted (negateExpr q) <-> valid q.
Proof.
  intros [_ Hb]. unfold valid, refuted. cbn. setoid_rewrite negate_sat; [|done]. split; [|naive_solver].
  intros H rho Hs. specialize (H rho Hs). destruct Hb as [Hg Hw]. unfold sat in *. destruct (bool_value _ rho Hg Hw); [lia|done].
Qed.

Lemma valid_refuted q : wf_constraints (q_constraints q) -> valid q -> refuted q -> False.
Proof. intros [_ [rho Hs]] Hv Hr. by apply (Hr rho Hs), Hv. Qed.

Lemma wf_withExpr q e : wf_constraints (q_constraints q) -> boolean e -> wf_query (withExpr e q).
Proof. by split. Qed.

Lemma default_validity {S} (Inv : S -> Prop) truth q :
  wf_query q -> returns Inv (truth q) (fun b => b = true <-> valid q) ->
  returns Inv (truth (negateExpr q)) (fun b => b = true <-> valid (negateExpr q)) ->
  returns Inv (default_computeValidity truth q) (has_validity q).
Proof.
  intros Hq Ht Hf. unfold default_computeValidity. eapply returns_bind; [apply Ht|]. intros [] Hb; cbv beta in Hb.
  - apply returns_ret. by apply Hb.
  - eapply returns_bind; [apply Hf|]. intros [] Hn; cbv beta in Hn; rewrite negate_valid in Hn by done; apply returns_ret; cbn.
    + by apply Hn.
    + split; [intros H; by apply Hb in H|intros H; by apply Hn in H].
Qed.

Section front_laws.
Context {S : Type} (impl : SolverImpl S) (Inv : S -> Prop) (Q : Query -> Prop) `{!SolverLaws impl Inv Q}.

Lemma constant_valid q b :
  wf_query q -> is_true_constant (q_expr q) = Some b -> (b = true <-> valid q) /\ (b = false <-> refuted q).
Proof.
  intros [[_ [rho Hs]] [Hg Hw]]. unfold valid, refuted, sat. destruct (q_expr q) as [w v| | | | | | | | | | |]; try done. cbn in *. intros [= <-]. subst w.
  apply inrange_1 in Hg as [-> | ->]; cbn; naive_solver.
Qed.

Lemma mustBeTrue_law q : Q q -> wf_query q -> returns Inv (mustBeTrue impl q) (fun b => b = true <-> valid q).
Proof.
  intros HQ Hq. unfold mustBeTrue. pose proof Hq as [_ [_ Hw]]. rewrite Hw. cbn.
  destruct (is_true_constant (q_expr q)) as [b|] eqn:E; [|by apply truth_law]. apply returns_ret. by apply constant_valid.
Qed.

Lemma evaluate_law q : Q q -> wf_query q -> returns Inv (evaluate impl q) (has_validity q).
Proof.
  intros HQ Hq. unfold evaluate. pose proof Hq as [_ [_ Hw]]. rewrite Hw. cbn.
  destruct (is_true_constant (q_expr q)) as [b|] eqn:E; [|by apply validity_law]. apply returns_ret.
  destruct (constant_valid q b Hq E) as [H1 H2]. destruct b; [by apply H1|by apply H2].
Qed.

Lemma mustBeFalse_law q : Q (negateExpr q) -> wf_query q -> returns Inv (mustBeFalse impl q) (fun b => b = true <-> refuted q).
Proof.
  intros HQ Hq. eapply returns_weaken; [apply mustBeTrue_law; [done|by apply negate_wf]|]. intros b. cbv beta. by rewrite negate_valid.
Qed.

Lemma mayBeTrue_law q : Q (negateExpr q) -> wf_query q -> returns Inv (mayBeTrue impl q) (fun b => b = true <-> ~ refuted q).
Proof.
  intros HQ Hq. eapply returns_bind; [by apply mustBeFalse_law|]. intros [] Hb; cbv beta in Hb; apply returns_ret; cbn; naive_solver.
Qed.

Lemma mayBeFalse_law q : Q q -> wf_query q -> returns Inv (mayBeFalse impl q) (fun b => b = true <-> ~ valid q).
Proof.
  intros HQ Hq. eapply returns_bind; [by apply mustBeTrue_law|]. intros [] Hb; cbv beta in Hb; apply returns_ret; cbn; naive_solver.
Qed.

Lemma getValue_law q :
  Q q -> wf_constraints (q_constraints q) -> good (q_expr q) ->
  returns Inv (getValue impl q) (fun e => exists v rho, e = Constant (getWidth (q_expr q)) v /\
    cm_sat rho (q_constraints q) /\ eval rho (q_expr q) = v).
Proof.
  intros HQ Hc Hg. unfold getValue. destruct (constant_or (q_expr q)) as [(w & v & E)|Hn].
  - rewrite E. apply returns_ret. destruct Hc as [_ [rho Hs]]. by exists v, rho.
  - assert (forall f, match q_expr q with Constant w v => sret (Constant w v) | _ => f end = f) as -> by (intros f; by destruct (q_expr q)).
    eapply returns_bind; [by apply value_law|]. intros e (v & rho & -> & Hs & Hv). apply returns_ret. by exists v, rho.
Qed.

End front_laws.

(** ** Ranges *)

Class SolverTotal {S} (impl : SolverImpl S) (Inv : S -> Prop) (Q : Query -> Prop) := {
  truth_total : forall q, Q q -> wf_query q -> never_fails Inv (computeTruth impl q);
  validity_total : forall q, Q q -> wf_query q -> never_fails Inv (computeValidity impl q);
}.

(** The expressions that [getRange] asks about. *)
Inductive range_test (e : expr) : expr -> Prop :=
  | test_self : range_test e e
  | test_ule c : 0 <= c < 2 ^ getWidth e -> range_test e (UleExpr_create e (Constant (getWidth e) c))
  | test_zero : range_test e (EqExpr_create e (Constant (getWidth e) 0))
  | test_shift c : 0 <= c <= getWidth e ->
      range_test e (EqExpr_create (LShrExpr_create e (Constant (getWidth e) c)) (Constant (getWidth e) 0)).

Section range.
Context {S : Type} (impl : SolverImpl S) (Inv : S -> Prop) (Q : Query -> Prop) `{!SolverLaws impl Inv Q} `{!SolverTotal impl Inv Q}.
Context (q : Query) (Hc : wf_constraints (q_constraints q)) (Hg : good (q_expr q)) (H64 : getWidth (q_expr q) <= 64).
Context (HQ : forall t, range_test (q_expr q) t -> Q (withExpr t q) /\ Q (withExpr (createIsZero t) q)).

Let e := q_expr q.
Let width := getWidth e.

Lemma mustBeTrue_total q' : Q q' -> wf_query q' -> yields Inv (mustBeTrue impl q') (fun b => b = true <-> valid q').
Proof.
  intros Hq' Hq. apply returns_yields; [by apply (mustBeTrue_law impl Inv Q)|]. intros s Hs. unfold mustBeTrue. pose proof Hq as [_ [_ Hw]].
  rewrite Hw. cbn. destruct (is_true_constant _) as [b|]; [by exists b, s|]. by apply (truth_total (Q := Q)).
Qed.

Lemma mayBeTrue_total q' : Q (negateExpr q') -> wf_query q' -> yields Inv (mayBeTrue impl q') (fun b => b = true <-> ~ refuted q').
Proof.
  intros Hq' Hq. apply returns_yields; [by apply (mayBeTrue_law impl Inv Q)|]. intros s Hs.
  destruct (mustBeTrue_total (negateExpr q') Hq' (negate_wf _ Hq) s Hs) as (b & s' & E & _). unfold mayBeTrue, mustBeFalse, sbind. rewrite E. by eexists _, _.
Qed.

Lemma evaluate_total q' : Q q' -> wf_query q' -> yields Inv (evaluate impl q') (has_validity q').
Proof.
  intros Hq' Hq. apply returns_yields; [by apply (evaluate_law impl Inv Q)|]. intros s Hs. unfold evaluate. pose proof Hq as [_ [_ Hw]].
  rewrite Hw. cbn. destruct (is_true_constant _) as [b|]; [by eexists _, s|]. by apply (validity_total (Q := Q)).
Qed.

Lemma e_range rho : 0 <= eval rho e < 2 ^ width.
Proof. apply (eval_range _ rho Hg). Qed.

Lemma width_range : 0 < width <= 64.
Proof. split; [by apply width_pos|done]. Qed.

Lemma constant_good c : 0 <= c < 2 ^ width -> good (Constant width c).
Proof. intros. split; [apply width_range|done]. Qed.

Lemma small_constant c : 0 <= c <= width -> good (Constant width c).
Proof. intros. apply constant_good. pose proof width_range. pose proof (Z.pow_gt_lin_r 2 width ltac:(lia)). lia. Qed.

Lemma ule_query c : 0 <= c < 2 ^ width ->
  boolean (UleExpr_create e (Constant width c)) /\ forall rho, sat rho (UleExpr_create e (Constant width c)) <-> eval rho e <= c.
Proof.
  intros Hcr. destruct (UleExpr_create_sound e (Constant width c) Hg (constant_good c Hcr) eq_refl) as [Hg' Hw' _ He].
  split; [by split|]. intros rho. unfold sat. rewrite He. cbn. zbool.
Qed.

Lemma eq_zero_query :
  boolean (EqExpr_create e (Constant width 0)) /\ forall rho, sat rho (EqExpr_create e (Constant width 0)) <-> eval rho e = 0.
Proof.
  pose proof width_range. destruct (EqExpr_create_sound e (Constant width 0) Hg (small_constant 0 ltac:(lia)) eq_refl) as [Hg' Hw' _ He].
  split; [by split|]. intros rho. unfold sat. rewrite He. cbn. zbool.
Qed.

Lemma shift_query c : 0 <= c <= width ->
  let t := EqExpr_create (LShrExpr_create e (Constant width c)) (Constant width 0) in
  boolean t /\ forall rho, sat rho t <-> eval rho e < 2 ^ c.
Proof.
  intros Hcr t. pose proof width_range.
  destruct (LShrExpr_create_sound e (Constant width c) Hg (small_constant c Hcr) eq_refl) as [Hg1 Hw1 _ He1].
  destruct (EqExpr_create_sound _ (Constant width 0) Hg1 (small_constant 0 ltac:(lia)) Hw1) as [Hg2 Hw2 _ He2].
  split; [by split|]. intros rho. unfold sat, t. rewrite He2, He1. cbn. rewrite Z.shiftr_div_pow2 by lia. pose proof (e_range rho).
  pose proof (pow2_pos c ltac:(lia)). pose proof (Z.div_pos (eval rho e) (2 ^ c) ltac:(lia) ltac:(lia)).
  destruct (Z.eqb_spec (eval rho e / 2 ^ c) 0) as [E|E]; cbn; [|].
  - apply Z.div_small_iff in E; [|lia]. lia.
  - split; [done|]. intros Hlt. destruct E. apply Z.div_small. lia.
Qed.

Lemma maxValue_spec b : 0 <= b <= 64 -> maxValueOfNBits b = 2 ^ b - 1.
Proof.
  intros Hb. unfold maxValueOfNBits. destruct (Z.eqb_spec b 0) as [->|]; [done|]. rewrite Z.shiftr_div_pow2 by lia.
  assert (2 ^ 64 = 2 ^ b * 2 ^ (64 - b)) as -> by (rewrite <- Z.pow_add_r by lia; f_equal; lia).
  pose proof (pow2_pos (64 - b) ltac:(lia)). pose proof (pow2_pos b ltac:(lia)).
  symmetry. apply (Z.div_unique _ _ _ (2 ^ (64 - b) - 1)); nia.
Qed.

(** The least and the greatest value, both of which occur. *)
Definition exact_range (r : expr * expr) : Prop :=
  exists lo hi, r = (Constant width lo, Constant width hi) /\
    (forall rho, cm_sat rho (q_constraints q) -> lo <= eval rho e <= hi) /\
    ~ (forall rho, cm_sat rho (q_constraints q) -> eval rho e <> lo) /\
    ~ (forall rho, cm_sat rho (q_constraints q) -> eval rho e <> hi).

Lemma search_bits :
  yields Inv (search search_fuel (fun mid =>
      mustBeTrue impl (withExpr (EqExpr_create (LShrExpr_create e (Constant width mid)) (Constant width 0)) q)) 0 width)
    (fun b => 0 <= b <= width /\ forall rho, cm_sat rho (q_constraints q) -> eval rho e < 2 ^ b).
Proof.
  pose proof width_range as Hw.
  eapply yields_weaken.
  - apply (search_spec Inv search_fuel _ (fun b => forall rho, cm_sat rho (q_constraints q) -> eval rho e < 2 ^ b)); [lia|lia|change (2 ^ Z.of_nat search_fuel) with (2 ^ 65); lia| | |].
    + intros x y Hxy _ Hx rho Hs. specialize (Hx rho Hs). pose proof (Z.pow_le_mono_r 2 x y ltac:(lia) ltac:(lia)). lia.
    + intros rho _. apply e_range.
    + intros mid Hmid. destruct (shift_query mid ltac:(lia)) as [Hb Hsat]. cbv zeta in Hb, Hsat.
      eapply yields_weaken; [apply mustBeTrue_total; [apply HQ, test_shift; fold e width; lia|by apply wf_withExpr]|].
      intros b. cbv beta. unfold valid. cbn. by setoid_rewrite Hsat.
  - intros b (Hb & HP & _). done.
Qed.

Lemma search_min b :
  0 <= b <= width -> (forall rho, cm_sat rho (q_constraints q) -> eval rho e < 2 ^ b) ->
  yields Inv (search search_fuel (fun mid => mayBeTrue impl (withExpr (UleExpr_create e (Constant width mid)) q)) 0 (maxValueOfNBits b))
    (fun m => 0 <= m < 2 ^ b /\ (forall rho, cm_sat rho (q_constraints q) -> m <= eval rho e) /\
      ~ (forall rho, cm_sat rho (q_constraints q) -> eval rho e <> m)).
Proof.
  intros Hb Hmax. pose proof width_range as Hw. rewrite maxValue_spec by lia. pose proof (pow2_pos b ltac:(lia)).
  pose proof (Z.pow_le_mono_r 2 b width ltac:(lia) ltac:(lia)). pose proof (Z.pow_le_mono_r 2 width 64 ltac:(lia) ltac:(lia)).
  destruct Hc as [_ [rho0 Hrho0]].
  eapply yields_weaken.
  - apply (search_spec Inv search_fuel _ (fun m => ~ forall rho, cm_sat rho (q_constraints q) -> ~ eval rho e <= m)); [lia|lia|change (2 ^ Z.of_nat search_fuel) with (2 ^ 65); lia| | |].
    + intros x y Hxy _ Hx Hno. apply Hx. intros rho Hs Hle. apply (Hno rho Hs). lia.
    + intros Hno. apply (Hno rho0 Hrho0). specialize (Hmax rho0 Hrho0). lia.
    + intros mid Hmid. destruct (ule_query mid ltac:(lia)) as [Hbo Hsat].
      eapply yields_weaken; [apply mayBeTrue_total; [apply HQ, test_ule; fold e width; lia|by apply wf_withExpr]|]. intros r. cbv beta. unfold refuted. cbn. by setoid_rewrite Hsat.
  - cbv beta. intros m (Hm & HP & Hmin).
    assert (forall rho, cm_sat rho (q_constraints q) -> m <= eval rho e) as Hle.
    { intros rho Hs. pose proof (e_range rho). destruct (Z.le_gt_cases m (eval rho e)) as [|Hlt]; [done|]. exfalso.
      apply (Hmin (eval rho e) ltac:(lia)). intros Hno. by apply (Hno rho Hs). }
    split; [lia|]. split; [done|]. intros Hne. apply HP. intros rho Hs Hle'. specialize (Hle rho Hs). apply (Hne rho Hs). lia.
Qed.

Lemma search_max b m :
  0 <= b <= width -> (forall rho, cm_sat rho (q_constraints q) -> eval rho e < 2 ^ b) -> 0 <= m < 2 ^ b ->
  (forall rho, cm_sat rho (q_constraints q) -> m <= eval rho e) ->
  yields Inv (search search_fuel (fun mid => mustBeTrue impl (withExpr (UleExpr_create e (Constant width mid)) q)) m (maxValueOfNBits b))
    (fun M => (forall rho, cm_sat rho (q_constraints q) -> eval rho e <= M) /\
      ~ (forall rho, cm_sat rho (q_constraints q) -> eval rho e <> M)).
Proof.
  intros Hb Hmax Hm Hmin. pose proof width_range as Hw. rewrite maxValue_spec by lia.
  pose proof (Z.pow_le_mono_r 2 b width ltac:(lia) ltac:(lia)). pose proof (Z.pow_le_mono_r 2 width 64 ltac:(lia) ltac:(lia)).
  destruct Hc as [_ [rho0 Hrho0]].
  eapply yields_weaken.
  - apply (search_spec Inv search_fuel _ (fun M => forall rho, cm_sat rho (q_constraints q) -> eval rho e <= M)); [lia|lia|change (2 ^ Z.of_nat search_fuel) with (2 ^ 65); lia| | |].
    + intros x y Hxy _ Hx rho Hs. specialize (Hx rho Hs). lia.
    + intros rho Hs. specialize (Hmax rho Hs). lia.
    + intros mid Hmid. destruct (ule_query mid ltac:(lia)) as [Hbo Hsat].
      eapply yields_weaken; [apply mustBeTrue_total; [apply HQ, test_ule; fold e width; lia|by apply wf_withExpr]|]. intros r. cbv beta. unfold valid. cbn. by setoid_rewrite Hsat.
  - cbv beta. intros M (HM & HP & HMin). split; [done|]. intros Hne. destruct (Z.eq_dec M m) as [->|].
    + apply (Hne rho0 Hrho0). specialize (HP rho0 Hrho0). specialize (Hmin rho0 Hrho0). lia.
    + apply (HMin (M - 1) ltac:(lia)). intros rho Hs. specialize (HP rho Hs). specialize (Hne rho Hs). lia.
Qed.

Lemma range_bool : width = 1 -> yields Inv (getRange impl q) exact_range.
Proof.
  intros Hw. unfold getRange. fold e width. cbv zeta. rewrite Hw. cbn [Z.eqb Pos.eqb].
  assert (boolean e) as Hb by (by split). destruct Hc as [_ [rho0 Hrho0]].
  eapply yields_bind; [apply yields_must, evaluate_total; [destruct q; by apply (HQ _ (test_self _))|by split]|]. intros v Hv.
  destruct v; cbn in Hv; apply yields_ret; unfold exact_range; rewrite Hw.
  - exists 1, 1. split; [done|]. unfold valid, sat in Hv. fold e in Hv. split; [intros rho Hs; rewrite Hv by done; lia|].
    split; intros H; by apply (H rho0 Hrho0), Hv.
  - exists 0, 0. split; [done|]. assert (forall rho, cm_sat rho (q_constraints q) -> eval rho e = 0) as H0.
    { intros rho Hs. specialize (Hv rho Hs). unfold sat in Hv. fold e in Hv. destruct (bool_value e rho Hg Hw); [done|lia]. }
    split; [intros rho Hs; rewrite H0 by done; lia|]. split; intros H; by apply (H rho0 Hrho0), H0.
  - exists 0, 1. split; [done|]. split; [intros rho _; destruct (bool_value e rho Hg Hw); lia|]. destruct Hv as [Hv Hr]. split; intros H.
    + apply Hv. intros rho Hs. unfold sat. fold e. specialize (H rho Hs). destruct (bool_value e rho Hg Hw); [lia|done].
    + apply Hr. intros rho Hs Hsat. by apply (H rho Hs).
Qed.

Lemma range_exact : yields Inv (getRange impl q) exact_range.
Proof.
  destruct (Z.eq_dec width 1) as [Hw|Hw]; [by apply range_bool|]. destruct (constant_or e) as [(w & v & E)|Hn].
  - unfold getRange. fold e width. cbv zeta. rewrite (proj2 (Z.eqb_neq _ _) Hw). destruct Hc as [_ [rho0 Hrho0]]. unfold exact_range. rewrite E. cbn.
    apply yields_ret. exists v, v. split; [done|]. split; [done|]. split; intros H; by apply (H rho0 Hrho0).
  - unfold getRange. fold e width. cbv zeta. rewrite (proj2 (Z.eqb_neq _ _) Hw).
    assert (constant_value e = None) as -> by (by destruct e).
    eapply yields_bind; [apply search_bits|]. intros b [Hb Hmax]. destruct eq_zero_query as [Hzb Hz].
    eapply yields_bind; [apply yields_must, mayBeTrue_total; [apply HQ, test_zero|by apply wf_withExpr]|]. intros zero Hzero. cbv beta in Hzero. unfold refuted in Hzero. cbn in Hzero.
    setoid_rewrite Hz in Hzero. pose proof (pow2_pos b ltac:(lia)).
    eapply (yields_bind _ _ _ (fun m => 0 <= m < 2 ^ b /\ (forall rho, cm_sat rho (q_constraints q) -> m <= eval rho e) /\
      ~ (forall rho, cm_sat rho (q_constraints q) -> eval rho e <> m))).
    + destruct zero; [|by apply search_min]. apply yields_ret. split; [lia|]. split; [intros rho _; apply e_range|]. by apply Hzero.
    + intros m (Hm & Hmin & Hfeas). eapply yields_bind; [by apply search_max|]. intros M [HM HMf]. apply yields_ret. exists m, M.
      split; [done|]. split; [intros rho Hs; split; auto|]. done.
Qed.

End range.

(** ** A solver for one byte, by enumeration *)

Definition byte0 : expr := Read (Symbolic 0) UNull (Constant Int32 0).

Fixpoint over_byte (e : expr) : bool :=
  match e with
  | Constant _ _ => true
  | Read _ _ _ => expr_eqb e byte0
  | Select a b c => over_byte a && over_byte b && over_byte c
  | Concat a b | Bin _ a b | Cmp _ a b | Implies a b => over_byte a && over_byte b
  | NotOptimized a | Extract a _ _ | ZExt a _ | SExt a _ | Not a => over_byte a
  end.

Definition byte_is (b : Z) : assignment := fun _ _ => b.
Definition byte_values : list Z := Z.of_nat <$> seq 0 256.

Lemma over_byte_eval e rho : over_byte e = true -> eval rho e = eval (byte_is (u8 (rho (Symbolic 0) 0))) e.
Proof.
  induction e; cbn [over_byte]; intros H.
  3: { apply expr_eqb_eq in H. unfold byte0 in H. injection H as -> -> ->. cbn. unfold byte_is, u8. by rewrite Z.mod_mod. }
  all: repeat (apply andb_prop in H as [H ?]); cbn [eval]; rewrite ?IHe, ?IHe1, ?IHe2, ?IHe3 by done; done.
Qed.

Lemma byte_value_in z : u8 z ∈ byte_values.
Proof.
  unfold byte_values. apply list_elem_of_fmap. exists (Z.to_nat (u8 z)). pose proof (u8_range z). split; [lia|]. apply elem_of_seq. lia.
Qed.

Definition byte_query (q : Query) : bool := over_byte (cm_summary (q_constraints q)) && over_byte (q_expr q).
Definition byte_models (q : Query) : list Z := filter (fun b => eval (byte_is b) (cm_summary (q_constraints q)) = 1) byte_values.

Definition byte_answer {A} (f : Query -> option A) (q : Query) : SM unit A :=
  fun s => (if byte_query q then match f q with Some a => Success a | None => Failure end else Failure, s).

Definition byte_solver : SolverImpl unit := {|
  computeTruth := byte_answer (fun q => Some (forallb (fun b => eval (byte_is b) (q_expr q) =? 1) (byte_models q)));
  computeValidity := byte_answer (fun q => Some
    (if forallb (fun b => eval (byte_is b) (q_expr q) =? 1) (byte_models q) then VTrue
     else if forallb (fun b => negb (eval (byte_is b) (q_expr q) =? 1)) (byte_models q) then VFalse
     else VUnknown));
  computeValue := byte_answer (fun q => (fun b => Constant (getWidth (q_expr q)) (eval (byte_is b) (q_expr q))) <$> head (byte_models q));
  computeInitialValues := fun q _ => byte_answer (fun q => Some
    ((fun b => [(Symbolic 0, 0, b)]) <$> List.find (fun b => negb (eval (byte_is b) (q_expr q) =? 1)) (byte_models q))) q;
|}.

Definition anything {A} (_ : A) : Prop := Logic.True.

Lemma byte_models_elem q b : b ∈ byte_models q <-> b ∈ byte_values /\ cm_sat (byte_is b) (q_constraints q).
Proof. unfold byte_models. rewrite list_elem_of_filter. unfold cm_sat, sat. naive_solver. Qed.

Lemma byte_models_all q (P : Z -> bool) :
  byte_query q = true -> forallb P (byte_models q) = true <-> forall rho, cm_sat rho (q_constraints q) -> P (u8 (rho (Symbolic 0) 0)) = true.
Proof.
  intros [Hc _]%andb_prop. rewrite forallb_forall. split.
  - intros H rho Hs. apply H, list_elem_of_In, byte_models_elem. split; [apply byte_value_in|]. unfold cm_sat, sat in *. by rewrite <- over_byte_eval.
  - intros H b Hb%list_elem_of_In%byte_models_elem. destruct Hb as [Hb Hs]. specialize (H (byte_is b) Hs). unfold byte_is in H at 1.
    unfold u8 in H. rewrite Z.mod_small in H; [done|]. apply list_elem_of_fmap in Hb as (n & -> & Hn%elem_of_seq). lia.
Qed.

Lemma byte_valid q : byte_query q = true -> forallb (fun b => eval (byte_is b) (q_expr q) =? 1) (byte_models q) = true <-> valid q.
Proof.
  intros Hq. rewrite byte_models_all by done. apply andb_prop in Hq as [_ He]. unfold valid, sat.
  split; intros H rho Hs; specialize (H rho Hs); [rewrite over_byte_eval by done; zbool|rewrite over_byte_eval in H by done; zbool].
Qed.

Lemma byte_refuted q : byte_query q = true -> forallb (fun b => negb (eval (byte_is b) (q_expr q) =? 1)) (byte_models q) = true <-> refuted q.
Proof.
  intros Hq. rewrite byte_models_all by done. apply andb_prop in Hq as [_ He]. unfold refuted, sat.
  split; intros H rho Hs; specialize (H rho Hs); [rewrite over_byte_eval by done; zbool|rewrite over_byte_eval in H by done; zbool].
Qed.

Lemma byte_returns {A} (f : Query -> option A) q (P : A -> Prop) :
  (byte_query q = true -> forall a, f q = Some a -> P a) -> returns anything (byte_answer f q) P.
Proof. intros H s _. unfold byte_answer. destruct (byte_query q); [|done]. destruct (f q) eqn:E; [|done]. split; [done|]. by apply H. Qed.

#[export] Instance byte_solver_laws : SolverLaws byte_solver anything any_query.
Proof.
  split; intros q.
  - intros _ Hq. apply byte_returns. intros Hb a [= <-]. by apply byte_valid.
  - intros _ Hq. apply byte_returns. intros Hb a [= <-]. pose proof (byte_valid q Hb) as Hv. pose proof (byte_refuted q Hb) as Hr.
    destruct (forallb _ (byte_models q)); [by apply Hv|]. destruct (forallb _ (byte_models q)); [by apply Hr|]. split; intros H; [by apply Hv in H|by apply Hr in H].
  - intros _ Hc Hg. apply byte_returns. intros Hb a Ha. apply fmap_Some in Ha as (b & Hh & ->). exists (eval (byte_is b) (q_expr q)), (byte_is b).
    split; [done|]. split; [|done]. apply (byte_models_elem q b). destruct (byte_models q); [done|]. injection Hh as ->. apply list_elem_of_here.
  - intros objects _ Hq. apply byte_returns. intros Hb a [= <-]. destruct (List.find _ (byte_models q)) as [b|] eqn:E; cbn.
    + apply List.find_some in E as [Hin Hn]. apply list_elem_of_In, byte_models_elem in Hin as [Hv Hs]. exists (byte_is b). split; [done|]. split; [unfold sat; zbool|].
      constructor; [|constructor]. cbn. unfold byte_is, u8. apply Z.mod_small. apply list_elem_of_fmap in Hv as (n & -> & Hn'%elem_of_seq). lia.
    + apply byte_valid; [done|]. apply forallb_forall. intros b Hin. pose proof (List.find_none _ _ E b Hin) as H. by apply negb_false_iff in H.
Qed.

#[export] Instance byte_solver_total : SolverTotal byte_solver anything (fun q => byte_query q = true).
Proof.
  split; intros q Hq _ s _; unfold byte_solver, byte_answer; cbn [computeTruth computeValidity]; rewrite Hq; eexists _, _; reflexivity.
Qed.

Lemma laws_weaken {S} (impl : SolverImpl S) Inv (Q R : Query -> Prop) : (forall q, R q -> Q q) -> SolverLaws impl Inv Q -> SolverLaws impl Inv R.
Proof.
  intros H L. split; intros; [by apply (truth_law (Q := Q)); auto|by apply (validity_law (Q := Q)); auto|
    by apply (value_law (Q := Q)); auto|by apply (initial_law (Q := Q)); auto].
Qed.

(** ** The theorems *)

(** [getInitialValues] fails when there is no counterexample. *)
Lemma getInitialValues_law {S} (impl : SolverImpl S) Inv Q (L : SolverLaws impl Inv Q) q objects :
  Q q -> wf_query q ->
  returns Inv (getInitialValues impl q objects) (fun b => exists rho, cm_sat rho (q_constraints q) /\ ~ sat rho (q_expr q) /\ fits rho b).
Proof.
  intros HQ Hq s Hs. pose proof (initial_law q objects HQ Hq s Hs) as H. unfold getInitialValues.
  destruct (computeInitialValues impl q objects s) as [[[b|]| |] s']; naive_solver.
Qed.

(** The front end of a solver that keeps the interface's promises: for
    satisfiable constraints [mustBeTrue], [mustBeFalse], [mayBeTrue] and
    [mayBeFalse] answer exactly, [evaluate] gives the right one of the three
    validities, [getValue] a value that the expression takes, constant
    expressions included, and [getInitialValues] bytes of a counterexample; a
    failure of the implementation is passed on. *)
Lemma front_end_exact {S} (impl : SolverImpl S) Inv Q (L : SolverLaws impl Inv Q) q :
  Q q -> Q (negateExpr q) -> wf_query q ->
  returns Inv (mustBeTrue impl q) (fun b => b = true <-> valid q) /\
  returns Inv (mustBeFalse impl q) (fun b => b = true <-> refuted q) /\
  returns Inv (mayBeTrue impl q) (fun b => b = true <-> ~ refuted q) /\
  returns Inv (mayBeFalse impl q) (fun b => b = true <-> ~ valid q) /\
  returns Inv (evaluate impl q) (has_validity q) /\
  returns Inv (getValue impl q) (fun e => exists v rho, e = Constant (getWidth (q_expr q)) v /\
    cm_sat rho (q_constraints q) /\ eval rho (q_expr q) = v) /\
  forall objects, returns Inv (getInitialValues impl q objects) (fun b =>
    exists rho, cm_sat rho (q_constraints q) /\ ~ sat rho (q_expr q) /\ fits rho b).
Proof.
  intros HQ HN Hq. split_and!; [by apply (mustBeTrue_law impl Inv Q)|by apply (mustBeFalse_law impl Inv Q)|by apply (mayBeTrue_law impl Inv Q)|
    by apply (mayBeFalse_law impl Inv Q)|by apply (evaluate_law impl Inv Q)| |intros objects; by apply (getInitialValues_law impl Inv Q)]. destruct Hq as [Hc [Hg _]]. by apply (getValue_law impl Inv Q).
Qed.

(** C23: For an expression of at most 64 bits, [getRange] ends and returns the
    least and the greatest value that the expression takes under the
    constraints: all values are between them and both occur. *)
Theorem getRange_exact {S} (impl : SolverImpl S) Inv Q (L : SolverLaws impl Inv Q) (T : SolverTotal impl Inv Q) q s :
  wf_constraints (q_constraints q) -> good (q_expr q) -> getWidth (q_expr q) <= 64 ->
  (forall t, range_test (q_expr q) t -> Q (withExpr t q) /\ Q (withExpr (createIsZero t) q)) -> Inv s ->
  exists lo hi s', getRange impl q s = (Success (Constant (getWidth (q_expr q)) lo, Constant (getWidth (q_expr q)) hi), s') /\ Inv s' /\
    (forall rho, cm_sat rho (q_constraints q) -> lo <= eval rho (q_expr q) <= hi) /\
    ~ (forall rho, cm_sat rho (q_constraints q) -> eval rho (q_expr q) <> lo) /\
    ~ (forall rho, cm_sat rho (q_constraints q) -> eval rho (q_expr q) <> hi).
Proof.
  intros Hc Hg H64 HQ Hs. destruct (range_exact impl Inv Q q Hc Hg H64 HQ s Hs) as (r & s' & E & Hs' & lo & hi & -> & H).
  by exists lo, hi, s'.
Qed.

(** ** Examples: a byte that is at least 10 *)

Definition demo_constraints : ConstraintManager := cm_of_list [UleExpr_create (Constant Int8 10) byte0].
Definition demo_query (e : expr) : Query := MkQuery demo_constraints e.

Lemma demo_constraints_wf : wf_constraints demo_constraints.
Proof.
  assert (inrange Int8 10 /\ inrange Int32 0) as [H10 H0] by (split; split; vm_compute; split; congruence || done).
  split; [|by exists (byte_is 12)]. split; [|done]. vm_compute. split_and!; try done. by right.
Qed.

Lemma front_end_exact_witness :
  fst (mustBeTrue byte_solver (demo_query (UltExpr_create (Constant Int8 9) byte0)) tt) = Success true /\
  valid (demo_query (UltExpr_create (Constant Int8 9) byte0)).
Proof.
  assert (wf_query (demo_query (UltExpr_create (Constant Int8 9) byte0))) as Hq.
  { split; [exact demo_constraints_wf|]. split; [|done]. vm_compute. split_and!; try done. by right. }
  destruct (front_end_exact byte_solver anything any_query _ (demo_query (UltExpr_create (Constant Int8 9) byte0)) I I Hq) as [H _].
  specialize (H tt I). assert (fst (mustBeTrue byte_solver (demo_query (UltExpr_create (Constant Int8 9) byte0)) tt) = Success true) as E by (vm_compute; reflexivity).
  split; [exact E|]. destruct (mustBeTrue byte_solver _ tt) as [r s']. cbn in E. subst r. apply H. reflexivity.
Defined.

Lemma getRange_exact_witness :
  exists lo hi s', getRange byte_solver (demo_query byte0) tt = (Success (Constant 8 lo, Constant 8 hi), s') /\
    forall rho, cm_sat rho demo_constraints -> lo <= eval rho byte0 <= hi.
Proof.
  destruct (getRange_exact byte_solver anything (fun q => byte_query q = true) (laws_weaken _ _ _ _ (fun q _ => I) byte_solver_laws) _ (demo_query byte0) tt)
    as (lo & hi & s' & E & _ & H & _).
  - exact demo_constraints_wf.
  - vm_compute. done.
  - vm_compute. congruence.
  - intros t Ht. destruct Ht; vm_compute; done.
  - done.
  - exists lo, hi, s'. split; [exact E|exact H].
Defined.
