(* ===== verification/SolverChain.v ===== *)
(** * Solvers built on solvers ([CachingSolver.cpp], [IncompleteSolver.cpp])

    A cache of answers that also answers the negated query, and a fast
    incomplete solver in front of a complete one.  Both keep the promises of
    the interface whenever the solver below does. *)

From stdpp Require Import base list.
From Stdlib Require Import ZArith Lia.
From S2P Require Import Prelude BitVec Expr ExprCreate ExprSound ExprBits ExprVisit Constraints Solver.

(** ** Partial validity *)

Inductive PartialValidity := MustBeTrue | MustBeFalse | MayBeTrue | MayBeFalse | TrueOrFalse | PNone.

#[export] Instance PartialValidity_eq_dec : EqDecision PartialValidity.
Proof. solve_decision. Defined.

(** [None] is the failed assertion. *)
Definition negatePartialValidity (pv : PartialValidity) : option PartialValidity :=
  match pv with
  | MustBeTrue => Some MustBeFalse
  | MustBeFalse => Some MustBeTrue
  | MayBeTrue => Some MayBeFalse
  | MayBeFalse => Some MayBeTrue
  | TrueOrFalse => Some TrueOrFalse
  | PNone => None
  end.

Definition has_partial (q : Query) (pv : PartialValidity) : Prop :=
  match pv with
  | MustBeTrue => valid q
  | MustBeFalse => refuted q
  | MayBeTrue => ~ refuted q
  | MayBeFalse => ~ valid q
  | TrueOrFalse => ~ valid q /\ ~ refuted q
  | PNone => Logic.True
  end.

Lemma negate_partial q pv pv' :
  wf_query q -> has_partial (negateExpr q) pv -> negatePartialValidity pv = Some pv' -> has_partial q pv'.
Proof.
  intros Hq H E. destruct pv; cbn in E; simplify_eq; cbn in *; rewrite ?negate_valid, ?negate_refuted in H by done; try done.
  naive_solver.
Qed.

Lemma partial_negate q pv pv' :
  wf_query q -> has_partial q pv -> negatePartialValidity pv = Some pv' -> has_partial (negateExpr q) pv'.
Proof.
  intros Hq H E. destruct pv; cbn in E; simplify_eq; cbn in *; rewrite ?negate_valid, ?negate_refuted by done; try done.
  naive_solver.
Qed.

(** ** Incomplete solvers *)

(** The fallible operations return [None] for [false]. *)
Record IncompleteSolver (S : Type) := MkIncomplete {
  i_truth : Query -> S -> PartialValidity * S;
  i_validity : Query -> S -> PartialValidity * S;
  i_value : Query -> S -> option expr * S;
  i_initial : Query -> list array -> S -> option (option bindings) * S;
}.
Arguments MkIncomplete {S}. Arguments i_truth {S}. Arguments i_validity {S}. Arguments i_value {S}. Arguments i_initial {S}.

(** [IncompleteSolver::computeValidity], which a solver may override. *)
Definition incomplete_computeValidity {S} (truth : Query -> S -> PartialValidity * S) (q : Query) (s : S) : PartialValidity * S :=
  let '(trueResult, s) := truth q s in
  if decide (trueResult = MustBeTrue) then (MustBeTrue, s)
  else
    let '(falseResult, s) := truth (negateExpr q) s in
    if decide (falseResult = MustBeTrue) then (MustBeFalse, s)
    else
      let trueCorrect := bool_decide (trueResult <> PNone) in
      let falseCorrect := bool_decide (falseResult <> PNone) in
      ((if trueCorrect && falseCorrect then TrueOrFalse
        else if trueCorrect then MayBeFalse
        else if falseCorrect then MayBeTrue
        else PNone), s).

(** What [computeTruth] of an incomplete solver may say: the query is valid, it
    is not, or nothing. *)
Definition truth_like (q : Query) (pv : PartialValidity) : Prop :=
  match pv with
  | MustBeTrue => valid q
  | PNone => Logic.True
  | _ => ~ valid q
  end.

Class IncompleteLaws {S} (p : IncompleteSolver S) (Inv : S -> Prop) (Q : Query -> Prop) := {
  i_truth_law : forall q s, Q q -> wf_query q -> Inv s -> let '(pv, s') := i_truth p q s in Inv s' /\ truth_like q pv;
  i_validity_law : forall q s, Q q -> wf_query q -> Inv s -> let '(pv, s') := i_validity p q s in Inv s' /\ has_partial q pv;
  i_value_law : forall q s, Q q -> wf_constraints (q_constraints q) -> good (q_expr q) -> Inv s ->
    let '(r, s') := i_value p q s in Inv s' /\
    forall e, r = Some e -> exists v rho, e = Constant (getWidth (q_expr q)) v /\ cm_sat rho (q_constraints q) /\ eval rho (q_expr q) = v;
  i_initial_law : forall q objects s, Q q -> wf_query q -> Inv s ->
    let '(r, s') := i_initial p q objects s in Inv s' /\
    match r with
    | Some (Some b) => exists rho, cm_sat rho (q_constraints q) /\ ~ sat rho (q_expr q) /\ fits rho b
    | Some None => valid q
    | None => Logic.True
    end;
}.

Lemma incomplete_validity {S} (truth : Query -> S -> PartialValidity * S) (Inv : S -> Prop) q s :
  (forall s, Inv s -> let '(pv, s') := truth q s in Inv s' /\ truth_like q pv) ->
  (forall s, Inv s -> let '(pv, s') := truth (negateExpr q) s in Inv s' /\ truth_like (negateExpr q) pv) ->
  wf_query q -> Inv s ->
  let '(pv, s') := incomplete_computeValidity truth q s in Inv s' /\ has_partial q pv.
Proof.
  intros Ht Hf Hq Hs. unfold incomplete_computeValidity. specialize (Ht s Hs). destruct (truth q s) as [tr s1]. destruct Ht as [Hs1 Ht].
  case_decide as E; [by subst|]. specialize (Hf s1 Hs1). destruct (truth (negateExpr q) s1) as [fr s2]. destruct Hf as [Hs2 Hf].
  case_decide as E2; [subst; split; [done|]; cbn in *; by apply negate_valid|]. split; [done|].
  assert (tr <> PNone -> ~ valid q) as H1 by (by destruct tr). assert (fr <> PNone -> ~ refuted q) as H2.
  { intros Hn. rewrite <- negate_valid by done. by destruct fr. }
  repeat case_bool_decide; cbn; auto.
Qed.

(** ** The staged solver *)

Section staged.
Context {S1 S2 : Type} (primary : IncompleteSolver S1) (secondary : SolverImpl S2).

(** A computation of the second solver, on the pair of states. *)
Definition second {A} (m : SM S2 A) : SM (S1 * S2) A := fun s => let '(r, s2) := m s.2 in (r, (s.1, s2)).

Definition staged_truth (q : Query) : SM (S1 * S2) bool :=
  fun s =>
    let '(pv, s1) := i_truth primary q s.1 in
    if decide (pv = PNone) then second (computeTruth secondary q) (s1, s.2)
    else (Success (bool_decide (pv = MustBeTrue)), (s1, s.2)).

Definition staged_validity (q : Query) : SM (S1 * S2) Validity :=
  fun s =>
    let '(pv, s1) := i_validity primary q s.1 in
    match pv with
    | MustBeTrue => sret VTrue
    | MustBeFalse => sret VFalse
    | TrueOrFalse => sret VUnknown
    | MayBeTrue => tmp <- second (computeTruth secondary q); sret (if (tmp : bool) then VTrue else VUnknown)
    | MayBeFalse => tmp <- second (computeTruth secondary (negateExpr q)); sret (if (tmp : bool) then VFalse else VUnknown)
    | PNone => second (computeValidity secondary q)
    end (s1, s.2).

Definition staged_value (q : Query) : SM (S1 * S2) expr :=
  fun s =>
    let '(r, s1) := i_value primary q s.1 in
    match r with Some e => (Success e, (s1, s.2)) | None => second (computeValue secondary q) (s1, s.2) end.

Definition staged_initial (q : Query) (objects : list array) : SM (S1 * S2) (option bindings) :=
  fun s =>
    let '(r, s1) := i_initial primary q objects s.1 in
    match r with Some b => (Success b, (s1, s.2)) | None => second (computeInitialValues secondary q objects) (s1, s.2) end.

Definition StagedSolverImpl : SolverImpl (S1 * S2) := MkSolver staged_truth staged_validity staged_value staged_initial.

Context (Inv1 : S1 -> Prop) (Inv2 : S2 -> Prop) (Q : Query -> Prop).
Context `{!IncompleteLaws primary Inv1 Q} `{!SolverLaws secondary Inv2 Q}.
Context (HQ : forall q, Q q -> Q (negateExpr q)).

Definition staged_inv (s : S1 * S2) : Prop := Inv1 s.1 /\ Inv2 s.2.

Lemma second_returns {A} (m : SM S2 A) P : returns Inv2 m P -> returns staged_inv (second m) P.
Proof.
  intros H [s1 s2] [H1 H2]. unfold second. cbn in *. specialize (H s2 H2). destruct (m s2) as [r s2']. destruct H. by split.
Qed.

(** Running [m] after the first solver has changed its state. *)
Lemma staged_step {A} (m : SM (S1 * S2) A) P (s1 : S1) (s2 : S2) : returns staged_inv m P -> Inv1 s1 -> Inv2 s2 ->
  let '(r, s') := m (s1, s2) in staged_inv s' /\ match r with Success a => P a | Failure => Logic.True | Stopped => False end.
Proof. intros H H1 H2. by apply H. Qed.

#[export] Instance staged_laws : SolverLaws StagedSolverImpl staged_inv Q.
Proof.
  split; cbn [StagedSolverImpl computeTruth computeValidity computeValue computeInitialValues].
  - intros q Hq Hw [s1 s2] [H1 H2]. unfold staged_truth. cbn [fst snd] in *. pose proof (i_truth_law q s1 Hq Hw H1) as Hp.
    destruct (i_truth primary q s1) as [pv s1']. destruct Hp as [Hs1 Hp]. case_decide as E.
    + by apply staged_step; [apply second_returns; by apply (truth_law (Q := Q))| |].
    + split; [done|]. rewrite bool_decide_eq_true. by destruct pv.
  - intros q Hq Hw [s1 s2] [H1 H2]. unfold staged_validity. cbn [fst snd] in *. pose proof (i_validity_law q s1 Hq Hw H1) as Hp.
    destruct (i_validity primary q s1) as [pv s1']. destruct Hp as [Hs1 Hp]. apply staged_step; [|done|done].
    destruct pv; cbn in Hp; try (by apply returns_ret).
    + eapply returns_bind; [apply second_returns; by apply (truth_law (Q := Q))|]. intros [] Hb; cbv beta in Hb; apply returns_ret; cbn; [by apply Hb|naive_solver].
    + eapply returns_bind; [apply second_returns; apply (truth_law (Q := Q)); [auto|by apply negate_wf]|].
      intros [] Hb; cbv beta in Hb; rewrite negate_valid in Hb by done; apply returns_ret; cbn; [by apply Hb|naive_solver].
    + apply second_returns. by apply (validity_law (Q := Q)).
  - intros q Hq Hc Hg [s1 s2] [H1 H2]. unfold staged_value. cbn [fst snd] in *. pose proof (i_value_law q s1 Hq Hc Hg H1) as Hp.
    destruct (i_value primary q s1) as [[e|] s1']; destruct Hp as [Hs1 Hp]; [split; [done|]; by apply Hp|].
    by apply staged_step; [apply second_returns; by apply (value_law (Q := Q))| |].
  - intros q objects Hq Hw [s1 s2] [H1 H2]. unfold staged_initial. cbn [fst snd] in *. pose proof (i_initial_law q objects s1 Hq Hw H1) as Hp.
    destruct (i_initial primary q objects s1) as [[b|] s1']; destruct Hp as [Hs1 Hp]; [by split|].
    by apply staged_step; [apply second_returns; by apply (initial_law (Q := Q))| |].
Qed.

End staged.

(** ** The cache *)

(** An entry: the summary of the constraints, the query, the answer. *)
Record CacheEntry := MkEntry { ce_constraints : expr; ce_query : expr; ce_result : PartialValidity }.
Definition cache := list CacheEntry.

Definition entry_matches (c e : expr) (ce : CacheEntry) : bool := expr_eqb (ce_constraints ce) c && expr_eqb (ce_query ce) e.

Section caching.

(** [compare(a, b) < 0]: any order of expressions will do. *)
Context (less : expr -> expr -> bool).

(** The canonical query, and whether it is the negated one. *)
Definition canonicalizeQuery (e : expr) : expr * bool :=
  let negated := createIsZero e in if less e negated then (e, false) else (negated, true).

Definition cacheLookup (q : Query) (c : cache) : option PartialValidity :=
  let '(e, negationUsed) := canonicalizeQuery (q_expr q) in
  ce ← List.find (entry_matches (cm_summary (q_constraints q)) e) c;
  if negationUsed : bool then negatePartialValidity (ce_result ce) else Some (ce_result ce).

(** [unordered_map::insert] leaves an entry that is already there. *)
Definition cacheInsert (q : Query) (pv : PartialValidity) (c : cache) : cache :=
  let '(e, negationUsed) := canonicalizeQuery (q_expr q) in
  match List.find (entry_matches (cm_summary (q_constraints q)) e) c with
  | Some _ => c
  | None =>
      match (if negationUsed : bool then negatePartialValidity pv else Some pv) with
      | Some pv => MkEntry (cm_summary (q_constraints q)) e pv :: c
      | None => c
      end
  end.

Section solver.
Context {S : Type} (solver : SolverImpl S).

Definition below {A} (m : SM S A) : SM (cache * S) A := fun s => let '(r, s2) := m s.2 in (r, (s.1, s2)).
Definition remember (q : Query) (pv : PartialValidity) : SM (cache * S) unit := fun s => (Success tt, (cacheInsert q pv s.1, s.2)).

Definition caching_validity (q : Query) : SM (cache * S) Validity :=
  fun s =>
    match cacheLookup q s.1 with
    | Some MustBeTrue => sret VTrue
    | Some MustBeFalse => sret VFalse
    | Some TrueOrFalse => sret VUnknown
    | Some MayBeTrue =>
        tmp <- below (computeTruth solver q);
        if (tmp : bool) then _ <- remember q MustBeTrue; sret VTrue else _ <- remember q TrueOrFalse; sret VUnknown
    | Some MayBeFalse =>
        tmp <- below (computeTruth solver (negateExpr q));
        if (tmp : bool) then _ <- remember q MustBeFalse; sret VFalse else _ <- remember q TrueOrFalse; sret VUnknown
    | Some PNone => sstop
    | None =>
        result <- below (computeValidity solver q);
        _ <- remember q (match result with VTrue => MustBeTrue | VFalse => MustBeFalse | VUnknown => TrueOrFalse end);
        sret result
    end s.

Definition caching_truth (q : Query) : SM (cache * S) bool :=
  fun s =>
    let hit := cacheLookup q s.1 in
    match hit with
    | Some MustBeTrue => sret true
    | Some MustBeFalse | Some MayBeFalse | Some TrueOrFalse | Some PNone => sret false
    | Some MayBeTrue | None =>
        isValid <- below (computeTruth solver q);
        _ <- remember q (if (isValid : bool) then MustBeTrue else match hit with Some _ => TrueOrFalse | None => MayBeFalse end);
        sret isValid
    end s.

Definition CachingSolver : SolverImpl (cache * S) :=
  MkSolver caching_truth caching_validity (fun q => below (computeValue solver q)) (fun q objects => below (computeInitialValues solver q objects)).

(** Every entry is right, whatever the constraints' size field says. *)
Definition entry_ok (ce : CacheEntry) : Prop :=
  ce_result ce <> PNone /\ forall n, has_partial (MkQuery (CM (ce_constraints ce) n) (ce_query ce)) (ce_result ce).

Context (Inv : S -> Prop) (Q : Query -> Prop) `{!SolverLaws solver Inv Q} (HQ : forall q, Q q -> Q (negateExpr q)).

Definition caching_inv (s : cache * S) : Prop := Forall entry_ok s.1 /\ Inv s.2.

Lemma query_eta q : q = MkQuery (CM (cm_summary (q_constraints q)) (cm_size (q_constraints q))) (q_expr q).
Proof. by destruct q as [[]]. Qed.

Lemma lookup_ok q c pv : wf_query q -> Forall entry_ok c -> cacheLookup q c = Some pv -> pv <> PNone /\ has_partial q pv.
Proof.
  intros Hq Hc. unfold cacheLookup, canonicalizeQuery. cbv zeta. destruct (less _ _); intros (ce & Hf & E)%bind_Some;
    apply List.find_some in Hf as [Hin Hm]; apply andb_prop in Hm as [H1%expr_eqb_eq H2%expr_eqb_eq];
    apply list_elem_of_In in Hin; pose proof (proj1 (Forall_forall _ _) Hc ce Hin) as [Hn Hp];
    specialize (Hp (cm_size (q_constraints q))); rewrite H1, H2 in Hp.
  - injection E as <-. split; [done|]. by rewrite (query_eta q).
  - split; [by intros ->; destruct (ce_result ce)|]. eapply negate_partial; [done| |exact E].
    replace (negateExpr q) with (MkQuery (CM (cm_summary (q_constraints q)) (cm_size (q_constraints q))) (createIsZero (q_expr q))); [done|].
    by destruct q as [[]].
Qed.

Lemma insert_ok q c pv : wf_query q -> Forall entry_ok c -> pv <> PNone -> has_partial q pv -> Forall entry_ok (cacheInsert q pv c).
Proof.
  intros Hq Hc Hn Hp.
  unfold cacheInsert, canonicalizeQuery. cbv zeta. destruct (less _ _).
  - destruct (List.find _ c); [done|]. constructor; [|done]. split; [done|]. intros n. by destruct pv.
  - destruct (List.find _ c); [done|]. destruct (negatePartialValidity pv) as [pv'|] eqn:E; [|done]. constructor; [|done].
    split; [cbn; by intros ->; destruct pv|]. intros n. pose proof (partial_negate q pv pv' Hq Hp E) as H. by destruct pv'.
Qed.

Lemma below_returns {A} (m : SM S A) P : returns Inv m P -> returns caching_inv (below m) P.
Proof. intros H [c s] [H1 H2]. unfold below. cbn in *. specialize (H s H2). destruct (m s) as [r s2]. destruct H. by split. Qed.

Lemma remember_returns q pv : wf_query q -> pv <> PNone -> has_partial q pv -> returns caching_inv (remember q pv) (fun _ => Logic.True).
Proof. intros Hq Hn Hp [c s] [H1 H2]. split; [|done]. split; [by apply insert_ok|done]. Qed.

Lemma remember_then {A} q pv (a : A) (P : A -> Prop) :
  wf_query q -> pv <> PNone -> has_partial q pv -> P a -> returns caching_inv (_ <- remember q pv; sret a) P.
Proof. intros Hq Hn Hp Ha. eapply returns_bind; [by apply remember_returns|]. intros _ _. by apply returns_ret. Qed.

Lemma caching_truth_law q : Q q -> wf_query q -> returns caching_inv (caching_truth q) (fun b => b = true <-> valid q).
Proof.
  intros Hq Hw s Hs. unfold caching_truth. cbv zeta. pose proof (lookup_ok q s.1) as Hl.
  destruct (cacheLookup q s.1) as [pv|]; [specialize (Hl pv Hw (proj1 Hs) eq_refl) as [Hn Hp]; destruct pv; cbn in Hp; try done|];
    match goal with |- let '(r, s') := ?m s in _ => enough (returns caching_inv m (fun b => b = true <-> valid q)) as H by (by apply H) end;
    try (apply returns_ret; naive_solver).
  - apply returns_ret. split; [done|]. intros Hv. exfalso. by apply (valid_refuted q (proj1 Hw)).
  - eapply returns_bind; [apply below_returns; by apply (truth_law (Q := Q))|]. intros [] Hb; cbv beta in Hb; apply remember_then; cbn; try done; naive_solver.
  - eapply returns_bind; [apply below_returns; by apply (truth_law (Q := Q))|]. intros [] Hb; cbv beta in Hb; apply remember_then; cbn; try done; naive_solver.
Qed.

Lemma caching_validity_law q : Q q -> wf_query q -> returns caching_inv (caching_validity q) (has_validity q).
Proof.
  intros Hq Hw s Hs. unfold caching_validity. pose proof (lookup_ok q s.1) as Hl.
  destruct (cacheLookup q s.1) as [pv|]; [specialize (Hl pv Hw (proj1 Hs) eq_refl) as [Hn Hp]; destruct pv; cbn in Hp; try done|];
    match goal with |- let '(r, s') := ?m s in _ => enough (returns caching_inv m (has_validity q)) as H by (by apply H) end;
    try (by apply returns_ret).
  - eapply returns_bind; [apply below_returns; by apply (truth_law (Q := Q))|]. intros [] Hb; cbv beta in Hb; apply remember_then; cbn; try done; naive_solver.
  - eapply returns_bind; [apply below_returns; apply (truth_law (Q := Q)); [auto|by apply negate_wf]|].
    intros [] Hb; cbv beta in Hb; rewrite negate_valid in Hb by done; apply remember_then; cbn; try done; naive_solver.
  - eapply returns_bind; [apply below_returns; by apply (validity_law (Q := Q))|]. intros [] Hb; apply remember_then; cbn in *; try done.
Qed.

#[export] Instance caching_laws : SolverLaws CachingSolver caching_inv Q.
Proof.
  split; [apply caching_truth_law|apply caching_validity_law| |].
  - intros q Hq Hc Hg. apply below_returns. by apply (value_law (Q := Q)).
  - intros q objects Hq Hw. apply below_returns. by apply (initial_law (Q := Q)).
Qed.

End solver.

(** An answer that is refined later stays as it was in the cache. *)
Lemma cache_never_refined q pv c : cacheLookup q c <> None -> cacheInsert q pv c = c.
Proof.
  unfold cacheLookup, cacheInsert. destruct (canonicalizeQuery (q_expr q)) as [e neg]. by destruct (List.find _ c).
Qed.

End caching.
