(* ===== verification/Independent.v ===== *)
(** * Independent constraints ([lib/Solver/IndependentSolver.cpp], [findReads] of [lib/Expr/ExprUtil.cpp])

    A query needs only the constraints that read, directly or through other
    constraints, a byte that the query reads.  [findReads] collects the reads of
    an expression with a stack, [getDependentConstraints] closes the set of bytes
    over the constraints.  Dropping the other constraints does not change any
    answer, as long as they are satisfiable and no update copies from a symbolic
    array.  The cache of the reads of an expression is left out. *)

From stdpp Require Import base gmap list.
From Stdlib Require Import ZArith Lia.
From S2P Require Import Prelude BitVec Expr ExprCreate ExprSound ExprBits ExprVisit Constraints Solver SolverChain.

(** ** Reads *)

Definition kids (e : expr) : list expr :=
  match e with
  | Constant _ _ => []
  | NotOptimized a | Extract a _ _ | ZExt a _ | SExt a _ | Not a | Read _ _ a => [a]
  | Select a b c => [a; b; c]
  | Concat a b | Bin _ a b | Cmp _ a b | Implies a b => [a; b]
  end.

(** The expressions in an update list, in the order they are pushed.  The array
    that a multi-byte update copies from is pushed only if it is constrained by
    a quantifier. *)
Fixpoint update_exprs (u : updates) : list expr :=
  match u with
  | UNull => []
  | USingle g i v next => g :: i :: v :: update_exprs next
  | UMulti g _ next => g :: update_exprs next
  end.

(** The stack, whose top is the head, and the visited expressions. *)
Definition addToStack (sv : list expr * list expr) (e : expr) : list expr * list expr :=
  if isa_Constant e || existsb (expr_eqb e) sv.2 then sv else (e :: sv.1, e :: sv.2).

Section find_reads.
Context (visitUpdates : bool).

Fixpoint findReads_loop (n : nat) (sv : list expr * list expr) (ups : list updates) (acc : list expr) : option (list expr) :=
  match sv with
  | ([], _) => Some acc
  | (top :: stack, visited) =>
      match n with
      | O => None
      | S n =>
          match top with
          | Read _ head index =>
              let sv := addToStack (stack, visited) index in
              if visitUpdates && negb (existsb (updates_eqb head) ups)
              then findReads_loop n (fold_left addToStack (update_exprs head) sv) (head :: ups) (acc ++ [top])
              else findReads_loop n sv ups (acc ++ [top])
          | _ => findReads_loop n (fold_left addToStack (kids top) (stack, visited)) ups acc
          end
      end
  end.

End find_reads.

(** All subexpressions, those of update lists included. *)
Fixpoint subs (e : expr) : list expr :=
  e :: match e with
       | Constant _ _ => []
       | NotOptimized a | Extract a _ _ | ZExt a _ | SExt a _ | Not a => subs a
       | Read _ head a => subs_updates head ++ subs a
       | Select a b c => subs a ++ subs b ++ subs c
       | Concat a b | Bin _ a b | Cmp _ a b | Implies a b => subs a ++ subs b
       end
with subs_updates (u : updates) : list expr :=
  match u with
  | UNull => []
  | USingle g i v next => subs g ++ subs i ++ subs v ++ subs_updates next
  | UMulti g _ next => subs g ++ subs_updates next
  end.

(** Every iteration takes a subexpression that was not taken before. *)
Definition findReads (visitUpdates : bool) (e : expr) : option (list expr) :=
  if isa_Constant e then Some [] else findReads_loop visitUpdates (length (subs e)) ([e], [e]) [] [].

(** ** Sets of bytes *)

#[export] Instance array_countable : Countable array.
Proof.
  apply (inj_countable' (fun a => match a with Symbolic z => inl z | ConstantInitialValues vs => inr vs end)
    (fun s => match s with inl z => Symbolic z | inr vs => ConstantInitialValues vs end)). by intros [].
Defined.

Record IndependentElementSet := IES { elements : gmap array (gset Z); wholeObjects : gset array }.

Definition ies_empty : IndependentElementSet := IES ∅ ∅.

(** One step of the constructor. *)
Definition ies_read (s : IndependentElementSet) (re : expr) : IndependentElementSet :=
  match re with
  | Read array _ index =>
      if decide (array ∈ wholeObjects s) then s
      else
        match index with
        | Constant _ v => IES (<[array := default ∅ (elements s !! array) ∪ {[u32 v]}]> (elements s)) (wholeObjects s)
        | _ => IES (delete array (elements s)) (wholeObjects s ∪ {[array]})
        end
  | _ => s
  end.

Definition ies_of (e : expr) : option IndependentElementSet := rs ← findReads true e; Some (fold_left ies_read rs ies_empty).

Definition intersects (a b : IndependentElementSet) : bool :=
  existsb (fun array => bool_decide (array ∈ wholeObjects b) || bool_decide (is_Some (elements b !! array)))
    (base.elements (wholeObjects a)) ||
  existsb (fun p => bool_decide (p.1 ∈ wholeObjects b) ||
      match elements b !! p.1 with Some s => bool_decide (p.2 ∩ s <> ∅) | None => false end)
    (map_to_list (elements a)).

(** [add] for a whole object of [b], and for the bytes of one of its arrays;
    the flag tells whether the set changed. *)
Definition add_whole (ms : bool * IndependentElementSet) (array : array) : bool * IndependentElementSet :=
  let '(m, s) := ms in
  if decide (is_Some (elements s !! array)) then (true, IES (delete array (elements s)) (wholeObjects s ∪ {[array]}))
  else if decide (array ∈ wholeObjects s) then (m, s)
  else (true, IES (elements s) (wholeObjects s ∪ {[array]})).

Definition add_elements (ms : bool * IndependentElementSet) (p : array * gset Z) : bool * IndependentElementSet :=
  let '(m, s) := ms in
  if decide (p.1 ∈ wholeObjects s) then (m, s)
  else
    match elements s !! p.1 with
    | None => (true, IES (<[p.1 := p.2]> (elements s)) (wholeObjects s))
    | Some d => (m || bool_decide (~ p.2 ⊆ d), IES (<[p.1 := d ∪ p.2]> (elements s)) (wholeObjects s))
    end.

Definition ies_add (a b : IndependentElementSet) : bool * IndependentElementSet :=
  fold_left add_elements (map_to_list (elements b)) (fold_left add_whole (base.elements (wholeObjects b)) (false, a)).

(** ** The closure *)

Notation item := (expr * IndependentElementSet)%type.

(** One pass over the work list: what is taken, what is left, the closure and
    whether it changed. *)
Fixpoint pass (ws : list item) (closure : IndependentElementSet) : list expr * list item * IndependentElementSet * bool :=
  match ws with
  | [] => ([], [], closure, false)
  | (e, iset) :: ws =>
      if intersects iset closure then
        let '(m, closure) := ies_add closure iset in
        let '(taken, rest, closure, changed) := pass ws closure in
        (e :: taken, rest, closure, m || changed)
      else
        let '(taken, rest, closure, changed) := pass ws closure in
        (taken, (e, iset) :: rest, closure, changed)
  end.

Fixpoint rounds (n : nat) (ws : list item) (closure : IndependentElementSet) (result : list expr) :
    option (list expr * list item * IndependentElementSet) :=
  match n with
  | O => None
  | S n =>
      let '(taken, rest, closure, changed) := pass ws closure in
      if changed : bool then rounds n rest closure (result ++ taken) else Some (result ++ taken, rest, closure)
  end.

Definition worklist (es : list expr) : option (list item) := mapM (fun e => s ← ies_of e; Some (e, s)) es.

(** A pass that changes the closure takes an item, so one more pass than there
    are items is enough. *)
Definition dependent (q : Query) : option (list expr * list item * IndependentElementSet) :=
  closure ← ies_of (q_expr q);
  ws ← worklist (cm_terms (q_constraints q));
  rounds (S (length ws)) ws closure [].

Definition getDependentConstraints (q : Query) : option (list expr) := fst <$> (fst <$> dependent q).

(** The set made from that vector. *)
Definition in_dependent_set (q : Query) (e : expr) : bool :=
  match getDependentConstraints q with Some es => existsb (expr_eqb e) es | None => false end.

(** ** The solver *)

Definition reduced (q : Query) : Query :=
  MkQuery (cm_of_list (default [] (getDependentConstraints q))) (q_expr q).


(** ** All reads are found *)

(** What is pushed for an expression. *)
Definition children (e : expr) : list expr := match e with Read _ head index => index :: update_exprs head | _ => kids e end.

Definition nonconst (e : expr) : Prop := isa_Constant e = false.

Lemma existsb_elem e es : existsb (expr_eqb e) es = true <-> e ∈ es.
Proof.
  rewrite existsb_exists. split.
  - intros (x & Hx & E%expr_eqb_eq). subst. by apply list_elem_of_In.
  - intros H. exists e. split; [by apply list_elem_of_In|by apply expr_eqb_eq].
Qed.

(** Pushing keeps the visited expressions without duplicates and the stack a
    part of them; it adds what it should and nothing else. *)
Record pushed (es : list expr) (sv sv' : list expr * list expr) : Prop := {
  pushed_new : exists new, sv'.1 = new ++ sv.1 /\ sv'.2 = new ++ sv.2 /\ (forall x, x ∈ new -> x ∈ es /\ nonconst x);
  pushed_nodup : NoDup sv.2 -> NoDup sv'.2;
  pushed_all : forall x, x ∈ es -> nonconst x -> x ∈ sv'.2;
}.

Lemma pushed_nothing es sv : (forall x, x ∈ es -> nonconst x -> x ∈ sv.2) -> pushed es sv sv.
Proof. intros H. split; [|done|done]. exists []. split; [done|]. split; [done|]. by intros x []%elem_of_nil. Qed.

Lemma addToStack_pushed e sv : pushed [e] sv (addToStack sv e).
Proof.
  unfold addToStack. destruct sv as [st vis]. cbn. destruct (isa_Constant e) eqn:Ec; cbn.
  { apply pushed_nothing. intros x ->%list_elem_of_singleton Hx. unfold nonconst in Hx. congruence. }
  destruct (existsb (expr_eqb e) vis) eqn:Ev.
  - apply pushed_nothing. intros x ->%list_elem_of_singleton _. by apply existsb_elem.
  - split; cbn.
    + exists [e]. split; [done|]. split; [done|]. intros x ->%list_elem_of_singleton. split; [set_solver|done].
    + intros Hnd. apply NoDup_cons. split; [|done]. rewrite <- existsb_elem. congruence.
    + intros x ->%list_elem_of_singleton _. apply list_elem_of_here.
Qed.

Lemma pushed_cons e es sv sv1 sv2 : pushed [e] sv sv1 -> pushed es sv1 sv2 -> pushed (e :: es) sv sv2.
Proof.
  intros [(n1 & A1 & A2 & A3) B C] [(n2 & D1 & D2 & D3) F G]. split.
  - exists (n2 ++ n1). rewrite D1, D2, A1, A2, !app_assoc. split; [done|]. split; [done|].
    intros x [Hx|Hx]%elem_of_app; [apply D3 in Hx|apply A3 in Hx]; set_solver.
  - auto.
  - intros x [->|Hx]%elem_of_cons Hn; [|by apply G]. rewrite D2. apply elem_of_app. right. apply C; [set_solver|done].
Qed.

Lemma fold_pushed es sv : pushed es sv (fold_left addToStack es sv).
Proof.
  revert sv. induction es as [|e es IH]; intros sv; cbn.
  - apply pushed_nothing. by intros x []%elem_of_nil.
  - eapply pushed_cons; [apply addToStack_pushed|apply IH].
Qed.

(** The state of the loop: [seen] has been taken off the stack. *)
Record loop_ok (e0 : expr) (sv : list expr * list expr) (ups : list updates) (acc seen : list expr) : Prop := {
  lo_perm : sv.2 ≡ₚ seen ++ sv.1;
  lo_nodup : NoDup sv.2;
  lo_subs : forall x, x ∈ sv.2 -> x ∈ subs e0 /\ nonconst x;
  lo_closed : forall x y, x ∈ seen -> y ∈ children x -> nonconst y -> y ∈ sv.2;
  lo_ups : forall u y, u ∈ ups -> y ∈ update_exprs u -> nonconst y -> y ∈ sv.2;
  lo_acc : forall root head index, Read root head index ∈ seen -> Read root head index ∈ acc;
  lo_reads : forall x, x ∈ acc -> x ∈ subs e0 /\ exists root head index, x = Read root head index;
}.

Lemma subs_self e : e ∈ subs e.
Proof. destruct e; apply list_elem_of_here. Qed.

Lemma subs_children_upd :
  (forall e x, x ∈ subs e -> forall y, y ∈ children x -> y ∈ subs e) /\
  (forall u, (forall y, y ∈ update_exprs u -> y ∈ subs_updates u) /\
     forall x, x ∈ subs_updates u -> forall y, y ∈ children x -> y ∈ subs_updates u).
Proof.
  apply expr_updates_ind; cbn [subs subs_updates update_exprs]; intros; rewrite ?elem_of_cons, ?elem_of_app in *;
    repeat match goal with H : _ /\ _ |- _ => destruct H end; try (split; intros); rewrite ?elem_of_cons, ?elem_of_app in *;
    repeat match goal with
    | H : _ \/ _ |- _ => destruct H
    | H : _ ∈ [] |- _ => apply elem_of_nil in H; done
    | H : ?x = _ |- _ => subst x
    | H : _ ∈ children _ |- _ => cbn [children kids] in H; rewrite ?elem_of_cons, ?elem_of_nil in H
    end; try done; eauto 8 using subs_self.
Qed.

Lemma subs_children e x y : x ∈ subs e -> y ∈ children x -> y ∈ subs e.
Proof. intros. by apply (proj1 subs_children_upd e x). Qed.

(** One iteration: [top] is taken, [es] are pushed. *)
Lemma loop_step e0 top stack visited ups acc seen es sv' ups' acc' :
  loop_ok e0 (top :: stack, visited) ups acc seen -> pushed es (stack, visited) sv' ->
  (forall y, y ∈ es -> y ∈ children top) ->
  (forall y, y ∈ children top -> nonconst y -> y ∈ sv'.2) ->
  (forall u, u ∈ ups' -> u ∈ ups \/ forall y, y ∈ update_exprs u -> y ∈ es) ->
  (acc' = acc ++ [top] /\ (exists root head index, top = Read root head index) \/
   acc' = acc /\ forall root head index, top <> Read root head index) ->
  loop_ok e0 sv' ups' acc' (top :: seen).
Proof.
  intros [Hp Hnd Hs Hc Hu Ha Hr] [(new & E1 & E2 & Hnew) Hnd' Hall] Hes Htop Hups Hacc. cbn in *.
  assert (top ∈ visited) as Htv by (rewrite Hp; set_solver). split.
  - rewrite E1, E2, Hp. solve_Permutation.
  - auto.
  - intros x. rewrite E2. intros [Hx|Hx]%elem_of_app; [|by apply Hs]. apply Hnew in Hx as [Hx Hn]. split; [|done].
    apply (subs_children e0 top); [by apply Hs|auto].
  - intros x y [->|Hx]%elem_of_cons Hy Hn; [by apply Htop|]. rewrite E2. apply elem_of_app. right. by apply (Hc x).
  - intros u y Hin Hy Hn. destruct (Hups u Hin) as [H|H]; [rewrite E2; apply elem_of_app; right; by apply (Hu u)|]. apply Hall; auto.
  - intros root head index [E|Hx]%elem_of_cons; destruct Hacc as [[-> H]|[-> H]].
    + subst top. set_solver.
    + by destruct (H root head index).
    + apply elem_of_app. left. by apply Ha.
    + by apply Ha.
  - intros x Hx. destruct Hacc as [[-> H]|[-> H]]; [|by apply Hr]. apply elem_of_app in Hx as [Hx|Hx%list_elem_of_singleton]; [by apply Hr|].
    subst x. split; [by apply Hs|done].
Qed.

Lemma loop_bound e0 sv ups acc seen : loop_ok e0 sv ups acc seen -> (length seen + length sv.1 <= length (subs e0))%nat.
Proof.
  intros [Hp Hnd Hs _ _ _ _]. rewrite <- length_app, <- Hp. apply submseteq_length, NoDup_submseteq; [done|]. intros x Hx. by apply Hs.
Qed.

Lemma updates_eqb_eq a b : updates_eqb a b = true <-> a = b.
Proof. apply eqb_spec. Qed.

(** The loop ends with all of the reachable expressions seen. *)
Lemma findReads_loop_ok e0 n sv ups acc seen :
  loop_ok e0 sv ups acc seen -> (length (subs e0) <= n + length seen)%nat ->
  exists rs vis ups' seen', findReads_loop true n sv ups acc = Some rs /\ loop_ok e0 ([], vis) ups' rs seen' /\ seen ⊆ seen' /\ sv.2 ⊆ vis.
Proof.
  revert sv ups acc seen. induction n as [|n IH]; intros [[|top stack] visited] ups acc seen Hok Hn; cbn [findReads_loop].
  1, 3: by eexists _, _, _, _.
  { pose proof (loop_bound _ _ _ _ _ Hok) as Hb. cbn in Hb. lia. }
  pose proof (loop_bound _ _ _ _ _ Hok) as Hb. cbn in Hb.
  assert (forall es sv' ups' acc', loop_ok e0 sv' ups' acc' (top :: seen) -> pushed es (stack, visited) sv' ->
    exists rs vis ups'' seen', findReads_loop true n sv' ups' acc' = Some rs /\ loop_ok e0 ([], vis) ups'' rs seen' /\ seen ⊆ seen' /\ visited ⊆ vis) as Hrec.
  { intros es sv' ups' acc' Hok' [(new & _ & E2 & _) _ _]. destruct (IH _ _ _ _ Hok' ltac:(cbn; lia)) as (rs & vis & ups'' & seen' & E & Hl & H1 & H2).
    exists rs, vis, ups'', seen'. cbn in E2. rewrite E2 in H2. split; [done|]. split; [done|]. split; set_solver. }
  assert ((forall root head index, top <> Read root head index) ->
    exists rs vis ups'' seen', findReads_loop true n (fold_left addToStack (kids top) (stack, visited)) ups acc = Some rs /\
      loop_ok e0 ([], vis) ups'' rs seen' /\ seen ⊆ seen' /\ visited ⊆ vis) as Hother.
  { intros Hnr. pose proof (fold_pushed (kids top) (stack, visited)) as Hpu. apply (Hrec (kids top)); [|done].
    assert (children top = kids top) as Hch by (destruct top; try done; exfalso; by eapply Hnr).
    eapply loop_step; [done|done|by rewrite Hch|rewrite Hch; apply Hpu|auto|by right]. }
  destruct top as [| |root head index| | | | | | | | |]; try (by apply Hother). clear Hother.
  pose proof (addToStack_pushed index (stack, visited)) as H1. set (sv1 := addToStack (stack, visited) index) in *.
  destruct (existsb (updates_eqb head) ups) eqn:Eu; cbn [andb negb].
  - apply existsb_exists in Eu as (u & Hu%list_elem_of_In & E%updates_eqb_eq). subst u.
    apply (Hrec [index]); [|done]. eapply loop_step; [done|done| | |auto|left; split; [done|eauto]].
    + cbn. set_solver.
    + intros y [->|Hy]%elem_of_cons Hn'; [apply H1; [set_solver|done]|]. destruct H1 as [(new & _ & E2 & _) _ _]. rewrite E2. apply elem_of_app. right.
      by apply (lo_ups _ _ _ _ _ Hok head).
  - pose proof (pushed_cons index (update_exprs head) _ _ _ H1 (fold_pushed (update_exprs head) sv1)) as H2.
    apply (Hrec (index :: update_exprs head)); [|done]. eapply loop_step; [done|done|done|apply H2| |left; split; [done|eauto]].
    intros u [->|Hu]%elem_of_cons; [right; set_solver|by left].
Qed.

(** The expressions reachable from a set closed under [children]. *)
Lemma closed_subs (D : expr -> Prop) :
  (forall x y, D x -> y ∈ children x -> nonconst y -> D y) ->
  (forall e, (nonconst e -> D e) -> forall x, x ∈ subs e -> nonconst x -> D x) /\
  (forall u, (forall y, y ∈ update_exprs u -> nonconst y -> D y) -> forall x, x ∈ subs_updates u -> nonconst x -> D x).
Proof.
  intros Hcl.
  apply expr_updates_ind; cbn [subs subs_updates update_exprs]; intros; rewrite ?elem_of_cons, ?elem_of_app in *;
    repeat match goal with
    | H : _ \/ _ |- _ => destruct H
    | H : _ ∈ [] |- _ => apply elem_of_nil in H; done
    | H : ?x = _ |- _ => subst x
    end; auto;
    match goal with
    | IH : (nonconst ?e -> D ?e) -> _, H : _ ∈ subs ?e |- _ => apply IH; [|done|done]
    | IH : (forall y, y ∈ update_exprs ?u -> _ -> D y) -> _, H : _ ∈ subs_updates ?u |- _ => apply IH; [|done|done]
    end;
    intros; match goal with
    | Hd : nonconst ?e -> D ?e |- _ => apply (Hcl e); [by apply Hd|cbn [children kids]; set_solver|done]
    | _ => auto
    end.
  all: match goal with H : forall y, _ ∈ _ -> _ |- _ => apply H; [set_solver|done] end.
Qed.

Lemma findReads_complete e :
  exists rs, findReads true e = Some rs /\
    (forall root head index, Read root head index ∈ subs e -> Read root head index ∈ rs) /\
    (forall x, x ∈ rs -> x ∈ subs e /\ exists root head index, x = Read root head index).
Proof.
  unfold findReads. destruct (isa_Constant e) eqn:Ec.
  { exists []. split; [done|]. destruct e; try done. split; [|by intros x []%elem_of_nil]. intros ? ? ? H. cbn in H. set_solver. }
  assert (loop_ok e ([e], [e]) [] [] []) as Hinit.
  { split; cbn; try (by intros; set_solver).
    - apply NoDup_singleton.
    - intros x ->%list_elem_of_singleton. split; [apply subs_self|done]. }
  destruct (findReads_loop_ok e (length (subs e)) _ _ _ _ Hinit ltac:(cbn; lia)) as (rs & vis & ups & seen & E & Hok & _ & Hv).
  exists rs. split; [done|]. destruct Hok as [Hp _ _ Hc _ Ha Hr]. cbn in *. rewrite app_nil_r in Hp. split; [|done].
  intros root head index Hin. apply Ha. rewrite <- Hp.
  assert (forall x y, x ∈ vis -> y ∈ children x -> nonconst y -> y ∈ vis) as Hcl by (intros x y Hx; rewrite Hp in Hx; by apply Hc).
  apply (proj1 (closed_subs (fun x => x ∈ vis) Hcl) e); [|done|done].
  intros _. apply Hv. set_solver.
Qed.

(** ** A value depends on the bytes of its set only *)

(** No update copies from another array. *)
Fixpoint single (e : expr) : bool :=
  match e with
  | Constant _ _ => true
  | NotOptimized a | Extract a _ _ | ZExt a _ | SExt a _ | Not a => single a
  | Read _ head a => single_updates head && single a
  | Select a b c => single a && single b && single c
  | Concat a b | Bin _ a b | Cmp _ a b | Implies a b => single a && single b
  end
with single_updates (u : updates) : bool :=
  match u with
  | UNull => true
  | USingle g i v next => single g && single i && single v && single_updates next
  | UMulti _ _ _ => false
  end.

Definition covered (s : IndependentElementSet) (a : array) (i : Z) : Prop :=
  a ∈ wholeObjects s \/ exists d, elements s !! a = Some d /\ i ∈ d.

#[export] Instance covered_dec s a i : Decision (covered s a i).
Proof.
  destruct (decide (a ∈ wholeObjects s)) as [|Hn]; [by left; left|].
  destruct (elements s !! a) as [d|] eqn:E; [destruct (decide (i ∈ d))|].
  - left. right. by exists d.
  - right. intros [|(d' & Hd & Hi)]; [done|]. congruence.
  - right. intros [|(d' & Hd & Hi)]; [done|]. congruence.
Defined.

Definition read_covered (s : IndependentElementSet) (root : array) (index : expr) : Prop :=
  (exists w v, index = Constant w v /\ covered s root (u32 v)) \/ forall i, covered s root i.

Definition covers (s : IndependentElementSet) (es : list expr) : Prop :=
  forall root head index, Read root head index ∈ es -> read_covered s root index.

Lemma read_covered_mono s s' root index :
  (forall a i, covered s a i -> covered s' a i) -> read_covered s root index -> read_covered s' root index.
Proof. intros H [(w & v & -> & Hc)|Hc]; [left; eauto|right; auto]. Qed.

Lemma ies_read_mono s re a i : covered s a i -> covered (ies_read s re) a i.
Proof.
  intros H. destruct re as [| |root head index| | | | | | | | |]; try done. cbn. case_decide as Hw; [done|].
  destruct H as [H|(d & Hd & Hi)].
  - left. destruct index; cbn; set_solver.
  - assert (forall s', s' = IES (delete root (elements s)) (wholeObjects s ∪ {[root]}) -> covered s' a i) as Hdel.
    { intros ? ->. destruct (decide (a = root)) as [->|]; [left; cbn; set_solver|]. right. exists d. cbn. by rewrite lookup_delete_ne. }
    destruct index; try (by apply Hdel). right. cbn. destruct (decide (a = root)) as [->|].
    + rewrite lookup_insert_eq, Hd. cbn. eexists. split; [done|]. set_solver.
    + rewrite lookup_insert_ne by done. by exists d.
Qed.

Lemma ies_read_covers s root head index : read_covered (ies_read s (Read root head index)) root index.
Proof.
  cbn. case_decide as Hw; [right; intros i; by left|]. destruct index; try (right; intros i; left; cbn; set_solver).
  left. eexists _, _. split; [done|]. right. cbn. rewrite lookup_insert_eq. eexists. split; [done|]. set_solver.
Qed.

Lemma fold_ies_covers rs s :
  (forall a i, covered s a i -> covered (fold_left ies_read rs s) a i) /\ covers (fold_left ies_read rs s) rs.
Proof.
  revert s. induction rs as [|r rs IH]; intros s; cbn; [split; [done|]; by intros ? ? ? []%elem_of_nil|].
  destruct (IH (ies_read s r)) as [Hm Hc]. split; [intros a i H; by apply Hm, ies_read_mono|].
  intros root head index [<-|Hin]%elem_of_cons; [|by apply Hc with head]. eapply read_covered_mono; [apply Hm|apply ies_read_covers].
Qed.

Lemma ies_of_covers e : exists s, ies_of e = Some s /\ covers s (subs e).
Proof.
  destruct (findReads_complete e) as (rs & E & Hin & _). unfold ies_of. rewrite E. cbn. eexists. split; [done|].
  intros root head index H. apply Hin in H. by apply (proj2 (fold_ies_covers rs ies_empty) root head).
Qed.

Lemma eval_agree s rho rho' :
  (forall a i, covered s a i -> rho a i = rho' a i) ->
  (forall e, good e -> single e = true -> covers s (subs e) -> eval rho e = eval rho' e) /\
  (forall u, good_updates u -> single_updates u = true -> covers s (subs_updates u) ->
     forall i below, eval_updates rho u i below = eval_updates rho' u i below).
Proof.
  intros Hag.
  assert (forall a i, covered s a i -> array_byte rho a i = array_byte rho' a i) as Hbyte.
  { intros a i H. unfold array_byte. by rewrite (Hag a i H). }
  assert (forall es es', covers s es -> (forall x, x ∈ es' -> x ∈ es) -> covers s es') as Hsub.
  { intros es es' H Hs root head index Hin. by apply (H root head index), Hs. }
  apply expr_updates_ind; cbn [good good_updates single single_updates eval eval_updates subs subs_updates]; intros; try done;
    repeat match goal with
    | H : _ /\ _ |- _ => destruct H
    | H : _ && _ = true |- _ => apply andb_prop in H
    end.
  all: repeat match goal with
    | IH : good ?e -> single ?e = true -> _ -> eval _ ?e = _ |- _ =>
        rewrite (IH ltac:(done) ltac:(done) ltac:(eapply Hsub; [eassumption|set_solver])); clear IH
    | IH : good_updates ?u -> _ |- _ => rewrite (IH ltac:(done) ltac:(done) ltac:(eapply Hsub; [eassumption|set_solver])); clear IH
    end; try done.
  f_equal. match goal with Hc : covers s (Read _ _ _ :: _) |- _ => destruct (Hc root head index ltac:(set_solver)) as [(w & v & -> & Hr)|Hr] end;
    [|by apply Hbyte].
  match goal with Hg : good (Constant w v) |- _ => destruct Hg as [_ Hg]; cbn in * end. subst w. unfold u32 in Hr.
  rewrite Z.mod_small in Hr by done. by apply Hbyte.
Qed.

(** ** The operations on sets *)

Lemma intersects_disjoint a b arr i : intersects a b = false -> covered a arr i -> ~ covered b arr i.
Proof.
  intros H Ha Hb. unfold intersects in H. apply orb_false_elim in H as [H1 H2].
  assert (forall arr, arr ∈ wholeObjects a -> arr ∉ wholeObjects b /\ elements b !! arr = None) as Hw.
  { intros r Hr. destruct (existsb _ (base.elements _)) eqn:E in H1; [done|]. apply Bool.not_true_iff_false in E. rewrite existsb_exists in E.
    split; [intros Hrb|apply eq_None_not_Some; intros Hrb]; apply E; exists r; (split; [apply list_elem_of_In; set_solver|]).
    - by rewrite bool_decide_true.
    - rewrite (bool_decide_true (is_Some _)) by done. apply orb_true_r. }
  assert (forall r d, elements a !! r = Some d -> r ∉ wholeObjects b /\ forall d', elements b !! r = Some d' -> d ∩ d' = ∅) as He.
  { intros r d Hr. apply Bool.not_true_iff_false in H2. rewrite existsb_exists in H2.
    assert (In (r, d) (map_to_list (elements a))) as Hin by (by apply list_elem_of_In, elem_of_map_to_list).
    split; [intros Hrb; apply H2; exists (r, d); split; [done|]; cbn; by rewrite bool_decide_true|].
    intros d' Hd'. destruct (decide (d ∩ d' = ∅)) as [|Hne]; [done|]. exfalso. apply H2. exists (r, d). split; [done|]. cbn. rewrite Hd'.
    rewrite (bool_decide_true (d ∩ d' <> ∅)) by done. apply orb_true_r. }
  destruct Ha as [Ha|(d & Hd & Hi)], Hb as [Hb|(d' & Hd' & Hi')].
  - by destruct (Hw arr Ha).
  - destruct (Hw arr Ha). congruence.
  - by destruct (He arr d Hd).
  - destruct (He arr d Hd) as [_ H]. specialize (H d' Hd'). set_solver.
Qed.

(** [ms] after adding: it covers at least what [s] and [new] cover, and exactly
    what [s] covers if the flag is down. *)
Record grows (s : IndependentElementSet) (new : array -> Z -> Prop) (ms : bool * IndependentElementSet) : Prop := {
  grow_old : forall a i, covered s a i -> covered ms.2 a i;
  grow_new : forall a i, new a i -> covered ms.2 a i;
  grow_same : ms.1 = false -> forall a i, covered ms.2 a i -> covered s a i;
}.

Lemma add_whole_grows s n ms arr :
  grows s n ms -> grows s (fun a i => n a i \/ a = arr) (add_whole ms arr).
Proof.
  destruct ms as [m t]. intros [Ho Hn Hs]. cbn in *. unfold add_whole.
  assert (forall t', (forall a i, covered t a i -> covered t' a i) -> (forall i, covered t' arr i) ->
    grows s (fun a i => n a i \/ a = arr) (true, t')) as Hchg.
  { intros t' Ht Ha. split; cbn; [auto|intros a i [H| ->]; auto|done]. }
  case_decide as Hd; [|case_decide as Hw].
  - apply Hchg; [|intros i; left; cbn; set_solver]. intros a i [H|(d & H & Hi)]; [left; cbn; set_solver|].
    destruct (decide (a = arr)) as [->|]; [left; cbn; set_solver|]. right. exists d. cbn. by rewrite lookup_delete_ne.
  - split; cbn; [done|intros a i [H| ->]; [auto|by left]|done].
  - apply Hchg; [|intros i; left; cbn; set_solver]. intros a i [H|H]; [left; cbn; set_solver|by right].
Qed.

Lemma add_elements_grows s n ms p :
  grows s n ms -> grows s (fun a i => n a i \/ (a = p.1 /\ i ∈ p.2)) (add_elements ms p).
Proof.
  destruct ms as [m t], p as [arr d]. intros [Ho Hn Hs]. cbn in *. unfold add_elements. cbn. case_decide as Hw.
  { split; cbn; [done|intros a i [H|[-> H]]; [auto|by left]|done]. }
  assert (forall d' m', (forall d0, elements t !! arr = Some d0 -> d0 ⊆ d') -> d ⊆ d' ->
    (m' = false -> m = false /\ elements t !! arr = Some d') ->
    grows s (fun a i => n a i \/ (a = arr /\ i ∈ d)) (m', IES (<[arr := d']> (elements t)) (wholeObjects t))) as Hins.
  { intros d' m' Hsub Hdd Hm. set (t' := IES _ _).
    assert (forall a i, covered t a i -> covered t' a i) as Ht.
    { intros a i [H|(d0 & H & Hi)]; [by left|]. right. cbn. destruct (decide (a = arr)) as [->|].
      - rewrite lookup_insert_eq. eexists. split; [done|]. by apply (Hsub d0).
      - rewrite lookup_insert_ne by done. by exists d0. }
    split; cbn.
    - auto.
    - intros a i [H|[-> H]]; [auto|]. right. cbn. rewrite lookup_insert_eq. eexists. split; [done|]. by apply Hdd.
    - intros E a i H. destruct (Hm E) as [-> Hd']. apply Hs; [done|]. destruct H as [H|(d0 & H & Hi)]; [by left|]. right. cbn in H.
      rewrite insert_id in H by done. by exists d0. }
  destruct (elements t !! arr) as [d0|] eqn:Ed; apply Hins.
  - intros ? [= <-]. set_solver.
  - set_solver.
  - intros [-> Hb%bool_decide_eq_false]%orb_false_elim. split; [done|]. f_equal. apply dec_stable in Hb. set_solver.
  - done.
  - done.
  - done.
Qed.

Lemma ies_add_grows a b : grows a (covered b) (ies_add a b).
Proof.
  unfold ies_add.
  assert (forall l n ms, grows a n ms -> grows a (fun r i => n r i \/ r ∈ l) (fold_left add_whole l ms)) as H1.
  { intros l. induction l as [|r l IH]; intros n ms H; cbn.
    - destruct H. split; [done| |done]. intros r i [|[]%elem_of_nil]. auto.
    - destruct (IH _ _ (add_whole_grows a n ms r H)) as [Ho Hn Hs]. split; [done| |done]. intros r' i H'. apply Hn. set_solver. }
  assert (forall l n ms, grows a n ms -> grows a (fun r i => n r i \/ exists d, (r, d) ∈ l /\ i ∈ d) (fold_left add_elements l ms)) as H2.
  { intros l. induction l as [|p l IH]; intros n ms H; cbn.
    - destruct H. split; [done| |done]. intros r i [|(d & []%elem_of_nil & _)]. auto.
    - destruct (IH _ _ (add_elements_grows a n ms p H)) as [Ho Hn Hs]. split; [done| |done].
      intros r i [H'|(d & [<-|Hd]%elem_of_cons & Hi)]; apply Hn; [by left; left|left; by right|right; eauto]. }
  destruct (H2 (map_to_list (elements b)) _ _ (H1 (base.elements (wholeObjects b)) (fun _ _ => False) (false, a) ltac:(by split))) as [Ho Hn Hs].
  split; [done| |done]. intros r i [Hr|(d & Hd & Hi)]; apply Hn; [left; right; set_solver|right]. exists d. split; [|done]. by apply elem_of_map_to_list.
Qed.

(** ** The closure is closed *)

Record pass_ok (ws : list item) (c : IndependentElementSet) (r : list expr * list item * IndependentElementSet * bool) : Prop := {
  po_perm : ws.*1 ≡ₚ r.1.1.1 ++ r.1.1.2.*1;
  po_rest : r.1.1.2 ⊆ ws;
  po_grow : forall a i, covered c a i -> covered r.1.2 a i;
  po_taken : forall e, e ∈ r.1.1.1 -> exists s, (e, s) ∈ ws /\ forall a i, covered s a i -> covered r.1.2 a i;
  po_done : r.2 = false -> (forall a i, covered r.1.2 a i -> covered c a i) /\
    forall e s, (e, s) ∈ r.1.1.2 -> forall a i, covered s a i -> ~ covered r.1.2 a i;
  po_short : r.2 = true -> (length r.1.1.2 < length ws)%nat;
}.

Lemma pass_spec ws c : pass_ok ws c (pass ws c).
Proof.
  revert c. induction ws as [|[e s] ws IH]; intros c; cbn [pass].
  { split; cbn; try done; try (by intros ? []%elem_of_nil). intros _. split; [done|]. by intros ? ? []%elem_of_nil. }
  destruct (intersects s c) eqn:Ei.
  - pose proof (ies_add_grows c s) as [Ho Hn Hs]. destruct (ies_add c s) as [m c1]. cbn in *. specialize (IH c1).
    destruct (pass ws c1) as [[[taken rest] c2] changed]. destruct IH as [Hp Hr Hg Ht Hd Hl]. cbn in *. split; cbn.
    + by rewrite Hp.
    + set_solver.
    + auto.
    + intros x [->|Hx]%elem_of_cons; [exists s; split; [set_solver|auto]|]. destruct (Ht x Hx) as (s' & ? & ?). exists s'. split; [set_solver|done].
    + intros [-> ->]%orb_false_elim. destruct (Hd eq_refl) as [Hd1 Hd2]. split; [auto|done].
    + intros _. destruct changed; [specialize (Hl eq_refl); lia|]. apply Permutation_length in Hp. rewrite length_app, !length_fmap in Hp. lia.
  - specialize (IH c). destruct (pass ws c) as [[[taken rest] c2] changed]. destruct IH as [Hp Hr Hg Ht Hd Hl]. cbn in *. split; cbn.
    + rewrite Hp. by rewrite Permutation_middle.
    + set_solver.
    + auto.
    + intros x Hx. destruct (Ht x Hx) as (s' & ? & ?). exists s'. split; [set_solver|done].
    + intros ->. destruct (Hd eq_refl) as [Hd1 Hd2]. split; [done|]. intros x s' [[= -> ->]|Hx]%elem_of_cons a i Hc; [|by apply (Hd2 x s')].
      intros Hc2. apply Hd1 in Hc2. by apply (intersects_disjoint s c a i Ei Hc).
    + intros E. specialize (Hl E). lia.
Qed.

Record closed (ws : list item) (c : IndependentElementSet) (res : list expr) (r : list expr * list item * IndependentElementSet) : Prop := {
  cl_perm : res ++ ws.*1 ≡ₚ r.1.1 ++ r.1.2.*1;
  cl_rest : r.1.2 ⊆ ws;
  cl_grow : forall a i, covered c a i -> covered r.2 a i;
  cl_taken : forall e, e ∈ r.1.1 -> e ∈ res \/ exists s, (e, s) ∈ ws /\ forall a i, covered s a i -> covered r.2 a i;
  cl_disjoint : forall e s, (e, s) ∈ r.1.2 -> forall a i, covered s a i -> ~ covered r.2 a i;
}.

Lemma rounds_spec n ws c res : (length ws < n)%nat -> exists r, rounds n ws c res = Some r /\ closed ws c res r.
Proof.
  revert ws c res. induction n as [|n IH]; intros ws c res Hn; [lia|]. cbn [rounds]. pose proof (pass_spec ws c) as Hp.
  destruct (pass ws c) as [[[taken rest] c1] changed]. destruct Hp as [Hperm Hrest Hgrow Htaken Hdone Hshort]. cbn in *. destruct changed.
  - destruct (IH rest c1 (res ++ taken)) as (r & -> & Hcl); [specialize (Hshort eq_refl); lia|]. exists r. split; [done|].
    destruct Hcl as [Cp Cr Cg Ct Cd]. split; [by rewrite <- Cp, Hperm, app_assoc|set_solver|auto| |done].
    intros e He. destruct (Ct e He) as [[H|H]%elem_of_app|(s & Hs & Hc)]; [by left| |right; exists s; split; [by apply Hrest|done]].
    right. destruct (Htaken e H) as (s & Hs & Hc). exists s. split; [done|]. auto.
  - eexists. split; [done|]. destruct (Hdone eq_refl) as [Hd1 Hd2]. split; cbn; [by rewrite Hperm, app_assoc|done|done| |done].
    intros e [H|H]%elem_of_app; [by left|right]. by apply Htaken.
Qed.

Lemma worklist_spec es : exists ws, worklist es = Some ws /\ ws.*1 = es /\ forall e s, (e, s) ∈ ws -> ies_of e = Some s.
Proof.
  induction es as [|e es IH]; [by exists []; split; [|split; [|intros ? ? []%elem_of_nil]]|]. destruct IH as (ws & E & Hf & Hs).
  destruct (ies_of_covers e) as (s & Es & _). exists ((e, s) :: ws). unfold worklist in *. cbn. rewrite Es. cbn. rewrite E. cbn. split; [done|].
  split; [by f_equal|]. intros e' s' [[= -> ->]|H]%elem_of_cons; auto.
Qed.

(** The constraints that are kept and those that are dropped. *)
Lemma dependent_spec q :
  exists req rest c, dependent q = Some (req, rest, c) /\ cm_terms (q_constraints q) ≡ₚ req ++ rest.*1 /\
    covers c (subs (q_expr q)) /\ (forall e, e ∈ req -> covers c (subs e)) /\
    (forall e, e ∈ rest.*1 -> exists s, covers s (subs e) /\ forall a i, covered s a i -> ~ covered c a i).
Proof.
  unfold dependent. destruct (ies_of_covers (q_expr q)) as (c0 & -> & Hc0). cbn. destruct (worklist_spec (cm_terms (q_constraints q))) as (ws & -> & Hf & Hs). cbn.
  destruct (rounds_spec (S (length ws)) ws c0 [] ltac:(lia)) as ([[req rest] c] & E & [Cp Cr Cg Ct Cd]). exists req, rest, c. split; [exact E|]. cbn in *.
  assert (forall s s' es, (forall a i, covered s a i -> covered s' a i) -> covers s es -> covers s' es) as Hmono.
  { intros s s' es H Hc root head index Hin. eapply read_covered_mono; [done|by apply (Hc root head index)]. }
  assert (forall e s, (e, s) ∈ ws -> covers s (subs e)) as Hws.
  { intros e s Hin. apply Hs in Hin. destruct (ies_of_covers e) as (s' & E' & Hc'). by assert (s = s') as -> by congruence. }
  split; [by rewrite <- Hf|]. split; [by apply (Hmono c0)|]. split.
  - intros e He. destruct (Ct e He) as [[]%elem_of_nil|(s & Hin & Hcov)]. apply (Hmono s); auto.
  - intros e (p & -> & Hin)%list_elem_of_fmap. destruct p as [e s]. exists s. split; [apply Hws, Cr, Hin|]. by apply (Cd e s).
Qed.

(** ** Dropping independent constraints changes no answer *)

Definition single_query (q : Query) : Prop := Forall (fun e => single e = true) (cm_terms (q_constraints q)) /\ single (q_expr q) = true.

(** [rho1] on the bytes of the closure, [rho2] elsewhere. *)
Definition mix (c : IndependentElementSet) (rho1 rho2 : assignment) : assignment :=
  fun a i => if decide (covered c a i) then rho1 a i else rho2 a i.

Lemma mix_in c rho1 rho2 a i : covered c a i -> mix c rho1 rho2 a i = rho1 a i.
Proof. intros. unfold mix. by rewrite decide_True. Qed.

Lemma mix_out c rho1 rho2 a i : ~ covered c a i -> mix c rho1 rho2 a i = rho2 a i.
Proof. intros. unfold mix. by rewrite decide_False. Qed.

Lemma of_list_spec es :
  Forall boolean es -> cm_good (cm_of_list es) /\ forall rho, cm_sat rho (cm_of_list es) <-> Forall (sat rho) es.
Proof.
  unfold cm_of_list. intros Hes.
  assert (forall cm, cm_good cm -> cm_good (fold_left (fun cm e => pushConstraint e cm) es cm) /\
    forall rho, cm_sat rho (fold_left (fun cm e => pushConstraint e cm) es cm) <-> cm_sat rho cm /\ Forall (sat rho) es) as H.
  { induction Hes as [|e es He Hes IH]; intros cm Hcm; cbn; [split; [done|]; intros rho; split; [by split|by intros []]|].
    destruct (push_spec e cm He Hcm) as (Hg & _ & Hs). destruct (IH _ Hg) as [Hg' Hs']. split; [done|].
    intros rho. rewrite Hs', Hs, Forall_cons. naive_solver. }
  destruct (H cm_clear clear_good) as [Hg Hs]. split; [done|]. intros rho. rewrite Hs. split; [by intros []|by split].
Qed.

Section reduce.
Context (q : Query) (Hc : wf_constraints (q_constraints q)) (Hg : good (q_expr q)) (Hs : single_query q).

Lemma reduced_spec :
  cm_good (q_constraints (reduced q)) /\
  (forall rho, cm_sat rho (q_constraints q) -> cm_sat rho (q_constraints (reduced q))) /\
  (forall rho1, cm_sat rho1 (q_constraints (reduced q)) ->
     exists rho, cm_sat rho (q_constraints q) /\ eval rho (q_expr q) = eval rho1 (q_expr q)).
Proof.
  destruct (dependent_spec q) as (req & rest & c & E & Hp & Hq & Hreq & Hrest). destruct Hc as [Hcg [rho2 Hrho2]].
  destruct (terms_spec _ Hcg) as (Hb & _ & Hsat). destruct Hs as [Hst Hse]. rewrite Hp in Hb, Hst. apply Forall_app in Hb as [Hb1 Hb2], Hst as [Hs1 Hs2].
  unfold reduced, getDependentConstraints. rewrite E. cbn. destruct (of_list_spec req Hb1) as [Hgr Hsr]. split; [done|].
  split; [intros rho Hr; apply Hsr; apply Hsat in Hr; rewrite Hp in Hr; by apply Forall_app in Hr as [? _]|].
  intros rho1 Hr1. apply Hsr in Hr1. exists (mix c rho1 rho2).
  assert (forall e, good e -> single e = true -> covers c (subs e) -> eval (mix c rho1 rho2) e = eval rho1 e) as He1.
  { intros e H1 H2 H3. by apply (proj1 (eval_agree c (mix c rho1 rho2) rho1 (mix_in c rho1 rho2))). }
  split; [|by apply He1]. apply Hsat. rewrite Hp. apply Forall_app. rewrite !Forall_forall in *. split; intros e Hin.
  - unfold sat. rewrite He1; [by apply Hr1|by apply Hb1|by apply Hs1|by apply Hreq].
  - destruct (Hrest e Hin) as (s & Hcov & Hdis). unfold sat.
    rewrite (proj1 (eval_agree s (mix c rho1 rho2) rho2 (fun a i Ha => mix_out c rho1 rho2 a i (Hdis a i Ha))) e); [|by apply Hb2|by apply Hs2|done].
    apply Hsat in Hrho2. rewrite Hp in Hrho2. apply Forall_app in Hrho2 as [_ H2]. by apply (proj1 (Forall_forall _ _) H2).
Qed.


Lemma reduced_valid : valid (reduced q) <-> valid q.
Proof.
  destruct reduced_spec as (_ & H2 & H3). unfold valid, sat. cbn. split; intros H rho Hr; [auto|].
  destruct (H3 rho Hr) as (rho' & Hr' & <-). auto.
Qed.

Lemma reduced_refuted : refuted (reduced q) <-> refuted q.
Proof.
  destruct reduced_spec as (_ & H2 & H3). unfold refuted, sat. cbn. split; intros H rho Hr; [auto|].
  destruct (H3 rho Hr) as (rho' & Hr' & <-). auto.
Qed.

End reduce.


(** ** The theorems *)

(** C22: The constraints that a query depends on: [getDependentConstraints]
    always ends, and for satisfiable constraints, in a query in which no update
    list copies an array, the
    query is valid, refuted, or takes a value under the constraints it keeps
    exactly when it does so under all of them.  With copied arrays this fails,
    see [independent_ignores_copies]. *)
Theorem independent_exact q :
  wf_constraints (q_constraints q) -> good (q_expr q) -> single_query q ->
  (exists es, getDependentConstraints q = Some es /\ es ⊆ cm_terms (q_constraints q)) /\
  (valid (reduced q) <-> valid q) /\ (refuted (reduced q) <-> refuted q) /\
  forall v, (exists rho, cm_sat rho (q_constraints (reduced q)) /\ eval rho (q_expr q) = v) <->
            (exists rho, cm_sat rho (q_constraints q) /\ eval rho (q_expr q) = v).
Proof.
  intros Hc Hg Hs. split; [|split; [by apply reduced_valid|split; [by apply reduced_refuted|]]].
  - destruct (dependent_spec q) as (req & rest & c & E & Hp & _). exists req. unfold getDependentConstraints. rewrite E. split; [done|].
    intros e He. rewrite Hp. set_solver.
  - intros v. destruct (reduced_spec q Hc Hg Hs) as (_ & H2 & H3). split.
    + intros (rho & Hr & E). destruct (H3 rho Hr) as (rho' & Hr' & E'). exists rho'. split; [done|]. congruence.
    + intros (rho & Hr & E). exists rho. auto.
Qed.

(** Bytes of symbolic arrays, and a byte that is copied from array 2 when byte 0
    of array 3 is not zero. *)
Definition byte_of (a : Z) : expr := Read (Symbolic a) UNull (Constant Int32 0).
Definition nonzero (e : expr) : expr := Cmp Ult (Constant Int8 0) e.
Definition copied : expr := Read (Symbolic 1) (UMulti (nonzero (byte_of 3)) (Symbolic 2) UNull) (Constant Int32 0).
Definition is_five (e : expr) : expr := Cmp Eq (Constant Int8 5) e.
Definition copy_query : Query := MkQuery (cm_of_list [nonzero (byte_of 3); is_five (byte_of 2)]) (is_five copied).

(** C39: A symbolic array that an update copies from is not among the reads: the
    constraint on it is dropped although the query depends on it, and a query
    that is valid is no longer. *)
Theorem independent_ignores_copies : wf_query copy_query /\ valid copy_query /\ ~ valid (reduced copy_query).
Proof.
  assert (boolean (nonzero (byte_of 3)) /\ boolean (is_five (byte_of 2)) /\ boolean (is_five copied)) as (H1 & H2 & H3).
  { split_and!; (split; [vm_compute; split_and!; try done; by right|done]). }
  destruct (of_list_spec [nonzero (byte_of 3); is_five (byte_of 2)]) as [Hg Hs]; [by repeat constructor|].
  split; [|split].
  - split; [split; [exact Hg|]|done]. exists (fun _ _ => 5). apply Hs. by repeat constructor.
  - intros rho Hr. apply Hs in Hr. inversion Hr as [|? ? Hn Hr']; subst. inversion Hr' as [|? ? Hf _]; subst.
    unfold sat in *. cbn -[array_byte] in *. rewrite Hn. exact Hf.
  - intros Hv. specialize (Hv (fun a _ => if decide (a = Symbolic 3) then 5 else 0)). vm_compute in Hv. specialize (Hv eq_refl). done.
Qed.


(** ** Example *)

Definition demo_valid : Query := demo_query (UltExpr_create (Constant Int8 9) byte0).

Lemma demo_valid_wf : wf_query demo_valid /\ single_query demo_valid /\ single_query (negateExpr demo_valid).
Proof.
  split; [|by split; split; vm_compute; repeat constructor]. split; [exact demo_constraints_wf|]. split; [|done]. vm_compute. split_and!; try done. by right.
Qed.

Lemma independent_exact_witness : valid (reduced demo_valid) <-> valid demo_valid.
Proof.
  destruct demo_valid_wf as ([Hc [Hg _]] & Hs & _). exact (proj1 (proj2 (independent_exact demo_valid Hc Hg Hs))).
Defined.

