(* ===== verification/ImmTree.v ===== *)
(** * Immutable trees ([include/klee/Internal/ADT/ImmutableTree.h])

    Persistent balanced search trees, from which the sets and maps of
    expressions and of the engine's states are built.  A tree is shared by
    counting references; since no operation changes a node the sharing is not
    visible, and a tree is modelled by its value.  The heights of the two sides
    of a node differ by at most two; as a balanced tree of height [h] has more
    than [2 ^ (h / 3) - 1] elements, the 32-bit height field never wraps. *)

From stdpp Require Import base list sorting gmap.
From Stdlib Require Import ZArith Lia.
From S2P Require Import Prelude.

Inductive tree (V : Type) :=
  | Terminator
  | Node (left right : tree V) (value : V) (height : Z).
Arguments Terminator {V}. Arguments Node {V}.

#[global] Instance tree_eq_dec {V} `{EqDecision V} : EqDecision (tree V).
Proof. solve_decision. Defined.

Section nodes.
Context {V : Type}.
Implicit Types (t l r : tree V) (v : V).

Definition isTerminator t : bool := match t with Terminator => true | _ => false end.
Definition left_of t : tree V := match t with Terminator => Terminator | Node l _ _ _ => l end.
Definition right_of t : tree V := match t with Terminator => Terminator | Node _ r _ _ => r end.
Definition height_of t : Z := match t with Terminator => 0 | Node _ _ _ h => h end.
Definition value_of t : option V := match t with Terminator => None | Node _ _ v _ => Some v end.

(** [new Node(left, right, value)] *)
Definition new_node l r v : tree V := Node l r v (Z.max (height_of l) (height_of r) + 1).

(** Only a node can be higher than the other side, so the cases of a terminator
    do not occur. *)
Definition balance l v r : tree V :=
  if height_of r + 2 <? height_of l then
    match l with
    | Terminator => new_node l r v
    | Node ll lr lv _ =>
        if height_of lr <=? height_of ll then new_node ll (new_node lr r v) lv
        else
          match lr with
          | Terminator => new_node l r v
          | Node lrl lrr lrv _ => new_node (new_node ll lrl lv) (new_node lrr r v) lrv
          end
    end
  else if height_of l + 2 <? height_of r then
    match r with
    | Terminator => new_node l r v
    | Node rl rr rv _ =>
        if height_of rl <=? height_of rr then new_node (new_node l rl v) rr rv
        else
          match rl with
          | Terminator => new_node l r v
          | Node rll rlr rlv _ => new_node (new_node l rll v) (new_node rlr rr rv) rlv
          end
    end
  else new_node l r v.

Fixpoint size t : Z := match t with Terminator => 0 | Node l r _ _ => size l + 1 + size r end.

(** On an empty tree the code hands out the value of the terminator. *)
Fixpoint popMin t : option (V * tree V) :=
  match t with
  | Terminator => None
  | Node l r v _ =>
      match l with
      | Terminator => Some (v, r)
      | _ => '(m, l') ← popMin l; Some (m, balance l' v r)
      end
  end.

Fixpoint popMax t : option (V * tree V) :=
  match t with
  | Terminator => None
  | Node l r v _ =>
      match r with
      | Terminator => Some (v, l)
      | _ => '(m, r') ← popMax r; Some (m, balance l v r')
      end
  end.

(** A node without its value: the value that follows takes its place. *)
Definition join l r : tree V :=
  match l, r with
  | Terminator, _ => r
  | _, Terminator => l
  | _, _ => match popMin r with Some (m, r') => balance l m r' | None => l end
  end.

Fixpoint remove_if (pred : V -> bool) t : tree V :=
  match t with
  | Terminator => Terminator
  | Node l r v _ =>
      let l' := remove_if pred l in
      let r' := remove_if pred r in
      if pred v then join l' r' else balance l' v r'
  end.

Fixpoint min t : option V :=
  match t with Terminator => None | Node l _ v _ => if isTerminator l then Some v else min l end.
Fixpoint max t : option V :=
  match t with Terminator => None | Node _ r v _ => if isTerminator r then Some v else max r end.

(** The values in order. *)
Fixpoint values t : list V := match t with Terminator => [] | Node l r v _ => values l ++ v :: values r end.

End nodes.

(** The second component says that the node itself is returned. *)
Fixpoint map_values_node {V} (mapfn : V -> V * bool) (t : tree V) : tree V * bool :=
  match t with
  | Terminator => (Terminator, true)
  | Node l r v _ =>
      let '(l', same_l) := map_values_node mapfn l in
      let '(r', same_r) := map_values_node mapfn r in
      let '(v', changed) := mapfn v in
      if negb changed && same_l && same_r then (t, true)
      else if changed : bool then (new_node l' r' v', false) else (new_node l' r' v, false)
  end.
Definition map_values {V} (mapfn : V -> V * bool) (t : tree V) : tree V := (map_values_node mapfn t).1.

Section search.
Context {K V : Type} (key : V -> K) (less : K -> K -> bool).
Implicit Types (t l r : tree V) (v : V) (k : K).

Fixpoint insert v t : tree V :=
  match t with
  | Terminator => new_node Terminator Terminator v
  | Node l r x _ =>
      if less (key v) (key x) then balance (insert v l) x r
      else if less (key x) (key v) then balance l x (insert v r)
      else t
  end.

Fixpoint replace v t : tree V :=
  match t with
  | Terminator => new_node Terminator Terminator v
  | Node l r x _ =>
      if less (key v) (key x) then balance (replace v l) x r
      else if less (key x) (key v) then balance l x (replace v r)
      else new_node l r v
  end.

Fixpoint remove k t : tree V :=
  match t with
  | Terminator => Terminator
  | Node l r x _ =>
      if less k (key x) then balance (remove k l) x r
      else if less (key x) k then balance l x (remove k r)
      else join l r
  end.

Fixpoint lookup k t : option V :=
  match t with
  | Terminator => None
  | Node l r x _ => if less k (key x) then lookup k l else if less (key x) k then lookup k r else Some x
  end.

Definition count k t : Z := match lookup k t with Some _ => 1 | None => 0 end.

Fixpoint lookup_previous_from (result : option V) k t : option V :=
  match t with
  | Terminator => result
  | Node l r x _ =>
      if less k (key x) then lookup_previous_from result k l
      else if less (key x) k then lookup_previous_from (Some x) k r
      else Some x
  end.
Definition lookup_previous k t : option V := lookup_previous_from None k t.

End search.

(** ** Heights *)

Section heights.
Context {V : Type}.
Implicit Types (t l r : tree V) (v : V).

(** The height fields are right, and the two sides of every node differ by at
    most two. *)
Fixpoint exact t : Prop :=
  match t with Terminator => True | Node l r _ h => exact l /\ exact r /\ h = Z.max (height_of l) (height_of r) + 1 end.
Fixpoint balanced t : Prop :=
  match t with Terminator => True | Node l r _ _ => balanced l /\ balanced r /\ Z.abs (height_of l - height_of r) <= 2 end.

Lemma height_nonneg t : exact t -> 0 <= height_of t.
Proof. induction t as [|l IHl r IHr v h]; cbn; [lia|]. intros (Hl%IHl & Hr%IHr & ->). lia. Qed.

Lemma new_node_values l r v : values (new_node l r v) = values l ++ v :: values r.
Proof. done. Qed.

Lemma balance_values l v r : values (balance l v r) = values l ++ v :: values r.
Proof.
  unfold balance. repeat case_match; cbn; rewrite <- ?app_assoc; try done; subst; cbn; rewrite <- ?app_assoc; done.
Qed.

Lemma new_node_exact l r v : exact l -> exact r -> exact (new_node l r v).
Proof. done. Qed.

Lemma balance_exact l v r : exact l -> exact r -> exact (balance l v r).
Proof. intros Hl Hr. unfold balance. repeat case_match; subst; cbn in *; naive_solver. Qed.

(** One rotation is enough for sides that differ by three. *)
Lemma balance_balanced l v r :
  exact l -> exact r -> balanced l -> balanced r -> Z.abs (height_of l - height_of r) <= 3 ->
  balanced (balance l v r) /\ Z.max (height_of l) (height_of r) <= height_of (balance l v r) <= Z.max (height_of l) (height_of r) + 1 /\
  (Z.abs (height_of l - height_of r) <= 2 -> height_of (balance l v r) = Z.max (height_of l) (height_of r) + 1).
Proof.
  intros El Er Bl Br Hd. pose proof (height_nonneg l El). pose proof (height_nonneg r Er). unfold balance.
  destruct (Z.ltb_spec (height_of r + 2) (height_of l)) as [Ha|Ha]; [|destruct (Z.ltb_spec (height_of l + 2) (height_of r)) as [Hb|Hb]; [|cbn; split_and!; [done|done|lia|lia|lia|lia]]].
  - destruct l as [|ll lr lv lh]; [cbn in *; lia|]. cbn in El, Bl. destruct El as (E1 & E2 & ->). destruct Bl as (B1 & B2 & B3).
    pose proof (height_nonneg ll E1). pose proof (height_nonneg lr E2). cbn in Ha, Hd |- *.
    destruct (Z.leb_spec (height_of lr) (height_of ll)) as [Hc|Hc]; [cbn; split_and!; try done; lia|].
    destruct lr as [|lrl lrr lrv lrh]; [cbn in *; lia|]. cbn in E2, B2. destruct E2 as (E3 & E4 & ->). destruct B2 as (B4 & B5 & B6).
    pose proof (height_nonneg lrl E3). pose proof (height_nonneg lrr E4). cbn in *. split_and!; try done; lia.
  - destruct r as [|rl rr rv rh]; [cbn in *; lia|]. cbn in Er, Br. destruct Er as (E1 & E2 & ->). destruct Br as (B1 & B2 & B3).
    pose proof (height_nonneg rl E1). pose proof (height_nonneg rr E2). cbn in Hb, Hd |- *.
    destruct (Z.leb_spec (height_of rl) (height_of rr)) as [Hc|Hc]; [cbn; split_and!; try done; lia|].
    destruct rl as [|rll rlr rlv rlh]; [cbn in *; lia|]. cbn in E1, B1. destruct E1 as (E3 & E4 & ->). destruct B1 as (B4 & B5 & B6).
    pose proof (height_nonneg rll E3). pose proof (height_nonneg rlr E4). cbn in *. split_and!; try done; lia.
Qed.

(** A tree of two sides with good heights, the first of which may have changed by
    one. *)
Definition shaped t : Prop := exact t /\ balanced t.

Lemma balance_shaped l v r : shaped l -> shaped r -> Z.abs (height_of l - height_of r) <= 3 -> shaped (balance l v r).
Proof. intros [El Bl] [Er Br] Hd. split; [by apply balance_exact|by apply balance_balanced]. Qed.

Lemma popMin_spec t :
  match popMin t with
  | None => t = Terminator
  | Some (m, t') => values t = m :: values t' /\ (shaped t -> shaped t' /\ height_of t - 1 <= height_of t' <= height_of t)
  end.
Proof.
  induction t as [|l IHl r IHr v h]; [done|]. cbn [popMin]. destruct l as [|ll lr lv lh] eqn:El.
  - split; [done|]. intros [(_ & Er & Hh) (_ & Br & Hb)]. cbn in *. pose proof (height_nonneg r Er). split; [done|]. lia.
  - rewrite <- El in *. destruct (popMin l) as [[m l']|]; [|congruence]. cbn [mbind option_bind]. destruct IHl as [Hv Hs].
    split; [rewrite balance_values; cbn; by rewrite Hv|]. intros [(E1 & E2 & Hh) (B1 & B2 & Hb)]. destruct Hs as [[E1' B1'] Hh']; [done|]. cbn [height_of].
    destruct (balance_balanced l' v r) as (B & Hr & Hq); [done..|lia|]. split; [split; [by apply balance_exact|done]|].
    destruct (decide (Z.abs (height_of l' - height_of r) <= 2)); [specialize (Hq ltac:(done)); lia|lia].
Qed.

Lemma popMax_spec t :
  match popMax t with
  | None => t = Terminator
  | Some (m, t') => values t = values t' ++ [m] /\ (shaped t -> shaped t' /\ height_of t - 1 <= height_of t' <= height_of t)
  end.
Proof.
  induction t as [|l IHl r IHr v h]; [done|]. cbn [popMax]. destruct r as [|rl rr rv rh] eqn:Er.
  - split; [done|]. intros [(El & _ & Hh) (Bl & _ & Hb)]. cbn in *. pose proof (height_nonneg l El). split; [done|]. lia.
  - rewrite <- Er in *. destruct (popMax r) as [[m r']|]; [|congruence]. cbn [mbind option_bind]. destruct IHr as [Hv Hs].
    split; [rewrite balance_values; cbn; rewrite Hv; by rewrite <- app_assoc|]. intros [(E1 & E2 & Hh) (B1 & B2 & Hb)].
    destruct Hs as [[E2' B2'] Hh']; [done|]. cbn [height_of].
    destruct (balance_balanced l v r') as (B & Hr & Hq); [done..|lia|]. split; [split; [by apply balance_exact|done]|].
    destruct (decide (Z.abs (height_of l - height_of r') <= 2)); [specialize (Hq ltac:(done)); lia|lia].
Qed.

Lemma join_values l r : values (join l r) = values l ++ values r.
Proof.
  unfold join. destruct l as [|ll lr lv lh]; [done|]. destruct r as [|rl rr rv rh]; [by rewrite app_nil_r|]. set (r := Node rl rr rv rh).
  pose proof (popMin_spec r) as H. destruct (popMin r) as [[m r']|]; [|done]. destruct H as [-> _]. apply balance_values.
Qed.

Lemma join_shaped l r :
  shaped l -> shaped r -> Z.abs (height_of l - height_of r) <= 2 ->
  shaped (join l r) /\ Z.max (height_of l) (height_of r) <= height_of (join l r) <= Z.max (height_of l) (height_of r) + 1.
Proof.
  intros Hl Hr Hd. pose proof (height_nonneg l (proj1 Hl)) as Nl. pose proof (height_nonneg r (proj1 Hr)) as Nr. unfold join.
  destruct l as [|ll lr lv lh] eqn:El; [cbn [height_of] in *; split; [done|lia]|]. destruct r as [|rl rr rv rh] eqn:Er; [cbn [height_of] in *; split; [done|lia]|].
  rewrite <- El, <- Er in *. pose proof (popMin_spec r) as H. destruct (popMin r) as [[m r']|]; [|congruence]. destruct H as [_ Hs]. destruct (Hs Hr) as [[E' B'] Hh].
  destruct (balance_balanced l m r') as (B & Hq & Hq'); [apply Hl|done|apply Hl|done|lia|]. split; [split; [apply balance_exact; [apply Hl|done]|done]|].
  destruct (decide (Z.abs (height_of l - height_of r') <= 2)); [specialize (Hq' ltac:(done)); lia|lia].
Qed.

(** One side of a balanced node grows or shrinks by one. *)
Definition grown (t t' : tree V) : Prop := shaped t' /\ height_of t <= height_of t' <= height_of t + 1.
Definition shrunk (t t' : tree V) : Prop := shaped t' /\ height_of t - 1 <= height_of t' <= height_of t.

Lemma shaped_node l r v h :
  shaped (Node l r v h) <-> shaped l /\ shaped r /\ h = Z.max (height_of l) (height_of r) + 1 /\ Z.abs (height_of l - height_of r) <= 2.
Proof. unfold shaped. cbn. naive_solver. Qed.

Lemma balance_height l v r :
  shaped l -> shaped r -> Z.abs (height_of l - height_of r) <= 3 ->
  shaped (balance l v r) /\ Z.max (height_of l) (height_of r) <= height_of (balance l v r) <= Z.max (height_of l) (height_of r) + 1 /\
  (Z.abs (height_of l - height_of r) <= 2 -> height_of (balance l v r) = Z.max (height_of l) (height_of r) + 1).
Proof.
  intros [El Bl] [Er Br] Hd. destruct (balance_balanced l v r) as (B & Hh); [done..|]. split; [|done]. split; [by apply balance_exact|done].
Qed.

Ltac balance_sides :=
  match goal with
  | |- context [balance ?l' ?v ?r'] =>
      let Hb := fresh in let Hh := fresh in let Hq := fresh in let Hc := fresh in
      destruct (balance_height l' v r') as (Hb & Hh & Hq); [done|done|lia|]; split; [exact Hb|]; cbn [height_of];
      destruct (decide (Z.abs (height_of l' - height_of r') <= 2)) as [Hc|Hc]; [specialize (Hq Hc)|clear Hq]; lia
  end.

Lemma balance_grown_left l l' r v h : shaped (Node l r v h) -> grown l l' -> grown (Node l r v h) (balance l' v r).
Proof. intros (Hl & Hr & -> & Hd)%shaped_node [Hl' Hh']. balance_sides. Qed.
Lemma balance_grown_right l r r' v h : shaped (Node l r v h) -> grown r r' -> grown (Node l r v h) (balance l v r').
Proof. intros (Hl & Hr & -> & Hd)%shaped_node [Hr' Hh']. balance_sides. Qed.
Lemma balance_shrunk_left l l' r v h : shaped (Node l r v h) -> shrunk l l' -> shrunk (Node l r v h) (balance l' v r).
Proof. intros (Hl & Hr & -> & Hd)%shaped_node [Hl' Hh']. balance_sides. Qed.
Lemma balance_shrunk_right l r r' v h : shaped (Node l r v h) -> shrunk r r' -> shrunk (Node l r v h) (balance l v r').
Proof. intros (Hl & Hr & -> & Hd)%shaped_node [Hr' Hh']. balance_sides. Qed.

Lemma size_nonneg t : 0 <= size t.
Proof. induction t; cbn; lia. Qed.

(** The number of elements grows exponentially with the height. *)
Lemma height_log t : shaped t -> 2 ^ (height_of t / 3) <= size t + 1.
Proof.
  assert (forall n t, height_of t <= Z.of_nat n -> shaped t -> 2 ^ (height_of t / 3) <= size t + 1) as H.
  { clear t. intros n. induction n as [|n IH]; intros t Hn [E B].
    - pose proof (height_nonneg t E). assert (height_of t = 0) as -> by lia. pose proof (size_nonneg t).
      change (2 ^ (0 / 3)) with 1. lia.
    - destruct t as [|l r v h]; [done|]. cbn in E, B, Hn |- *. destruct E as (El & Er & ->). destruct B as (Bl & Br & Hd).
      pose proof (height_nonneg l El). pose proof (height_nonneg r Er).
      pose proof (IH l ltac:(lia) (conj El Bl)) as Hl. pose proof (IH r ltac:(lia) (conj Er Br)) as Hr.
      remember (Z.max (height_of l) (height_of r)) as m eqn:Em.
      assert (2 ^ ((m + 1) / 3) <= 2 * 2 ^ ((m - 2) / 3) \/ m + 1 < 3) as [Hpow|Hsmall].
      { destruct (decide (m + 1 < 3)); [by right|]. left. replace ((m + 1) / 3) with (1 + (m - 2) / 3).
        - rewrite Z.pow_add_r; [done|lia|]. apply Z.div_pos; lia.
        - replace (m + 1) with (m - 2 + 1 * 3) by lia. rewrite Z.div_add by lia. lia. }
      + assert (2 ^ ((m - 2) / 3) <= 2 ^ (height_of l / 3)) by (apply Z.pow_le_mono_r; [lia|apply Z.div_le_mono; lia]).
        assert (2 ^ ((m - 2) / 3) <= 2 ^ (height_of r / 3)) by (apply Z.pow_le_mono_r; [lia|apply Z.div_le_mono; lia]). lia.
      + rewrite Z.div_small by lia. pose proof (size_nonneg l). pose proof (size_nonneg r). change (2 ^ 0) with 1. lia. }
  intros Hs. apply (H (Z.to_nat (height_of t))); [|done]. pose proof (height_nonneg t (proj1 Hs)). lia.
Qed.

Lemma size_values t : size t = Z.of_nat (length (values t)).
Proof. induction t as [|l IHl r IHr v h]; cbn; [done|]. rewrite length_app. cbn. lia. Qed.

Lemma values_nil t : values t = [] <-> t = Terminator.
Proof. destruct t; cbn; [done|]. split; [|done]. intros H. by apply app_nil in H as [_ ?]. Qed.

Lemma min_values t : min t = head (values t).
Proof.
  induction t as [|l IHl r IHr v h]; cbn; [done|]. destruct l as [|ll lr lv lh] eqn:El; [done|]. rewrite <- El in *. rewrite El at 1. cbn [isTerminator].
  rewrite IHl. destruct (values l) eqn:E; [|done]. apply values_nil in E. congruence.
Qed.

Lemma max_values t : max t = last (values t).
Proof.
  induction t as [|l IHl r IHr v h]; cbn [max values]; [done|]. destruct r as [|rl rr rv rh] eqn:Er; [cbn [values isTerminator]; by rewrite last_snoc|]. rewrite <- Er in *. rewrite Er at 1. cbn [isTerminator].
  rewrite IHr, last_app, last_cons. destruct (last (values r)) eqn:E; [done|]. apply last_None, values_nil in E. congruence.
Qed.

Lemma remove_if_values pred t : values (remove_if pred t) = filter (fun v => pred v = false) (values t).
Proof.
  induction t as [|l IHl r IHr v h]; cbn; [done|]. rewrite filter_app, filter_cons, <- IHl, <- IHr.
  destruct (pred v) eqn:E; [rewrite join_values, decide_False by done|rewrite balance_values, decide_True by done]; done.
Qed.

Lemma popMin_exact t m t' : popMin t = Some (m, t') -> exact t -> exact t'.
Proof.
  revert m t'. induction t as [|l IHl r IHr v h]; intros m t'; [done|]. cbn [popMin]. destruct l as [|ll lr lv lh] eqn:El.
  { intros [= <- <-]. cbn. tauto. }
  rewrite <- El in *. intros H (E1 & E2 & _). apply bind_Some in H as ([m' l'] & Hp & [= <- <-]). apply balance_exact; [by eapply IHl|done].
Qed.

Lemma remove_if_exact pred t : exact t -> exact (remove_if pred t).
Proof.
  induction t as [|l IHl r IHr v h]; cbn; [done|]. intros (Hl%IHl & Hr%IHr & _). destruct (pred v); [|by apply balance_exact].
  unfold join. destruct (remove_if pred l) as [|ll lr lv lh] eqn:El; [done|]. destruct (remove_if pred r) as [|rl rr rv rh] eqn:Er; [done|].
  destruct (popMin _) as [[m r']|] eqn:E; [|done]. apply balance_exact; [done|]. by apply (popMin_exact _ _ _ E).
Qed.

Lemma map_values_node_spec f t :
  exact t -> let '(t', same) := map_values_node f t in
  exact t' /\ height_of t' = height_of t /\ (balanced t -> balanced t') /\ (same = true -> t' = t) /\
  values t' = (fun v => if (f v).2 then (f v).1 else v) <$> values t.
Proof.
  induction t as [|l IHl r IHr v h]; [done|]. intros (El & Er & ->). specialize (IHl El). specialize (IHr Er). cbn [map_values_node].
  destruct (map_values_node f l) as [l' sl]. destruct (map_values_node f r) as [r' sr]. destruct IHl as (E1 & H1 & B1 & S1 & V1). destruct IHr as (E2 & H2 & B2 & S2 & V2).
  destruct (f v) as [v' c] eqn:Ef. destruct c, sl, sr; cbn; rewrite ?fmap_app, ?fmap_cons, Ef, <- V1, <- V2; cbn;
    rewrite ?H1, ?H2; split_and!; try done; try tauto; try lia. by rewrite (S1 eq_refl), (S2 eq_refl).
Qed.

End heights.

(** ** Order *)

Class StrictTotal {K} (less : K -> K -> bool) : Prop := {
  less_irrefl : forall k, less k k = false;
  less_trans : forall a b c, less a b = true -> less b c = true -> less a c = true;
  less_total : forall a b, less a b = false -> less b a = false -> a = b;
}.

Section ordered.
Context {K V : Type} `{EqDecision K} (key : V -> K) (less : K -> K -> bool) `{!StrictTotal less}.
Implicit Types (t : tree V) (v x : V) (k : K) (l r : list V).

Definition sorted l : Prop := StronglySorted (fun a b => less (key a) (key b) = true) l.

(** The operations on sorted lists. *)
Definition assoc k l : option V := List.find (fun x => bool_decide (key x = k)) l.

Fixpoint ins v l : list V :=
  match l with
  | [] => [v]
  | x :: l' => if less (key v) (key x) then v :: l else if less (key x) (key v) then x :: ins v l' else l
  end.
Fixpoint rep v l : list V :=
  match l with
  | [] => [v]
  | x :: l' => if less (key v) (key x) then v :: l else if less (key x) (key v) then x :: rep v l' else v :: l'
  end.
Fixpoint del k l : list V :=
  match l with
  | [] => []
  | x :: l' => if less k (key x) then l else if less (key x) k then x :: del k l' else l'
  end.

Lemma sorted_split l x r :
  sorted (l ++ x :: r) <->
  sorted l /\ sorted r /\ Forall (fun a => less (key a) (key x) = true) l /\ Forall (fun b => less (key x) (key b) = true) r.
Proof.
  unfold sorted. induction l as [|y l IH]; cbn; split.
  - intros H. apply StronglySorted_inv in H as [H1 H2]. by split_and!; [constructor| |constructor|].
  - intros (_ & H1 & _ & H2). by constructor.
  - intros H. apply StronglySorted_inv in H as [H1 H2]. apply IH in H1 as (S1 & S2 & F1 & F2). apply Forall_app in H2 as [G1 G2]. apply Forall_cons in G2 as [G2 G3].
    by split_and!; [constructor| |constructor|].
  - intros (S1 & S2 & F1 & F2). apply StronglySorted_inv in S1 as [S1 G1]. apply Forall_cons in F1 as [G2 F1]. constructor; [by apply IH|].
    apply Forall_app. split; [done|]. constructor; [done|]. eapply Forall_impl; [exact F2|]. intros b Hb. by apply (less_trans _ (key x)).
Qed.

Lemma less_asym a b : less a b = true -> less b a = false.
Proof. intros H. destruct (less b a) eqn:E; [|done]. pose proof (less_trans a b a H E) as H'. by rewrite less_irrefl in H'. Qed.

Lemma sorted_cons_inv y l : sorted (y :: l) -> sorted l /\ Forall (fun b => less (key y) (key b) = true) l.
Proof. apply StronglySorted_inv. Qed.

Lemma ins_app v l x r :
  sorted (l ++ x :: r) ->
  ins v (l ++ x :: r) =
  if less (key v) (key x) then ins v l ++ x :: r else if less (key x) (key v) then l ++ x :: ins v r else l ++ x :: r.
Proof.
  induction l as [|y l IH]; intros Hs; [done|]. cbn [app ins]. apply sorted_cons_inv in Hs as [Hs Hf]. specialize (IH Hs).
  assert (less (key y) (key x) = true) as Hyx by (apply Forall_app in Hf as [_ Hf]; by apply Forall_cons in Hf as [? _]).
  destruct (less (key v) (key y)) eqn:E1; [by rewrite (less_trans _ _ _ E1 Hyx)|].
  destruct (less (key y) (key v)) eqn:E2; [rewrite IH; by destruct (less (key v) (key x)), (less (key x) (key v))|].
  by rewrite (less_total _ _ E1 E2), Hyx.
Qed.

Lemma rep_app v l x r :
  sorted (l ++ x :: r) ->
  rep v (l ++ x :: r) =
  if less (key v) (key x) then rep v l ++ x :: r else if less (key x) (key v) then l ++ x :: rep v r else l ++ v :: r.
Proof.
  induction l as [|y l IH]; intros Hs; [done|]. cbn [app rep]. apply sorted_cons_inv in Hs as [Hs Hf]. specialize (IH Hs).
  assert (less (key y) (key x) = true) as Hyx by (apply Forall_app in Hf as [_ Hf]; by apply Forall_cons in Hf as [? _]).
  destruct (less (key v) (key y)) eqn:E1; [by rewrite (less_trans _ _ _ E1 Hyx)|].
  destruct (less (key y) (key v)) eqn:E2; [rewrite IH; by destruct (less (key v) (key x)), (less (key x) (key v))|].
  by rewrite (less_total _ _ E1 E2), Hyx.
Qed.

Lemma del_app k l x r :
  sorted (l ++ x :: r) ->
  del k (l ++ x :: r) = if less k (key x) then del k l ++ x :: r else if less (key x) k then l ++ x :: del k r else l ++ r.
Proof.
  induction l as [|y l IH]; intros Hs; [done|]. cbn [app del]. apply sorted_cons_inv in Hs as [Hs Hf]. specialize (IH Hs).
  assert (less (key y) (key x) = true) as Hyx by (apply Forall_app in Hf as [_ Hf]; by apply Forall_cons in Hf as [? _]).
  destruct (less k (key y)) eqn:E1; [by rewrite (less_trans _ _ _ E1 Hyx)|].
  destruct (less (key y) k) eqn:E2; [rewrite IH; by destruct (less k (key x)), (less (key x) k)|].
  by rewrite (less_total _ _ E1 E2), Hyx.
Qed.

Lemma assoc_none k l : Forall (fun x => key x <> k) l -> assoc k l = None.
Proof. unfold assoc. induction 1 as [|x l Hx _ IH]; cbn; [done|]. by rewrite bool_decide_eq_false_2. Qed.

Lemma assoc_split k l r : assoc k (l ++ r) = match assoc k l with Some x => Some x | None => assoc k r end.
Proof. unfold assoc. induction l as [|x l IH]; cbn; [done|]. by destruct (bool_decide _). Qed.

Lemma less_neq a b : less a b = true -> a <> b.
Proof. intros H ->. by rewrite less_irrefl in H. Qed.

Lemma assoc_app k l x r :
  sorted (l ++ x :: r) ->
  assoc k (l ++ x :: r) = if less k (key x) then assoc k l else if less (key x) k then assoc k r else Some x.
Proof.
  intros (_ & _ & Fl & Fr)%sorted_split. rewrite assoc_split. cbn [assoc List.find]. fold (assoc k r).
  destruct (less k (key x)) eqn:E1.
  - rewrite bool_decide_eq_false_2 by (intros Hk; by rewrite Hk, less_irrefl in E1). rewrite (assoc_none k r); [by destruct (assoc k l)|].
    eapply Forall_impl; [exact Fr|]. intros b Hb <-. pose proof (less_trans _ _ _ E1 Hb) as H. by rewrite less_irrefl in H.
  - destruct (less (key x) k) eqn:E2.
    + rewrite bool_decide_eq_false_2 by (by apply less_neq). rewrite (assoc_none k l); [done|].
      eapply Forall_impl; [exact Fl|]. intros a Ha <-. pose proof (less_trans _ _ _ E2 Ha) as H. by rewrite less_irrefl in H.
    + rewrite bool_decide_eq_true_2 by (by apply less_total). rewrite (assoc_none k l); [done|]. rewrite (less_total _ _ E1 E2).
      eapply Forall_impl; [exact Fl|]. intros a Ha. by apply less_neq.
Qed.

(** The pointwise meaning of the list operations. *)
Lemma sorted_assoc_head k x l : sorted (x :: l) -> less k (key x) = true -> assoc k (x :: l) = None.
Proof.
  intros [_ Hf]%sorted_cons_inv Hk. apply assoc_none. constructor; [by apply not_eq_sym, less_neq|].
  eapply Forall_impl; [exact Hf|]. intros b Hb. apply not_eq_sym, less_neq. by apply (less_trans _ (key x)).
Qed.

Lemma assoc_cons k x l : assoc k (x :: l) = if decide (key x = k) then Some x else assoc k l.
Proof. unfold assoc. cbn. case_bool_decide as H; [by rewrite decide_True|by rewrite decide_False]. Qed.

Lemma ins_assoc v l k : sorted l -> assoc k (ins v l) = if decide (key v = k) then Some (default v (assoc k l)) else assoc k l.
Proof.
  induction l as [|x l IH]; intros Hs; cbn [ins]; [by rewrite assoc_cons|]. destruct (less (key v) (key x)) eqn:E1.
  - rewrite assoc_cons. destruct (decide (key v = k)) as [Hk|Hk]; [|done]. subst k. by rewrite (sorted_assoc_head (key v) x l).
  - pose proof (sorted_cons_inv _ _ Hs) as [Hs' _]. destruct (less (key x) (key v)) eqn:E2; rewrite !assoc_cons.
    + rewrite IH by done. destruct (decide (key x = k)) as [Hx|Hx]; [|done]. rewrite decide_False; [done|].
      intros Hv. apply (less_neq _ _ E2). congruence.
    + rewrite (less_total _ _ E1 E2). by destruct (decide (key x = k)).
Qed.

Lemma rep_assoc v l k : sorted l -> assoc k (rep v l) = if decide (key v = k) then Some v else assoc k l.
Proof.
  induction l as [|x l IH]; intros Hs; cbn [rep]; [by rewrite assoc_cons|]. destruct (less (key v) (key x)) eqn:E1; [by rewrite (assoc_cons k v)|].
  pose proof (sorted_cons_inv _ _ Hs) as [Hs' _]. destruct (less (key x) (key v)) eqn:E2; rewrite !assoc_cons.
  - rewrite IH by done. destruct (decide (key x = k)) as [Hx|Hx]; [|done]. rewrite decide_False; [done|].
    intros Hv. apply (less_neq _ _ E2). congruence.
  - rewrite (less_total _ _ E1 E2). by destruct (decide (key x = k)).
Qed.

Lemma del_assoc k l k' : sorted l -> assoc k' (del k l) = if decide (k' = k) then None else assoc k' l.
Proof.
  induction l as [|x l IH]; intros Hs; cbn [del]; [by destruct (decide (k' = k))|]. destruct (less k (key x)) eqn:E1.
  { destruct (decide (k' = k)); [subst; by apply sorted_assoc_head|done]. }
  pose proof (sorted_cons_inv _ _ Hs) as [Hs' Hf]. destruct (less (key x) k) eqn:E2; rewrite !assoc_cons.
  - rewrite IH by done. destruct (decide (key x = k')) as [Hx|Hx]; [|done]. rewrite decide_False; [done|].
    intros Hk. apply (less_neq _ _ E2). congruence.
  - pose proof (less_total _ _ E1 E2) as ->. destruct (decide (k' = key x)) as [Hk|Hk]; [|by rewrite decide_False by congruence].
    subst. apply assoc_none. eapply Forall_impl; [exact Hf|]. intros b Hb. by apply not_eq_sym, less_neq.
Qed.

Lemma filter_assoc (P : V -> Prop) `{!forall x, Decision (P x)} l k :
  sorted l -> assoc k (filter P l) = match assoc k l with Some x => if decide (P x) then Some x else None | None => None end.
Proof.
  induction l as [|x l IH]; intros Hs; [done|]. pose proof (sorted_cons_inv _ _ Hs) as [Hs' Hf]. specialize (IH Hs'). rewrite filter_cons, assoc_cons.
  destruct (decide (key x = k)) as [Hk|Hk].
  - assert (assoc k l = None) as Hn by (apply assoc_none; eapply Forall_impl; [exact Hf|]; intros b Hb; rewrite <- Hk; by apply not_eq_sym, less_neq).
    rewrite Hn in IH. destruct (decide (P x)); [|done]. rewrite assoc_cons. by rewrite decide_True.
  - rewrite <- IH. destruct (decide (P x)); [|done]. rewrite assoc_cons. by rewrite decide_False.
Qed.

(** The operations keep lists sorted. *)
Lemma ins_elem v l x : x ∈ ins v l -> x = v \/ x ∈ l.
Proof. induction l as [|y l IH]; cbn [ins]; [set_solver|]. repeat case_match; set_solver. Qed.
Lemma rep_elem v l x : x ∈ rep v l -> x = v \/ x ∈ l.
Proof. induction l as [|y l IH]; cbn [rep]; [set_solver|]. repeat case_match; set_solver. Qed.
Lemma del_elem k l x : x ∈ del k l -> x ∈ l.
Proof. induction l as [|y l IH]; cbn [del]; [set_solver|]. repeat case_match; set_solver. Qed.

Lemma sorted_cons y l : sorted l -> (forall x, x ∈ l -> less (key y) (key x) = true) -> sorted (y :: l).
Proof. intros Hs Hf. constructor; [done|]. by apply Forall_forall. Qed.

Lemma sorted_head y l x : sorted (y :: l) -> x ∈ l -> less (key y) (key x) = true.
Proof. intros [_ Hf]%sorted_cons_inv Hx. by apply (proj1 (Forall_forall _ _) Hf). Qed.

Lemma ins_sorted v l : sorted l -> sorted (ins v l).
Proof.
  induction l as [|y l IH]; intros Hs; cbn [ins]; [by repeat constructor|]. pose proof (sorted_cons_inv _ _ Hs) as [Hs' _].
  destruct (less (key v) (key y)) eqn:E1.
  { apply sorted_cons; [done|]. intros x [-> | Hx]%elem_of_cons; [done|]. apply (less_trans _ (key y)); [done|]. by apply (sorted_head _ l). }
  destruct (less (key y) (key v)) eqn:E2; [|done]. apply sorted_cons; [by apply IH|]. intros x [-> | Hx]%ins_elem; [done|]. by apply (sorted_head _ l).
Qed.

Lemma rep_sorted v l : sorted l -> sorted (rep v l).
Proof.
  induction l as [|y l IH]; intros Hs; cbn [rep]; [by repeat constructor|]. pose proof (sorted_cons_inv _ _ Hs) as [Hs' _].
  destruct (less (key v) (key y)) eqn:E1.
  { apply sorted_cons; [done|]. intros x [-> | Hx]%elem_of_cons; [done|]. apply (less_trans _ (key y)); [done|]. by apply (sorted_head _ l). }
  destruct (less (key y) (key v)) eqn:E2.
  { apply sorted_cons; [by apply IH|]. intros x [-> | Hx]%rep_elem; [done|]. by apply (sorted_head _ l). }
  apply sorted_cons; [done|]. intros x Hx. rewrite (less_total _ _ E1 E2). by apply (sorted_head _ l).
Qed.

Lemma del_sorted k l : sorted l -> sorted (del k l).
Proof.
  induction l as [|y l IH]; intros Hs; cbn [del]; [done|]. pose proof (sorted_cons_inv _ _ Hs) as [Hs' _].
  destruct (less k (key y)); [done|]. destruct (less (key y) k); [|done]. apply sorted_cons; [by apply IH|]. intros x Hx%del_elem. by apply (sorted_head _ l).
Qed.

Lemma filter_sorted (P : V -> Prop) `{!forall x, Decision (P x)} l : sorted l -> sorted (filter P l).
Proof.
  induction l as [|y l IH]; intros Hs; [done|]. pose proof (sorted_cons_inv _ _ Hs) as [Hs' _]. rewrite filter_cons. case_decide; [|by apply IH].
  apply sorted_cons; [by apply IH|]. intros x [_ Hx]%list_elem_of_filter. by apply (sorted_head _ l).
Qed.

(** The operations on trees are the operations on their sorted values. *)
Definition wf t : Prop := shaped t /\ sorted (values t).

Lemma insert_values v t : sorted (values t) -> values (insert key less v t) = ins v (values t).
Proof.
  induction t as [|l IHl r IHr x h]; intros Hs; [done|]. cbn [insert values]. rewrite ins_app by done. apply sorted_split in Hs as (Hl & Hr & _).
  destruct (less (key v) (key x)); [by rewrite balance_values, IHl|]. destruct (less (key x) (key v)); [by rewrite balance_values, IHr|done].
Qed.

Lemma replace_values v t : sorted (values t) -> values (replace key less v t) = rep v (values t).
Proof.
  induction t as [|l IHl r IHr x h]; intros Hs; [done|]. cbn [replace values]. rewrite rep_app by done. apply sorted_split in Hs as (Hl & Hr & _).
  destruct (less (key v) (key x)); [by rewrite balance_values, IHl|]. destruct (less (key x) (key v)); [by rewrite balance_values, IHr|done].
Qed.

Lemma remove_values k t : sorted (values t) -> values (remove key less k t) = del k (values t).
Proof.
  induction t as [|l IHl r IHr x h]; intros Hs; [done|]. cbn [remove values]. rewrite del_app by done. apply sorted_split in Hs as (Hl & Hr & _).
  destruct (less k (key x)); [by rewrite balance_values, IHl|]. destruct (less (key x) k); [by rewrite balance_values, IHr|apply join_values].
Qed.

Lemma lookup_values k t : sorted (values t) -> lookup key less k t = assoc k (values t).
Proof.
  induction t as [|l IHl r IHr x h]; intros Hs; [done|]. cbn [lookup values]. rewrite assoc_app by done. apply sorted_split in Hs as (Hl & Hr & _).
  rewrite IHl, IHr by done. done.
Qed.

Lemma insert_grown v t : shaped t -> grown t (insert key less v t).
Proof.
  induction t as [|l IHl r IHr x h]; intros Hs; [by repeat split|]. pose proof Hs as (Hl & Hr & _)%shaped_node. cbn [insert].
  destruct (less (key v) (key x)); [by apply balance_grown_left, IHl|]. destruct (less (key x) (key v)); [by apply balance_grown_right, IHr|].
  split; [done|lia].
Qed.

Lemma replace_grown v t : shaped t -> grown t (replace key less v t).
Proof.
  induction t as [|l IHl r IHr x h]; intros Hs; [by repeat split|]. pose proof Hs as (Hl & Hr & Hh & Hd)%shaped_node. cbn [replace].
  destruct (less (key v) (key x)); [by apply balance_grown_left, IHl|]. destruct (less (key x) (key v)); [by apply balance_grown_right, IHr|].
  split; [by apply shaped_node|cbn; lia].
Qed.

Lemma remove_shrunk k t : shaped t -> shrunk t (remove key less k t).
Proof.
  induction t as [|l IHl r IHr x h]; intros Hs; [split; [done|cbn; lia]|]. pose proof Hs as (Hl & Hr & Hh & Hd)%shaped_node. cbn [remove].
  destruct (less k (key x)); [by apply balance_shrunk_left, IHl|]. destruct (less (key x) k); [by apply balance_shrunk_right, IHr|].
  destruct (join_shaped l r) as [Hj Hjh]; [done..|]. split; [done|cbn; lia].
Qed.

Lemma insert_wf v t : wf t -> wf (insert key less v t).
Proof. intros [H1 H2]. split; [apply insert_grown; done|]. rewrite insert_values by done. by apply ins_sorted. Qed.
Lemma replace_wf v t : wf t -> wf (replace key less v t).
Proof. intros [H1 H2]. split; [apply replace_grown; done|]. rewrite replace_values by done. by apply rep_sorted. Qed.
Lemma remove_wf k t : wf t -> wf (remove key less k t).
Proof. intros [H1 H2]. split; [apply remove_shrunk; done|]. rewrite remove_values by done. by apply del_sorted. Qed.

Lemma popMin_wf t m t' : popMin t = Some (m, t') -> wf t -> wf t' /\ values t = m :: values t'.
Proof.
  intros E [H1 H2]. pose proof (popMin_spec t) as H. rewrite E in H. destruct H as [Hv Hs]. split; [|done]. split; [by apply Hs|].
  rewrite Hv in H2. by apply sorted_cons_inv in H2 as [H2 _].
Qed.
Lemma popMax_wf t m t' : popMax t = Some (m, t') -> wf t -> wf t' /\ values t = values t' ++ [m].
Proof.
  intros E [H1 H2]. pose proof (popMax_spec t) as H. rewrite E in H. destruct H as [Hv Hs]. split; [|done]. split; [by apply Hs|].
  rewrite Hv in H2. by apply sorted_split in H2 as (H2 & _).
Qed.

(** The last value whose key is not greater than [k]. *)
Lemma lookup_previous_values result k t :
  sorted (values t) ->
  lookup_previous_from key less result k t =
  match last (filter (fun x => less k (key x) = false) (values t)) with Some x => Some x | None => result end.
Proof.
  revert result. induction t as [|l IHl r IHr x h]; intros result Hs; [done|]. cbn [lookup_previous_from values].
  apply sorted_split in Hs as (Hl & Hr & Fl & Fr). rewrite filter_app, filter_cons, last_app.
  assert (forall b, less k (key x) = true \/ k = key x -> b ∈ values r -> less k (key b) = true) as Hnone.
  { intros b Hk Hb. pose proof (proj1 (Forall_forall _ _) Fr b Hb) as Hb'. cbn in Hb'. destruct Hk as [Hk | ->]; [by apply (less_trans _ (key x))|done]. }
  assert (less k (key x) = true \/ k = key x -> filter (fun x => less k (key x) = false) (values r) = []) as Hf.
  { intros Hk. destruct (filter _ (values r)) as [|b lf] eqn:E; [done|]. assert (b ∈ b :: lf) as Hb by constructor. rewrite <- E in Hb.
    apply list_elem_of_filter in Hb as [H1 H2]. by rewrite (Hnone b Hk H2) in H1. }
  destruct (less k (key x)) eqn:E1.
  - rewrite decide_False by done. rewrite Hf by (by left). cbn. by rewrite IHl.
  - rewrite decide_True by done. rewrite last_cons. destruct (less (key x) k) eqn:E2.
    + rewrite IHr by done. by destruct (last (filter _ (values r))).
    + rewrite Hf by (right; by apply less_total). done.
Qed.

End ordered.

(** ** The finite map *)

#[export] Instance Zltb_strict : StrictTotal Z.ltb.
Proof.
  split; intros *; rewrite ?Z.ltb_lt, ?Z.ltb_ge, ?Z.ltb_irrefl; [done|lia|lia].
Qed.

Lemma sorted_fmap {K V} (key : V -> K) (less : K -> K -> bool) (g : V -> V) l :
  (forall v, key (g v) = key v) -> sorted key less l -> sorted key less (g <$> l).
Proof.
  intros Hg. unfold sorted. induction 1 as [|v l Hs IH Hv]; [constructor|]. cbn. constructor; [done|].
  apply Forall_fmap. eapply Forall_impl; [exact Hv|]. intros x. cbn. by rewrite !Hg.
Qed.

(** C18: on a well-formed tree (right height fields, sides of every node that differ by
    at most two, increasing keys) the operations are those of a finite map from keys
    to values: [insert] adds a value unless its key is
    there, [replace] overwrites, [remove] deletes, [popMin] and [popMax] take off the
    first and the last value, and all of these give well-formed trees.
    [remove_if] drops the values of a predicate; its result has increasing keys and
    right height fields but need not be balanced (see [remove_if_unbalanced]).
    [lookup_previous] finds the last value whose key is not greater.  [map_values]
    changes the values in place and leaves the shape alone; a function that keeps the keys gives a
    well-formed tree.  The height of a well-formed tree is at most three times the
    logarithm of the number of values. *)
Theorem tree_refines_map {K V} `{EqDecision K} (key : V -> K) (less : K -> K -> bool) `{!StrictTotal less} (t : tree V) :
  wf key less t ->
  (forall v, wf key less (insert key less v t) /\
     forall k, lookup key less k (insert key less v t) = if decide (key v = k) then Some (default v (lookup key less k t)) else lookup key less k t) /\
  (forall v, wf key less (replace key less v t) /\
     forall k, lookup key less k (replace key less v t) = if decide (key v = k) then Some v else lookup key less k t) /\
  (forall k, wf key less (remove key less k t) /\
     forall k', lookup key less k' (remove key less k t) = if decide (k' = k) then None else lookup key less k' t) /\
  (forall pred, sorted key less (values (remove_if pred t)) /\ exact (remove_if pred t) /\
     forall k, lookup key less k (remove_if pred t) = match lookup key less k t with Some x => if pred x then None else Some x | None => None end) /\
  match popMin t with Some (m, t') => wf key less t' /\ min t = Some m /\ values t = m :: values t' | None => t = Terminator end /\
  match popMax t with Some (m, t') => wf key less t' /\ max t = Some m /\ values t = values t' ++ [m] | None => t = Terminator end /\
  (forall k, lookup_previous key less k t = last (filter (fun x => less k (key x) = false) (values t))) /\
  (forall f, shaped (map_values f t) /\ values (map_values f t) = (fun v => if (f v).2 then (f v).1 else v) <$> values t /\
     ((forall v, key (f v).1 = key v) -> wf key less (map_values f t))) /\
  size t = Z.of_nat (length (values t)) /\ 2 ^ (height_of t / 3) <= size t + 1.
Proof.
  intros Hwf. pose proof Hwf as [Hsh Hs]. split_and!.
  - intros v. pose proof (insert_wf key less v t Hwf) as [H1 H2]. split; [done|]. intros k. by rewrite !lookup_values, insert_values, ins_assoc.
  - intros v. pose proof (replace_wf key less v t Hwf) as [H1 H2]. split; [done|]. intros k. by rewrite !lookup_values, replace_values, rep_assoc.
  - intros k. pose proof (remove_wf key less k t Hwf) as [H1 H2]. split; [done|]. intros k'. by rewrite !lookup_values, remove_values, del_assoc.
  - intros pred. pose proof (filter_sorted key less (fun v => pred v = false) (values t) Hs) as Hf. rewrite <- remove_if_values in Hf.
    split_and!; [done|by apply remove_if_exact, Hsh|]. intros k. rewrite !lookup_values by done. rewrite remove_if_values, (filter_assoc key less) by done.
    destruct (assoc key k (values t)) as [x|]; [|done]. by destruct (pred x).
  - destruct (popMin t) as [[m t']|] eqn:E; [|pose proof (popMin_spec t) as H; by rewrite E in H]. destruct (popMin_wf key less t m t' E Hwf) as [H1 H2].
    by rewrite min_values, H2.
  - destruct (popMax t) as [[m t']|] eqn:E; [|pose proof (popMax_spec t) as H; by rewrite E in H]. destruct (popMax_wf key less t m t' E Hwf) as [H1 H2].
    by rewrite max_values, H2, last_snoc.
  - intros k. unfold lookup_previous. rewrite (lookup_previous_values key less) by done. by destruct (last _).
  - intros f. pose proof (map_values_node_spec f t (proj1 Hsh)) as H. unfold map_values. destruct (map_values_node f t) as [t' same].
    destruct H as (H1 & H2 & H3 & _ & H4). assert (shaped t') as Hsh' by (split; [done|by apply H3, Hsh]). split; [done|]. split; [done|].
    intros Hk. split; [done|]. cbn [fst]. rewrite H4. apply (sorted_fmap key less); [|done]. intros v. by destruct (f v).2.
  - apply size_values.
  - by apply height_log.
Qed.

Definition demo_tree : tree (Z * Z) :=
  Eval vm_compute in foldl (fun t v => insert fst Z.ltb v t) Terminator [(1, 10); (2, 20); (3, 30); (4, 40); (5, 50); (6, 60); (7, 70); (8, 80); (9, 90); (10, 100)].

Lemma demo_tree_wf : wf fst Z.ltb demo_tree.
Proof.
  change demo_tree with (foldl (fun t v => insert fst Z.ltb v t) Terminator [(1, 10); (2, 20); (3, 30); (4, 40); (5, 50); (6, 60); (7, 70); (8, 80); (9, 90); (10, 100)]).
  cbn [foldl]. do 10 (apply insert_wf; [apply _|]). by repeat constructor.
Qed.

Lemma tree_refines_map_witness :
  wf fst Z.ltb demo_tree /\ lookup fst Z.ltb 4 (remove fst Z.ltb 4 demo_tree) = None /\ lookup fst Z.ltb 5 (remove fst Z.ltb 4 demo_tree) = Some (5, 50).
Proof.
  destruct (tree_refines_map fst Z.ltb demo_tree demo_tree_wf) as (_ & _ & Hr & _). destruct (Hr 4) as [_ H].
  split; [exact demo_tree_wf|]. rewrite !H. split; reflexivity.
Defined.

(** [remove_if] takes off the right half of a tree: one rotation does not balance what is left. *)
Example remove_if_unbalanced :
  let t := foldl (fun t v => insert id Z.ltb v t) Terminator (seqZ 0 30) in
  balanced t /\ ~ balanced (remove_if (fun v => 15 <? v) t).
Proof.
  cbn zeta. split; [|intros H; vm_compute in H; decompose [and] H; congruence].
  assert (forall l t, shaped t -> shaped (foldl (fun t v => insert id Z.ltb v t) t l)) as H.
  { intros l. induction l as [|v l IH]; intros t Ht; [done|]. apply IH. by apply insert_grown. }
  by apply H.
Qed.
