(* ===== verification/ImmIter.v ===== *)
(** * Iterators over immutable trees ([include/klee/Internal/ADT/ImmutableTree.h])

    An iterator keeps the root of its tree and a stack of nodes, from the node it
    stands on back to the root; the end has the empty stack.  The stack is an
    array with as many slots as the root is high, and a write past it has no
    result here.  The code tells the two children of a node apart by their
    addresses; the keys below the two are different, so their contents tell them
    apart too.  [merge_with] and the comparisons walk two trees with iterators. *)

From stdpp Require Import base list sorting fin_sets.
From Stdlib Require Import ZArith Lia.
From S2P Require Import Prelude ImmTree.

Record iterator (V : Type) := { root : tree V; stack : list (tree V) }.
Arguments Build_iterator {V}. Arguments root {V}. Arguments stack {V}.

Section iterators.
Context {V : Type} `{EqDecision V}.
Implicit Types (t n m : tree V) (s : list (tree V)) (v : V) (it : iterator V).

(** [FixedStack::push_back]; the last node pushed comes first. *)
Definition push_back (cap : Z) n s : option (list (tree V)) :=
  if Z.of_nat (length s) <? cap then Some (n :: s) else None.

Fixpoint push_lefts (cap : Z) n s : option (list (tree V)) :=
  match n with Terminator => Some s | Node l _ _ _ => s' ← push_back cap n s; push_lefts cap l s' end.
Fixpoint push_rights (cap : Z) n s : option (list (tree V)) :=
  match n with Terminator => Some s | Node _ r _ _ => s' ← push_back cap n s; push_rights cap r s' end.

Definition begin t : option (iterator V) := s ← push_lefts (height_of t) t []; Some (Build_iterator t s).
Definition end_ t : iterator V := Build_iterator t [].
Definition deref it : option V := n ← head (stack it); value_of n.
Definition it_eq (a b : iterator V) : bool := bool_decide (stack a = stack b).

(** The loop that goes up until it comes from the left (right) side. *)
Fixpoint climb_left prev s : list (tree V) :=
  match s with [] => [] | n :: s' => if bool_decide (prev = left_of n) then s else climb_left n s' end.
Fixpoint climb_right prev s : list (tree V) :=
  match s with [] => [] | n :: s' => if bool_decide (prev = right_of n) then s else climb_right n s' end.

Definition next it : option (iterator V) :=
  match stack it with
  | [] => None
  | n :: s =>
      if isTerminator (right_of n) then Some (Build_iterator (root it) (climb_left n s))
      else
        s1 ← push_back (height_of (root it)) (right_of n) (n :: s);
        s2 ← push_lefts (height_of (root it)) (left_of (right_of n)) s1;
        Some (Build_iterator (root it) s2)
  end.

Definition prev it : option (iterator V) :=
  match stack it with
  | [] => s ← push_rights (height_of (root it)) (root it) []; Some (Build_iterator (root it) s)
  | n :: s =>
      if isTerminator (left_of n) then Some (Build_iterator (root it) (climb_right n s))
      else
        s1 ← push_back (height_of (root it)) (left_of n) (n :: s);
        s2 ← push_rights (height_of (root it)) (right_of (left_of n)) s1;
        Some (Build_iterator (root it) s2)
  end.

(** [operator==]: both trees are walked in step. *)
Fixpoint tree_eq_from (fuel : nat) (a b : iterator V) : option bool :=
  match fuel with
  | O => None
  | S fuel =>
      if it_eq a (end_ (root a)) then Some (it_eq b (end_ (root b)))
      else if it_eq b (end_ (root b)) then Some false
      else
        x ← deref a; y ← deref b;
        if negb (bool_decide (x = y)) then Some false
        else a' ← next a; b' ← next b; tree_eq_from fuel a' b'
  end.
Definition tree_eq (fuel : nat) lhs rhs : option bool :=
  if bool_decide (lhs = rhs) then Some true
  else if negb (Bool.eqb (isTerminator lhs) (isTerminator rhs)) then Some false
  else a ← begin lhs; b ← begin rhs; tree_eq_from fuel a b.

End iterators.

Section searching.
Context {K V : Type} `{EqDecision V} (key : V -> K) (less : K -> K -> bool).
Implicit Types (t n : tree V) (s : list (tree V)) (k : K).

(** The loop of [lower_bound]; the flag tells that the key was met. *)
Fixpoint lower_bound_loop (cap : Z) k n s : option (list (tree V) * bool) :=
  match n with
  | Terminator => Some (s, false)
  | Node l r x _ =>
      s' ← push_back cap n s;
      if less k (key x) then lower_bound_loop cap k l s'
      else if less (key x) k then lower_bound_loop cap k r s'
      else Some (s', true)
  end.

Definition lower_bound k t : option (iterator V) :=
  '(s, found) ← lower_bound_loop (height_of t) k t [];
  let it := Build_iterator t s in
  if found : bool then Some it
  else
    match head s with
    | None => Some it
    | Some last => x ← value_of last; if less (key x) k then next it else Some it
    end.

Definition find k t : option (iterator V) :=
  it ← lower_bound k t;
  if it_eq it (end_ t) then Some (end_ t)
  else x ← deref it; Some (if less k (key x) then end_ t else it).

Definition upper_bound k t : option (iterator V) :=
  it ← lower_bound k t;
  if it_eq it (end_ t) then Some it
  else x ← deref it; if less k (key x) then Some it else next it.

Fixpoint merge_loop (mergefn : V -> V -> bool * V) (fuel : nat) (a b : iterator V) (result : tree V) : option (tree V) :=
  match fuel with
  | O => None
  | S fuel =>
      let a_end := it_eq a (end_ (root a)) in
      let b_end := it_eq b (end_ (root b)) in
      if a_end && b_end then Some result
      else
        let first x y := match x, y with Some x, Some y => less (key x) (key y) | _, _ => false end in
        if negb a_end && (b_end || first (deref a) (deref b)) then
          x ← deref a; a' ← next a; merge_loop mergefn fuel a' b (insert key less x result)
        else if negb b_end && (a_end || first (deref b) (deref a)) then
          y ← deref b; b' ← next b; merge_loop mergefn fuel a b' (insert key less y result)
        else
          x ← deref a; y ← deref b; a' ← next a; b' ← next b;
          let '(keep, v) := mergefn x y in
          merge_loop mergefn fuel a' b' (if keep then insert key less v result else result)
  end.

Definition merge_with (mergefn : V -> V -> bool * V) (fuel : nat) (t other : tree V) : option (tree V) :=
  if isTerminator t then Some other
  else if isTerminator other then Some t
  else a ← begin t; b ← begin other; merge_loop mergefn fuel a b Terminator.

End searching.

(** ** Where an iterator stands *)

Section positions.
Context {V : Type} `{EqDecision V}.
Implicit Types (t n m : tree V) (s : list (tree V)) (v : V) (it : iterator V).

(** [n] is the root, or a child of the first node of [s], which leads to the root. *)
Fixpoint hangs t n s : Prop :=
  match s with
  | [] => n = t
  | m :: s' => (n = left_of m \/ n = right_of m) /\ m <> Terminator /\ hangs t m s'
  end.
Definition on_path t s : Prop := match s with [] => True | n :: s' => n <> Terminator /\ hangs t n s' end.

(** The values before and after all of [n]. *)
Fixpoint before n s : list V :=
  match s with
  | [] => []
  | m :: s' => if decide (n = left_of m) then before m s' else before m s' ++ values (left_of m) ++ option_list (value_of m)
  end.
Fixpoint after n s : list V :=
  match s with
  | [] => []
  | m :: s' => if decide (n = left_of m) then option_list (value_of m) ++ values (right_of m) ++ after m s' else after m s'
  end.

(** The values that are still to come, and those passed. *)
Definition rest s : list V :=
  match s with [] => [] | n :: s' => option_list (value_of n) ++ values (right_of n) ++ after n s' end.
Definition passed t s : list V := match s with [] => values t | n :: s' => before n s' ++ values (left_of n) end.

Lemma values_node n : n <> Terminator -> values n = values (left_of n) ++ option_list (value_of n) ++ values (right_of n).
Proof. by destruct n. Qed.

Lemma hangs_values t n s : hangs t n s -> values t = before n s ++ values n ++ after n s.
Proof.
  revert n. induction s as [|m s IH]; intros n; cbn [hangs before after]; [intros ->; by rewrite app_nil_r|]. intros (Hc & Hm & Hh). rewrite (IH m Hh), (values_node m Hm).
  destruct (decide (n = left_of m)) as [->|Hn]; [by rewrite <- !app_assoc|]. destruct Hc as [Hc | ->]; [done|]. by rewrite <- !app_assoc.
Qed.

Lemma on_path_values t s : on_path t s -> values t = passed t s ++ rest s.
Proof.
  destruct s as [|n s]; cbn [passed rest on_path]; [by rewrite app_nil_r|]. intros [Hn Hh]. by rewrite (hangs_values _ _ _ Hh), (values_node n Hn), <- !app_assoc.
Qed.

Lemma child_height n m :
  m <> Terminator -> exact m -> n = left_of m \/ n = right_of m -> exact n /\ height_of n + 1 <= height_of m.
Proof. destruct m as [|l r v h]; [done|]. cbn. intros _ (E1 & E2 & ->) [-> | ->]; split; [done|lia|done|lia]. Qed.

Lemma hangs_height t n s : exact t -> hangs t n s -> exact n /\ Z.of_nat (length s) + height_of n <= height_of t.
Proof.
  intros Ht. revert n. induction s as [|m s IH]; intros n; cbn [hangs length]; [intros ->; split; [done|lia]|].
  intros (Hc & Hm & Hh). destruct (IH m Hh) as [Em Hl]. destruct (child_height n m Hm Em Hc) as [En Hn]. split; [done|lia].
Qed.

Lemma node_height n : exact n -> n <> Terminator -> 1 <= height_of n.
Proof. destruct n as [|l r v h]; [done|]. cbn. intros (E1 & E2 & ->) _. pose proof (height_nonneg l E1). lia. Qed.

(** There is room for every node of a path. *)
Lemma push_back_room t n s :
  exact t -> hangs t n s -> n <> Terminator -> push_back (height_of t) n s = Some (n :: s).
Proof.
  intros Ht Hh Hn. destruct (hangs_height t n s Ht Hh) as [En Hl]. pose proof (node_height n En Hn). unfold push_back.
  by rewrite (proj2 (Z.ltb_lt _ _)) by lia.
Qed.

Lemma hangs_left t n s : n <> Terminator -> hangs t n s -> hangs t (left_of n) (n :: s).
Proof. cbn. tauto. Qed.
Lemma hangs_right t n s : n <> Terminator -> hangs t n s -> hangs t (right_of n) (n :: s).
Proof. cbn. tauto. Qed.

Lemma before_left n s : before (left_of n) (n :: s) = before n s.
Proof. cbn. by rewrite decide_True. Qed.
Lemma after_left n s : after (left_of n) (n :: s) = option_list (value_of n) ++ values (right_of n) ++ after n s.
Proof. cbn. by rewrite decide_True. Qed.

(** ** Steps *)

Lemma hangs_nodup t n s : NoDup (values t) -> hangs t n s -> NoDup (values n).
Proof. intros Hd Hh. rewrite (hangs_values t n s Hh) in Hd. apply NoDup_app in Hd as (_ & _ & Hd). by apply NoDup_app in Hd as (Hd & _). Qed.

(** Different values make the two sides of a node different. *)
Lemma sides_differ n : NoDup (values n) -> right_of n <> Terminator -> right_of n <> left_of n.
Proof.
  destruct n as [|l r v h]; [done|]. cbn. intros Hd Hr ->. apply NoDup_app in Hd as (_ & Hx & _).
  destruct (values l) as [|x lv] eqn:E; [by apply values_nil in E|]. apply (Hx x); set_solver.
Qed.

Lemma before_right n s :
  right_of n <> left_of n -> before (right_of n) (n :: s) = before n s ++ values (left_of n) ++ option_list (value_of n).
Proof. intros H. cbn. by rewrite decide_False. Qed.
Lemma after_right n s : right_of n <> left_of n -> after (right_of n) (n :: s) = after n s.
Proof. intros H. cbn. by rewrite decide_False. Qed.

Section tree.
Variable t : tree V.
Hypothesis Ht : exact t.
Hypothesis Hd : NoDup (values t).

Lemma push_lefts_spec n s :
  hangs t n s -> n <> Terminator ->
  exists s', push_lefts (height_of t) n s = Some s' /\ on_path t s' /\ rest s' = values n ++ after n s.
Proof.
  revert s. induction n as [|l IHl r _ v h]; intros s Hh Hn; [done|]. cbn [push_lefts]. rewrite push_back_room by done. cbn [mbind option_bind].
  destruct (decide (l = Terminator)) as [->|Hl]; [by exists (Node Terminator r v h :: s)|].
  destruct (IHl (Node l r v h :: s)) as (s' & H1 & H2 & H3); [by apply (hangs_left t (Node l r v h))|done|]. exists s'. split_and!; [done|done|].
  rewrite H3, (after_left (Node l r v h)). cbn. by rewrite <- app_assoc.
Qed.

Lemma push_rights_spec n s :
  hangs t n s -> n <> Terminator ->
  exists s' m v, push_rights (height_of t) n s = Some s' /\ on_path t s' /\ head s' = Some m /\ value_of m = Some v /\ rest s' = v :: after n s.
Proof.
  revert s. induction n as [|l _ r IHr v h]; intros s Hh Hn; [done|]. cbn [push_rights]. rewrite push_back_room by done. cbn [mbind option_bind].
  destruct (decide (r = Terminator)) as [->|Hr]; [by exists (Node l Terminator v h :: s), (Node l Terminator v h), v|].
  destruct (IHr (Node l r v h :: s)) as (s' & m & x & H1 & H2 & H3 & H4 & H5); [by apply (hangs_right t (Node l r v h))|done|].
  exists s', m, x. split_and!; [done..|]. rewrite H5. f_equal. apply (after_right (Node l r v h)). apply sides_differ; [|done]. by eapply hangs_nodup.
Qed.

Lemma climb_left_spec n s : hangs t n s -> on_path t (climb_left n s) /\ rest (climb_left n s) = after n s.
Proof.
  revert n. induction s as [|m s IH]; intros n; [done|]. cbn [hangs climb_left after]. intros (Hc & Hm & Hh).
  case_bool_decide as Hl; [rewrite decide_True by done; done|]. rewrite decide_False by done. by apply IH.
Qed.

Lemma climb_right_spec n s :
  hangs t n s -> n <> Terminator ->
  on_path t (climb_right n s) /\
  (climb_right n s = [] /\ before n s = [] \/
   exists m v, head (climb_right n s) = Some m /\ value_of m = Some v /\ rest (climb_right n s) = v :: values n ++ after n s).
Proof.
  revert n. induction s as [|m s IH]; intros n Hh Hn; [split; [done|by left]|]. pose proof Hh as (Hc & Hm & Hh'). cbn [climb_right].
  case_bool_decide as Hr.
  - split; [done|]. right. assert (right_of m <> left_of m) by (apply sides_differ; [by eapply hangs_nodup|congruence]).
    destruct m as [|l r v h] eqn:Em; [done|]. exists m, v. rewrite Em. split_and!; [done..|]. subst n. rewrite (after_right (Node l r v h)) by done. done.
  - destruct Hc as [Hc|Hc]; [|done]. destruct (IH m Hh' Hm) as (H1 & H2). split; [done|]. subst n. rewrite before_left, after_left.
    destruct H2 as [H2|(m' & v & H2 & H3 & H4)]; [by left|]. right. exists m', v. split_and!; [done..|]. rewrite H4, (values_node m Hm). by rewrite <- !app_assoc.
Qed.

(** An iterator of the tree. *)
Definition iter_ok it : Prop := root it = t /\ on_path t (stack it).

Lemma begin_ok : exists it, begin t = Some it /\ iter_ok it /\ rest (stack it) = values t.
Proof.
  unfold begin. destruct (decide (t = Terminator)) as [E|E].
  - exists (Build_iterator t []). rewrite E. done.
  - destruct (push_lefts_spec t []) as (s & -> & H & Hr); [done..|]. exists (Build_iterator t s). split_and!; [done|done|]. cbn in *. by rewrite Hr, app_nil_r.
Qed.

Lemma end_ok : iter_ok (end_ t) /\ rest (stack (end_ t)) = [].
Proof. done. Qed.

Lemma rest_nil it : iter_ok it -> rest (stack it) = [] <-> stack it = [].
Proof.
  intros [_ Hp]. destruct (stack it) as [|n s] eqn:E; [done|]. cbn in *. destruct n; [by destruct Hp|]. done.
Qed.

Lemma it_eq_end it : iter_ok it -> it_eq it (end_ (root it)) = bool_decide (rest (stack it) = []).
Proof. intros H. unfold it_eq. apply bool_decide_ext. cbn. by rewrite rest_nil. Qed.

Lemma deref_ok it : iter_ok it -> deref it = head (rest (stack it)).
Proof. intros [_ Hp]. unfold deref. destruct (stack it) as [|n s]; [done|]. cbn in *. destruct n; [by destruct Hp|done]. Qed.

(** [++] goes to the following value. *)
Lemma inext_ok it v l :
  iter_ok it -> rest (stack it) = v :: l -> exists it', next it = Some it' /\ iter_ok it' /\ rest (stack it') = l.
Proof.
  intros [Hroot Hp] Hr. unfold next. destruct (stack it) as [|n s]; [done|]. destruct Hp as [Hn Hh]. rewrite Hroot. cbn in Hr.
  destruct n as [|a r x h] eqn:En; [done|]. cbn in Hr. injection Hr as -> Hl. rewrite <- En in *. destruct (decide (r = Terminator)) as [Er|Er].
  - subst r. rewrite En. cbn [right_of isTerminator]. rewrite <- En. destruct (climb_left_spec n s Hh) as [H1 H2]. eexists. split_and!; [done|done|]. cbn. by rewrite H2, <- Hl, En.
  - assert (isTerminator (right_of n) = false) as -> by (rewrite En; by destruct r). assert (right_of n = r) as Hrn by (by rewrite En). rewrite Hrn.
    assert (hangs t r (n :: s)) as Hhr by (rewrite <- Hrn; apply hangs_right; [by rewrite En|done]).
    rewrite push_back_room by done. cbn [mbind option_bind]. destruct (push_lefts_spec r (n :: s) Hhr Er) as (s' & H1 & H2 & H3).
    destruct r as [|rl rr rv rh] eqn:Err; [done|]. cbn [push_lefts left_of] in H1 |- *. rewrite push_back_room in H1 by done. cbn [mbind option_bind] in H1. rewrite H1.
    eexists. split_and!; [done|done|]. cbn [stack]. rewrite H3, <- Hrn, <- Hl. rewrite after_right; [by rewrite Hrn, En|].
    apply sides_differ; [by eapply hangs_nodup|by rewrite Hrn].
Qed.

(** [--] goes to the value before, and from the first one to the end. *)
Lemma prev_ok it :
  iter_ok it -> t <> Terminator ->
  exists it', prev it = Some it' /\ iter_ok it' /\
  (stack it' = [] /\ passed t (stack it) = [] \/ exists v, deref it' = Some v /\ rest (stack it') = v :: rest (stack it)).
Proof.
  intros [Hroot Hp] Hne. unfold prev. destruct (stack it) as [|n s] eqn:Es; rewrite Hroot.
  { destruct (push_rights_spec t []) as (s' & m & v & -> & H1 & H2 & H3 & H4); [done..|]. eexists. split_and!; [done|done|]. right. exists v. unfold deref. cbn. by rewrite H2. }
  destruct Hp as [Hn Hh]. destruct n as [|l r x h] eqn:En; [done|]. rewrite <- En in *. destruct (decide (l = Terminator)) as [El|El].
  - assert (isTerminator (left_of n) = true) as -> by (rewrite En; by subst l). destruct (climb_right_spec n s Hh) as [H1 H2]; [done|].
    eexists. split_and!; [done|done|]. cbn [stack passed rest]. destruct H2 as [[H2 H3]|(m & v & H2 & H3 & H4)]; [left|right].
    + split; [done|]. rewrite H3, En. by subst l.
    + exists v. unfold deref. cbn [stack]. rewrite H2, H4. split; [done|]. rewrite En. by subst l.
  - assert (isTerminator (left_of n) = false) as -> by (rewrite En; by destruct l). assert (left_of n = l) as Hln by (by rewrite En). rewrite Hln.
    assert (hangs t l (n :: s)) as Hhl by (rewrite <- Hln; by apply hangs_left).
    rewrite push_back_room by done. cbn [mbind option_bind]. destruct (push_rights_spec l (n :: s) Hhl El) as (s' & m & v & H1 & H2 & H3 & H4 & H5).
    destruct l as [|ll lr lv lh] eqn:Ell; [done|]. cbn [push_rights right_of] in H1 |- *. rewrite push_back_room in H1 by done. cbn [mbind option_bind] in H1. rewrite H1.
    eexists. split_and!; [done|done|]. right. exists v. unfold deref. cbn [stack]. rewrite H3, H5, <- Hln, after_left. done.
Qed.

End tree.
End positions.

(** ** Walks *)

(** [for (it = begin(); it != end(); ++it)] *)
Fixpoint walk {V} `{EqDecision V} (fuel : nat) (it : iterator V) : option (list V) :=
  match fuel with
  | O => None
  | S fuel =>
      if it_eq it (end_ (root it)) then Some []
      else v ← deref it; it' ← next it; l ← walk fuel it'; Some (v :: l)
  end.

Section walks.
Context {V : Type} `{EqDecision V}.
Implicit Types (t : tree V) (it a b : iterator V).

Definition distinct t : Prop := exact t /\ NoDup (values t).

Lemma walk_ok t it fuel : distinct t -> iter_ok t it -> (length (rest (stack it)) < fuel)%nat -> walk fuel it = Some (rest (stack it)).
Proof.
  intros [Ht Hd]. revert it. induction fuel as [|fuel IH]; intros it Hi Hf; [lia|]. cbn [walk]. rewrite (it_eq_end t) by done.
  destruct (rest (stack it)) as [|v l] eqn:E; [by rewrite bool_decide_eq_true_2|]. rewrite bool_decide_eq_false_2 by done.
  rewrite (deref_ok t), E by done. destruct (inext_ok t Ht Hd it v l Hi E) as (it' & -> & Hi' & Hr). cbn -[walk]. rewrite IH; [by rewrite Hr|done|]. rewrite Hr. cbn in Hf. lia.
Qed.

Lemma tree_eq_from_ok t t' a b fuel :
  distinct t -> distinct t' -> iter_ok t a -> iter_ok t' b -> (length (rest (stack a)) < fuel)%nat ->
  tree_eq_from fuel a b = Some (bool_decide (rest (stack a) = rest (stack b))).
Proof.
  intros [Ht Hd] [Ht' Hd']. revert a b. induction fuel as [|fuel IH]; intros a b Ha Hb Hf; [lia|]. cbn [tree_eq_from].
  rewrite (it_eq_end t a), (it_eq_end t' b) by done. destruct (rest (stack a)) as [|x l] eqn:Ea.
  { rewrite bool_decide_eq_true_2 by done. f_equal. apply bool_decide_ext. naive_solver. }
  rewrite bool_decide_eq_false_2 by done. destruct (rest (stack b)) as [|y l'] eqn:Eb; [by rewrite bool_decide_eq_true_2|]. rewrite bool_decide_eq_false_2 by done.
  rewrite (deref_ok t a), Ea, (deref_ok t' b), Eb by done. cbn [head mbind option_bind].
  destruct (inext_ok t Ht Hd a x l Ha Ea) as (a' & -> & Ha' & Hra). destruct (inext_ok t' Ht' Hd' b y l' Hb Eb) as (b' & -> & Hb' & Hrb). cbn [mbind option_bind].
  destruct (decide (x = y)) as [->|Hxy].
  - rewrite bool_decide_eq_true_2 by done. cbn [negb]. rewrite IH by (rewrite ?Hra; cbn in Hf; done || lia). rewrite Hra, Hrb. f_equal. apply bool_decide_ext. split; congruence.
  - rewrite bool_decide_eq_false_2 by done. cbn [negb]. rewrite bool_decide_eq_false_2 by congruence. done.
Qed.

Lemma tree_eq_ok t t' fuel :
  distinct t -> distinct t' -> (length (values t) < fuel)%nat -> tree_eq fuel t t' = Some (bool_decide (values t = values t')).
Proof.
  intros Hd Hd' Hf. unfold tree_eq. case_bool_decide as E; [subst; by rewrite bool_decide_eq_true_2|].
  destruct (begin_ok t (proj1 Hd)) as (a & -> & Ha & Hra). destruct (begin_ok t' (proj1 Hd')) as (b & -> & Hb & Hrb). cbn [mbind option_bind].
  destruct (Bool.eqb (isTerminator t) (isTerminator t')) eqn:Ee; cbn [negb].
  - rewrite (tree_eq_from_ok t t') by (done || by rewrite Hra). by rewrite Hra, Hrb.
  - rewrite bool_decide_eq_false_2; [done|]. intros Hv. destruct t, t'; try done; [symmetry in Hv|]; by apply values_nil in Hv.
Qed.

End walks.

Section bounds.
Context {K V : Type} `{EqDecision K, EqDecision V} (key : V -> K) (less : K -> K -> bool) `{!StrictTotal less}.
Implicit Types (t n m : tree V) (s : list (tree V)) (k : K) (l : list V).

Lemma sorted_nodup l : sorted key less l -> NoDup l.
Proof.
  induction l as [|x l IH]; intros Hs; [constructor|]. apply sorted_cons_inv in Hs as [Hs Hf]. constructor; [|by apply IH].
  intros Hx. pose proof (proj1 (Forall_forall _ _) Hf x Hx) as H. cbn in H. by rewrite less_irrefl in H.
Qed.

Lemma wf_distinct t : wf key less t -> distinct t.
Proof. intros [[He _] Hs]. split; [done|by apply sorted_nodup]. Qed.

Lemma filter_cut (P : V -> Prop) `{!forall x, Decision (P x)} l p q :
  l = p ++ q -> Forall (fun x => ~ P x) p -> Forall P q -> q = filter P l.
Proof.
  intros -> Hp Hq. induction Hp as [|x p Hx _ IH]; cbn [app].
  - induction Hq as [|x q Hx _ IH]; [done|]. rewrite filter_cons, decide_True by done. by f_equal.
  - by rewrite filter_cons, decide_False.
Qed.

Section tree.
Variable t : tree V.
Hypothesis Ht : exact t.
Hypothesis Hs : sorted key less (values t).
Variable k : K.

Notation lower x := (less (key x) k = true).
Notation upper x := (less (key x) k = false).

Lemma lower_bound_loop_spec n s :
  hangs t n s -> n <> Terminator -> Forall (fun x => lower x) (before n s) -> Forall (fun x => upper x) (after n s) ->
  exists m s' x found,
    lower_bound_loop key less (height_of t) k n s = Some (m :: s', found) /\ hangs t m s' /\ value_of m = Some x /\
    Forall (fun x => lower x) (before m s') /\ Forall (fun x => upper x) (after m s') /\
    (if found : bool then key x = k else less k (key x) = true /\ left_of m = Terminator \/ less (key x) k = true /\ right_of m = Terminator).
Proof.
  revert s. induction n as [|l IHl r IHr x h]; intros s Hh Hn Hb Ha; [done|]. cbn [lower_bound_loop]. set (n := Node l r x h) in *.
  rewrite push_back_room by done. cbn [mbind option_bind]. rewrite (hangs_values t n s Hh) in Hs.
  assert (sorted key less (values n)) as Hsn by (eapply StronglySorted_app_1_l, StronglySorted_app_1_r; exact Hs).
  pose proof (sides_differ n (sorted_nodup _ Hsn)) as Hsd. apply sorted_split in Hsn as (_ & _ & Fl & Fr); [|done].
  destruct (less k (key x)) eqn:E1; [|destruct (less (key x) k) eqn:E2].
  - destruct (decide (l = Terminator)) as [->|Hl]; [exists n, s, x, false; cbn; naive_solver|].
    apply (IHl (n :: s)); [by apply (hangs_left t n)|done|by rewrite (before_left n)|]. rewrite (after_left n).
    constructor; [by apply less_asym|]. apply Forall_app. split; [|done]. eapply Forall_impl; [exact Fr|].
    intros b Hb'. apply less_asym; [done|]. by apply (less_trans _ (key x)).
  - destruct (decide (r = Terminator)) as [->|Hr]; [exists n, s, x, false; cbn; naive_solver|].
    specialize (Hsd Hr). apply (IHr (n :: s)); [by apply (hangs_right t n)|done| |by rewrite (after_right n)]. rewrite (before_right n) by done.
    repeat (apply Forall_app; split); [done| |by constructor]. eapply Forall_impl; [exact Fl|]. intros b Hb'. by apply (less_trans _ (key x)).
  - exists n, s, x, true. split_and!; [done..|]. symmetry. by apply less_total.
Qed.

(** The iterator on the first value that is not less than the key. *)
Lemma lower_bound_ok :
  exists it, lower_bound key less k t = Some it /\ iter_ok t it /\ rest (stack it) = filter (fun x => upper x) (values t).
Proof.
  unfold lower_bound. destruct (decide (t = Terminator)) as [E|E]; [by exists (end_ t); rewrite E|].
  destruct (lower_bound_loop_spec t []) as (m & s & x & found & Hq & Hh & Hm & Hb & Ha & Hc); [done..|by constructor|by constructor|]. rewrite Hq.
  assert (m <> Terminator) as Hn by (intros ->; done). pose proof (hangs_values t m s Hh) as Hv. pose proof (values_node m Hn) as Hvm. rewrite Hm in Hvm. cbn in Hvm.
  assert (sorted key less (values m)) as Hsm by (rewrite Hv in Hs; eapply StronglySorted_app_1_l, StronglySorted_app_1_r; exact Hs).
  rewrite Hvm in Hsm. apply sorted_split in Hsm as (_ & _ & Fl & Fr); [|done]. rewrite Hvm in Hv.
  assert (forall b, less k (key b) = true -> upper b) as Hup by (intros b; by apply less_asym).
  assert (upper x -> Forall (fun x => lower x) (values (left_of m)) -> rest (m :: s) = filter (fun x => upper x) (values t)) as Hhere.
  { intros Hx Hl. apply (filter_cut _ _ (before m s ++ values (left_of m))); cbn [rest]; rewrite ?Hm; cbn.
    - by rewrite Hv, <- !app_assoc.
    - apply Forall_app. split; (eapply Forall_impl; [eassumption|]; cbn; congruence).
    - constructor; [done|]. apply Forall_app. split; [|done]. eapply Forall_impl; [exact Fr|]. intros b Hb'. cbn.
      destruct (less (key b) k) eqn:Eb; [|done]. pose proof (less_trans _ _ _ Hb' Eb). congruence. }
  cbn [mbind option_bind]. destruct found.
  - eexists. split_and!; [done|done|]. apply Hhere; subst k; [by rewrite less_irrefl|done].
  - cbn [head]. rewrite Hm. cbn [mbind option_bind]. destruct Hc as [[Hk Hl]|[Hk Hr]].
    + rewrite (less_asym less k (key x) Hk). eexists. split_and!; [done|done|]. apply Hhere; [by apply Hup|by rewrite Hl].
    + rewrite Hk. destruct (inext_ok t Ht (sorted_nodup _ Hs) (Build_iterator t (m :: s)) x (after m s)) as (it & Hnx & Hok & Hr'); [done|cbn; by rewrite Hm, Hr|].
      exists it. split_and!; [done|done|]. rewrite Hr'. apply (filter_cut _ _ (before m s ++ values (left_of m) ++ [x])); [|
        |done]; [rewrite Hv, Hr; cbn; by rewrite <- !app_assoc|]. apply Forall_app; split; [eapply Forall_impl; [exact Hb|]; cbn; congruence|]. apply Forall_app; split.
      * eapply Forall_impl; [exact Fl|]. cbn. intros b Hb'. rewrite (less_trans _ _ _ Hb' Hk). done.
      * constructor; [cbn; congruence|constructor].
Qed.

End tree.

Lemma assoc_upper k l :
  sorted key less l ->
  assoc key k l = match filter (fun x => less (key x) k = false) l with [] => None | y :: _ => if less k (key y) then None else Some y end.
Proof.
  induction l as [|x l IH]; intros Hs; [done|]. rewrite filter_cons. destruct (less (key x) k) eqn:E.
  - rewrite assoc_cons, (decide_False (P := true = false)) by done. rewrite decide_False; [|by apply (less_neq less)].
    apply IH. by apply sorted_cons_inv in Hs as [? _].
  - rewrite decide_True by done. destruct (less k (key x)) eqn:E'; [by apply (sorted_assoc_head key less)|]. rewrite assoc_cons, decide_True; [done|]. by apply less_total.
Qed.

Lemma strictly_upper k l :
  sorted key less l ->
  filter (fun x => less k (key x) = true) l =
  match filter (fun x => less (key x) k = false) l with [] => [] | y :: l' => if less k (key y) then y :: l' else l' end.
Proof.
  induction l as [|x l IH]; intros Hs; [done|]. apply sorted_cons_inv in Hs as [Hs Hf]. rewrite !filter_cons. destruct (less (key x) k) eqn:E.
  - rewrite (less_asym less _ _ E), !decide_False by done. by apply IH.
  - rewrite (decide_True (P := false = false)) by done.
    assert (forall b, less (key x) (key b) = true -> less k (key b) = true) as Hk.
    { intros b Hb. destruct (less k (key x)) eqn:E'; [by apply (less_trans _ (key x))|]. by rewrite (less_total k (key x)). }
    assert (filter (fun x => less (key x) k = false) l = l) as ->.
    { symmetry. apply (filter_cut _ l []); [done|constructor|]. eapply Forall_impl; [exact Hf|]. intros b Hb. apply (less_asym less). by apply Hk. }
    assert (filter (fun x => less k (key x) = true) l = l) as ->.
    { symmetry. apply (filter_cut _ l []); [done|constructor|]. eapply Forall_impl; [exact Hf|]. intros b Hb. by apply Hk. }
    by destruct (less k (key x)).
Qed.

Lemma find_ok k t : wf key less t -> exists it, find key less k t = Some it /\ iter_ok t it /\ deref it = lookup key less k t.
Proof.
  intros [[He Hb] Hs]. unfold find. destruct (lower_bound_ok t He Hs k) as (it & -> & Hok & Hr). cbn [mbind option_bind].
  pose proof (it_eq_end t it Hok) as Hend. rewrite (proj1 Hok) in Hend. rewrite Hend, lookup_values, (assoc_upper k) by done. rewrite <- Hr.
  pose proof (deref_ok t it Hok) as Hd. destruct (rest (stack it)) as [|y l] eqn:E.
  - rewrite bool_decide_eq_true_2 by done. by exists (end_ t).
  - rewrite bool_decide_eq_false_2 by done. rewrite Hd. cbn. destruct (less k (key y)); [by exists (end_ t)|by exists it].
Qed.

Lemma upper_bound_ok k t :
  wf key less t ->
  exists it, upper_bound key less k t = Some it /\ iter_ok t it /\ rest (stack it) = filter (fun x => less k (key x) = true) (values t).
Proof.
  intros [[He Hb] Hs]. unfold upper_bound. destruct (lower_bound_ok t He Hs k) as (it & -> & Hok & Hr). cbn [mbind option_bind].
  pose proof (it_eq_end t it Hok) as Hend. rewrite (proj1 Hok) in Hend. rewrite Hend, (strictly_upper k) by done. rewrite <- Hr.
  pose proof (deref_ok t it Hok) as Hd. destruct (rest (stack it)) as [|y l] eqn:E.
  - rewrite bool_decide_eq_true_2 by done. by exists it.
  - rewrite bool_decide_eq_false_2 by done. rewrite Hd. cbn. destruct (less k (key y)); [by exists it|].
    destruct (inext_ok t He (sorted_nodup _ Hs) it y l) as (it' & H1 & H2 & H3); [done..|]. by exists it'.
Qed.

(** ** Merging *)

Variable mergefn : V -> V -> bool * V.

(** The value of a key in the union of two lists. *)
Definition merged k (la lb : list V) : option V :=
  match assoc key k la, assoc key k lb with
  | Some x, Some y => if (mergefn x y).1 then Some (mergefn x y).2 else None
  | Some x, None => Some x
  | None, o => o
  end.

Definition precedes (l l' : list V) : Prop := forall z x, z ∈ l -> x ∈ l' -> less (key z) (key x) = true.

Lemma assoc_precedes l l' x : precedes l l' -> x ∈ l' -> assoc key (key x) l = None.
Proof. intros Hp Hx. apply assoc_none, Forall_forall. intros z Hz. by apply (less_neq less), Hp. Qed.

Lemma assoc_follows x l : precedes [x] l -> assoc key (key x) l = None.
Proof. intros Hp. apply assoc_none, Forall_forall. intros z Hz. apply not_eq_sym, (less_neq less), Hp; [by constructor|done]. Qed.

Lemma sorted_precedes x l : sorted key less (x :: l) -> precedes [x] l.
Proof. intros Hs z y Hz Hy. apply list_elem_of_singleton in Hz as ->. by apply (sorted_head key less x l). Qed.

Lemma less_precedes x y l : sorted key less (y :: l) -> less (key x) (key y) = true -> precedes [x] (y :: l).
Proof.
  intros Hs Hl z w Hz Hw. apply list_elem_of_singleton in Hz as ->. apply elem_of_cons in Hw as [-> | Hw]; [done|].
  apply (less_trans _ (key y)); [done|]. by apply (sorted_head key less y l).
Qed.

(** What is left of the two lists comes after the result so far. *)
Record pending (r la lb : list V) : Prop := {
  pending_result : sorted key less r;
  pending_left : sorted key less la;
  pending_right : sorted key less lb;
  pending_before_left : precedes r la;
  pending_before_right : precedes r lb;
}.
Definition outcome k r la lb : option V := match assoc key k r with Some z => Some z | None => merged k la lb end.

Lemma precedes_ins v r l : precedes r l -> precedes [v] l -> precedes (ins key less v r) l.
Proof. intros H1 H2 z x Hz Hx. apply (ins_elem key less) in Hz as [-> | Hz]; [|by apply H1]. apply H2; [by constructor|done]. Qed.

Lemma precedes_tail r x l : precedes r (x :: l) -> precedes r l.
Proof. intros H z y Hz Hy. apply H; [done|by constructor]. Qed.

Lemma precedes_same v x l : key v = key x -> precedes [x] l -> precedes [v] l.
Proof. intros E H z y Hz Hy. apply list_elem_of_singleton in Hz as ->. rewrite E. apply H; [by constructor|done]. Qed.

Lemma take_left r x la lb :
  pending r (x :: la) lb -> precedes [x] lb ->
  pending (ins key less x r) la lb /\ forall k, outcome k (ins key less x r) la lb = outcome k r (x :: la) lb.
Proof.
  intros [Hr Ha Hb Pa Pb] Hp. pose proof (sorted_precedes x la Ha) as Hx. split.
  - split; [by apply ins_sorted|by apply sorted_cons_inv in Ha as [? _]|done|..]; apply precedes_ins; try done. by eapply precedes_tail.
  - intros k. unfold outcome, merged. rewrite ins_assoc, assoc_cons by done. destruct (decide (key x = k)) as [<-|]; [|done].
    rewrite (assoc_precedes r (x :: la)) by (done || constructor). cbn. by rewrite assoc_follows.
Qed.

Lemma take_right r y la lb :
  pending r la (y :: lb) -> precedes [y] la ->
  pending (ins key less y r) la lb /\ forall k, outcome k (ins key less y r) la lb = outcome k r la (y :: lb).
Proof.
  intros [Hr Ha Hb Pa Pb] Hp. pose proof (sorted_precedes y lb Hb) as Hy. split.
  - split; [by apply ins_sorted|done|by apply sorted_cons_inv in Hb as [? _]|..]; apply precedes_ins; try done. by eapply precedes_tail.
  - intros k. unfold outcome, merged. rewrite ins_assoc, assoc_cons by done. destruct (decide (key y = k)) as [<-|]; [|done].
    rewrite (assoc_precedes r (y :: lb)) by (done || constructor). cbn. by rewrite assoc_follows.
Qed.

Hypothesis mergefn_key : forall x y, key x = key y -> (mergefn x y).1 = true -> key (mergefn x y).2 = key x.

Lemma take_both r x y la lb :
  pending r (x :: la) (y :: lb) -> key x = key y ->
  let r' := if (mergefn x y).1 then ins key less (mergefn x y).2 r else r in
  pending r' la lb /\ forall k, outcome k r' la lb = outcome k r (x :: la) (y :: lb).
Proof.
  intros [Hr Ha Hb Pa Pb] He. pose proof (sorted_precedes x la Ha) as Hx. pose proof (sorted_precedes y lb Hb) as Hy.
  pose proof (mergefn_key x y He) as Hm. pose proof (assoc_precedes r (x :: la) x Pa ltac:(constructor)) as Hn.
  pose proof (assoc_follows x la Hx) as Hna. pose proof (assoc_follows y lb Hy) as Hnb. rewrite <- He in Hnb.
  pose proof (precedes_tail _ _ _ Pa). pose proof (precedes_tail _ _ _ Pb). apply sorted_cons_inv in Ha as [Ha _]. apply sorted_cons_inv in Hb as [Hb _].
  destruct (mergefn x y) as [[] v] eqn:Em; cbn in *; (split; [split; try done|intros k; unfold outcome, merged; rewrite !assoc_cons, <- He]).
  - by apply ins_sorted.
  - apply precedes_ins; [done|]. by apply (precedes_same v x), Hx; apply Hm.
  - apply precedes_ins; [done|]. apply (precedes_same v y), Hy. rewrite <- He. by apply Hm.
  - rewrite ins_assoc, Hm by done. destruct (decide (key x = k)) as [<-|]; [|done]. by rewrite Hn, Em.
  - destruct (decide (key x = k)) as [<-|]; [|done]. by rewrite Hn, Hna, Hnb, Em.
Qed.

Lemma isTerminator_values t : isTerminator t = true -> values t = [].
Proof. by destruct t. Qed.

Section merging.
Variables ta tb : tree V.
Hypothesis Hta : wf key less ta.
Hypothesis Htb : wf key less tb.

Lemma iter_step t it x l :
  wf key less t -> iter_ok t it -> rest (stack it) = x :: l ->
  deref it = Some x /\ exists it', next it = Some it' /\ iter_ok t it' /\ rest (stack it') = l.
Proof.
  intros [Ht Hd]%wf_distinct Hi Hr. split; [by rewrite (deref_ok t), Hr by done|]. by apply (inext_ok t Ht Hd it x l).
Qed.

Lemma merge_loop_ok fuel a b result :
  iter_ok ta a -> iter_ok tb b -> shaped result -> pending (values result) (rest (stack a)) (rest (stack b)) ->
  (length (rest (stack a)) + length (rest (stack b)) < fuel)%nat ->
  exists t', merge_loop key less mergefn fuel a b result = Some t' /\ wf key less t' /\
             forall k, assoc key k (values t') = outcome k (values result) (rest (stack a)) (rest (stack b)).
Proof.
  revert a b result. induction fuel as [|fuel IH]; intros a b result Ha Hb Hr Hp Hf; [lia|]. cbn [merge_loop].
  rewrite (it_eq_end ta a), (it_eq_end tb b) by done.
  assert (forall v, shaped (insert key less v result) /\ values (insert key less v result) = ins key less v (values result)) as Hi.
  { intros v. split; [by apply insert_grown|]. apply insert_values; [done|]. apply Hp. }
  destruct (rest (stack a)) as [|x la] eqn:Ea, (rest (stack b)) as [|y lb] eqn:Eb; cbn in Hf.
  - rewrite !bool_decide_eq_true_2 by done. exists result. split_and!; [done|by split; [|apply Hp]|]. intros k. unfold outcome, merged. cbn. by destruct (assoc key k _).
  - rewrite bool_decide_eq_true_2, bool_decide_eq_false_2 by done. cbn [negb andb orb].
    destruct (iter_step tb b y lb Htb Hb Eb) as (-> & b' & -> & Hb' & Hrb). cbn [mbind option_bind]. destruct (take_right _ y [] lb Hp) as [Hp' Ho]; [by intros ? ? ? ?%elem_of_nil|].
    destruct (Hi y) as [Hs Hv]. rewrite <- Hv in Hp', Ho. destruct (IH a b' _ Ha Hb' Hs) as (t' & H1 & H2 & H3); [by rewrite Ea, Hrb|rewrite Ea, Hrb; cbn; lia|].
    exists t'. split_and!; [done..|]. intros k. by rewrite H3, Ea, Hrb.
  - rewrite bool_decide_eq_false_2, bool_decide_eq_true_2 by done. cbn [negb andb orb].
    destruct (iter_step ta a x la Hta Ha Ea) as (-> & a' & -> & Ha' & Hra). cbn [mbind option_bind]. destruct (take_left _ x la [] Hp) as [Hp' Ho]; [by intros ? ? ? ?%elem_of_nil|].
    destruct (Hi x) as [Hs Hv]. rewrite <- Hv in Hp', Ho. destruct (IH a' b _ Ha' Hb Hs) as (t' & H1 & H2 & H3); [by rewrite Eb, Hra|rewrite Eb, Hra; cbn; lia|].
    exists t'. split_and!; [done..|]. intros k. by rewrite H3, Eb, Hra.
  - rewrite !bool_decide_eq_false_2 by done. cbn [negb andb orb].
    destruct (iter_step ta a x la Hta Ha Ea) as (-> & a' & -> & Ha' & Hra). destruct (iter_step tb b y lb Htb Hb Eb) as (-> & b' & -> & Hb' & Hrb). cbn [mbind option_bind].
    destruct (less (key x) (key y)) eqn:E1; [|destruct (less (key y) (key x)) eqn:E2].
    + destruct (take_left _ x la (y :: lb) Hp) as [Hp' Ho]; [apply less_precedes; [apply Hp|done]|]. destruct (Hi x) as [Hs Hv]. rewrite <- Hv in Hp', Ho.
      destruct (IH a' b _ Ha' Hb Hs) as (t' & H1 & H2 & H3); [by rewrite Eb, Hra|rewrite Eb, Hra; cbn; lia|]. exists t'. split_and!; [done..|]. intros k. by rewrite H3, Eb, Hra.
    + destruct (take_right _ y (x :: la) lb Hp) as [Hp' Ho]; [apply less_precedes; [apply Hp|done]|]. destruct (Hi y) as [Hs Hv]. rewrite <- Hv in Hp', Ho.
      destruct (IH a b' _ Ha Hb' Hs) as (t' & H1 & H2 & H3); [by rewrite Ea, Hrb|rewrite Ea, Hrb; cbn; lia|]. exists t'. split_and!; [done..|]. intros k. by rewrite H3, Ea, Hrb.
    + destruct (take_both _ x y la lb Hp) as [Hp' Ho]; [by apply less_total|]. destruct (mergefn x y) as [keep v]. cbn in Hp', Ho. destruct (Hi v) as [Hs Hv]. rewrite <- Hv in Hp', Ho.
      destruct (IH a' b' (if keep then insert key less v result else result)) as (t' & H1 & H2 & H3); [done|done|by destruct keep|rewrite Hra, Hrb; by destruct keep|rewrite Hra, Hrb; cbn; lia|].
      exists t'. split_and!; [done..|]. intros k. rewrite H3, Hra, Hrb, <- Ho. by destruct keep.
Qed.

Lemma merge_with_ok fuel :
  (length (values ta) + length (values tb) < fuel)%nat ->
  exists t', merge_with key less mergefn fuel ta tb = Some t' /\ wf key less t' /\ forall k, assoc key k (values t') = merged k (values ta) (values tb).
Proof.
  intros Hf. unfold merge_with.
  destruct (isTerminator ta) eqn:Ea; [exists tb; split_and!; [done|done|]; intros k; by rewrite (isTerminator_values ta Ea)|].
  destruct (isTerminator tb) eqn:Eb.
  { exists ta. split_and!; [done|done|]. intros k. rewrite (isTerminator_values tb Eb). unfold merged. cbn. by destruct (assoc key k _). }
  destruct (begin_ok ta) as (a & -> & Ha & Hra); [apply Hta|]. destruct (begin_ok tb) as (b & -> & Hb & Hrb); [apply Htb|]. cbn [mbind option_bind].
  destruct (merge_loop_ok fuel a b Terminator) as (t' & H1 & H2 & H3); [done|done|done| |by rewrite Hra, Hrb|].
  - rewrite Hra, Hrb. split; [constructor|apply Hta|apply Htb|..]; by intros ? ? ?%elem_of_nil.
  - exists t'. split_and!; [done..|]. intros k. by rewrite H3, Hra, Hrb.
Qed.

End merging.
End bounds.

(** ** Iteration *)

(** C19: on a well-formed tree no iterator writes past its stack, and iteration is exact.
    A walk from [begin] to [end] meets every value once, in order; from a position
    [++] goes to the following value and [--] to the value before, or to the end from
    the first; [lower_bound] and [upper_bound] stand on the first value whose key is
    not less, respectively greater; [find] stands on the value of the key or at the
    end. *)
Theorem iteration_exact {K V} `{EqDecision K, EqDecision V} (key : V -> K) (less : K -> K -> bool) `{!StrictTotal less} (t : tree V) :
  wf key less t ->
  (exists it, begin t = Some it /\ iter_ok t it /\ walk (S (length (values t))) it = Some (values t)) /\
  (forall it, iter_ok t it ->
     values t = passed t (stack it) ++ rest (stack it) /\
     match rest (stack it) with
     | [] => it_eq it (end_ t) = true /\ next it = None
     | v :: l => it_eq it (end_ t) = false /\ deref it = Some v /\ exists it', next it = Some it' /\ iter_ok t it' /\ rest (stack it') = l
     end /\
     (t <> Terminator -> exists it', prev it = Some it' /\ iter_ok t it' /\
        (stack it' = [] /\ passed t (stack it) = [] \/ exists v, deref it' = Some v /\ rest (stack it') = v :: rest (stack it)))) /\
  (forall k, exists it, lower_bound key less k t = Some it /\ iter_ok t it /\ rest (stack it) = filter (fun x => less (key x) k = false) (values t)) /\
  (forall k, exists it, upper_bound key less k t = Some it /\ iter_ok t it /\ rest (stack it) = filter (fun x => less k (key x) = true) (values t)) /\
  (forall k, exists it, find key less k t = Some it /\ iter_ok t it /\ deref it = lookup key less k t).
Proof.
  intros Hwf. pose proof (wf_distinct key less t Hwf) as [He Hd]. split_and!.
  - destruct (begin_ok t He) as (it & H1 & H2 & H3). exists it. split_and!; [done..|]. by rewrite (walk_ok t), H3 by (done || rewrite H3; lia).
  - intros it Hi. split_and!; [by apply on_path_values, Hi| |by apply prev_ok].
    pose proof (it_eq_end t it Hi) as Hend. rewrite (proj1 Hi) in Hend. rewrite Hend. pose proof (rest_nil t it Hi) as Hn.
    destruct (rest (stack it)) as [|v l] eqn:E.
    + rewrite bool_decide_eq_true_2 by done. unfold next. by rewrite (proj1 Hn).
    + rewrite bool_decide_eq_false_2 by done. split; [done|]. by apply (iter_step key less).
  - intros k. apply lower_bound_ok; [done..|apply Hwf].
  - intros k. by apply upper_bound_ok.
  - intros k. by apply find_ok.
Qed.

Lemma iteration_exact_witness :
  wf fst Z.ltb demo_tree /\ exists it, begin demo_tree = Some it /\ walk 11 it = Some (values demo_tree).
Proof.
  split; [exact demo_tree_wf|]. destruct (iteration_exact fst Z.ltb demo_tree demo_tree_wf) as ((it & H1 & _ & H2) & _). exists it. split; [exact H1|exact H2].
Defined.

(** C20: [merge_with] gives the union of two well-formed trees: a key of one tree keeps its
    value, a key of both has the value that [mergefn] gives, or none when it says so,
    provided [mergefn] keeps the key; and [operator==] is true of two trees just when
    they hold the same values, whatever their shapes. *)
Theorem merge_with_exact {K V} `{EqDecision K, EqDecision V} (key : V -> K) (less : K -> K -> bool) `{!StrictTotal less}
    (mergefn : V -> V -> bool * V) (t other : tree V) :
  (forall x y, key x = key y -> (mergefn x y).1 = true -> key (mergefn x y).2 = key x) ->
  wf key less t -> wf key less other ->
  (exists t', merge_with key less mergefn (S (length (values t) + length (values other))) t other = Some t' /\ wf key less t' /\
     forall k, lookup key less k t' =
       match lookup key less k t, lookup key less k other with
       | Some x, Some y => if (mergefn x y).1 then Some (mergefn x y).2 else None
       | Some x, None => Some x
       | None, o => o
       end) /\
  tree_eq (S (length (values t))) t other = Some (bool_decide (values t = values other)).
Proof.
  intros Hm Ht Ho. split.
  - destruct (merge_with_ok key less mergefn Hm t other Ht Ho (S (length (values t) + length (values other)))) as (t' & H1 & H2 & H3); [lia|].
    exists t'. split_and!; [done..|]. intros k. rewrite (lookup_values key less k t' (proj2 H2)), (lookup_values key less k t (proj2 Ht)), (lookup_values key less k other (proj2 Ho)). apply H3.
  - apply tree_eq_ok; [by eapply wf_distinct..|lia].
Qed.

Definition demo_other : tree (Z * Z) := Eval vm_compute in foldl (fun t v => insert fst Z.ltb v t) Terminator [(12, 1); (4, 2); (0, 3)].

Lemma demo_other_wf : wf fst Z.ltb demo_other.
Proof.
  change demo_other with (foldl (fun t v => insert fst Z.ltb v t) Terminator [(12, 1); (4, 2); (0, 3)]).
  cbn [foldl]. do 3 (apply insert_wf; [apply _|]). by repeat constructor.
Qed.

Definition demo_sum (x y : Z * Z) : bool * (Z * Z) := (true, (x.1, x.2 + y.2)).

Lemma merge_with_exact_witness :
  exists t', merge_with fst Z.ltb demo_sum 14 demo_tree demo_other = Some t' /\
    lookup fst Z.ltb 4 t' = Some (4, 42) /\ lookup fst Z.ltb 12 t' = Some (12, 1) /\ lookup fst Z.ltb 5 t' = Some (5, 50).
Proof.
  destruct (merge_with_exact fst Z.ltb demo_sum demo_tree demo_other) as [(t' & H1 & _ & H2) _];
    [intros x y _ _; reflexivity|exact demo_tree_wf|exact demo_other_wf|].
  exists t'. split; [exact H1|]. rewrite !H2. split_and!; reflexivity.
Defined.
