(* ===== verification/ConstDiv.v ===== *)
(** * Multiplication and division by constants ([lib/Solver/ConstantDivision.cpp],
      [include/klee/util/Bits.h])

    The solver's front end replaces a product by a constant with shifted sums and
    differences, and a 32-bit quotient by a constant with a multiplication and
    shifts.  This file models the computation of the constants at machine width
    and proves that they give products and quotients exactly. *)

From stdpp Require Import base list.
From Stdlib Require Import ZArith Lia.
From S2P Require Import Prelude BitVec.

(** ** Bits *)

(** [bits32::indexOfSingleBit] *)
Definition bits32_indexOfSingleBit (x : Z) : Z :=
  let test m n := if Z.land x m =? 0 then 0 else n in
  test 0xFFFF0000 16 + test 0xFF00FF00 8 + test 0xF0F0F0F0 4 + test 0xCCCCCCCC 2 + test 0xAAAAAAAA 1.

(** The functions of [bits64]. *)
Definition truncateToNBits (x N : Z) : Z := Z.land x (Z.shiftr (u64 (-1)) (64 - N)).
Definition isolateRightmostBit (x : Z) : Z := Z.land x (u64 (- x)).
Definition isPowerOfTwo (x : Z) : bool := if x =? 0 then false else Z.land x (u64 (x - 1)) =? 0.
Definition indexOfSingleBit (x : Z) : Z :=
  let res := bits32_indexOfSingleBit (u32 (Z.lor x (Z.shiftr x 32))) in
  if Z.land x (Z.shiftl 0xFFFFFFFF 32) =? 0 then res else res + 32.
Definition indexOfRightmostBit (x : Z) : Z := indexOfSingleBit (isolateRightmostBit x).

(** ** The constants *)

Definition ones (x : Z) : Z :=
  let x := u32 (x - Z.land (Z.shiftr x 1) 0x55555555) in
  let x := u32 (Z.land (Z.shiftr x 2) 0x33333333 + Z.land x 0x33333333) in
  let x := Z.land (u32 (Z.shiftr x 4 + x)) 0x0f0f0f0f in
  let x := u32 (x + Z.shiftr x 8) in
  let x := u32 (x + Z.shiftr x 16) in
  Z.land x 0x0000003f.

Definition smear (x n : Z) : Z := Z.lor x (Z.shiftr x n).

Definition ldz (x : Z) : Z := u32 (32 - ones (smear (smear (smear (smear (smear x 1) 2) 4) 8) 16)).

Definition XSIGN (x : Z) : Z := Z.shiftr x 31.

Definition LOG2_CEIL (x : Z) : Z := u32 (32 - ldz (u32 (x - 1))).

Definition exp_base_2 (n : Z) : Z :=
  let x := u32 (Z.land (Z.lnot n) (n - 32)) in
  let x := Z.shiftr x 31 in
  u32 (Z.shiftl x n).

(** One round of the loop: the lowest run of ones, from [low] up to [high]. *)
Definition mult_round (x add sub : Z) : Z * Z * Z :=
  let low := indexOfRightmostBit x in
  let lowbit := u64 (Z.shiftl 1 low) in
  let p := u64 (x + lowbit) in
  let q := isolateRightmostBit p in
  let high := if q =? 0 then 64 else indexOfSingleBit q in
  let '(add, sub) :=
    if high =? low + 1 then (Z.lor add lowbit, sub)
    else
      let '(add, sub) :=
        if negb (low =? 0) && negb (Z.land add (Z.shiftr lowbit 1) =? 0)
        then (Z.lxor add (Z.shiftr lowbit 1), Z.lxor sub (Z.shiftr lowbit 1))
        else (add, Z.lor sub lowbit) in
      (if high =? 64 then add else Z.lor add (u64 (Z.shiftl 1 high)), sub) in
  (Z.lxor p q, add, sub).

Fixpoint mult_loop (fuel : nat) (x add sub : Z) : option (Z * Z) :=
  match fuel with
  | O => None
  | S fuel =>
      if x =? 0 then Some (add, sub)
      else let '(x, add, sub) := mult_round x add sub in mult_loop fuel x add sub
  end.

(** No result stands for the failure of the assertion, too. *)
Definition ComputeMultConstants64 (fuel : nat) (multiplicand : Z) : option (Z * Z) :=
  '(add, sub) ← mult_loop fuel multiplicand 0 0;
  if multiplicand =? u64 (add - sub) then Some (add, sub) else None.

(** A division by zero has no result. *)
Definition ComputeUDivConstants32 (d : Z) : option (Z * Z * Z) :=
  let l := LOG2_CEIL d in
  let mid := u32 (exp_base_2 l - d) in
  if d =? 0 then None
  else Some (u32 (u64 (2 ^ 32 * mid) / d + 1), Z.min l 1, Z.max (l - 1) 0).

Definition ComputeSDivConstants32 (d : Z) : option (Z * Z * Z) :=
  let abs_d := u64 (Z.abs d) in
  let l := Z.max 1 (LOG2_CEIL (u32 abs_d)) in
  let l := if abs_d =? 2 ^ 31 then 31 else l in
  let mid := exp_base_2 (l - 1) in
  if abs_d =? 0 then None
  else
    let m := u64 (u64 (2 ^ 32 * mid) / abs_d + 1) in
    Some (swrap 32 (m - 2 ^ 32), XSIGN d, l - 1).

(** ** Counting bits *)

Definition upto (n : nat) : list Z := seqZ 0 (Z.of_nat n).

Lemma upto_all (f : Z -> bool) n : forallb f (upto n) = true -> forall k, 0 <= k < Z.of_nat n -> f k = true.
Proof. intros H k Hk. rewrite forallb_forall in H. apply H. unfold upto. apply list_elem_of_In, elem_of_seqZ. lia. Qed.

Lemma indexOfSingleBit_pow2 k : 0 <= k < 64 -> indexOfSingleBit (2 ^ k) = k.
Proof. intros Hk. apply Z.eqb_eq. revert k Hk. apply (upto_all (fun k => indexOfSingleBit (2 ^ k) =? k) 64). vm_compute. reflexivity. Qed.

Lemma ones_mask k : 0 <= k <= 32 -> ones (2 ^ k - 1) = k.
Proof. intros Hk. apply Z.eqb_eq. revert k Hk. intros k Hk. apply (upto_all (fun k => ones (2 ^ k - 1) =? k) 33); [vm_compute; reflexivity|lia]. Qed.

Lemma exp_base_2_pow n : 0 <= n < 32 -> exp_base_2 n = 2 ^ n.
Proof. intros Hk. apply Z.eqb_eq. revert n Hk. apply (upto_all (fun k => exp_base_2 k =? 2 ^ k) 32). vm_compute. reflexivity. Qed.

(** A bit of [y] is set when one of the [n] bits from it on is set in [x]. *)
Definition covers (n x y : Z) : Prop :=
  forall i, 0 <= i -> Z.testbit y i = true <-> exists j, 0 <= j < n /\ Z.testbit x (i + j) = true.

Lemma smear_covers n x y : 0 < n -> covers n x y -> covers (2 * n) x (smear y n).
Proof.
  intros Hn H i Hi. unfold smear. rewrite Z.lor_spec, Z.shiftr_spec, orb_true_iff, (H i), (H (i + n)) by lia. split.
  - intros [(j & Hj & Hb)|(j & Hj & Hb)]; [exists j; split; [lia|done]|]. exists (n + j). split; [lia|]. by replace (i + (n + j)) with (i + n + j) by lia.
  - intros (j & Hj & Hb). destruct (Z.lt_ge_cases j n); [left; exists j; split; [lia|done]|right]. exists (j - n). split; [lia|]. by replace (i + n + (j - n)) with (i + j) by lia.
Qed.

Lemma covers_refl x : covers 1 x x.
Proof. intros i Hi. split; [intros H; exists 0; rewrite Z.add_0_r; split; [lia|done]|]. intros (j & Hj & H). by replace (i + j) with i in H by lia. Qed.

Lemma smear_all x : 0 < x < 2 ^ 32 -> smear (smear (smear (smear (smear x 1) 2) 4) 8) 16 = 2 ^ (Z.log2 x + 1) - 1.
Proof.
  intros Hx. assert (covers 32 x (smear (smear (smear (smear (smear x 1) 2) 4) 8) 16)) as H.
  { by apply (smear_covers 16), (smear_covers 8), (smear_covers 4), (smear_covers 2), (smear_covers 1), covers_refl. }
  assert (0 <= Z.log2 x < 32) as Hl by (split; [apply Z.log2_nonneg|apply Z.log2_lt_pow2; lia]).
  apply Z.bits_inj'. intros i Hi. rewrite Z.sub_1_r, <- Z.ones_equiv, Z.testbit_ones_nonneg by lia. apply Bool.eq_iff_eq_true.
  rewrite (H i Hi), Z.ltb_lt. split.
  - intros (j & Hj & Hb). destruct (Z.lt_ge_cases (Z.log2 x) (i + j)) as [Hlt|]; [|lia]. by rewrite Z.bits_above_log2 in Hb by lia.
  - intros Hlt. exists (Z.log2 x - i). split; [lia|]. replace (i + (Z.log2 x - i)) with (Z.log2 x) by lia. apply Z.bit_log2. lia.
Qed.

Lemma ldz_log2 x : 0 < x < 2 ^ 32 -> ldz x = 31 - Z.log2 x.
Proof.
  intros Hx. unfold ldz. assert (0 <= Z.log2 x < 32) as Hl by (split; [apply Z.log2_nonneg|apply Z.log2_lt_pow2; lia]).
  rewrite smear_all, ones_mask by lia. unfold u32. rewrite Z.mod_small; lia.
Qed.

Lemma LOG2_CEIL_log2_up d : 0 < d < 2 ^ 32 -> LOG2_CEIL d = Z.log2_up d.
Proof.
  intros Hd. unfold LOG2_CEIL. destruct (Z.eq_dec d 1) as [->|Hn]; [reflexivity|]. unfold u32 at 2. rewrite (Z.mod_small (d - 1)), ldz_log2 by lia.
  assert (0 <= Z.log2 (d - 1) < 32) as Hl by (split; [apply Z.log2_nonneg|apply Z.log2_lt_pow2; lia]).
  rewrite Z.log2_up_eqn, Z.sub_1_r in * by lia. unfold u32. rewrite Z.mod_small; lia.
Qed.

(** ** Runs of ones *)

Lemma odd_split n : 0 < n -> exists k t, 0 <= k /\ 0 <= t /\ n = 2 ^ k * (2 * t + 1).
Proof.
  induction n as [n IH] using (well_founded_induction (Z.lt_wf 0)). intros Hn. destruct (Z.Even_or_Odd n) as [[m Hm]|[m Hm]].
  - destruct (IH m) as (k & t & Hk & Ht & E); [lia|lia|]. exists (k + 1), t. split_and!; [lia|done|]. rewrite Z.pow_add_r by lia. lia.
  - exists 0, m. split_and!; [lia|lia|]. lia.
Qed.

Lemma land_wrap x y : 0 <= x < 2 ^ 64 -> Z.land x (u64 y) = Z.land x y.
Proof.
  intros Hx. apply Z.bits_inj'. intros i Hi. unfold u64. rewrite !Z.land_spec, Z.testbit_mod_pow2 by lia.
  destruct (Z.ltb_spec i 64); [done|]. by rewrite (testbit_inrange 64 x) by first [lia|split; lia].
Qed.

Lemma isolate_odd x k t : 0 <= x < 2 ^ 64 -> 0 <= k -> x = 2 ^ k * (2 * t + 1) -> isolateRightmostBit x = 2 ^ k.
Proof.
  intros Hx Hk ->. unfold isolateRightmostBit. rewrite land_wrap by done.
  replace (- (2 ^ k * (2 * t + 1))) with ((2 * Z.lnot t + 1) * 2 ^ k) by (unfold Z.lnot; lia).
  rewrite (Z.mul_comm (2 ^ k)), <- !Z.shiftl_mul_pow2, <- Z.shiftl_land by done.
  replace (Z.land (2 * t + 1) (2 * Z.lnot t + 1)) with 1; [by rewrite Z.shiftl_1_l|].
  apply Z.bits_inj'. intros i Hi. rewrite Z.land_spec. destruct (Z.eq_dec i 0) as [->|]; [by rewrite !Z.testbit_odd_0|].
  replace i with (Z.succ (i - 1)) by lia. rewrite !Z.testbit_odd_succ, Z.lnot_spec, andb_negb_r by lia.
  change 1 with (2 * 0 + 1). by rewrite Z.testbit_odd_succ, Z.bits_0 by lia.
Qed.

Lemma land_pow2 a n : 0 <= n -> Z.land a (2 ^ n) = if Z.testbit a n then 2 ^ n else 0.
Proof.
  intros Hn. apply Z.bits_inj'. intros i Hi. rewrite Z.land_spec, Z.pow2_bits_eqb by done. destruct (Z.eqb_spec n i) as [->|Hne].
  - rewrite andb_true_r. destruct (Z.testbit a i); [|by rewrite Z.bits_0]. by rewrite Z.pow2_bits_eqb, Z.eqb_refl by done.
  - rewrite andb_false_r. destruct (Z.testbit a n); [|by rewrite Z.bits_0]. by rewrite Z.pow2_bits_eqb, (proj2 (Z.eqb_neq n i)) by done.
Qed.

Lemma small_bit n a : 0 <= n -> 0 <= a < 2 ^ n -> Z.testbit a n = false.
Proof.
  intros Hn Ha. destruct (Z.eq_dec a 0) as [->|]; [apply Z.bits_0|]. apply Z.bits_above_log2; [lia|]. apply Z.log2_lt_pow2; lia.
Qed.

Lemma high_bit n a : 0 <= n -> 2 ^ n <= a < 2 ^ (n + 1) -> Z.testbit a n = true.
Proof. intros Hn Ha. rewrite <- (Z.log2_unique a n) by (rewrite Z.add_1_r in Ha; lia). apply Z.bit_log2. pose proof (pow2_pos n Hn). lia. Qed.

Lemma land_small n a : 0 <= n -> 0 <= a < 2 ^ n -> Z.land a (2 ^ n) = 0.
Proof. intros Hn Ha. by rewrite land_pow2, small_bit. Qed.

(** Setting a bit above all others is an addition. *)
Lemma set_high n a : 0 <= n -> 0 <= a < 2 ^ n -> Z.lor a (2 ^ n) = a + 2 ^ n /\ Z.lxor a (2 ^ n) = a + 2 ^ n.
Proof. intros Hn Ha. pose proof (land_small n a Hn Ha) as E. rewrite Z.add_nocarry_lxor by done. split; [|done]. by rewrite Z.lxor_lor. Qed.

Lemma set_high_disjoint n a b :
  0 <= n -> 0 <= a < 2 ^ n -> 0 <= b < 2 ^ n -> Z.land a b = 0 -> Z.land (a + 2 ^ n) b = 0 /\ Z.land a (b + 2 ^ n) = 0.
Proof.
  intros Hn Ha Hb E. rewrite <- (proj1 (set_high n a Hn Ha)), <- (proj1 (set_high n b Hn Hb)), Z.land_lor_distr_l, Z.land_lor_distr_r, E.
  rewrite (Z.land_comm (2 ^ n)), !land_small by done. done.
Qed.

(** Moving the highest bit of [a] to [b]. *)
Lemma move_high n a b :
  0 <= n -> 0 <= a < 2 ^ (n + 1) -> 0 <= b < 2 ^ (n + 1) -> Z.land a b = 0 -> Z.testbit a n = true ->
  Z.lxor a (2 ^ n) = a - 2 ^ n /\ Z.lxor b (2 ^ n) = b + 2 ^ n /\ 2 ^ n <= a /\ b < 2 ^ n /\ Z.land (a - 2 ^ n) (b + 2 ^ n) = 0.
Proof.
  intros Hn Ha Hb E Ht. assert (2 ^ (n + 1) = 2 * 2 ^ n) as Hp by (rewrite Z.pow_add_r by lia; lia).
  assert (2 ^ n <= a) as Hge by (destruct (Z.lt_ge_cases a (2 ^ n)); [by rewrite small_bit in Ht by lia|done]).
  assert (b < 2 ^ n) as Hlt.
  { destruct (Z.lt_ge_cases b (2 ^ n)) as [|Hb']; [done|]. pose proof (high_bit n b Hn ltac:(lia)) as Hbb.
    assert (Z.testbit (Z.land a b) n = true) as H by (by rewrite Z.land_spec, Ht, Hbb). by rewrite E, Z.bits_0 in H. }
  pose proof (set_high n (a - 2 ^ n) Hn ltac:(lia)) as [H1 H2]. replace (a - 2 ^ n + 2 ^ n) with a in H1, H2 by lia.
  pose proof (set_high n b Hn ltac:(lia)) as [H3 H4].
  assert (Z.land (a - 2 ^ n) b = 0) as Hr.
  { rewrite <- H1, Z.land_lor_distr_l in E. by apply Z.lor_eq_0_iff in E as [E _]. }
  split_and!; [|done|done|done|apply set_high_disjoint; lia].
  rewrite <- H2 at 1. by rewrite Z.lxor_assoc, Z.lxor_nilpotent, Z.lxor_0_r.
Qed.

Lemma clear_bit n a : 0 <= n -> Z.testbit a n = true -> Z.lxor a (2 ^ n) = a - 2 ^ n.
Proof.
  intros Hn Ht. assert (Z.land (Z.lxor a (2 ^ n)) (2 ^ n) = 0) as E.
  { rewrite land_pow2 by done. by rewrite Z.lxor_spec, Ht, Z.pow2_bits_eqb, Z.eqb_refl. }
  pose proof (Z.add_nocarry_lxor _ _ E) as H. rewrite Z.lxor_assoc, Z.lxor_nilpotent, Z.lxor_0_r in H. lia.
Qed.

(** The lowest run of ones of [x] goes from [low] to [high]. *)
Record run (x low high rest : Z) : Prop := {
  run_low : 0 <= low < high /\ high <= 64;
  run_index : indexOfRightmostBit x = low;
  run_multiple : forall k, 0 <= k -> (2 ^ k | x) -> k <= low;
  run_value : x = 2 ^ high - 2 ^ low + rest;
  run_high : let p := u64 (x + 2 ^ low) in let q := isolateRightmostBit p in
             (if q =? 0 then 64 else indexOfSingleBit q) = high /\ Z.lxor p q = rest;
  run_rest : 0 <= rest < 2 ^ 64 /\ (2 ^ Z.min 64 (high + 1) | rest);
}.

Lemma run_exists x : 0 < x < 2 ^ 64 -> exists low high rest, run x low high rest.
Proof.
  intros Hx. destruct (odd_split x) as (low & t & Hl & Ht & E); [lia|]. destruct (odd_split (t + 1)) as (j & s & Hj & Hs & Et); [lia|].
  pose proof (pow2_pos low Hl) as Pl. pose proof (pow2_pos j Hj) as Pj.
  assert (x + 2 ^ low = 2 ^ (low + 1 + j) * (2 * s + 1)) as Ep by (rewrite !Z.pow_add_r by lia; change (2 ^ 1) with 2; nia).
  assert (low < 64) as Hlow by (apply (Z.pow_lt_mono_r_iff 2); nia).
  assert (x + 2 ^ low <= 2 ^ 64) as Hle.
  { replace (2 ^ 64) with (2 ^ low * 2 ^ (64 - low)) by (rewrite <- Z.pow_add_r by lia; f_equal; lia). rewrite E in Hx |- *.
    replace (2 ^ low * (2 * t + 1) + 2 ^ low) with (2 ^ low * (2 * t + 2)) by lia. apply Z.mul_le_mono_nonneg_l; [lia|].
    replace (2 ^ 64) with (2 ^ low * 2 ^ (64 - low)) in Hx by (rewrite <- Z.pow_add_r by lia; f_equal; lia). nia. }
  assert (indexOfRightmostBit x = low) as Hi by (unfold indexOfRightmostBit; rewrite (isolate_odd x low t), indexOfSingleBit_pow2 by lia; done).
  assert (forall k, 0 <= k -> (2 ^ k | x) -> k <= low) as Hm.
  { intros k Hk [c Hc]. destruct (Z.le_gt_cases k low) as [|Hgt]; [done|]. exfalso.
    assert (2 ^ k = 2 ^ low * (2 * 2 ^ (k - low - 1))) as Hpk by (change (2 * 2 ^ (k - low - 1)) with (2 ^ 1 * 2 ^ (k - low - 1)); rewrite <- !Z.pow_add_r by lia; f_equal; lia).
    assert (2 ^ low * (2 * t + 1) = 2 ^ low * (2 * (c * 2 ^ (k - low - 1)))) as Hq by (rewrite <- E, Hc, Hpk; ring). apply Z.mul_reg_l in Hq; lia. }
  set (high := low + 1 + j) in *. assert (0 <= high) as Hh by lia. pose proof (pow2_pos high Hh) as Ph.
  destruct (Z.eq_dec (x + 2 ^ low) (2 ^ 64)) as [Eo|Eo].
  - exists low, 64, 0. split; [lia|done|done|lia| |split; [lia|apply Z.divide_0_r]]. cbn zeta. rewrite Eo. split; reflexivity.
  - assert (high < 64) as Hh64 by (apply (Z.pow_lt_mono_r_iff 2); nia). exists low, high, (2 ^ (high + 1) * s). rewrite Z.pow_add_r by lia. change (2 ^ 1) with 2.
    split; [lia|done|done|lia| |].
    + cbn zeta. unfold u64. rewrite Z.mod_small by lia. rewrite (isolate_odd _ high s) by lia. rewrite (proj2 (Z.eqb_neq _ _)) by lia. split; [by apply indexOfSingleBit_pow2|].
      rewrite clear_bit; [lia|done|]. rewrite Ep, Z.mul_comm, Z.mul_pow2_bits, Z.sub_diag by done. apply Z.testbit_odd_0.
    + split; [lia|]. rewrite Z.min_r, Z.pow_add_r by lia. change (2 ^ 1) with 2. exists s. lia.
Qed.

(** ** The loop *)

Record mult_inv (k x add sub : Z) : Prop := {
  inv_k : 0 <= k <= 64;
  inv_x : 0 <= x < 2 ^ 64;
  inv_multiple : (2 ^ k | x);
  inv_add : 0 <= add < 2 ^ k;
  inv_sub : 0 <= sub < 2 ^ k;
  inv_disjoint : Z.land add sub = 0;
}.

(** The sums after a round whose run goes from [low] to [high]. *)
Definition mult_sums (low high add sub : Z) : Z * Z :=
  if high =? low + 1 then (Z.lor add (2 ^ low), sub)
  else
    let '(add, sub) :=
      if negb (low =? 0) && negb (Z.land add (2 ^ (low - 1)) =? 0) then (Z.lxor add (2 ^ (low - 1)), Z.lxor sub (2 ^ (low - 1)))
      else (add, Z.lor sub (2 ^ low)) in
    (if high =? 64 then add else Z.lor add (2 ^ high), sub).

Lemma mult_sums_ok low high add sub :
  0 <= low < high -> high <= 64 -> 0 <= add < 2 ^ low -> 0 <= sub < 2 ^ low -> Z.land add sub = 0 ->
  let '(add', sub') := mult_sums low high add sub in
  0 <= add' < 2 ^ Z.min 64 (high + 1) /\ 0 <= sub' < 2 ^ Z.min 64 (high + 1) /\ Z.land add' sub' = 0 /\
  exists c, add' - sub' + c * 2 ^ 64 = add - sub + (2 ^ high - 2 ^ low).
Proof.
  intros Hl Hh Ha Hs Hd. unfold mult_sums. pose proof (pow2_pos low ltac:(lia)) as Pl. pose proof (pow2_pos high ltac:(lia)) as Ph.
  assert (2 ^ (low + 1) = 2 * 2 ^ low) as E1 by (rewrite Z.pow_add_r by lia; lia). assert (2 ^ (high + 1) = 2 * 2 ^ high) as E2 by (rewrite Z.pow_add_r by lia; lia).
  assert (2 ^ (low + 1) <= 2 ^ high) as Hm1 by (apply Z.pow_le_mono_r; lia). assert (2 ^ high <= 2 ^ Z.min 64 (high + 1)) as Hm2 by (apply Z.pow_le_mono_r; lia).
  destruct (Z.eqb_spec high (low + 1)) as [->|Hne].
  { destruct (set_high low add) as [-> _]; [lia..|]. destruct (set_high_disjoint low add sub) as [H _]; [lia..|done|]. split_and!; [lia..|done|]. exists 0. lia. }
  match goal with |- context [if ?b then (Z.lxor add ?p, ?q) else ?z] => set (r := if b then (Z.lxor add p, q) else z) end.
  assert (0 <= r.1 < 2 ^ low /\ 0 <= r.2 < 2 ^ (low + 1) /\ Z.land r.1 r.2 = 0 /\ r.1 - r.2 = add - sub - 2 ^ low) as (R1 & R2 & R3 & R4).
  { subst r. destruct (negb (low =? 0) && negb (Z.land add (2 ^ (low - 1)) =? 0)) eqn:E; cbn.
    - apply andb_true_iff in E as [El%negb_true_iff%Z.eqb_neq Et%negb_true_iff%Z.eqb_neq]. rewrite land_pow2 in Et by lia.
      assert (2 ^ low = 2 * 2 ^ (low - 1)) as E0 by (replace low with (low - 1 + 1) at 1 by lia; rewrite Z.pow_add_r by lia; lia).
      destruct (Z.testbit add (low - 1)) eqn:Eb; [|done].
      destruct (move_high (low - 1) add sub) as (-> & -> & M1 & M2 & M3); [lia|replace (low - 1 + 1) with low by lia; lia..|done|done|]. split_and!; [lia..|done|lia].
    - destruct (set_high low sub) as [-> _]; [lia..|]. destruct (set_high_disjoint low add sub) as [_ H]; [lia..|done|]. split_and!; [lia..|done|lia]. }
  destruct r as [add' sub']. cbn in R1, R2, R3, R4. destruct (Z.eqb_spec high 64) as [->|Hn].
  - split_and!; [lia..|done|]. exists 1. lia.
  - assert (Z.min 64 (high + 1) = high + 1) as -> by lia. destruct (set_high high add') as [-> _]; [lia..|].
    destruct (set_high_disjoint high add' sub') as [H _]; [lia..|done|]. split_and!; [lia..|done|]. exists 0. lia.
Qed.

Lemma mult_round_ok k x add sub :
  mult_inv k x add sub -> x <> 0 ->
  exists k' x' add' sub', mult_round x add sub = (x', add', sub') /\ k < k' /\ mult_inv k' x' add' sub' /\
    exists c, add' - sub' + x' + c * 2 ^ 64 = add - sub + x.
Proof.
  intros [Hk Hx Hm Ha Hs Hd] Hne. destruct (run_exists x) as (low & high & rest & [Hl Hi Hmul Hv Hhq [Hr Hdv]]); [lia|].
  pose proof (Hmul k ltac:(lia) Hm) as Hkl. assert (2 ^ k <= 2 ^ low) by (apply Z.pow_le_mono_r; lia).
  pose proof (mult_sums_ok low high add sub ltac:(lia) ltac:(lia) ltac:(lia) ltac:(lia) Hd) as Hsum.
  assert (mult_round x add sub = (rest, (mult_sums low high add sub).1, (mult_sums low high add sub).2)) as ->.
  { unfold mult_round, mult_sums. rewrite Hi. assert (u64 (Z.shiftl 1 low) = 2 ^ low) as ->.
    { rewrite Z.shiftl_1_l. apply Z.mod_small. split; [lia|]. apply Z.pow_lt_mono_r; lia. }
    cbn zeta in Hhq. destruct Hhq as [-> ->].
    assert (0 < low -> Z.shiftr (2 ^ low) 1 = 2 ^ (low - 1)) as Hsh.
    { intros Hp. rewrite Z.shiftr_div_pow2 by lia. replace low with (low - 1 + 1) at 1 by lia. rewrite Z.pow_add_r by lia. apply Z.div_mul. lia. }
    assert (high <> 64 -> u64 (Z.shiftl 1 high) = 2 ^ high) as Hsh'.
    { intros Hp. rewrite Z.shiftl_1_l. apply Z.mod_small. split; [lia|]. apply Z.pow_lt_mono_r; lia. }
    destruct (high =? low + 1); [done|]. destruct (Z.eqb_spec low 0) as [E0|]; cbn [negb andb].
    - destruct (Z.eqb_spec high 64); [done|]. by rewrite Hsh'.
    - rewrite Hsh by lia. destruct (Z.eqb_spec high 64); [by destruct (negb _)|]. rewrite Hsh' by done. by destruct (negb _). }
  destruct (mult_sums low high add sub) as [add' sub']. destruct Hsum as (A & B & C & c & D).
  exists (Z.min 64 (high + 1)), rest, add', sub'. split_and!; [done|lia|by split; try lia|]. exists c. lia.
Qed.

Lemma mult_loop_ok fuel k x add sub :
  mult_inv k x add sub -> 64 - k < Z.of_nat fuel ->
  exists add' sub', mult_loop fuel x add sub = Some (add', sub') /\ 0 <= add' < 2 ^ 64 /\ 0 <= sub' < 2 ^ 64 /\ Z.land add' sub' = 0 /\
    u64 (add' - sub') = u64 (add - sub + x).
Proof.
  revert k x add sub. induction fuel as [|fuel IH]; intros k x add sub Hi Hf; [destruct Hi; lia|]. cbn [mult_loop].
  destruct (Z.eqb_spec x 0) as [->|Hne].
  - destruct Hi as [Hk _ _ Ha Hs Hd]. assert (2 ^ k <= 2 ^ 64) by (apply Z.pow_le_mono_r; lia). exists add, sub. split_and!; [done|lia..|done|]. f_equal. lia.
  - destruct (mult_round_ok k x add sub Hi Hne) as (k' & x' & add' & sub' & -> & Hk & Hi' & c & Hc).
    destruct (IH k' x' add' sub' Hi') as (add'' & sub'' & H1 & H2 & H3 & H4 & H5); [lia|]. exists add'', sub''. split_and!; [done|lia..|done|].
    rewrite H5, <- Hc. unfold u64. by rewrite Z.mod_add by lia.
Qed.

(** The loop ends after at most 64 rounds, the sums have no bit in common, and their
    difference is the constant. *)
Lemma ComputeMultConstants64_ok x :
  0 <= x < 2 ^ 64 ->
  exists add sub, ComputeMultConstants64 65 x = Some (add, sub) /\ 0 <= add < 2 ^ 64 /\ 0 <= sub < 2 ^ 64 /\
    Z.land add sub = 0 /\ u64 (add - sub) = x.
Proof.
  intros Hx. destruct (mult_loop_ok 65 0 x 0 0) as (add & sub & H1 & H2 & H3 & H4 & H5); [|lia|].
  { split; try lia; [apply Z.divide_1_l|reflexivity]. }
  exists add, sub. unfold ComputeMultConstants64. rewrite H1. cbn [mbind option_bind]. assert (u64 (0 - 0 + x) = x) as E by (apply Z.mod_small; lia).
  rewrite E in H5. rewrite H5, Z.eqb_refl. done.
Qed.

(** ** Quotients *)

(** A multiplication by a rounded reciprocal. *)
Lemma reciprocal_floor n d S M : 0 < d -> 0 < S -> 0 <= n -> S <= M * d -> n * (M * d - S) < S -> n * M / S = n / d.
Proof.
  intros Hd HS Hn H1 H2. symmetry. apply (Z.div_unique_pos (n * M) S (n / d) (n * M - S * (n / d))); [|lia].
  pose proof (Z.div_mod n d ltac:(lia)) as E. pose proof (Z.mod_pos_bound n d Hd). nia.
Qed.

Lemma log2_up_bounds d : 1 < d < 2 ^ 32 -> 1 <= Z.log2_up d <= 32 /\ 2 ^ (Z.log2_up d - 1) < d <= 2 ^ Z.log2_up d.
Proof.
  intros Hd. pose proof (Z.log2_up_spec d ltac:(lia)) as Hs. rewrite <- Z.sub_1_r in Hs. split; [|done].
  pose proof (Z.log2_up_pos d ltac:(lia)). split; [lia|]. change 32 with (Z.log2_up (2 ^ 32)). apply Z.log2_up_le_mono. lia.
Qed.

(** The constants of a divisor, as numbers. *)
Lemma ComputeUDivConstants32_value d :
  0 < d < 2 ^ 32 ->
  let l := Z.log2_up d in
  ComputeUDivConstants32 d = Some (2 ^ 32 * (2 ^ l - d) / d + 1, Z.min l 1, Z.max (l - 1) 0) /\
  0 <= 2 ^ l - d < d /\ 0 < 2 ^ 32 * (2 ^ l - d) / d + 1 < 2 ^ 32.
Proof.
  intros Hd l. assert (0 <= l <= 32 /\ 0 <= 2 ^ l - d < d) as [Hl Hm].
  { destruct (Z.eq_dec d 1) as [->|]; [done|]. destruct (log2_up_bounds d ltac:(lia)) as [H1 H2]. fold l in H1, H2. split; [lia|].
    assert (2 ^ l = 2 * 2 ^ (l - 1)) by (replace l with (l - 1 + 1) at 1 by lia; rewrite Z.pow_add_r by lia; lia). lia. }
  assert (0 <= 2 ^ 32 * (2 ^ l - d) / d) by (apply Z.div_pos; lia).
  assert (2 ^ 32 * (2 ^ l - d) / d < 2 ^ 32 - 1) by (apply Z.div_lt_upper_bound; nia).
  split; [|lia]. unfold ComputeUDivConstants32. rewrite LOG2_CEIL_log2_up by done. fold l. rewrite (proj2 (Z.eqb_neq d 0)) by lia.
  assert (u32 (exp_base_2 l - d) = 2 ^ l - d) as ->.
  { destruct (Z.eq_dec l 32) as [->|]; [|rewrite exp_base_2_pow by lia; apply Z.mod_small; lia].
    change (exp_base_2 32) with 0. unfold u32. rewrite <- (Z.mod_small (2 ^ 32 - d) (2 ^ 32)) by lia. rewrite <- (Z.mod_add (0 - d) 1) by lia. f_equal. lia. }
  unfold u64, u32. rewrite (Z.mod_small (2 ^ 32 * _)) by lia. by rewrite Z.mod_small by lia.
Qed.

Lemma half_sum n t : 0 <= t <= n -> (n - t) / 2 + t = (n + t) / 2.
Proof. intros H. rewrite <- Z.div_add by lia. f_equal. lia. Qed.

(** The quotient: a high product, a halved difference, a sum and a shift. *)
Lemma udiv_exact n d :
  0 <= n < 2 ^ 32 -> 0 < d < 2 ^ 32 ->
  exists mprime sh1 sh2, ComputeUDivConstants32 d = Some (mprime, sh1, sh2) /\
    0 <= mprime < 2 ^ 32 /\ 0 <= sh1 <= 1 /\ 0 <= sh2 <= 31 /\
    let t1 := mprime * n / 2 ^ 32 in
    0 <= t1 <= n /\ (n - t1) / 2 ^ sh1 + t1 < 2 ^ 32 /\ ((n - t1) / 2 ^ sh1 + t1) / 2 ^ sh2 = n / d.
Proof.
  intros Hn Hd. destruct (ComputeUDivConstants32_value d Hd) as (-> & Hm & Hr). set (l := Z.log2_up d) in *. set (m := 2 ^ 32 * (2 ^ l - d) / d + 1) in *.
  exists m, (Z.min l 1), (Z.max (l - 1) 0). assert (0 <= l <= 32) as Hl.
  { split; [apply Z.log2_up_nonneg|]. change 32 with (Z.log2_up (2 ^ 32)). apply Z.log2_up_le_mono. lia. }
  assert (0 <= m * n / 2 ^ 32 <= n) as Ht by (split; [apply Z.div_pos; lia|apply Z.div_le_upper_bound; nia]).
  split_and!; [done|lia..|]. cbn zeta. split; [done|]. destruct (Z.eq_dec l 0) as [El|El].
  - assert (d = 1) as -> by (rewrite El in Hm; change (2 ^ 0) with 1 in Hm; lia). assert (m = 1) as -> by (subst m; rewrite El; reflexivity).
    rewrite El. cbn [Z.min Z.max Z.sub Z.compare Z.add Z.opp Z.pos_sub]. change (2 ^ 0) with 1. rewrite !Z.div_1_r, (Z.div_small (1 * n)) by lia. lia.
  - rewrite Z.min_r, Z.max_l by lia. change (2 ^ 1) with 2. rewrite half_sum by done. split; [apply Z.div_lt_upper_bound; lia|].
    rewrite Z.div_div by lia. replace (2 * 2 ^ (l - 1)) with (2 ^ l) by (replace l with (l - 1 + 1) at 1 by lia; rewrite Z.pow_add_r by lia; lia).
    replace (n + m * n / 2 ^ 32) with (n * (2 ^ 32 + m) / 2 ^ 32) by (replace (n * (2 ^ 32 + m)) with (m * n + n * 2 ^ 32) by lia; rewrite Z.div_add by lia; lia).
    rewrite Z.div_div by lia. rewrite <- Z.pow_add_r by lia.
    pose proof (Z.div_mod (2 ^ 32 * (2 ^ l - d)) d ltac:(lia)) as E. pose proof (Z.mod_pos_bound (2 ^ 32 * (2 ^ l - d)) d ltac:(lia)) as Hb.
    assert ((2 ^ 32 + m) * d = 2 ^ (32 + l) + (d - (2 ^ 32 * (2 ^ l - d)) mod d)) as Em by (rewrite Z.pow_add_r by lia; subst m; lia).
    assert (0 < 2 ^ (32 + l)) by (apply pow2_pos; lia).
    apply reciprocal_floor; [lia..|]. rewrite Em. rewrite Z.pow_add_r by lia. nia.
Qed.

Lemma reciprocal_floor_neg k d S M :
  0 < d -> 0 < S -> 0 < k -> S < M * d -> k * (M * d - S) <= S -> - k * M / S = - (k / d) - 1.
Proof.
  intros Hd HS Hk H1 H2. symmetry. apply (Z.div_unique_pos (- k * M) S _ (S * (k / d) + S - k * M)); [|lia].
  pose proof (Z.div_mod k d ltac:(lia)) as E. pose proof (Z.mod_pos_bound k d Hd). nia.
Qed.

Lemma XSIGN_32 x : - 2 ^ 31 <= x < 2 ^ 31 -> XSIGN x = if x <? 0 then -1 else 0.
Proof.
  intros Hx. unfold XSIGN. rewrite Z.shiftr_div_pow2 by lia. destruct (Z.ltb_spec x 0); [|apply Z.div_small; lia].
  symmetry. apply (Z.div_unique_pos x (2 ^ 31) (-1) (x + 2 ^ 31)); lia.
Qed.

Lemma ComputeSDivConstants32_value d :
  - 2 ^ 31 <= d < 2 ^ 31 -> d <> 0 ->
  let l := Z.max 1 (Z.log2_up (Z.abs d)) in
  let m := 2 ^ (31 + l) / Z.abs d + 1 in
  ComputeSDivConstants32 d = Some (m - 2 ^ 32, XSIGN d, l - 1) /\ 1 <= l <= 31 /\
  2 ^ 31 < m <= 2 ^ 32 + 1 /\ (1 < l -> m <= 2 ^ 32) /\
  2 ^ (31 + l) < m * Z.abs d /\ m * Z.abs d - 2 ^ (31 + l) <= 2 ^ l.
Proof.
  intros Hd Hne l m. set (a := Z.abs d) in *. assert (0 < a <= 2 ^ 31) as Ha by lia.
  assert (1 <= l <= 31 /\ a <= 2 ^ l /\ (1 < l -> 2 ^ (l - 1) < a)) as (Hl & Hle & Hlt).
  { destruct (Z.eq_dec a 1) as [E|E]; [subst l; rewrite E; cbn; lia|]. destruct (log2_up_bounds a ltac:(lia)) as [H1 H2].
    assert (Z.log2_up a <= Z.log2_up (2 ^ 31)) as H3 by (apply Z.log2_up_le_mono; lia). change (Z.log2_up (2 ^ 31)) with 31 in H3.
    assert (l = Z.log2_up a) as El by lia. rewrite El. lia. }
  assert (2 ^ (31 + l) = 2 ^ 32 * 2 ^ (l - 1)) as Ep by (rewrite <- Z.pow_add_r by lia; f_equal; lia).
  assert (2 ^ (31 + l) = 2 ^ 31 * 2 ^ l) as Ep' by (rewrite <- Z.pow_add_r by lia; f_equal; lia).
  assert (0 < 2 ^ (l - 1) <= 2 ^ 30) as Hp by (split; [apply pow2_pos; lia|apply Z.pow_le_mono_r; lia]).
  assert (2 ^ 31 <= 2 ^ (31 + l) / a) as Hm1 by (apply Z.div_le_lower_bound; nia).
  assert (2 ^ (31 + l) / a <= 2 ^ 32) as Hm2.
  { apply Z.div_le_upper_bound; [lia|]. destruct (Z.eq_dec l 1) as [->|]; [change (2 ^ (1 - 1)) with 1 in Ep; nia|]. pose proof (Hlt ltac:(lia)). nia. }
  assert (1 < l -> 2 ^ (31 + l) / a < 2 ^ 32) as Hm3 by (intros H; pose proof (Hlt H); apply Z.div_lt_upper_bound; [lia|nia]).
  pose proof (Z.div_mod (2 ^ (31 + l)) a ltac:(lia)) as E. pose proof (Z.mod_pos_bound (2 ^ (31 + l)) a ltac:(lia)) as Hb.
  split_and!; [|lia|lia|lia|lia|intros H; specialize (Hm3 H); lia|subst m; lia|subst m; lia].
  unfold ComputeSDivConstants32. fold a. assert (u64 a = a) as -> by (apply Z.mod_small; lia). assert (u32 a = a) as -> by (apply Z.mod_small; lia).
  rewrite LOG2_CEIL_log2_up by lia. fold l. assert ((if a =? 2 ^ 31 then 31 else l) = l) as ->.
  { destruct (Z.eqb_spec a (2 ^ 31)) as [E0|]; [|done]. subst l. by rewrite E0. }
  rewrite (proj2 (Z.eqb_neq a 0)), exp_base_2_pow by lia. unfold u64. rewrite (Z.mod_small (2 ^ 32 * _)) by lia. rewrite <- Ep. fold m.
  rewrite (Z.mod_small m) by lia. rewrite swrap_small by lia. done.
Qed.

Lemma quot_abs n d :
  d <> 0 -> Z.quot n d = (if d <? 0 then -1 else 1) * (if n <? 0 then - (- n / Z.abs d) else n / Z.abs d).
Proof.
  intros Hd. rewrite Z.quot_div by done.
  destruct (Z.ltb_spec d 0), (Z.ltb_spec n 0); rewrite ?(Z.sgn_neg d), ?(Z.sgn_pos d), ?(Z.sgn_neg n) by lia; rewrite ?(Z.abs_neq n), ?(Z.abs_eq n) by lia; try lia;
    destruct (Z.eq_dec n 0) as [->|]; rewrite ?Z.div_0_l by lia; rewrite ?(Z.sgn_pos n) by lia; lia.
Qed.

(** The signed quotient; only for a divisor of one or two may the first sum wrap
    around, and then it is not shifted. *)
Lemma sdiv_exact n d :
  - 2 ^ 31 <= n < 2 ^ 31 -> - 2 ^ 31 <= d < 2 ^ 31 -> d <> 0 ->
  exists mprime dsign shpost, ComputeSDivConstants32 d = Some (mprime, dsign, shpost) /\ 0 <= shpost <= 30 /\
    let q0 := Z.shiftr (s32 (n + Z.shiftr (mprime * n) 32)) shpost - XSIGN n in
    s32 (Z.lxor q0 dsign - dsign) = s32 (Z.quot n d).
Proof.
  intros Hn Hd Hne. destruct (ComputeSDivConstants32_value d Hd Hne) as (Hc & Hl & Hm1 & Hm2 & Hm3 & Hm4).
  set (l := Z.max 1 (Z.log2_up (Z.abs d))) in *. set (m := 2 ^ (31 + l) / Z.abs d + 1) in *. exists (m - 2 ^ 32), (XSIGN d), (l - 1). split_and!; [done|lia..|].
  cbn zeta. set (a := Z.abs d) in *. assert (0 < 2 ^ l) as Pl by (apply pow2_pos; lia). assert (0 < 2 ^ (31 + l)) as Ps by (apply pow2_pos; lia).
  assert (2 ^ (31 + l) = 2 ^ 31 * 2 ^ l) as Ep by (rewrite <- Z.pow_add_r by lia; f_equal; lia).
  assert (n * m / 2 ^ (31 + l) = (if n <? 0 then - (- n / a) - 1 else n / a)) as Hq.
  { destruct (Z.ltb_spec n 0); [|apply reciprocal_floor; nia]. rewrite <- (reciprocal_floor_neg (- n) a (2 ^ (31 + l)) m) by nia. f_equal. lia. }
  assert (n + Z.shiftr ((m - 2 ^ 32) * n) 32 = n * m / 2 ^ 32) as ->.
  { rewrite Z.shiftr_div_pow2 by lia. replace (n * m) with ((m - 2 ^ 32) * n + n * 2 ^ 32) by lia. rewrite Z.div_add by lia. lia. }
  assert (exists c, Z.shiftr (s32 (n * m / 2 ^ 32)) (l - 1) = n * m / 2 ^ (31 + l) + c * 2 ^ 32) as [c Hs].
  { destruct (Z.eq_dec l 1) as [El|El].
    - rewrite El. change (31 + 1) with 32. change (1 - 1) with 0. rewrite Z.shiftr_0_r. exists (- ((n * m / 2 ^ 32 + 2 ^ 31) / 2 ^ 32)).
      unfold s32, swrap. pose proof (Z.div_mod (n * m / 2 ^ 32 + 2 ^ (32 - 1)) (2 ^ 32) ltac:(lia)) as E. change (2 ^ (32 - 1)) with (2 ^ 31) in *. lia.
    - exists 0. specialize (Hm2 ltac:(lia)). unfold s32. rewrite swrap_small; [|lia|].
      + rewrite Z.shiftr_div_pow2, Z.div_div by (try apply pow2_pos; lia). rewrite <- Z.pow_add_r by lia. replace (32 + (l - 1)) with (31 + l) by lia. lia.
      + change (2 ^ (32 - 1)) with (2 ^ 31). split; [apply Z.div_le_lower_bound; nia|apply Z.div_lt_upper_bound; nia]. }
  rewrite Hs, Hq, XSIGN_32, XSIGN_32, quot_abs by done. fold a. set (t := if n <? 0 then - (- n / a) else n / a).
  assert ((if n <? 0 then - (- n / a) - 1 else n / a) + c * 2 ^ 32 - (if n <? 0 then -1 else 0) = t + c * 2 ^ 32) as -> by (subst t; destruct (n <? 0); lia).
  unfold s32, swrap. f_equal. destruct (d <? 0).
  - rewrite Z.lxor_m1_r. unfold Z.lnot. rewrite <- (Z.mod_add (-1 * t + _) (- c)) by lia. f_equal. lia.
  - rewrite Z.lxor_0_r. rewrite <- (Z.mod_add (1 * t + _) c) by lia. f_equal. lia.
Qed.

(** ** Exactness *)

Lemma swrap_range w z : 0 < w -> - 2 ^ (w - 1) <= swrap w z < 2 ^ (w - 1).
Proof.
  intros Hw. unfold swrap. pose proof (Z.mod_pos_bound (z + 2 ^ (w - 1)) (2 ^ w) (pow2_pos w ltac:(lia))).
  assert (2 ^ w = 2 * 2 ^ (w - 1)) by (replace w with (w - 1 + 1) at 1 by lia; rewrite Z.pow_add_r by lia; lia). lia.
Qed.

Lemma s32_nonzero d : 0 < d < 2 ^ 32 -> s32 d <> 0.
Proof.
  intros Hd H. assert (u32 (s32 d) = d) as E; [|rewrite H in E; change (u32 0) with 0 in E; lia]. unfold u32, s32. rewrite swrap_mod by lia. apply Z.mod_small. lia.
Qed.

(** The quotient of two 32-bit numbers fits, but for the most negative number and -1. *)
Lemma s32_quot n d :
  - 2 ^ 31 <= n < 2 ^ 31 -> d <> 0 -> n <> - 2 ^ 31 \/ d <> -1 -> s32 (Z.quot n d) = Z.quot n d.
Proof.
  intros Hn Hd Hne. apply s32_small. destruct (decide (d = -1)) as [->|Hd1].
  - replace (-1) with (Z.opp 1) by done. rewrite Z.quot_opp_r, Z.quot_1_r by lia. lia.
  - destruct (decide (d = 1)) as [->|Hd2]; [rewrite Z.quot_1_r; lia|].
    assert (Z.abs (Z.quot n d) <= 2 ^ 30) as Hb; [|lia].
    rewrite <- Z.quot_abs by done. apply Z.quot_le_upper_bound; nia.
Qed.

(** C15: the constants for products and quotients are exact, at machine width.  For every
    64-bit [x] the loop ends, and its two sums have no bit in common and differ by
    [x] modulo [2 ^ 64].  For every 32-bit divisor other than zero and every dividend, the high
    product, the shifts and the sum that use the unsigned constants give the
    unsigned quotient, and no intermediate result overflows.  Those that use the
    signed constants, computed in 32-bit two's complement, where the sum with the
    high product may wrap, give the signed quotient, rounded towards zero; the
    result itself wraps only for the most negative number divided by -1. *)
Theorem constant_arithmetic_exact (x n d : Z) :
  0 <= x < 2 ^ 64 -> 0 <= n < 2 ^ 32 -> 0 < d < 2 ^ 32 ->
  (exists add sub, ComputeMultConstants64 65 x = Some (add, sub) /\ Z.land add sub = 0 /\ u64 (add - sub) = x) /\
  (exists mprime sh1 sh2, ComputeUDivConstants32 d = Some (mprime, sh1, sh2) /\ 0 <= sh1 < 32 /\ 0 <= sh2 < 32 /\
     let product := mprime * n in
     let t1 := Z.shiftr product 32 in
     let sum := Z.shiftr (n - t1) sh1 + t1 in
     0 <= product < 2 ^ 64 /\ 0 <= n - t1 < 2 ^ 32 /\ 0 <= sum < 2 ^ 32 /\ Z.shiftr sum sh2 = n / d) /\
  (exists mprime dsign shpost, ComputeSDivConstants32 (s32 d) = Some (mprime, dsign, shpost) /\ 0 <= shpost < 32 /\
     let q0 := Z.shiftr (s32 (s32 n + Z.shiftr (mprime * s32 n) 32)) shpost - XSIGN (s32 n) in
     s32 (Z.lxor q0 dsign - dsign) = s32 (Z.quot (s32 n) (s32 d)) /\
     (s32 n <> - 2 ^ 31 \/ s32 d <> -1 -> s32 (Z.lxor q0 dsign - dsign) = Z.quot (s32 n) (s32 d))).
Proof.
  intros Hx Hn Hd. split_and!.
  - destruct (ComputeMultConstants64_ok x Hx) as (add & sub & H1 & _ & _ & H2 & H3). by exists add, sub.
  - destruct (udiv_exact n d Hn Hd) as (m & s1 & s2 & H1 & Rm & R1 & R2 & Rt & Rs & Hq). exists m, s1, s2. cbn zeta.
    rewrite !Z.shiftr_div_pow2 by lia. split_and!; try done; try lia; try nia.
    apply Z.add_nonneg_nonneg; [|lia]. apply Z.div_pos; [lia|apply pow2_pos; lia].
  - assert (- 2 ^ 31 <= s32 n < 2 ^ 31) as Rn by (apply (swrap_range 32); lia).
    destruct (sdiv_exact (s32 n) (s32 d)) as (m & ds & sp & H1 & Hsp & H2); [done|apply (swrap_range 32); lia|by apply s32_nonzero|].
    exists m, ds, sp. split; [done|]. split; [lia|]. cbn zeta in *. split; [done|]. intros Hne. rewrite H2. apply s32_quot; [done|by apply s32_nonzero|done].
Qed.

Lemma constant_arithmetic_exact_witness :
  ComputeMultConstants64 65 119 = Some (128, 9) /\ ComputeUDivConstants32 7 = Some (613566757, 1, 2) /\
  exists mprime sh1 sh2, ComputeUDivConstants32 7 = Some (mprime, sh1, sh2) /\
    let t1 := Z.shiftr (mprime * 4294967295) 32 in Z.shiftr (Z.shiftr (4294967295 - t1) sh1 + t1) sh2 = 613566756.
Proof.
  split; [vm_compute; reflexivity|]. split; [vm_compute; reflexivity|].
  destruct (constant_arithmetic_exact 119 4294967295 7) as (_ & (m & s1 & s2 & H1 & _ & _ & _ & _ & _ & H2) & _); [lia..|].
  exists m, s1, s2. split; [exact H1|exact H2].
Defined.
