(* ===== verification/Stp.v ===== *)
(** * Building solver queries ([lib/Solver/STPBuilder.cpp])

    Expressions are translated into the terms of the STP library.  STP is not part
    of the program: the class [VC] is its interface, one operation per function of
    it that the builder calls, and [VCLaws] (in [StpSound.v]) states what its
    documentation says these terms mean.  The builder keeps three caches: the terms
    of expressions, the arrays of update nodes and the initial arrays; an update
    node is known by its contents and its root.  No result stands for a failed
    assertion. *)

From stdpp Require Import base list.
From Stdlib Require Import ZArith Lia.
From S2P Require Import Prelude BitVec Expr ExprCreate Constraints Solver ConstDiv.

Class VC := {
  vcexpr : Type;
  vc_getBVLength : vcexpr -> Z;
  vc_varExpr : array -> vcexpr;
  vc_trueExpr : vcexpr;
  vc_falseExpr : vcexpr;
  vc_bvConstExprFromInt : Z -> Z -> vcexpr;
  vc_bvConstExprFromLL : Z -> Z -> vcexpr;
  vc_eqExpr : vcexpr -> vcexpr -> vcexpr;
  vc_notExpr : vcexpr -> vcexpr;
  vc_andExpr : vcexpr -> vcexpr -> vcexpr;
  vc_orExpr : vcexpr -> vcexpr -> vcexpr;
  vc_iffExpr : vcexpr -> vcexpr -> vcexpr;
  vc_impliesExpr : vcexpr -> vcexpr -> vcexpr;
  vc_iteExpr : vcexpr -> vcexpr -> vcexpr -> vcexpr;
  vc_readExpr : vcexpr -> vcexpr -> vcexpr;
  vc_writeExpr : vcexpr -> vcexpr -> vcexpr -> vcexpr;
  vc_bvConcatExpr : vcexpr -> vcexpr -> vcexpr;
  vc_bvExtract : vcexpr -> Z -> Z -> vcexpr;
  vc_bvSignExtend : vcexpr -> Z -> vcexpr;
  vc_bvUMinusExpr : vcexpr -> vcexpr;
  vc_bvNotExpr : vcexpr -> vcexpr;
  vc_bvPlusExpr : Z -> vcexpr -> vcexpr -> vcexpr;
  vc_bvMinusExpr : Z -> vcexpr -> vcexpr -> vcexpr;
  vc_bvMultExpr : Z -> vcexpr -> vcexpr -> vcexpr;
  vc_bvDivExpr : Z -> vcexpr -> vcexpr -> vcexpr;
  vc_bvModExpr : Z -> vcexpr -> vcexpr -> vcexpr;
  vc_sbvDivExpr : Z -> vcexpr -> vcexpr -> vcexpr;
  vc_sbvModExpr : Z -> vcexpr -> vcexpr -> vcexpr;
  vc_bvAndExpr : vcexpr -> vcexpr -> vcexpr;
  vc_bvOrExpr : vcexpr -> vcexpr -> vcexpr;
  vc_bvXorExpr : vcexpr -> vcexpr -> vcexpr;
  vc_bvLeftShiftExprExpr : Z -> vcexpr -> vcexpr -> vcexpr;
  vc_bvRightShiftExprExpr : Z -> vcexpr -> vcexpr -> vcexpr;
  vc_bvSignedRightShiftExprExpr : Z -> vcexpr -> vcexpr -> vcexpr;
  vc_bvLtExpr : vcexpr -> vcexpr -> vcexpr;
  vc_bvLeExpr : vcexpr -> vcexpr -> vcexpr;
  vc_sbvLtExpr : vcexpr -> vcexpr -> vcexpr;
  vc_sbvLeExpr : vcexpr -> vcexpr -> vcexpr;
}.

Section builder.
Context `{VC}.
Implicit Types (a b : vcexpr).

(** ** Terms *)

Definition getShiftBits (amount : Z) : Z := if 32 <? amount then 6 else 5.

Definition getTrue : vcexpr := vc_trueExpr.
Definition getFalse : vcexpr := vc_falseExpr.
Definition bvConst32 (width value : Z) : vcexpr := vc_bvConstExprFromInt width (u32 value).
Definition bvConst64 (width value : Z) : vcexpr := vc_bvConstExprFromLL width (u64 value).
Definition bvOne (width : Z) : vcexpr := bvConst32 width 1.
Definition bvZero (width : Z) : vcexpr := bvConst32 width 0.
Definition bvMinusOne (width : Z) : vcexpr := bvConst64 width (-1).
Definition bvExtract a (top bottom : Z) : vcexpr := vc_bvExtract a top bottom.
Definition bvBoolExtract a (bit : Z) : vcexpr := vc_eqExpr (bvExtract a bit bit) (bvOne 1).

Definition bvLeftShiftByConstant a (amount shiftBits : Z) : vcexpr :=
  let width := vc_getBVLength a in
  let shift := Z.land amount (Z.shiftl 1 shiftBits - 1) in
  if shift =? 0 then a
  else if width <=? shift then bvZero width
  else vc_bvConcatExpr (bvExtract a (width - shift - 1) 0) (bvZero shift).

Definition bvRightShiftByConstant a (amount shiftBits : Z) : vcexpr :=
  let width := vc_getBVLength a in
  let shift := Z.land amount (Z.shiftl 1 shiftBits - 1) in
  if shift =? 0 then a
  else if width <=? shift then bvZero width
  else vc_bvConcatExpr (bvZero shift) (bvExtract a (width - 1) shift).

Definition bvArithRightShiftByConstant a (amount : Z) (isSigned : vcexpr) (shiftBits : Z) : vcexpr :=
  let width := vc_getBVLength a in
  let shift := Z.land amount (Z.shiftl 1 shiftBits - 1) in
  if shift =? 0 then a
  else if width - 1 <=? shift then vc_iteExpr isSigned (bvMinusOne width) (bvZero width)
  else
    vc_iteExpr isSigned (vc_bvConcatExpr (bvMinusOne shift) (bvExtract a (width - 1) shift))
      (bvRightShiftByConstant a shift shiftBits).

Definition bvLeftShift a amount (width : Z) : vcexpr := vc_bvLeftShiftExprExpr width a amount.
Definition bvRightShift a amount (width : Z) : vcexpr := vc_bvRightShiftExprExpr width a amount.
Definition bvArithRightShift a amount (width : Z) : vcexpr := vc_bvSignedRightShiftExprExpr width a amount.

(** The loop over the bits of the two sums, from [j] on downwards. *)
Fixpoint mul_bits a (width shiftBits add sub : Z) (j : nat) (res : option vcexpr) : option (option vcexpr) :=
  match j with
  | O => Some res
  | S j' =>
      let bit := 2 ^ Z.of_nat j' in
      let in_add := negb (Z.land add bit =? 0) in
      let in_sub := negb (Z.land sub bit =? 0) in
      if in_add || in_sub then
        if in_add && in_sub then None
        else
          let op := bvLeftShiftByConstant a (Z.of_nat j') shiftBits in
          let res' :=
            if in_add then match res with Some r => vc_bvPlusExpr width r op | None => op end
            else match res with Some r => vc_bvMinusExpr width r op | None => vc_bvUMinusExpr op end in
          mul_bits a width shiftBits add sub j' (Some res')
      else mul_bits a width shiftBits add sub j' res
  end.

(** The term for the two sums. *)
Definition mul_term a (width : Z) (constants : Z * Z) : option vcexpr :=
  let '(add, sub) := constants in
  let add := truncateToNBits add width in
  let sub := truncateToNBits sub width in
  res ← mul_bits a width (getShiftBits width) add sub 64 None;
  Some (match res with Some r => r | None => bvZero width end).

Definition constructMulByConstant a (width x : Z) : option vcexpr := ComputeMultConstants64 65 x ≫= mul_term a width.

Definition constructUDivByConstant a (width d : Z) : option vcexpr :=
  if negb (width =? 32) then None
  else
    '(mprime, sh1, sh2) ← ComputeUDivConstants32 (u32 d);
    let expr_sh1 := bvConst32 32 sh1 in
    let expr_sh2 := bvConst32 32 sh2 in
    let expr_n_64 := vc_bvConcatExpr (bvZero 32) a in
    t1_64bits ← constructMulByConstant expr_n_64 64 mprime;
    let t1 := vc_bvExtract t1_64bits 63 32 in
    let n_minus_t1 := vc_bvMinusExpr width a t1 in
    let shift_sh1 := bvRightShift n_minus_t1 expr_sh1 32 in
    let plus_t1 := vc_bvPlusExpr width shift_sh1 t1 in
    Some (bvRightShift plus_t1 expr_sh2 32).

(** ** Constants *)

(** [i] more words of 64 bits are put in front of the term. *)
Fixpoint wide_constant (w tmp : Z) (res : vcexpr) (i : nat) : vcexpr :=
  match i with
  | O => res
  | S i =>
      let tmp := c_bin LShr w tmp 64 in
      wide_constant w tmp (vc_bvConcatExpr (bvConst64 (Z.min 64 w) (c_extract w 0 64 tmp)) res) i
  end.

Definition constructConstant (w v : Z) : vcexpr :=
  if w =? 1 then if v =? 1 then getTrue else getFalse
  else if w <=? 32 then bvConst32 w v
  else if w <=? 64 then bvConst64 w v
  else wide_constant w v (bvConst64 64 (c_extract w 0 64 v)) (Z.to_nat (w / 64 - 1)).

(** ** The caches *)

Record stp := MkStp {
  constructed : list (expr * (vcexpr * Z));
  stpArray : list ((array * updates) * vcexpr);
  stpInitialArray : list (array * vcexpr);
}.

Definition find_constructed (s : stp) (e : expr) : option (vcexpr * Z) := snd <$> List.find (fun p => expr_eqb (fst p) e) (constructed s).
Definition find_array (s : stp) (root : array) (u : updates) : option vcexpr :=
  snd <$> List.find (fun p => bool_decide ((fst p).1 = root) && updates_eqb (fst p).2 u) (stpArray s).
Definition find_initial (s : stp) (a : array) : option vcexpr := snd <$> List.find (fun p => bool_decide (fst p = a)) (stpInitialArray s).

Definition clearCaches (s : stp) : stp := MkStp [] (stpArray s) (stpInitialArray s).

Definition M (A : Type) : Type := stp -> option (A * stp).
Definition mret {A} (x : A) : M A := fun s => Some (x, s).
Definition mfail {A} : M A := fun _ => None.
Definition mthen {A B} (m : M A) (f : A -> M B) : M B := fun s => '(x, s) ← m s; f x s.
Definition mlift {A} (o : option A) : M A := fun s => x ← o; Some (x, s).

End builder.

Declare Scope stp_scope.
Delimit Scope stp_scope with stp.
Notation "x <~ m ; k" := (mthen m (fun x => k)) (at level 20, m at level 100, k at level 200, only parsing) : stp_scope.
Notation "' x <~ m ; k" := (mthen m (fun x : _ => k)) (at level 20, x pattern, m at level 100, k at level 200, only parsing) : stp_scope.
Open Scope stp_scope.

Section construct.
Context `{VC} (optimizeDivides : bool).

(** The writes of the initial values of a constant array. *)
Fixpoint write_values (arr : vcexpr) (i : Z) (vs : list Z) : vcexpr :=
  match vs with
  | [] => arr
  | v :: vs => write_values (vc_writeExpr arr (constructConstant 32 (u32 i)) (constructConstant 8 v)) (i + 1) vs
  end.

Definition getInitialArray (root : array) : M vcexpr := fun s =>
  match find_initial s root with
  | Some r => Some (r, s)
  | None =>
      let r := match root with
        | Symbolic _ => vc_varExpr root
        | ConstantInitialValues vs => write_values (vc_varExpr root) 0 vs
        end in
      Some (r, MkStp (constructed s) (stpArray s) ((root, r) :: stpInitialArray s))
  end.

(** A constant is built anew; another term is taken from the cache or put there. *)
Definition construct_cached (e : expr) (actual : M (vcexpr * Z)) : M (vcexpr * Z) := fun s =>
  if isa_Constant e then actual s
  else
    match find_constructed s e with
    | Some r => Some (r, s)
    | None => '(r, s) ← actual s; Some (r, MkStp ((e, r) :: constructed s) (stpArray s) (stpInitialArray s))
    end.

Definition array_cached (root : array) (u : updates) (build : M vcexpr) : M vcexpr := fun s =>
  match find_array s root u with
  | Some r => Some (r, s)
  | None => '(r, s) ← build s; Some (r, MkStp (constructed s) (((root, u), r) :: stpArray s) (stpInitialArray s))
  end.

Definition isTrue (e : expr) : bool := match e with Constant w v => (w =? Bool) && (v =? 1) | _ => false end.

(** The value that the code reads of a constant operand. *)
Definition constant_of (e : expr) : option (Z * Z) := match e with Constant w v => Some (w, v) | _ => None end.
Definition getLimitedValue (v : Z) : Z := Z.min v (2 ^ 64 - 1).

Definition not_bool (w : Z) : M unit := if w =? 1 then mfail else mret tt.

Definition bin_simple (k : binkind) (w : Z) (l r : vcexpr) : M (vcexpr * Z) :=
  match k with
  | Add => _ <~ not_bool w; mret (vc_bvPlusExpr w l r, w)
  | Sub => _ <~ not_bool w; mret (vc_bvMinusExpr w l r, w)
  | SRem => _ <~ not_bool w; mret (vc_sbvModExpr w l r, w)
  | And => mret (if w =? 1 then vc_andExpr l r else vc_bvAndExpr l r, w)
  | Or => mret (if w =? 1 then vc_orExpr l r else vc_bvOrExpr l r, w)
  | Xor => mret (if w =? 1 then vc_iteExpr l (vc_notExpr r) r else vc_bvXorExpr l r, w)
  | _ => mfail
  end.

(** [UDiv] by the constant [d]: no result when there is no special case for it. *)
Definition udiv_constant (w dw d : Z) (l : vcexpr) : option (option vcexpr) :=
  if dw <=? 64 then
    if isPowerOfTwo d then Some (Some (bvRightShiftByConstant l (indexOfSingleBit d) (getShiftBits w)))
    else if optimizeDivides && (w =? 32) then r ← constructUDivByConstant l w (u32 d); Some (Some r)
    else Some None
  else Some None.

Definition urem_constant (w dw d : Z) (l : vcexpr) : option (option vcexpr) :=
  if dw <=? 64 then
    if isPowerOfTwo d then
      let bits := indexOfSingleBit d in
      Some (Some (if bits =? 0 then bvZero w else vc_bvConcatExpr (bvZero (w - bits)) (bvExtract l (bits - 1) 0)))
    else if optimizeDivides && (w =? 32) then
      quotient ← constructUDivByConstant l w (u32 d);
      quot_times_divisor ← constructMulByConstant quotient w d;
      Some (Some (vc_bvMinusExpr w l quot_times_divisor))
    else Some None
  else Some None.

Definition shift_constant (k : binkind) (w v : Z) (l : vcexpr) : vcexpr :=
  let shift := u32 (getLimitedValue v) in
  match k with
  | Shl => bvLeftShiftByConstant l shift (getShiftBits w)
  | LShr => bvRightShiftByConstant l shift (getShiftBits w)
  | _ => bvArithRightShiftByConstant l shift (bvBoolExtract l (w - 1)) (getShiftBits w)
  end.

Definition shift_variable (k : binkind) (w : Z) (l amount : vcexpr) : vcexpr :=
  match k with
  | Shl => bvLeftShift l amount w
  | LShr => bvRightShift l amount w
  | _ => bvArithRightShift l amount w
  end.

Definition cmp_term (k : cmpkind) (l r : vcexpr) : M (vcexpr * Z) :=
  match k with
  | Ult => mret (vc_bvLtExpr l r, 1)
  | Ule => mret (vc_bvLeExpr l r, 1)
  | Slt => mret (vc_sbvLtExpr l r, 1)
  | Sle => mret (vc_sbvLeExpr l r, 1)
  | _ => mfail
  end.

Fixpoint construct (e : expr) : M (vcexpr * Z) :=
  construct_cached e
    match e with
    | Constant w v => mret (constructConstant w v, w)
    | NotOptimized src => construct src
    | Read root head index =>
        arr <~ construct_updates root head;
        '(i, _) <~ construct index;
        mret (vc_readExpr arr i, 8)
    | Select c t f =>
        '(cond, _) <~ construct c;
        '(tExpr, _) <~ construct t;
        '(fExpr, w) <~ construct f;
        mret (vc_iteExpr cond tExpr fExpr, w)
    | Concat l r =>
        '(res, _) <~ construct r;
        '(l', _) <~ construct l;
        mret (vc_bvConcatExpr l' res, getWidth e)
    | Extract src off w =>
        '(s, _) <~ construct src;
        mret (if w =? 1 then bvBoolExtract s off else vc_bvExtract s (off + w - 1) off, w)
    | ZExt src w =>
        '(s, srcWidth) <~ construct src;
        mret (if srcWidth =? 1 then vc_iteExpr s (bvOne w) (bvZero w) else vc_bvConcatExpr (bvZero (w - srcWidth)) s, w)
    | SExt src w =>
        '(s, srcWidth) <~ construct src;
        mret (if srcWidth =? 1 then vc_iteExpr s (bvMinusOne w) (bvZero w) else vc_bvSignExtend s w, w)
    | Not src =>
        '(s, w) <~ construct src;
        mret (if w =? 1 then vc_notExpr s else vc_bvNotExpr s, w)
    | Bin Mul l r =>
        '(right', w) <~ construct r;
        _ <~ not_bool w;
        match constant_of l with
        | Some (lw, lv) =>
            if lw <=? 64 then res <~ mlift (constructMulByConstant right' w lv); mret (res, w)
            else '(left', w) <~ construct l; mret (vc_bvMultExpr w left' right', w)
        | None => '(left', w) <~ construct l; mret (vc_bvMultExpr w left' right', w)
        end
    | Bin UDiv l r =>
        '(left', w) <~ construct l;
        _ <~ not_bool w;
        special <~ mlift (match constant_of r with Some (dw, d) => udiv_constant w dw d left' | None => Some None end);
        match special with
        | Some res => mret (res, w)
        | None => '(right', w) <~ construct r; mret (vc_bvDivExpr w left' right', w)
        end
    | Bin SDiv l r =>
        '(left', w) <~ construct l;
        _ <~ not_bool w;
        '(right', w) <~ construct r; mret (vc_sbvDivExpr w left' right', w)
    | Bin URem l r =>
        '(left', w) <~ construct l;
        _ <~ not_bool w;
        special <~ mlift (match constant_of r with Some (dw, d) => urem_constant w dw d left' | None => Some None end);
        match special with
        | Some res => mret (res, w)
        | None => '(right', w) <~ construct r; mret (vc_bvModExpr w left' right', w)
        end
    | Bin ((Shl | LShr | AShr) as k) l r =>
        '(left', w) <~ construct l;
        _ <~ not_bool w;
        match constant_of r with
        | Some (_, v) => mret (shift_constant k w v left', w)
        | None => '(amount, _) <~ construct r; mret (shift_variable k w left' amount, w)
        end
    | Bin k l r =>
        '(left', _) <~ construct l;
        '(right', w) <~ construct r;
        bin_simple k w left' right'
    | Cmp Eq l r =>
        '(left', _) <~ construct l;
        '(right', w) <~ construct r;
        if w =? 1 then
          match constant_of l with
          | Some (_, v) => mret (if v =? 1 then right' else vc_notExpr right', w)
          | None => mret (vc_iffExpr left' right', w)
          end
        else mret (vc_eqExpr left' right', 1)
    | Cmp k l r =>
        '(left', _) <~ construct l;
        '(right', w) <~ construct r;
        _ <~ not_bool w;
        cmp_term k left' right'
    | Implies l r =>
        '(left', _) <~ construct l;
        '(right', w) <~ construct r;
        mret (vc_impliesExpr left' right', w)
    end
with construct_updates (root : array) (u : updates) : M vcexpr :=
  match u with
  | UNull => getInitialArray root
  | USingle g i v next =>
      array_cached root u
        (arr <~ construct_updates root next;
         '(i', _) <~ construct i;
         '(v', _) <~ construct v;
         let newArray := vc_writeExpr arr i' v' in
         if isTrue g then mret newArray
         else '(g', _) <~ construct g; mret (vc_iteExpr g' newArray arr))
  | UMulti g src next =>
      array_cached root u
        (arr <~ construct_updates root next;
         newArray <~ getInitialArray src;
         if isTrue g then mret newArray
         else '(g', _) <~ construct g; mret (vc_iteExpr g' newArray arr))
  end.

(** ** Queries *)

(** The terms of a conjunction, the later ones in front. *)
Fixpoint construct_terms (es : list expr) (result : option vcexpr) : M (option vcexpr) :=
  match es with
  | [] => mret result
  | e :: es => '(cur, _) <~ construct e; construct_terms es (Some (match result with Some r => vc_andExpr cur r | None => cur end))
  end.

Definition constructQuery (e : expr) : M vcexpr :=
  if negb (getWidth e =? Bool) then '(r, _) <~ construct e; mret r
  else
    let '(e, isNegated) :=
      match e with Cmp Eq l r => if expr_eqb l false_ then (r, true) else (e, false) | _ => (e, false) end in
    result <~ construct_terms (nary And e) None;
    match result with
    | Some r => mret (if isNegated : bool then vc_notExpr r else r)
    | None => mfail
    end.

(** The terms that are asserted, in order. *)
Fixpoint assertAssumptions (cs : list expr) : M (list vcexpr) :=
  match cs with
  | [] => mret []
  | c :: cs => '(r, _) <~ construct c; rs <~ assertAssumptions cs; mret (r :: rs)
  end.

Definition pushQuery (cs : list expr) (e : expr) : M (list vcexpr * vcexpr) :=
  asserted <~ assertAssumptions cs; q <~ constructQuery e; mret (asserted, q).

End construct.

(** ** The solver ([STPSolverImpl] of [lib/Solver/Solver.cpp]) *)

(** The answers of [vc_query]; errors end the program. *)
Inductive vc_answer := VC_INVALID | VC_VALID | VC_TIMEOUT.

(** [vc_query] decides whether the asserted formulas imply the query, and after an
    invalid query [vc_getCounterExampleArray] gives indices and values of the
    bytes of an array in its counterexample. *)
Class VCSolver `(VC) := {
  vc_query : list vcexpr -> vcexpr -> vc_answer;
  vc_getCounterExampleArray : list vcexpr -> vcexpr -> vcexpr -> list (Z * Z);
}.

Section solver.
Context `{VCSolver} (optimizeDivides : bool).

(** The bytes of the arrays that were asked for. *)
Fixpoint counterexample (asserted : list vcexpr) (q : vcexpr) (objects : list array) : M bindings :=
  match objects with
  | [] => mret []
  | array :: objects =>
      a <~ getInitialArray array;
      rest <~ counterexample asserted q objects;
      mret (((fun p => (array, u32 p.1, u8 p.2)) <$> vc_getCounterExampleArray asserted q a) ++ rest)
  end.

(** [runAndGetCex]: no bindings when the query is valid. *)
Definition runAndGetCex (asserted : list vcexpr) (q : vcexpr) (objects : list array) : SM stp (option bindings) := fun s =>
  match vc_query asserted q with
  | VC_TIMEOUT => (Failure, s)
  | VC_VALID => (Success None, s)
  | VC_INVALID => match counterexample asserted q objects s with Some (b, s) => (Success (Some b), s) | None => (Stopped, s) end
  end.

Definition stp_computeInitialValues (query : Query) (objects : list array) : SM stp (option bindings) := fun s =>
  match pushQuery optimizeDivides (cm_terms (q_constraints query)) (q_expr query) s with
  | None => (Stopped, s)
  | Some ((asserted, stp_e), s) => let '(r, s) := runAndGetCex asserted stp_e objects s in (r, clearCaches s)
  end.

Definition stp_computeTruth (query : Query) : SM stp bool :=
  (o <- stp_computeInitialValues query []; sret (match o with Some _ => false | None => true end))%solver.

End solver.
