(* ===== verification/StpSound.v ===== *)
(** * The terms of the solver library mean the expressions

    [VCLaws] states what the terms of the STP library mean (bit-vector arithmetic,
    booleans, arrays of bytes).  The first part shows that the builder's shifts,
    products and quotients by constants are the operations of [c_bin]. *)

From stdpp Require Import base list.
From Stdlib Require Import ZArith Lia.
From S2P Require Import Prelude BitVec Expr ConstDiv Constraints Solver Stp.

(** ** What terms mean *)

Inductive vcval :=
  | VBool (b : bool)
  | VBV (w v : Z)
  | VArray (bytes : Z -> Z).

Definition same_sort (v v' : vcval) : Prop :=
  match v, v' with
  | VBool _, VBool _ | VArray _, VArray _ => True
  | VBV w _, VBV w' _ => w = w'
  | _, _ => False
  end.

Class VCLaws `(VC) := {
  denote : assignment -> vcexpr -> option vcval;
  length_law : forall rho a w x, denote rho a = Some (VBV w x) -> vc_getBVLength a = w;
  var_law : forall rho arr, denote rho (vc_varExpr arr) = Some (VArray (fun i => u8 (rho arr i)));
  true_law : forall rho, denote rho vc_trueExpr = Some (VBool true);
  false_law : forall rho, denote rho vc_falseExpr = Some (VBool false);
  int_law : forall rho w v, 0 < w -> denote rho (vc_bvConstExprFromInt w v) = Some (VBV w (v mod 2 ^ w));
  ll_law : forall rho w v, 0 < w -> denote rho (vc_bvConstExprFromLL w v) = Some (VBV w (v mod 2 ^ w));
  not_law : forall rho a x, denote rho a = Some (VBool x) -> denote rho (vc_notExpr a) = Some (VBool (negb x));
  and_law : forall rho a b x y, denote rho a = Some (VBool x) -> denote rho b = Some (VBool y) ->
    denote rho (vc_andExpr a b) = Some (VBool (x && y));
  or_law : forall rho a b x y, denote rho a = Some (VBool x) -> denote rho b = Some (VBool y) ->
    denote rho (vc_orExpr a b) = Some (VBool (x || y));
  iff_law : forall rho a b x y, denote rho a = Some (VBool x) -> denote rho b = Some (VBool y) ->
    denote rho (vc_iffExpr a b) = Some (VBool (Bool.eqb x y));
  implies_law : forall rho a b x y, denote rho a = Some (VBool x) -> denote rho b = Some (VBool y) ->
    denote rho (vc_impliesExpr a b) = Some (VBool (implb x y));
  ite_law : forall rho c t f b v v', denote rho c = Some (VBool b) -> denote rho t = Some v -> denote rho f = Some v' -> same_sort v v' ->
    denote rho (vc_iteExpr c t f) = Some (if b then v else v');
  read_law : forall rho arr i g x, denote rho arr = Some (VArray g) -> denote rho i = Some (VBV 32 x) ->
    denote rho (vc_readExpr arr i) = Some (VBV 8 (g x));
  write_law : forall rho arr i v g x y, denote rho arr = Some (VArray g) -> denote rho i = Some (VBV 32 x) -> denote rho v = Some (VBV 8 y) ->
    denote rho (vc_writeExpr arr i v) = Some (VArray (fun j => if j =? x then y else g j));
  concat_law : forall rho a b wa wb x y, denote rho a = Some (VBV wa x) -> denote rho b = Some (VBV wb y) ->
    denote rho (vc_bvConcatExpr a b) = Some (VBV (wa + wb) (cat wb x y));
  extract_law : forall rho a w x hi lo, denote rho a = Some (VBV w x) -> 0 <= lo <= hi -> hi < w ->
    denote rho (vc_bvExtract a hi lo) = Some (VBV (hi - lo + 1) (ext lo (hi - lo + 1) x));
  sext_law : forall rho a w x w', denote rho a = Some (VBV w x) -> w <= w' ->
    denote rho (vc_bvSignExtend a w') = Some (VBV w' (sextOrTrunc w w' x));
  uminus_law : forall rho a w x, denote rho a = Some (VBV w x) -> denote rho (vc_bvUMinusExpr a) = Some (VBV w ((- x) mod 2 ^ w));
  bvnot_law : forall rho a w x, denote rho a = Some (VBV w x) -> denote rho (vc_bvNotExpr a) = Some (VBV w (c_not w x));
  arith_law : forall rho w a b x y, denote rho a = Some (VBV w x) -> denote rho b = Some (VBV w y) ->
    denote rho (vc_bvPlusExpr w a b) = Some (VBV w (c_bin Add w x y)) /\
    denote rho (vc_bvMinusExpr w a b) = Some (VBV w (c_bin Sub w x y)) /\
    denote rho (vc_bvMultExpr w a b) = Some (VBV w (c_bin Mul w x y)) /\
    denote rho (vc_bvAndExpr a b) = Some (VBV w (c_bin And w x y)) /\
    denote rho (vc_bvOrExpr a b) = Some (VBV w (c_bin Or w x y)) /\
    denote rho (vc_bvXorExpr a b) = Some (VBV w (c_bin Xor w x y)) /\
    denote rho (vc_bvLeftShiftExprExpr w a b) = Some (VBV w (c_bin Shl w x y)) /\
    denote rho (vc_bvRightShiftExprExpr w a b) = Some (VBV w (c_bin LShr w x y)) /\
    denote rho (vc_bvSignedRightShiftExprExpr w a b) = Some (VBV w (c_bin AShr w x y));
  (* division is total; the value of a division by zero is not specified *)
  div_law : forall rho w a b x y, denote rho a = Some (VBV w x) -> denote rho b = Some (VBV w y) -> inrange w x -> inrange w y ->
    (exists z, denote rho (vc_bvDivExpr w a b) = Some (VBV w z) /\ inrange w z /\ (y <> 0 -> z = c_bin UDiv w x y)) /\
    (exists z, denote rho (vc_bvModExpr w a b) = Some (VBV w z) /\ inrange w z /\ (y <> 0 -> z = c_bin URem w x y)) /\
    (exists z, denote rho (vc_sbvDivExpr w a b) = Some (VBV w z) /\ inrange w z /\ (y <> 0 -> z = c_bin SDiv w x y)) /\
    (exists z, denote rho (vc_sbvModExpr w a b) = Some (VBV w z) /\ inrange w z /\ (y <> 0 -> z = c_bin SRem w x y));
  compare_law : forall rho a b w x y, denote rho a = Some (VBV w x) -> denote rho b = Some (VBV w y) ->
    denote rho (vc_eqExpr a b) = Some (VBool (c_cmp Eq w x y)) /\
    denote rho (vc_bvLtExpr a b) = Some (VBool (c_cmp Ult w x y)) /\
    denote rho (vc_bvLeExpr a b) = Some (VBool (c_cmp Ule w x y)) /\
    denote rho (vc_sbvLtExpr a b) = Some (VBool (c_cmp Slt w x y)) /\
    denote rho (vc_sbvLeExpr a b) = Some (VBool (c_cmp Sle w x y));
}.

(** ** Arithmetic of shifts *)

Lemma mask_mod amount sb : 0 <= sb -> Z.land amount (Z.shiftl 1 sb - 1) = amount mod 2 ^ sb.
Proof. intros. rewrite Z.shiftl_1_l, Z.sub_1_r, <- Z.ones_equiv. by apply Z.land_ones. Qed.

Lemma shl_cat w x s : inrange w x -> 0 < s < w -> cat s (ext 0 (w - s) x) 0 = c_bin Shl w x s.
Proof.
  intros Hx Hs. unfold cat, ext. cbn. rewrite Z.shiftl_mul_pow2, Z.div_1_r, Z.add_0_r by lia. replace (2 ^ w) with (2 ^ (w - s) * 2 ^ s) by (rewrite <- Z.pow_add_r by lia; f_equal; lia).
  rewrite Z.mul_mod_distr_r; [done|apply Z.pow_nonzero; lia..].
Qed.

Lemma lshr_ext w x s : inrange w x -> 0 <= s < w -> ext s (w - s) x = c_bin LShr w x s.
Proof.
  intros [Hw Hx] Hs. unfold ext. cbn. rewrite Z.shiftr_div_pow2 by lia. apply Z.mod_small. split; [apply Z.div_pos; [lia|apply pow2_pos; lia]|].
  apply Z.div_lt_upper_bound; [apply pow2_pos; lia|]. rewrite <- Z.pow_add_r by lia. replace (s + (w - s)) with w by lia. lia.
Qed.

Lemma shr_big w x s : inrange w x -> w <= s -> c_bin LShr w x s = 0.
Proof.
  intros [Hw Hx] Hs. cbn. rewrite Z.shiftr_div_pow2 by lia. apply Z.div_small. split; [lia|]. apply Z.lt_le_trans with (2 ^ w); [lia|]. apply Z.pow_le_mono_r; lia.
Qed.

Lemma shl_big w x s : 0 <= w <= s -> c_bin Shl w x s = 0.
Proof.
  intros Hs. cbn. rewrite Z.shiftl_mul_pow2 by lia. replace s with (s - w + w) by lia. rewrite Z.pow_add_r, Z.mul_assoc by lia. apply Z.mod_mul, Z.pow_nonzero; lia.
Qed.

Lemma swrap_cases w x : inrange w x -> swrap w x = if x <? 2 ^ (w - 1) then x else x - 2 ^ w.
Proof.
  intros [Hw Hx]. assert (2 ^ w = 2 * 2 ^ (w - 1)) as E by (replace w with (w - 1 + 1) at 1 by lia; rewrite Z.pow_add_r by lia; lia). unfold swrap.
  pose proof (pow2_pos (w - 1) ltac:(lia)). destruct (Z.ltb_spec x (2 ^ (w - 1))); [rewrite Z.mod_small by lia; lia|].
  replace (x + 2 ^ (w - 1)) with (x - 2 ^ (w - 1) + 1 * 2 ^ w) by lia. rewrite Z.mod_add, Z.mod_small by lia. lia.
Qed.

(** The sign bit. *)
Lemma sign_ext w x : inrange w x -> ext (w - 1) 1 x = if x <? 2 ^ (w - 1) then 0 else 1.
Proof.
  intros [Hw Hx]. assert (2 ^ w = 2 * 2 ^ (w - 1)) as E by (replace w with (w - 1 + 1) at 1 by lia; rewrite Z.pow_add_r by lia; lia). unfold ext.
  pose proof (pow2_pos (w - 1) ltac:(lia)). destruct (Z.ltb_spec x (2 ^ (w - 1))); [by rewrite Z.div_small by lia|].
  rewrite <- (Z.div_unique_pos x (2 ^ (w - 1)) 1 (x - 2 ^ (w - 1))) by lia. done.
Qed.

(** An arithmetic shift fills with the sign. *)
Lemma ashr_fill w x s :
  inrange w x -> 0 < s -> s < w ->
  c_bin AShr w x s = if x <? 2 ^ (w - 1) then c_bin LShr w x s else cat (w - s) (2 ^ s - 1) (ext s (w - s) x).
Proof.
  intros Hr Hs Hsw. rewrite lshr_ext by (done || lia). cbn. rewrite swrap_cases by done. destruct Hr as [Hw Hx].
  pose proof (pow2_pos s ltac:(lia)) as Ps. pose proof (pow2_pos (w - s) ltac:(lia)) as Pw.
  assert (2 ^ w = 2 ^ s * 2 ^ (w - s)) as E by (rewrite <- Z.pow_add_r by lia; f_equal; lia).
  assert (0 <= x / 2 ^ s < 2 ^ (w - s)) as Hq by (split; [apply Z.div_pos; lia|apply Z.div_lt_upper_bound; nia]).
  rewrite !Z.shiftr_div_pow2 by lia. destruct (x <? 2 ^ (w - 1)); [apply Z.mod_small; nia|]. unfold cat.
  replace (x - 2 ^ w) with (x + (- 2 ^ (w - s)) * 2 ^ s) by nia. rewrite Z.div_add by lia.
  replace (x / 2 ^ s + - 2 ^ (w - s)) with ((2 ^ s - 1) * 2 ^ (w - s) + x / 2 ^ s + (-1) * 2 ^ w) by nia.
  rewrite Z.mod_add by nia. apply Z.mod_small. nia.
Qed.

Lemma ashr_big w x s : inrange w x -> w - 1 <= s -> 0 < s -> c_bin AShr w x s = if x <? 2 ^ (w - 1) then 0 else 2 ^ w - 1.
Proof.
  intros Hr Hs Hp. cbn. rewrite swrap_cases by done. destruct Hr as [Hw Hx]. rewrite Z.shiftr_div_pow2 by lia.
  assert (2 ^ w = 2 * 2 ^ (w - 1)) as E by (replace w with (w - 1 + 1) at 1 by lia; rewrite Z.pow_add_r by lia; lia).
  assert (2 ^ (w - 1) <= 2 ^ s) by (apply Z.pow_le_mono_r; lia). pose proof (pow2_pos (w - 1) ltac:(lia)).
  destruct (Z.ltb_spec x (2 ^ (w - 1))); [by rewrite Z.div_small by lia|].
  rewrite <- (Z.div_unique_pos (x - 2 ^ w) (2 ^ s) (-1) (x - 2 ^ w + 2 ^ s)) by lia.
  symmetry. apply (Z.mod_unique_pos _ _ (-1)); lia.
Qed.

(** ** Terms of the builder *)

Section terms.
Context `{L : VCLaws}.
Implicit Types (rho : assignment) (a b : vcexpr).

(** A term of [w] bits. *)
Definition bvd rho a (w x : Z) : Prop := denote rho a = Some (VBV w x) /\ inrange w x.
Definition boold rho a (x : bool) : Prop := denote rho a = Some (VBool x).

Lemma bvConst32_ok rho w v : 0 < w -> 0 <= v < 2 ^ 32 -> bvd rho (bvConst32 w v) w (v mod 2 ^ w).
Proof. intros Hw Hv. unfold bvConst32. rewrite u32_small by done. split; [by apply int_law|by apply inrange_mod]. Qed.

Lemma bvConst64_ok rho w v : 0 < w -> 0 <= v < 2 ^ 64 -> bvd rho (bvConst64 w v) w (v mod 2 ^ w).
Proof. intros Hw Hv. unfold bvConst64, u64. rewrite Z.mod_small by done. split; [by apply ll_law|by apply inrange_mod]. Qed.

Lemma bvZero_ok rho w : 0 < w -> bvd rho (bvZero w) w 0.
Proof. intros Hw. by apply (bvConst32_ok rho w 0). Qed.

Lemma bvOne_ok rho w : 0 < w -> bvd rho (bvOne w) w 1.
Proof.
  intros Hw. pose proof (bvConst32_ok rho w 1 Hw ltac:(lia)) as H1. rewrite Z.mod_small in H1; [done|]. split; [lia|]. apply Z.pow_gt_1; lia.
Qed.

Lemma bvMinusOne_ok rho w : 0 < w <= 64 -> bvd rho (bvMinusOne w) w (2 ^ w - 1).
Proof.
  intros Hw. unfold bvMinusOne, bvConst64. pose proof (pow2_pos w ltac:(lia)) as Pw. assert (u64 (-1) mod 2 ^ w = 2 ^ w - 1) as E.
  { unfold u64. change (-1 mod 2 ^ 64) with (2 ^ 64 - 1). replace (2 ^ 64 - 1) with (2 ^ w - 1 + (2 ^ (64 - w) - 1) * 2 ^ w).
    - rewrite Z.mod_add, Z.mod_small by lia. done.
    - assert (2 ^ 64 = 2 ^ (64 - w) * 2 ^ w) by (rewrite <- Z.pow_add_r by lia; f_equal; lia). lia. }
  split; [rewrite <- E; apply ll_law; lia|split; lia].
Qed.

Lemma concat_ok rho a b wa wb x y : bvd rho a wa x -> bvd rho b wb y -> bvd rho (vc_bvConcatExpr a b) (wa + wb) (cat wb x y).
Proof. intros [Ha Ra] [Hb Rb]. split; [by apply concat_law|by apply cat_range]. Qed.

Lemma concat_width rho a b wa wb w x y :
  wa + wb = w -> bvd rho a wa x -> bvd rho b wb y -> bvd rho (vc_bvConcatExpr a b) w (cat wb x y).
Proof. intros <-. apply concat_ok. Qed.

Lemma extract_ok rho a w x hi lo :
  bvd rho a w x -> 0 <= lo <= hi -> hi < w -> bvd rho (vc_bvExtract a hi lo) (hi - lo + 1) (ext lo (hi - lo + 1) x).
Proof. intros [Ha Ra] Hl Hh. split; [by apply (extract_law _ _ w)|apply ext_range; lia]. Qed.

Lemma boolExtract_ok rho a w x bit : bvd rho a w x -> 0 <= bit < w -> boold rho (bvBoolExtract a bit) (ext bit 1 x =? 1).
Proof.
  intros Ha Hb. destruct (extract_ok rho a w x bit bit Ha) as [He _]; [lia..|]. replace (bit - bit + 1) with 1 in He by lia.
  destruct (bvOne_ok rho 1) as [H1 _]; [lia|]. by destruct (compare_law rho _ _ 1 _ _ He H1) as [Hc _].
Qed.

Lemma ite_bv_ok rho c t f (b : bool) w x y :
  boold rho c b -> bvd rho t w x -> bvd rho f w y -> bvd rho (vc_iteExpr c t f) w (if b then x else y).
Proof.
  intros Hc [Ht Rt] [Hf Rf]. split; [|by destruct b]. unfold boold in Hc. rewrite (ite_law _ _ _ _ _ _ _ Hc Ht Hf) by done. by destruct b.
Qed.

Lemma bv_length rho a w x : bvd rho a w x -> vc_getBVLength a = w.
Proof. intros [Ha _]. by apply (length_law rho _ _ x). Qed.

(** Shifts by a constant that the mask keeps. *)
Lemma leftShift_ok rho a w x amount sb :
  bvd rho a w x -> 0 <= sb -> 0 <= amount < 2 ^ sb -> amount < 2 ^ 32 -> bvd rho (bvLeftShiftByConstant a amount sb) w (c_bin Shl w x amount).
Proof.
  intros Ha Hsb Hm H32. unfold bvLeftShiftByConstant. rewrite (bv_length _ _ _ _ Ha), mask_mod, (Z.mod_small amount) by done. pose proof (proj2 Ha) as Hr.
  pose proof (proj1 Hr) as Hw. destruct (Z.eqb_spec amount 0) as [->|]; [cbn; rewrite Z.shiftl_0_r, Z.mod_small by apply Hr; done|].
  destruct (Z.leb_spec w amount); [rewrite shl_big by lia; by apply bvZero_ok|].
  rewrite <- shl_cat by (done || lia).
  apply (concat_width _ _ _ (w - amount)); [lia| |apply bvZero_ok; lia]. pose proof (extract_ok rho a w x (w - amount - 1) 0 Ha ltac:(lia) ltac:(lia)) as He.
  by replace (w - amount - 1 - 0 + 1) with (w - amount) in He by lia.
Qed.

Lemma rightShift_ok rho a w x amount sb :
  bvd rho a w x -> 0 <= sb -> 0 <= amount < 2 ^ sb -> amount < 2 ^ 32 -> bvd rho (bvRightShiftByConstant a amount sb) w (c_bin LShr w x amount).
Proof.
  intros Ha Hsb Hm H32. unfold bvRightShiftByConstant. rewrite (bv_length _ _ _ _ Ha), mask_mod, (Z.mod_small amount) by done. pose proof (proj2 Ha) as Hr.
  pose proof (proj1 Hr) as Hw. destruct (Z.eqb_spec amount 0) as [->|]; [done|].
  destruct (Z.leb_spec w amount); [rewrite shr_big by (done || lia); by apply bvZero_ok|].
  rewrite <- lshr_ext by (done || lia). rewrite <- (cat_zero (w - amount)).
  apply (concat_width _ _ _ amount); [lia|apply bvZero_ok; lia|]. pose proof (extract_ok rho a w x (w - 1) amount Ha ltac:(lia) ltac:(lia)) as He.
  by replace (w - 1 - amount + 1) with (w - amount) in He by lia.
Qed.

Lemma arithRightShift_ok rho a w x amount sb :
  bvd rho a w x -> 0 <= sb <= 6 -> 0 <= amount < 2 ^ sb ->
  bvd rho (bvArithRightShiftByConstant a amount (bvBoolExtract a (w - 1)) sb) w (c_bin AShr w x amount).
Proof.
  intros Ha Hsb Hm. unfold bvArithRightShiftByConstant. rewrite (bv_length _ _ _ _ Ha), mask_mod, (Z.mod_small amount) by lia. pose proof (proj2 Ha) as Hr.
  pose proof (proj1 Hr) as Hw. assert (2 ^ sb <= 2 ^ 6) by (apply Z.pow_le_mono_r; lia).
  destruct (Z.eqb_spec amount 0) as [->|]; [cbn; rewrite Z.shiftr_0_r, swrap_mod, Z.mod_small by (lia || apply Hr); done|].
  assert (boold rho (bvBoolExtract a (w - 1)) (negb (x <? 2 ^ (w - 1)))) as Hs.
  { pose proof (boolExtract_ok rho a w x (w - 1) Ha ltac:(lia)) as Hb. rewrite sign_ext in Hb by done. by destruct (x <? 2 ^ (w - 1)). }
  destruct (Z.leb_spec (w - 1) amount).
  - rewrite ashr_big by (done || lia). replace (if x <? 2 ^ (w - 1) then 0 else 2 ^ w - 1) with (if negb (x <? 2 ^ (w - 1)) then 2 ^ w - 1 else 0) by (by destruct (x <? _)).
    apply ite_bv_ok; [done|apply bvMinusOne_ok; lia|by apply bvZero_ok].
  - rewrite ashr_fill by (done || lia).
    replace (if x <? 2 ^ (w - 1) then c_bin LShr w x amount else cat (w - amount) (2 ^ amount - 1) (ext amount (w - amount) x))
      with (if negb (x <? 2 ^ (w - 1)) then cat (w - amount) (2 ^ amount - 1) (ext amount (w - amount) x) else c_bin LShr w x amount) by (by destruct (x <? _)).
    apply ite_bv_ok; [done| |apply rightShift_ok; try done; lia].
    apply (concat_width _ _ _ amount); [lia|apply bvMinusOne_ok; lia|]. pose proof (extract_ok rho a w x (w - 1) amount Ha ltac:(lia) ltac:(lia)) as He.
    by replace (w - 1 - amount + 1) with (w - amount) in He by lia.
Qed.

(** *** Products *)

(** What is left of [n] above its lowest [j] bits. *)
Definition above (n j : Z) : Z := n - n mod 2 ^ j.

Lemma above_step n j : 0 <= j -> above n j = above n (j + 1) + (if Z.testbit n j then 2 ^ j else 0).
Proof.
  intros Hj. unfold above. pose proof (Z.testbit_spec' n j Hj) as Ht. assert (n mod 2 ^ (j + 1) = n mod 2 ^ j + (if Z.testbit n j then 2 ^ j else 0)) as E; [|lia].
  pose proof (pow2_pos j Hj). rewrite Z.pow_add_r, (Z.rem_mul_r n (2 ^ j) (2 ^ 1)) by lia. change (2 ^ 1) with 2. rewrite <- Ht. destruct (Z.testbit n j); cbn [Z.b2z]; lia.
Qed.

Lemma truncate_mod x w : 0 < w <= 64 -> truncateToNBits x w = x mod 2 ^ w.
Proof.
  intros Hw. unfold truncateToNBits. change (u64 (-1)) with (2 ^ 64 - 1). rewrite Z.sub_1_r, <- Z.ones_equiv. rewrite Z.shiftr_div_pow2, Z.ones_div_pow2 by lia.
  replace (64 - (64 - w)) with w by lia. apply Z.land_ones. lia.
Qed.

Section products.
Variables (a : vcexpr) (w add sub : Z).
Hypothesis Hw : 0 < w <= 64.
Hypothesis Hadd : 0 <= add < 2 ^ w.
Hypothesis Hsub : 0 <= sub < 2 ^ w.
Hypothesis Hdisj : Z.land add sub = 0.

(** The sum of the bits from [j] on. *)
Definition partial (res : option vcexpr) (j : Z) : Prop :=
  match res with
  | None => above add j = 0 /\ above sub j = 0
  | Some r => forall rho x, bvd rho a w x -> bvd rho r w ((x * (above add j - above sub j)) mod 2 ^ w)
  end.

Lemma bit_below n j : 0 <= n < 2 ^ w -> 0 <= j -> Z.testbit n j = true -> j < 2 ^ getShiftBits w.
Proof.
  intros Hn Hj Ht. destruct (Z.lt_ge_cases j w) as [Hlt|Hge]; [|rewrite (testbit_inrange w) in Ht by first [lia|split; lia]; done].
  unfold getShiftBits. destruct (Z.ltb_spec 32 w); [change (2 ^ 6) with 64|change (2 ^ 5) with 32]; lia.
Qed.

Lemma shiftBits_range : 0 <= getShiftBits w <= 6.
Proof. unfold getShiftBits. destruct (32 <? w); lia. Qed.

Lemma partial_step res j sum (op : option vcexpr -> vcexpr) :
  partial res (j + 1) -> 0 <= j -> above add j - above sub j = above add (j + 1) - above sub (j + 1) + sum ->
  (forall rho x r, bvd rho a w x -> res = Some r -> forall y, bvd rho r w y -> bvd rho (op res) w ((y + x * sum) mod 2 ^ w)) ->
  (forall rho x, bvd rho a w x -> res = None -> bvd rho (op res) w ((x * sum) mod 2 ^ w)) ->
  partial (Some (op res)) j.
Proof.
  intros Hp Hj Hs H1 H2 rho x Hx. rewrite Hs. destruct res as [r|].
  - cbn [partial] in Hp. specialize (Hp rho x Hx). pose proof (H1 rho x r Hx eq_refl _ Hp) as Hr'. replace ((x * (above add (j + 1) - above sub (j + 1) + sum)) mod 2 ^ w)
      with (((x * (above add (j + 1) - above sub (j + 1))) mod 2 ^ w + x * sum) mod 2 ^ w); [done|]. rewrite Zplus_mod_idemp_l. f_equal. lia.
  - destruct Hp as [-> ->]. by apply H2.
Qed.

Lemma shifted rho x j : bvd rho a w x -> 0 <= j < 2 ^ getShiftBits w -> bvd rho (bvLeftShiftByConstant a j (getShiftBits w)) w ((x * 2 ^ j) mod 2 ^ w).
Proof.
  intros Hx Hj. pose proof shiftBits_range. assert (2 ^ getShiftBits w <= 2 ^ 6) by (apply Z.pow_le_mono_r; lia).
  pose proof (leftShift_ok rho a w x j (getShiftBits w) Hx ltac:(lia) Hj ltac:(lia)) as Hls. cbn [c_bin] in Hls. by rewrite Z.shiftl_mul_pow2 in Hls by lia.
Qed.

Lemma mul_bits_ok j res :
  partial res (Z.of_nat j) -> exists res', mul_bits a w (getShiftBits w) add sub j res = Some res' /\ partial res' 0.
Proof.
  revert res. induction j as [|j IH]; intros res Hp; [by exists res|]. cbn [mul_bits]. replace (Z.of_nat (S j)) with (Z.of_nat j + 1) in Hp by lia.
  set (k := Z.of_nat j) in *. assert (0 <= k) as Hk by lia. rewrite !land_pow2 by done. pose proof (above_step add k Hk) as Ea. pose proof (above_step sub k Hk) as Es.
  pose proof (pow2_pos k Hk) as Pk. assert (Z.testbit add k && Z.testbit sub k = false) as Hd by (by rewrite <- Z.land_spec, Hdisj, Z.bits_0).
  destruct (Z.testbit add k) eqn:Ta, (Z.testbit sub k) eqn:Ts; try done; rewrite ?(proj2 (Z.eqb_neq (2 ^ k) 0)) by lia; cbn [Z.eqb negb orb andb].
  - pose proof (bit_below add k Hadd Hk Ta) as Hb. apply IH. apply (partial_step res k (2 ^ k) (fun res => match res with Some r => vc_bvPlusExpr w r _ | None => _ end)); [done|done|lia| |].
    + intros rho x r Hx -> y [Hy Ry]. destruct (shifted rho x k Hx ltac:(lia)) as [H1 _]. destruct (arith_law rho w _ _ _ _ Hy H1) as (H2 & _). split; [|apply inrange_mod; lia].
      rewrite H2. cbn [c_bin]. by rewrite Zplus_mod_idemp_r.
    + intros rho x Hx ->. apply shifted; [done|lia].
  - pose proof (bit_below sub k Hsub Hk Ts) as Hb. apply IH. apply (partial_step res k (- 2 ^ k) (fun res => match res with Some r => vc_bvMinusExpr w r _ | None => vc_bvUMinusExpr _ end)); [done|done|lia| |].
    + intros rho x r Hx -> y [Hy Ry]. destruct (shifted rho x k Hx ltac:(lia)) as [H1 _]. destruct (arith_law rho w _ _ _ _ Hy H1) as (_ & H2 & _). split; [|apply inrange_mod; lia].
      rewrite H2. cbn [c_bin]. rewrite Zminus_mod_idemp_r. do 3 f_equal. lia.
    + intros rho x Hx ->. destruct (shifted rho x k Hx ltac:(lia)) as [H1 _]. split; [|apply inrange_mod; lia]. rewrite (uminus_law _ _ _ _ H1). do 2 f_equal.
      rewrite <- (Z.sub_0_l ((x * 2 ^ k) mod 2 ^ w)), Zminus_mod_idemp_r. f_equal. lia.
  - apply IH. rewrite Z.add_0_r in Ea, Es. unfold partial in *. by rewrite Ea, Es.
Qed.

End products.

Lemma trunc_disjoint x y w : 0 <= w -> Z.land x y = 0 -> Z.land (x mod 2 ^ w) (y mod 2 ^ w) = 0.
Proof.
  intros Hw Hd. apply Z.bits_inj'. intros i Hi. rewrite Z.land_spec, !Z.testbit_mod_pow2, Z.bits_0 by lia. destruct (i <? w); [|done].
  cbn. by rewrite <- Z.land_spec, Hd, Z.bits_0.
Qed.

Lemma above_small n w j : 0 <= w <= j -> 0 <= n < 2 ^ w -> above n j = 0.
Proof. intros Hw Hn. unfold above. rewrite Z.mod_small; [lia|]. assert (2 ^ w <= 2 ^ j) by (apply Z.pow_le_mono_r; lia). lia. Qed.

Lemma above_0 n : above n 0 = n.
Proof. unfold above. change (2 ^ 0) with 1. rewrite Z.mod_1_r. lia. Qed.

(** Equal modulo [2 ^ 64], so modulo a smaller power. *)
Lemma trunc_difference x add sub c w :
  0 <= w <= 64 -> u64 (add - sub) = c -> (x * (add mod 2 ^ w - sub mod 2 ^ w)) mod 2 ^ w = (c * x) mod 2 ^ w.
Proof.
  intros Hw Hv. pose proof (pow2_pos w ltac:(lia)) as Pw. assert (exists q, add - sub = c + q * 2 ^ w) as [q Hq].
  { exists ((add - sub) / 2 ^ 64 * 2 ^ (64 - w)). pose proof (Z.div_mod (add - sub) (2 ^ 64) ltac:(lia)) as Ed. unfold u64 in Hv.
    assert (2 ^ 64 = 2 ^ (64 - w) * 2 ^ w) as E64 by (rewrite <- Z.pow_add_r by lia; f_equal; lia). rewrite <- Z.mul_assoc, <- E64. lia. }
  rewrite <- Zmult_mod_idemp_r, <- Zminus_mod, Zmult_mod_idemp_r, Hq. replace (x * (c + q * 2 ^ w)) with (c * x + x * q * 2 ^ w) by lia. apply Z.mod_add. lia.
Qed.

Lemma mul_term_ok a w c add sub :
  0 < w <= 64 -> Z.land add sub = 0 -> u64 (add - sub) = c ->
  exists r, mul_term a w (add, sub) = Some r /\ forall rho x, bvd rho a w x -> bvd rho r w ((c * x) mod 2 ^ w).
Proof.
  intros Hw Hd Hv. pose proof (pow2_pos w ltac:(lia)) as Pw. pose proof (trunc_disjoint add sub w ltac:(lia) Hd) as Hd'.
  pose proof (fun x => trunc_difference x add sub c w ltac:(lia) Hv) as Hm. unfold mul_term. rewrite !truncate_mod by done.
  pose proof (Z.mod_pos_bound add _ Pw) as Ra. pose proof (Z.mod_pos_bound sub _ Pw) as Rs.
  destruct (mul_bits_ok a w (add mod 2 ^ w) (sub mod 2 ^ w) Hw Ra Rs Hd' 64 None) as (res & E & Hp); [split; apply (above_small _ w); lia|]. rewrite E.
  exists (match res with Some r => r | None => bvZero w end). split; [reflexivity|]. intros rho x Hx. rewrite <- Hm. destruct res as [r|]; cbn [partial] in Hp; rewrite !above_0 in Hp; [by apply Hp|].
  destruct Hp as [-> ->]. rewrite Z.sub_0_r, Z.mul_0_r, Z.mod_0_l by lia. apply bvZero_ok. lia.
Qed.

Lemma mulByConstant_ok a w c :
  0 < w <= 64 -> 0 <= c < 2 ^ 64 ->
  exists r, constructMulByConstant a w c = Some r /\ forall rho x, bvd rho a w x -> bvd rho r w ((c * x) mod 2 ^ w).
Proof.
  intros Hw Hc. destruct (ComputeMultConstants64_ok c Hc) as (add & sub & E & _ & _ & Hd & Hv). unfold constructMulByConstant. rewrite E. by apply mul_term_ok.
Qed.

(** *** Quotients *)

Lemma rightShift_bv rho a b w x y : bvd rho a w x -> bvd rho b w y -> bvd rho (bvRightShift a b w) w (Z.shiftr x y).
Proof.
  intros [Ha Ra] [Hb Rb]. destruct (arith_law rho w _ _ _ _ Ha Hb) as (_ & _ & _ & _ & _ & _ & _ & H1 & _). split; [exact H1|by apply (c_bin_range LShr)].
Qed.

Lemma udivByConstant_ok a d :
  0 < d < 2 ^ 32 -> exists r, constructUDivByConstant a 32 d = Some r /\ forall rho n, bvd rho a 32 n -> bvd rho r 32 (n / d).
Proof.
  intros Hd. destruct (ComputeUDivConstants32_value d Hd) as (E & _ & Hm). set (m := 2 ^ 32 * (2 ^ Z.log2_up d - d) / d + 1) in *.
  set (sh1 := Z.min _ _) in E. set (sh2 := Z.max _ _) in E. unfold constructUDivByConstant. rewrite u32_small, E by lia. cbn [Z.eqb Pos.eqb negb mbind option_bind].
  destruct (mulByConstant_ok (vc_bvConcatExpr (bvZero 32) a) 64 m) as (t & -> & Ht); [lia..|]. cbn [mbind option_bind]. eexists. split; [done|]. intros rho n Hn.
  pose proof (proj2 Hn) as [_ Rn]. destruct (udiv_exact n d ltac:(lia) Hd) as (m' & s1 & s2 & E' & Rm & R1 & R2 & Rt & Rs & Hq). rewrite E in E'. injection E' as <- <- <-.
  assert (bvd rho (vc_bvConcatExpr (bvZero 32) a) 64 n) as H64.
  { rewrite <- (cat_zero 32 n). apply (concat_ok rho (bvZero 32) a 32 32); [by apply bvZero_ok|done]. }
  apply Ht in H64. rewrite Z.mod_small in H64 by nia. apply (extract_ok _ _ _ _ 63 32) in H64; [|lia..]. change (63 - 32 + 1) with 32 in H64.
  assert (ext 32 32 (m * n) = m * n / 2 ^ 32) as Eh by (unfold ext; apply Z.mod_small; lia). rewrite Eh in H64. set (t1 := m * n / 2 ^ 32) in *.
  destruct (arith_law rho 32 _ _ _ _ (proj1 Hn) (proj1 H64)) as (_ & Hsub & _). cbn [c_bin] in Hsub. rewrite Z.mod_small in Hsub by lia.
  assert (forall sh, 0 <= sh <= 31 -> bvd rho (bvConst32 32 sh) 32 sh) as Hsh.
  { intros sh Hsh. pose proof (bvConst32_ok rho 32 sh ltac:(lia) ltac:(lia)) as H0. by rewrite Z.mod_small in H0 by lia. }
  assert (bvd rho (bvRightShift (vc_bvMinusExpr 32 a (vc_bvExtract t 63 32)) (bvConst32 32 sh1) 32) 32 ((n - t1) / 2 ^ sh1)) as H1.
  { rewrite <- Z.shiftr_div_pow2 by lia. apply rightShift_bv; [|apply Hsh; lia]. split; [done|split; lia]. }
  destruct (arith_law rho 32 _ _ _ _ (proj1 H1) (proj1 H64)) as (Hadd & _). cbn [c_bin] in Hadd. pose proof (proj2 (proj2 H1)) as R. rewrite Z.mod_small in Hadd by lia.
  rewrite <- Hq, <- Z.shiftr_div_pow2 by lia. apply rightShift_bv; [|apply Hsh; lia]. split; [done|split; lia].
Qed.

Lemma isPowerOfTwo_ok d : 0 <= d < 2 ^ 64 -> isPowerOfTwo d = true -> exists k, 0 <= k < 64 /\ d = 2 ^ k /\ indexOfSingleBit d = k.
Proof.
  intros Hd. unfold isPowerOfTwo. destruct (Z.eqb_spec d 0) as [|Hne]; [done|]. unfold u64. rewrite (Z.mod_small (d - 1)), Z.eqb_eq by lia. intros Hl.
  assert (0 <= Z.log2 d < 64) as Hk by (split; [apply Z.log2_nonneg|apply Z.log2_lt_pow2; lia]). exists (Z.log2 d). split; [done|].
  pose proof (Z.log2_spec d ltac:(lia)) as Hs. rewrite <- Z.add_1_r in Hs. assert (d = 2 ^ Z.log2 d) as E; [|split; [done|]; rewrite E at 1; by apply indexOfSingleBit_pow2].
  destruct (Z.eq_dec d (2 ^ Z.log2 d)) as [|Hn]; [done|]. exfalso. pose proof (high_bit (Z.log2 d) d ltac:(lia) Hs) as B1. pose proof (high_bit (Z.log2 d) (d - 1) ltac:(lia) ltac:(lia)) as B2.
  assert (Z.testbit (Z.land d (d - 1)) (Z.log2 d) = true) as B by (by rewrite Z.land_spec, B1, B2). by rewrite Hl, Z.bits_0 in B.
Qed.

End terms.
