(* ===== verification/StpConstruct.v ===== *)
(** * The builder preserves meaning ([lib/Solver/STPBuilder.cpp])

    [encodable] says which expressions the builder can translate: it collects the
    assertions of [constructActual] and the widths that the terms need.  Under the
    laws of the solver library, [construct] then always gives a term of the width
    of the expression, and the term has the value of the expression whenever no
    division by zero takes part in it. *)

From stdpp Require Import base list.
From Stdlib Require Import ZArith Lia.
From S2P Require Import Prelude BitVec Expr ConstDiv Constraints Solver Stp StpSound.

(** ** What can be translated *)

Definition small_array (a : array) : bool :=
  match a with Symbolic _ => true | ConstantInitialValues vs => Z.of_nat (length vs) <=? 2 ^ 32 end.

Definition bin_ok (k : binkind) (w : Z) (r : expr) : bool :=
  match k with
  | And | Or | Xor => true
  | Shl | LShr | AShr => negb (w =? 1) && match constant_of r with Some (_, v) => v <? 2 ^ getShiftBits w | None => true end
  | UDiv | URem => negb (w =? 1) && match constant_of r with Some (_, d) => negb (d =? 0) | None => true end
  | _ => negb (w =? 1)
  end.

Definition cmp_ok (k : cmpkind) (w : Z) : bool :=
  match k with Eq => true | Ult | Ule | Slt | Sle => negb (w =? 1) | _ => false end.

Fixpoint encodable (e : expr) : bool :=
  match e with
  | Constant w _ => (w <=? 64) || (w mod 64 =? 0)
  | NotOptimized src => encodable src
  | Read root head index => small_array root && encodable_updates head && encodable index
  | Select c t f => encodable c && encodable t && encodable f
  | Concat l r => encodable l && encodable r && negb (getWidth l =? 1) && negb (getWidth r =? 1)
  | Extract src _ _ => encodable src && negb (getWidth src =? 1)
  | ZExt src w => encodable src && (getWidth src <? w)
  | SExt src w => encodable src && (getWidth src <? w) && (negb (getWidth src =? 1) || (w <=? 64))
  | Not src => encodable src
  | Bin k l r => encodable l && encodable r && bin_ok k (getWidth l) r
  | Cmp k l r => encodable l && encodable r && cmp_ok k (getWidth l)
  | Implies l r => encodable l && encodable r
  end
with encodable_updates (u : updates) : bool :=
  match u with
  | UNull => true
  | USingle g i v next => encodable g && encodable i && encodable v && encodable_updates next
  | UMulti g src next => encodable g && small_array src && encodable_updates next
  end.

(** No division by zero takes part in the value. *)
Fixpoint defined (rho : assignment) (e : expr) : Prop :=
  match e with
  | Constant _ _ => True
  | NotOptimized src | Extract src _ _ | ZExt src _ | SExt src _ | Not src => defined rho src
  | Read _ head index => defined_updates rho head /\ defined rho index
  | Select c t f => defined rho c /\ (if eval rho c =? 0 then defined rho f else defined rho t)
  | Bin (UDiv | SDiv | URem | SRem) l r => defined rho l /\ defined rho r /\ eval rho r <> 0
  | Concat l r | Bin _ l r | Cmp _ l r | Implies l r => defined rho l /\ defined rho r
  end
with defined_updates (rho : assignment) (u : updates) : Prop :=
  match u with
  | UNull => True
  | USingle g i v next => defined rho g /\ defined rho i /\ defined rho v /\ defined_updates rho next
  | UMulti g _ next => defined rho g /\ defined_updates rho next
  end.

Section means.
Context `{L : VCLaws}.
Implicit Types (rho : assignment).

(** A term for a value of [w] bits: a formula when [w] is one. *)
Definition termd rho r (w x : Z) : Prop := inrange w x /\ if w =? 1 then boold rho r (x =? 1) else bvd rho r w x.

Lemma termd_bv rho r w x : w <> 1 -> termd rho r w x <-> bvd rho r w x.
Proof. intros Hw. unfold termd. rewrite (proj2 (Z.eqb_neq w 1)) by done. split; [by intros [_ ?]|]. intros Hb. split; [apply Hb|done]. Qed.

Lemma termd_bool rho r x : inrange 1 x -> boold rho r (x =? 1) -> termd rho r 1 x.
Proof. by split. Qed.

Lemma termd_of_bool rho r (b : bool) : boold rho r b -> termd rho r 1 (Z_of_bool b).
Proof. intros Hb. split; [apply inrange_bool|]. by destruct b. Qed.

Lemma termd_range rho r w x : termd rho r w x -> inrange w x.
Proof. by intros [? _]. Qed.

Lemma termd_ite rho c t f (b : bool) w x y : boold rho c b -> termd rho t w x -> termd rho f w y -> termd rho (vc_iteExpr c t f) w (if b then x else y).
Proof.
  intros Hc [Rt Ht] [Rf Hf]. split; [by destruct b|]. destruct (w =? 1); [|by apply ite_bv_ok]. unfold boold in *. rewrite (ite_law _ _ _ _ _ _ _ Hc Ht Hf) by done. by destruct b.
Qed.

Definition means r (e : expr) : Prop := forall rho, exists x, termd rho r (getWidth e) x /\ (defined rho e -> x = eval rho e).

Definition array_means r (P : assignment -> Prop) (f : assignment -> Z -> Z) : Prop :=
  forall rho, exists g, denote rho r = Some (VArray g) /\ forall i, 0 <= i < 2 ^ 32 -> inrange 8 (g i) /\ (P rho -> g i = f rho i).

(** ** Constants *)

Lemma c_extract_low w v : 64 <= w -> c_extract w 0 64 v = v mod 2 ^ 64.
Proof.
  intros Hw. unfold c_extract, zextOrTrunc. rewrite Z.shiftr_0_r. pose proof (swrap_mod w v ltac:(lia)) as Es. apply (f_equal (fun z => z mod 2 ^ 64)) in Es.
  assert (forall z, (z mod 2 ^ w) mod 2 ^ 64 = z mod 2 ^ 64) as Hmm; [|by rewrite !Hmm in Es].
  intros z. replace (2 ^ w) with (2 ^ 64 * 2 ^ (w - 64)) by (rewrite <- Z.pow_add_r by lia; f_equal; lia).
  rewrite Z.rem_mul_r by (try apply pow2_pos; lia). rewrite (Z.mul_comm (2 ^ 64)), Z.mod_add, Z.mod_mod by lia. done.
Qed.

Lemma wide_constant_ok rho v w : forall i k tmp res,
  0 <= v -> w = 64 * Z.of_nat (k + i) -> (0 < k)%nat -> tmp = v / 2 ^ (64 * Z.of_nat (k - 1)) ->
  bvd rho res (64 * Z.of_nat k) (v mod 2 ^ (64 * Z.of_nat k)) ->
  bvd rho (wide_constant w tmp res i) w (v mod 2 ^ w).
Proof.
  induction i as [|i IH]; intros k tmp res Hv Hw Hk Ht Hr; cbn [wide_constant]; [replace (k + 0)%nat with k in Hw by lia; by rewrite Hw|].
  apply (IH (S k)); [done|lia|lia| |].
  - cbn [c_bin]. rewrite Ht, Z.shiftr_div_pow2, Z.div_div by (try apply pow2_pos; lia). rewrite <- Z.pow_add_r by lia. do 2 f_equal. lia.
  - cbn [c_bin]. rewrite Ht, Z.shiftr_div_pow2, Z.div_div by (try apply pow2_pos; lia). rewrite <- Z.pow_add_r by lia. replace (64 * Z.of_nat (k - 1) + 64) with (64 * Z.of_nat k) by lia.
    set (n := 64 * Z.of_nat k) in *. pose proof (pow2_pos n ltac:(lia)) as Pn.
    rewrite c_extract_low by lia.
    replace (64 * Z.of_nat (S k)) with (64 + n) by lia. replace (v mod 2 ^ (64 + n)) with (cat n (v / 2 ^ n mod 2 ^ 64) (v mod 2 ^ n)).
    + apply concat_ok; [|done]. rewrite Z.min_l by lia. pose proof (Z.mod_pos_bound (v / 2 ^ n) (2 ^ 64) ltac:(lia)).
      pose proof (bvConst64_ok rho 64 (v / 2 ^ n mod 2 ^ 64) ltac:(lia) ltac:(lia)) as Hc. by rewrite Z.mod_mod in Hc by lia.
    + unfold cat. rewrite Z.add_comm, Z.pow_add_r by lia. rewrite (Z.mul_comm (2 ^ 64)). rewrite Z.rem_mul_r by lia. lia.
Qed.

Lemma constant_ok rho w v : inrange w v -> (w <=? 64) || (w mod 64 =? 0) = true -> termd rho (constructConstant w v) w v.
Proof.
  intros Hr He. pose proof Hr as [Hw Hv]. unfold constructConstant. destruct (Z.eqb_spec w 1) as [->|Hn].
  { apply termd_bool; [done|]. unfold boold. destruct (v =? 1); [apply true_law|apply false_law]. }
  apply termd_bv; [done|]. destruct (Z.leb_spec w 32).
  { assert (2 ^ w <= 2 ^ 32) by (apply Z.pow_le_mono_r; lia). pose proof (bvConst32_ok rho w v Hw ltac:(lia)) as Hc. by rewrite Z.mod_small in Hc by lia. }
  destruct (Z.leb_spec w 64).
  { assert (2 ^ w <= 2 ^ 64) by (apply Z.pow_le_mono_r; lia). pose proof (bvConst64_ok rho w v Hw ltac:(lia)) as Hc. by rewrite Z.mod_small in Hc by lia. }
  cbn in He. apply Z.eqb_eq in He. pose proof (Z.div_mod w 64 ltac:(lia)) as Ew. rewrite He in Ew.
  rewrite <- (Z.mod_small v (2 ^ w)) at 3 by done. apply (wide_constant_ok rho v w _ 1); [lia|lia|lia|by rewrite Z.div_1_r|].
  rewrite c_extract_low by lia. pose proof (Z.mod_pos_bound v (2 ^ 64) ltac:(lia)). pose proof (bvConst64_ok rho 64 (v mod 2 ^ 64) ltac:(lia) ltac:(lia)) as Hc.
  by rewrite Z.mod_mod in Hc by lia.
Qed.

(** ** One lemma per kind of expression *)

Lemma means_weaken r e e' :
  getWidth e = getWidth e' -> (forall rho, defined rho e' -> defined rho e) -> (forall rho, eval rho e' = eval rho e) -> means r e -> means r e'.
Proof. intros Hw Hd Hv Hm rho. destruct (Hm rho) as (x & Hx & Hy). exists x. rewrite <- Hw, Hv. split; [done|]. auto. Qed.

Lemma select_ok c' t' f' c t f :
  getWidth c = Bool -> getWidth t = getWidth f -> means c' c -> means t' t -> means f' f -> means (vc_iteExpr c' t' f') (Select c t f).
Proof.
  intros Wc Wt Hc Ht Hf rho. destruct (Hc rho) as (x & [Rx Tx] & Ex). destruct (Ht rho) as (y & Ty & Ey). destruct (Hf rho) as (z & Tz & Ez).
  rewrite Wc in Rx, Tx. cbn in Tx. exists (if x =? 1 then y else z). cbn [getWidth]. split; [apply termd_ite; [done|done|by rewrite Wt]|].
  cbn [defined eval]. intros [Dc D]. specialize (Ex Dc). subst x. apply inrange_1 in Rx as [E|E]; rewrite E in *; cbn in *; auto.
Qed.

Lemma concat_means l' r' l r :
  getWidth l <> 1 -> getWidth r <> 1 -> means l' l -> means r' r -> means (vc_bvConcatExpr l' r') (Concat l r).
Proof.
  intros Wl Wr Hl Hr rho. destruct (Hl rho) as (x & Tx & Ex). destruct (Hr rho) as (y & Ty & Ey). apply termd_bv in Tx, Ty; [|done..].
  pose proof (proj1 (proj2 Tx)). pose proof (proj1 (proj2 Ty)). exists (cat (getWidth r) x y). cbn [getWidth]. split; [apply termd_bv; [lia|by apply concat_ok]|].
  cbn [defined eval]. intros [Dl Dr]. by rewrite (Ex Dl), (Ey Dr).
Qed.

Lemma extract_means s' src off w :
  getWidth src <> 1 -> 0 <= off -> 0 < w -> off + w <= getWidth src -> means s' src ->
  means (if w =? 1 then bvBoolExtract s' off else vc_bvExtract s' (off + w - 1) off) (Extract src off w).
Proof.
  intros Ws Ho Hw Hle Hs rho. destruct (Hs rho) as (x & Tx & Ex). apply termd_bv in Tx; [|done]. exists (ext off w x). cbn [getWidth]. split; [|cbn; intros D; by rewrite (Ex D)].
  split; [by apply ext_range|]. destruct (Z.eqb_spec w 1) as [->|Hn]; [by apply (boolExtract_ok _ _ (getWidth src)); [|lia]|].
  pose proof (extract_ok rho s' _ x (off + w - 1) off Tx ltac:(lia) ltac:(lia)) as He. by replace (off + w - 1 - off + 1) with w in He by lia.
Qed.

Lemma zext_means s' src w :
  getWidth src < w -> means s' src ->
  means (if getWidth src =? 1 then vc_iteExpr s' (bvOne w) (bvZero w) else vc_bvConcatExpr (bvZero (w - getWidth src)) s') (ZExt src w).
Proof.
  intros Hw Hs rho. destruct (Hs rho) as (x & Tx & Ex). pose proof (termd_range _ _ _ _ Tx) as Rx. pose proof (proj1 Rx) as Pw. exists x. cbn [getWidth].
  assert (zextOrTrunc w x = x) as Ez by (apply zext_small; apply (inrange_wider (getWidth src)); [done|lia]). split; [|cbn; intros D; by rewrite <- (Ex D)].
  apply termd_bv; [lia|]. destruct (Z.eqb_spec (getWidth src) 1) as [E|Hn].
  - rewrite E in Tx, Rx. destruct Tx as [_ Tx]. cbn in Tx. pose proof (ite_bv_ok rho s' _ _ _ w 1 0 Tx (bvOne_ok rho w ltac:(lia)) (bvZero_ok rho w ltac:(lia))) as Hi.
    by apply inrange_1 in Rx as [-> | ->].
  - apply termd_bv in Tx; [|done]. rewrite <- (cat_zero (getWidth src) x). apply (concat_width _ _ _ (w - getWidth src)); [lia|apply bvZero_ok; lia|done].
Qed.

Lemma sext_means s' src w :
  getWidth src < w -> getWidth src <> 1 \/ w <= 64 -> means s' src ->
  means (if getWidth src =? 1 then vc_iteExpr s' (bvMinusOne w) (bvZero w) else vc_bvSignExtend s' w) (SExt src w).
Proof.
  intros Hw H64 Hs rho. destruct (Hs rho) as (x & Tx & Ex). pose proof (termd_range _ _ _ _ Tx) as Rx. pose proof (proj1 Rx) as Pw. exists (sextOrTrunc (getWidth src) w x).
  cbn [getWidth]. split; [|cbn; intros D; by rewrite <- (Ex D)]. apply termd_bv; [lia|]. destruct (Z.eqb_spec (getWidth src) 1) as [E|Hn].
  - rewrite E in Tx, Rx |- *. destruct Tx as [_ Tx]. cbn in Tx. pose proof (ite_bv_ok rho s' _ _ _ w _ 0 Tx (bvMinusOne_ok rho w ltac:(lia)) (bvZero_ok rho w ltac:(lia))) as Hi.
    pose proof (pow2_pos w ltac:(lia)). assert (1 < 2 ^ w) by (apply Z.pow_gt_1; lia). apply inrange_1 in Rx as [-> | ->]; [exact Hi|].
    replace (sextOrTrunc 1 w 1) with (2 ^ w - 1); [exact Hi|]. unfold sextOrTrunc. change (swrap 1 1) with (-1). apply (Z.mod_unique_pos _ _ (-1)); lia.
  - apply termd_bv in Tx; [|done]. split; [apply sext_law; [apply Tx|lia]|apply sext_range; lia].
Qed.

Lemma not_means s' src : means s' src -> means (if getWidth src =? 1 then vc_notExpr s' else vc_bvNotExpr s') (Not src).
Proof.
  intros Hs rho. destruct (Hs rho) as (x & [Rx Tx] & Ex). exists (c_not (getWidth src) x). cbn [getWidth]. split; [|cbn; intros D; by rewrite <- (Ex D)].
  split; [by apply c_not_range|]. destruct (Z.eqb_spec (getWidth src) 1) as [E|Hn].
  - rewrite E in *. apply not_law in Tx. by apply inrange_1 in Rx as [-> | ->].
  - split; [apply bvnot_law, Tx|by apply c_not_range].
Qed.

Lemma implies_means l' r' l r :
  getWidth l = Bool -> getWidth r = Bool -> means l' l -> means r' r -> means (vc_impliesExpr l' r') (Implies l r).
Proof.
  intros Wl Wr Hl Hr rho. destruct (Hl rho) as (x & [Rx Tx] & Ex). destruct (Hr rho) as (y & [Ry Ty] & Ey). rewrite Wl in Rx, Tx. rewrite Wr in Ry, Ty. cbn in Tx, Ty.
  exists (if x =? 0 then 1 else y). cbn [getWidth defined eval]. rewrite Wl. split; [|intros [Dl Dr]; by rewrite <- (Ex Dl), <- (Ey Dr)].
  pose proof (implies_law _ _ _ _ _ Tx Ty) as Hi. apply inrange_1 in Rx as [-> | ->], Ry as [-> | ->]; cbn in *; by split.
Qed.

(** Operations of two operands of [w] bits. *)
Lemma bin_means k r' l r (l' r0 : vcexpr) :
  getWidth l = getWidth r -> means l' l -> means r0 r ->
  (forall rho, defined rho (Bin k l r) -> defined rho l /\ defined rho r /\ (match k with UDiv | SDiv | URem | SRem => eval rho r <> 0 | _ => Logic.True end)) ->
  (forall rho x y, termd rho l' (getWidth l) x -> termd rho r0 (getWidth l) y ->
     exists z, termd rho r' (getWidth l) z /\ ((match k with UDiv | SDiv | URem | SRem => y <> 0 | _ => Logic.True end) -> z = c_bin k (getWidth l) x y)) ->
  means r' (Bin k l r).
Proof.
  intros Hw Hl Hr Hd Hop rho. destruct (Hl rho) as (x & Tx & Ex). destruct (Hr rho) as (y & Ty & Ey). rewrite <- Hw in Ty.
  destruct (Hop rho x y Tx Ty) as (z & Tz & Ez). exists z. cbn [getWidth eval]. split; [done|]. intros D. destruct (Hd rho D) as (Dl & Dr & Dy).
  rewrite <- (Ex Dl), <- (Ey Dr) in *. by apply Ez.
Qed.

Lemma defined_bin rho k l r :
  defined rho (Bin k l r) -> defined rho l /\ defined rho r /\ (match k with UDiv | SDiv | URem | SRem => eval rho r <> 0 | _ => Logic.True end).
Proof. destruct k; cbn; tauto. Qed.

Lemma bin_simple_ok k l' r' l r :
  (k = Add \/ k = Sub \/ k = SRem) /\ getWidth l <> 1 \/ k = And \/ k = Or \/ k = Xor -> getWidth l = getWidth r -> means l' l -> means r' r ->
  exists t, (forall s, bin_simple k (getWidth r) l' r' s = Some ((t, getWidth r), s)) /\ means t (Bin k l r).
Proof.
  intros Hk Hw Hl Hr. rewrite <- Hw. unfold bin_simple, not_bool. set (w := getWidth l) in *.
  assert (forall t, (forall rho x y, termd rho l' w x -> termd rho r' w y -> exists z, termd rho t w z /\ ((match k with UDiv | SDiv | URem | SRem => y <> 0 | _ => Logic.True end) -> z = c_bin k w x y)) ->
    means t (Bin k l r)) as Hmean by (intros t Ht; apply (bin_means k t l r l' r'); try done; intros rho; apply defined_bin).
  assert (w <> 1 -> (w =? 1) = false) as Hn by (intros; by apply Z.eqb_neq).
  assert (forall k', (k' = And \/ k' = Or \/ k' = Xor) -> forall x y, inrange 1 x -> inrange 1 y -> inrange 1 (c_bin k' 1 x y)) as R1 by (intros; by apply c_bin_range).
  destruct Hk as [[Hk Hw1]|Hk].
  - rewrite Hn by done. destruct Hk as [-> | [-> | ->]]; (eexists; split; [done|]); apply Hmean; intros rho x y Tx%termd_bv Ty%termd_bv; try done;
      pose proof (proj2 Tx) as Rx; pose proof (proj2 Ty) as Ry.
    + exists (c_bin Add w x y). split; [|done]. apply termd_bv; [done|]. split; [by apply (arith_law rho w _ _ x y (proj1 Tx) (proj1 Ty))|by apply c_bin_range].
    + exists (c_bin Sub w x y). split; [|done]. apply termd_bv; [done|]. split; [by apply (arith_law rho w _ _ x y (proj1 Tx) (proj1 Ty))|by apply c_bin_range].
    + destruct (div_law rho w _ _ x y (proj1 Tx) (proj1 Ty) Rx Ry) as (_ & _ & _ & z & Hz & Rz & Ez). exists z. split; [|done]. by apply termd_bv.
  - assert (forall t, (w = 1 -> forall rho x y, boold rho l' (x =? 1) -> boold rho r' (y =? 1) -> inrange 1 x -> inrange 1 y -> boold rho t (c_bin k 1 x y =? 1)) ->
      (w <> 1 -> forall rho x y, bvd rho l' w x -> bvd rho r' w y -> denote rho t = Some (VBV w (c_bin k w x y))) -> means t (Bin k l r)) as Hm.
    { intros t H1 H2. apply Hmean. intros rho x y Tx Ty. exists (c_bin k w x y). split; [|done]. pose proof (termd_range _ _ _ _ Tx). pose proof (termd_range _ _ _ _ Ty).
      destruct (Z.eq_dec w 1) as [E|E]; [|apply termd_bv in Tx, Ty; try done; apply termd_bv; [done|]; split; [by apply H2|by apply c_bin_range]].
      split; [by apply c_bin_range|]. rewrite E in *. apply H1; [done| | |done|done]; [apply Tx|apply Ty]. }
    destruct Hk as [-> | [-> | ->]]; (eexists; split; [done|]); apply Hm.
    + intros E rho x y Hx Hy Rx Ry. rewrite E. cbn [Z.eqb Pos.eqb]. pose proof (and_law _ _ _ _ _ Hx Hy) as Ha. by apply inrange_1 in Rx as [-> | ->], Ry as [-> | ->].
    + intros E rho x y Hx Hy. rewrite Hn by done. by apply (arith_law rho w _ _ x y (proj1 Hx) (proj1 Hy)).
    + intros E rho x y Hx Hy Rx Ry. rewrite E. cbn [Z.eqb Pos.eqb]. pose proof (or_law _ _ _ _ _ Hx Hy) as Ha. by apply inrange_1 in Rx as [-> | ->], Ry as [-> | ->].
    + intros E rho x y Hx Hy. rewrite Hn by done. by apply (arith_law rho w _ _ x y (proj1 Hx) (proj1 Hy)).
    + intros E rho x y Hx Hy Rx Ry. rewrite E. cbn [Z.eqb Pos.eqb]. pose proof (ite_law _ _ _ _ _ _ _ Hx (not_law _ _ _ Hy) Hy I) as Ha.
      by apply inrange_1 in Rx as [-> | ->], Ry as [-> | ->].
    + intros E rho x y Hx Hy. rewrite Hn by done. by apply (arith_law rho w _ _ x y (proj1 Hx) (proj1 Hy)).
Qed.

(** Operations on bit vectors: [t] computes [k]. *)
Lemma bin_bv k t l r l' r' :
  getWidth l <> 1 -> getWidth l = getWidth r -> means l' l -> means r' r ->
  (forall rho x y, bvd rho l' (getWidth l) x -> bvd rho r' (getWidth l) y ->
     exists z, bvd rho t (getWidth l) z /\ ((match k with UDiv | SDiv | URem | SRem => y <> 0 | _ => Logic.True end) -> z = c_bin k (getWidth l) x y)) ->
  means t (Bin k l r).
Proof.
  intros Hn Hw Hl Hr Hop. apply (bin_means k t l r l' r'); [done..|intros rho; apply defined_bin|]. intros rho x y Tx%termd_bv Ty%termd_bv; [|done..].
  destruct (Hop rho x y Tx Ty) as (z & Hz & Ez). exists z. split; [by apply termd_bv|done].
Qed.

Lemma plain_bin k t l r l' r' :
  getWidth l <> 1 -> getWidth l = getWidth r -> means l' l -> means r' r ->
  (forall rho w x y, denote rho l' = Some (VBV w x) -> denote rho r' = Some (VBV w y) -> w = getWidth l -> denote rho t = Some (VBV w (c_bin k w x y))) ->
  means t (Bin k l r).
Proof.
  intros Hn Hw Hl Hr Hop. apply (bin_bv k t l r l' r'); [done..|]. intros rho x y Hx Hy. exists (c_bin k (getWidth l) x y). split; [|done].
  split; [by apply Hop; [apply Hx|apply Hy|]|apply c_bin_range; [apply Hx|apply Hy]].
Qed.

Lemma div_bin k t l r l' r' :
  getWidth l <> 1 -> getWidth l = getWidth r -> means l' l -> means r' r ->
  k = UDiv /\ t = vc_bvDivExpr (getWidth l) l' r' \/ k = URem /\ t = vc_bvModExpr (getWidth l) l' r' \/ k = SDiv /\ t = vc_sbvDivExpr (getWidth l) l' r' ->
  means t (Bin k l r).
Proof.
  intros Hn Hw Hl Hr Hk. apply (bin_bv k t l r l' r'); [done..|]. intros rho x y [Hx Rx] [Hy Ry].
  destruct (div_law rho (getWidth l) _ _ x y Hx Hy Rx Ry) as ((z1 & A1 & B1 & C1) & (z2 & A2 & B2 & C2) & (z3 & A3 & B3 & C3) & _).
  destruct Hk as [[-> ->]|[[-> ->]|[-> ->]]]; [by exists z1|by exists z2|by exists z3].
Qed.

(** An operation with a constant as one operand. *)
Lemma bin_constant k t l l' w v :
  getWidth l <> 1 -> getWidth l = w -> means l' l -> (match k with UDiv | SDiv | URem | SRem => v <> 0 | _ => Logic.True end) ->
  (forall rho x, bvd rho l' w x -> bvd rho t w (c_bin k w x v)) -> means t (Bin k l (Constant w v)).
Proof.
  intros Hn Hw Hl Hk Hop rho. destruct (Hl rho) as (x & Tx & Ex). apply termd_bv in Tx; [|done]. exists (c_bin k w x v). cbn [getWidth]. rewrite Hw in *. split; [apply termd_bv; [done|by apply Hop]|].
  cbn [eval]. rewrite Hw. intros D. by rewrite <- (Ex (proj1 (defined_bin _ _ _ _ D))).
Qed.

Lemma mul_constant_ok r' r w v :
  inrange w v -> w <> 1 -> w <= 64 -> getWidth r = w -> means r' r ->
  exists t, constructMulByConstant r' w v = Some t /\ means t (Bin Mul (Constant w v) r).
Proof.
  intros [Hw Hv] Hn H64 Wr Hr. assert (2 ^ w <= 2 ^ 64) by (apply Z.pow_le_mono_r; lia). destruct (mulByConstant_ok r' w v ltac:(lia) ltac:(lia)) as (t & Et & Ht). exists t. split; [done|].
  intros rho. destruct (Hr rho) as (x & Tx & Ex). rewrite Wr in Tx. apply termd_bv in Tx; [|done]. exists ((v * x) mod 2 ^ w). cbn [getWidth]. split; [apply termd_bv; [done|by apply Ht]|].
  cbn [defined eval getWidth c_bin]. intros [_ D]. by rewrite (Ex D).
Qed.

Lemma pow2_in_range w v k : inrange w v -> 0 <= k -> v = 2 ^ k -> k < w.
Proof. intros [Hw Hv] Hk ->. apply (Z.pow_lt_mono_r_iff 2); lia. Qed.

Lemma shiftBits_bound w k : 0 <= k < w -> w <= 64 -> 0 <= k < 2 ^ getShiftBits w.
Proof. intros Hk Hw. unfold getShiftBits. destruct (Z.ltb_spec 32 w); [change (2 ^ 6) with 64|change (2 ^ 5) with 32]; lia. Qed.

Lemma udiv_constant_ok opt l' l w d :
  inrange w d -> d <> 0 -> w <> 1 -> getWidth l = w -> means l' l ->
  exists o, udiv_constant opt w w d l' = Some o /\ (forall t, o = Some t -> means t (Bin UDiv l (Constant w d))).
Proof.
  intros Hr Hd Hn Wl Hl. unfold udiv_constant. pose proof Hr as [Hw Hv]. destruct (Z.leb_spec w 64) as [H64|]; [|by exists None].
  assert (2 ^ w <= 2 ^ 64) by (apply Z.pow_le_mono_r; lia). destruct (isPowerOfTwo d) eqn:Ep.
  - destruct (isPowerOfTwo_ok d ltac:(lia) Ep) as (k & Hk & -> & ->). eexists. split; [done|]. intros t [= <-]. pose proof (pow2_in_range w _ k Hr ltac:(lia) eq_refl) as Hkw.
    apply bin_constant with l'; try done; [congruence|]. intros rho x Hx. pose proof (shiftBits_bound w k ltac:(lia) H64) as Hsb.
    pose proof (rightShift_ok rho l' w x k (getShiftBits w) Hx ltac:(unfold getShiftBits; case_match; lia) Hsb ltac:(lia)) as Hs. cbn [c_bin] in Hs |- *.
    by rewrite Z.shiftr_div_pow2 in Hs by lia.
  - destruct (opt && (w =? 32)) eqn:Eo; [|by exists None]. apply andb_true_iff in Eo as [_ ->%Z.eqb_eq]. rewrite u32_small by lia.
    destruct (udivByConstant_ok l' d ltac:(lia)) as (t & -> & Ht). eexists. split; [done|]. intros t' [= <-]. apply bin_constant with l'; try done. congruence.
Qed.

Lemma ext_low k x : 0 < k -> ext 0 k x = x mod 2 ^ k.
Proof. intros Hk. unfold ext. by rewrite Z.div_1_r. Qed.

Lemma urem_constant_ok opt l' l w d :
  inrange w d -> d <> 0 -> w <> 1 -> getWidth l = w -> means l' l ->
  exists o, urem_constant opt w w d l' = Some o /\ (forall t, o = Some t -> means t (Bin URem l (Constant w d))).
Proof.
  intros Hr Hd Hn Wl Hl. unfold urem_constant. pose proof Hr as [Hw Hv]. destruct (Z.leb_spec w 64) as [H64|]; [|by exists None].
  assert (2 ^ w <= 2 ^ 64) by (apply Z.pow_le_mono_r; lia). destruct (isPowerOfTwo d) eqn:Ep.
  - destruct (isPowerOfTwo_ok d ltac:(lia) Ep) as (k & Hk & -> & ->). eexists. split; [done|]. intros t [= <-]. pose proof (pow2_in_range w _ k Hr ltac:(lia) eq_refl) as Hkw.
    apply bin_constant with l'; try done; [congruence|]. intros rho x Hx. cbn [c_bin]. destruct (Z.eqb_spec k 0) as [->|]; [rewrite Z.mod_1_r; by apply bvZero_ok|].
    rewrite <- (ext_low k) by lia. rewrite <- (cat_zero k). apply (concat_width _ _ _ (w - k)); [lia|apply bvZero_ok; lia|].
    pose proof (extract_ok rho l' w x (k - 1) 0 Hx ltac:(lia) ltac:(lia)) as He. by replace (k - 1 - 0 + 1) with k in He by lia.
  - destruct (opt && (w =? 32)) eqn:Eo; [|by exists None]. apply andb_true_iff in Eo as [_ ->%Z.eqb_eq]. rewrite u32_small by lia.
    destruct (udivByConstant_ok l' d ltac:(lia)) as (t & -> & Ht). cbn [mbind option_bind]. destruct (mulByConstant_ok t 32 d ltac:(lia) ltac:(lia)) as (m & -> & Hm).
    eexists. split; [done|]. intros t' [= <-]. apply bin_constant with l'; try done; [congruence|]. intros rho x Hx. pose proof (Hm rho _ (Ht rho x Hx)) as Hq.
    pose proof (Z.mul_div_le x d ltac:(lia)) as Hle. pose proof (proj2 (proj2 Hx)) as Rx. assert (0 <= x / d) by (apply Z.div_pos; lia). rewrite Z.mod_small in Hq by nia.
    split; [|by apply (c_bin_range URem); [apply Hx|]]. destruct (arith_law rho 32 _ _ _ _ (proj1 Hx) (proj1 Hq)) as (_ & Hs & _). rewrite Hs. cbn [c_bin].
    rewrite Z.mod_small by nia. rewrite (Z.mod_eq x d) by lia. done.
Qed.

Lemma shift_constant_ok k l' l w v :
  k = Shl \/ k = LShr \/ k = AShr -> inrange w v -> w <> 1 -> v < 2 ^ getShiftBits w -> getWidth l = w -> means l' l ->
  means (shift_constant k w v l') (Bin k l (Constant w v)).
Proof.
  intros Hk Hr Hn Hv Wl Hl. pose proof Hr as [Hw Hv0]. assert (0 <= getShiftBits w <= 6) as Hsb by (unfold getShiftBits; case_match; lia).
  assert (2 ^ getShiftBits w <= 2 ^ 6) by (apply Z.pow_le_mono_r; lia). change (2 ^ 6) with 64 in *.
  assert (u32 (getLimitedValue v) = v) as Es by (unfold getLimitedValue; rewrite Z.min_l by lia; apply u32_small; lia).
  apply bin_constant with l'; try done; [congruence|destruct Hk as [-> | [-> | ->]]; done|]. intros rho x Hx. unfold shift_constant. rewrite Es.
  destruct Hk as [-> | [-> | ->]]; [apply leftShift_ok; (done || lia)|apply rightShift_ok; (done || lia)|apply arithRightShift_ok; (done || lia)].
Qed.

Lemma shift_variable_ok k l' r' l r :
  k = Shl \/ k = LShr \/ k = AShr -> getWidth l <> 1 -> getWidth l = getWidth r -> means l' l -> means r' r ->
  means (shift_variable k (getWidth l) l' r') (Bin k l r).
Proof.
  intros Hk Hn Hw Hl Hr. apply plain_bin with l' r'; try done. intros rho w x y Hx Hy ->. pose proof (arith_law rho (getWidth l) _ _ x y Hx Hy) as Ha.
  destruct Hk as [-> | [-> | ->]]; apply Ha.
Qed.

(** ** Comparisons *)

Lemma cmp_means k t l r l' r' :
  getWidth l = getWidth r -> means l' l -> means r' r ->
  (forall rho x y, termd rho l' (getWidth l) x -> termd rho r' (getWidth l) y -> boold rho t (c_cmp k (getWidth l) x y)) -> means t (Cmp k l r).
Proof.
  intros Hw Hl Hr Hop rho. destruct (Hl rho) as (x & Tx & Ex). destruct (Hr rho) as (y & Ty & Ey). rewrite <- Hw in Ty. exists (Z_of_bool (c_cmp k (getWidth l) x y)).
  cbn [getWidth defined eval]. split; [by apply termd_of_bool, Hop|]. intros [Dl Dr]. by rewrite <- (Ex Dl), <- (Ey Dr).
Qed.

Lemma cmp_term_ok k l' r' l r :
  k = Ult \/ k = Ule \/ k = Slt \/ k = Sle -> getWidth l <> 1 -> getWidth l = getWidth r -> means l' l -> means r' r ->
  exists t, (forall s, cmp_term k l' r' s = Some ((t, 1), s)) /\ means t (Cmp k l r).
Proof.
  intros Hk Hn Hw Hl Hr.
  assert (forall rho x y, termd rho l' (getWidth l) x -> termd rho r' (getWidth l) y ->
    denote rho l' = Some (VBV (getWidth l) x) /\ denote rho r' = Some (VBV (getWidth l) y)) as Hbv.
  { intros rho x y Tx%termd_bv Ty%termd_bv; [|done..]. split; [apply Tx|apply Ty]. }
  destruct Hk as [-> | [-> | [-> | ->]]]; (eexists; split; [done|]); apply cmp_means with l' r'; try done;
    intros rho x y Tx Ty; destruct (Hbv rho x y Tx Ty) as [Hx Hy]; by apply (compare_law rho l' r' _ x y Hx Hy).
Qed.

Lemma eq_means l' r' l r : getWidth l <> 1 -> getWidth l = getWidth r -> means l' l -> means r' r -> means (vc_eqExpr l' r') (Cmp Eq l r).
Proof.
  intros Hn Hw Hl Hr. apply cmp_means with l' r'; try done. intros rho x y Tx%termd_bv Ty%termd_bv; [|done..]. apply (compare_law rho l' r' _ x y (proj1 Tx) (proj1 Ty)).
Qed.

Lemma iff_means l' r' l r : getWidth l = 1 -> getWidth l = getWidth r -> means l' l -> means r' r -> means (vc_iffExpr l' r') (Cmp Eq l r).
Proof.
  intros Hn Hw Hl Hr. apply cmp_means with l' r'; try done. rewrite Hn. intros rho x y [Rx Tx] [Ry Ty]. pose proof (iff_law _ _ _ _ _ Tx Ty) as Hi.
  by apply inrange_1 in Rx as [-> | ->], Ry as [-> | ->].
Qed.

Lemma eq_constant_means r' r v :
  inrange 1 v -> getWidth r = 1 -> means r' r -> means (if v =? 1 then r' else vc_notExpr r') (Cmp Eq (Constant 1 v) r).
Proof.
  intros Rv Wr Hr rho. destruct (Hr rho) as (y & [Ry Ty] & Ey). rewrite Wr in Ry, Ty. cbn in Ty. exists (Z_of_bool (v =? y)). cbn [getWidth defined eval].
  split; [|intros [_ D]; by rewrite <- (Ey D)]. apply termd_of_bool. pose proof (not_law _ _ _ Ty) as Hnot. by apply inrange_1 in Rv as [-> | ->], Ry as [-> | ->].
Qed.

End means.
