(* ===== verification/StpQuery.v ===== *)
(** * Queries to the solver library ([lib/Solver/STPBuilder.cpp], [lib/Solver/Solver.cpp])

    The caches of the builder hold terms that mean what they are filed under; so
    every expression that can be translated gets a term that means it, whatever was
    translated before.  The assertions and the query that [pushQuery] builds then
    mean the constraints and the query. *)

From stdpp Require Import base list.
From Stdlib Require Import ZArith Lia.
From S2P Require Import Prelude BitVec Expr ExprCreate ExprSound ExprBits ExprVisit ConstDiv Constraints Solver Stp StpSound StpConstruct.

Section query.
Context `{L : VCLaws} (optimizeDivides : bool).
Implicit Types (rho : assignment).

(** ** Arrays *)

Definition updates_mean (r : vcexpr) (root : array) (u : updates) : Prop :=
  array_means r (fun rho => defined_updates rho u) (fun rho i => eval_updates rho u i (array_byte rho root i)).

Lemma bv_constant rho w v : inrange w v -> w <> 1 -> w <= 64 -> bvd rho (constructConstant w v) w v.
Proof. intros Hr Hn H64. apply termd_bv; [done|]. apply constant_ok; [done|]. by rewrite (proj2 (Z.leb_le w 64)). Qed.

Lemma write_values_ok rho vs : forall arr i g0,
  denote rho arr = Some (VArray g0) -> Forall (inrange 8) vs -> 0 <= i -> i + Z.of_nat (length vs) <= 2 ^ 32 ->
  exists g, denote rho (write_values arr i vs) = Some (VArray g) /\
    forall j, 0 <= j -> g j = if j <? i then g0 j else match vs !! Z.to_nat (j - i) with Some v => v | None => g0 j end.
Proof.
  induction vs as [|v vs IH]; intros arr i g0 Ha Hv Hi Hl; cbn [write_values].
  - exists g0. split; [done|]. intros j Hj. by destruct (j <? i).
  - apply Forall_cons in Hv as [Hv Hvs]. cbn in Hl. pose proof (bv_constant rho 32 i ltac:(split; lia) ltac:(lia) ltac:(lia)) as [H1 _].
    pose proof (bv_constant rho 8 v Hv ltac:(lia) ltac:(lia)) as [H2 _]. rewrite u32_small by lia.
    destruct (IH _ (i + 1) _ (write_law _ _ _ _ _ _ _ Ha H1 H2) Hvs ltac:(lia) ltac:(lia)) as (g & Eg & Hg). exists g. split; [done|]. intros j Hj. rewrite Hg by done.
    destruct (Z.ltb_spec j (i + 1)), (Z.ltb_spec j i); try lia.
    + by rewrite (proj2 (Z.eqb_neq j i)) by lia.
    + assert (j = i) as -> by lia. by rewrite Z.eqb_refl, Z.sub_diag.
    + rewrite (proj2 (Z.eqb_neq j i)) by lia. by replace (Z.to_nat (j - i)) with (S (Z.to_nat (j - (i + 1)))) by lia.
Qed.

Lemma initial_ok root :
  good_array root -> small_array root = true ->
  updates_mean (match root with Symbolic _ => vc_varExpr root | ConstantInitialValues vs => write_values (vc_varExpr root) 0 vs end) root UNull.
Proof.
  intros Hg Hs rho. destruct root as [addr|vs].
  - eexists. split; [apply var_law|]. intros i Hi. split; [split; [lia|apply u8_range]|done].
  - cbn in Hg, Hs. apply Z.leb_le in Hs. destruct (write_values_ok rho vs _ 0 _ (var_law rho (ConstantInitialValues vs)) Hg ltac:(lia) ltac:(lia)) as (g & Eg & Hgj).
    exists g. split; [done|]. intros i Hi. assert (g i = array_byte rho (ConstantInitialValues vs) i) as E.
    { rewrite Hgj by lia. rewrite (proj2 (Z.ltb_ge i 0)), Z.sub_0_r by lia. done. }
    split; [rewrite E; by apply (array_byte_range rho (ConstantInitialValues vs))|done].
Qed.

(** ** Caches *)

Record cache_ok (s : stp) : Prop := {
  ok_constructed : Forall (fun p => p.2.2 = getWidth p.1 /\ means p.2.1 p.1) (constructed s);
  ok_arrays : Forall (fun p => updates_mean p.2 p.1.1 p.1.2) (stpArray s);
  ok_initial : Forall (fun p => updates_mean p.2 p.1 UNull) (stpInitialArray s);
}.

Lemma find_Forall {A} (P : A -> Prop) (f : A -> bool) l x : Forall P l -> List.find f l = Some x -> P x /\ f x = true.
Proof. intros Hl Hf. apply List.find_some in Hf as [Hin Hx]. split; [|done]. rewrite Forall_forall in Hl. apply Hl. by apply list_elem_of_In. Qed.

Lemma find_constructed_ok s e r w : cache_ok s -> find_constructed s e = Some (r, w) -> w = getWidth e /\ means r e.
Proof.
  intros Hs Hf. unfold find_constructed in Hf. apply fmap_Some in Hf as ([e' [r' w']] & Hf & [= -> ->]).
  destruct (find_Forall _ _ _ _ (ok_constructed s Hs) Hf) as [H1 H2]. cbn in *. apply expr_eqb_eq in H2 as ->. done.
Qed.

Lemma find_array_ok s root u r : cache_ok s -> find_array s root u = Some r -> updates_mean r root u.
Proof.
  intros Hs Hf. unfold find_array in Hf. apply fmap_Some in Hf as ([[root' u'] r'] & Hf & [= ->]).
  destruct (find_Forall _ _ _ _ (ok_arrays s Hs) Hf) as [H1 H2]. cbn in *. apply andb_true_iff in H2 as [->%bool_decide_eq_true H2]. by apply (proj2 eqb_spec) in H2 as ->.
Qed.

Lemma find_initial_ok s root r : cache_ok s -> find_initial s root = Some r -> updates_mean r root UNull.
Proof.
  intros Hs Hf. unfold find_initial in Hf. apply fmap_Some in Hf as ([root' r'] & Hf & [= ->]).
  destruct (find_Forall _ _ _ _ (ok_initial s Hs) Hf) as [H1 H2]. cbn in *. by apply bool_decide_eq_true in H2 as ->.
Qed.

Lemma clearCaches_ok s : cache_ok s -> cache_ok (clearCaches s).
Proof. intros [H1 H2 H3]. by split. Qed.

(** A computation succeeds, with a result in [Q], and keeps the caches right. *)
Definition gives {A} (m : M A) (Q : A -> Prop) : Prop := forall s, cache_ok s -> exists x s', m s = Some (x, s') /\ cache_ok s' /\ Q x.

Lemma gives_ret {A} (x : A) (Q : A -> Prop) : Q x -> gives (mret x) Q.
Proof. intros Hx s Hs. by exists x, s. Qed.

Lemma gives_bind {A B} (m : M A) (f : A -> M B) P Q : gives m P -> (forall x, P x -> gives (f x) Q) -> gives (mthen m f) Q.
Proof. intros Hm Hf s Hs. destruct (Hm s Hs) as (x & s' & E & Hs' & Hx). unfold mthen. rewrite E. cbn. by apply Hf. Qed.

Lemma gives_pure {A} (m : M A) (x : A) (Q : A -> Prop) : (forall s, m s = Some (x, s)) -> Q x -> gives m Q.
Proof. intros Hm Hx s Hs. by exists x, s. Qed.

Lemma gives_lift {A} (o : option A) (x : A) (Q : A -> Prop) : o = Some x -> Q x -> gives (mlift o) Q.
Proof. intros -> Hx s Hs. by exists x, s. Qed.

(** The result of [construct] for an expression. *)
Definition term_of (e : expr) (p : vcexpr * Z) : Prop := p.2 = getWidth e /\ means p.1 e.

Lemma gives_cached e m : gives m (term_of e) -> gives (construct_cached e m) (term_of e).
Proof.
  intros Hm s Hs. unfold construct_cached. destruct (isa_Constant e); [by apply Hm|]. destruct (find_constructed s e) as [[r w]|] eqn:Ef.
  - exists (r, w), s. split_and!; [done..|]. by apply (find_constructed_ok s).
  - destruct (Hm s Hs) as ([r w] & s' & E & [H1 H2 H3] & Hr). rewrite E. cbn. eexists _, _. split_and!; [done| |done]. by split; [constructor|..].
Qed.

Lemma gives_array_cached root u m : gives m (fun r => updates_mean r root u) -> gives (array_cached root u m) (fun r => updates_mean r root u).
Proof.
  intros Hm s Hs. unfold array_cached. destruct (find_array s root u) as [r|] eqn:Ef.
  - exists r, s. split_and!; [done..|]. by apply (find_array_ok s).
  - destruct (Hm s Hs) as (r & s' & E & [H1 H2 H3] & Hr). rewrite E. cbn. eexists _, _. split_and!; [done| |done]. by split; [|constructor|].
Qed.

Lemma gives_initial root : good_array root -> small_array root = true -> gives (getInitialArray root) (fun r => updates_mean r root UNull).
Proof.
  intros Hg Hs s Hc. unfold getInitialArray. destruct (find_initial s root) as [r|] eqn:Ef.
  - exists r, s. split_and!; [done..|]. by apply (find_initial_ok s).
  - eexists _, _. split_and!; [done| |by apply initial_ok]. destruct Hc as [H1 H2 H3]. split; [done|done|]. constructor; [by apply initial_ok|done].
Qed.

Lemma gives_not_bool w : w <> 1 -> gives (not_bool w) (fun _ => Logic.True).
Proof. intros Hw. unfold not_bool. rewrite (proj2 (Z.eqb_neq w 1)) by done. by apply gives_ret. Qed.

(** ** Expressions *)

Lemma read_means a' i' root u i :
  getWidth i = Int32 -> updates_mean a' root u -> means i' i -> means (vc_readExpr a' i') (Read root u i).
Proof.
  intros Wi Ha Hi rho. destruct (Ha rho) as (g & Eg & Hg). destruct (Hi rho) as (x & Tx & Ex). rewrite Wi in Tx. apply termd_bv in Tx; [|done].
  pose proof (proj2 (proj2 Tx)) as Rx. destruct (Hg x Rx) as [Rg Vg]. exists (g x). cbn [getWidth defined eval].
  split; [apply termd_bv; [done|]; split; [apply (read_law _ _ _ _ _ Eg), Tx|done]|]. intros [Du Di]. rewrite (Vg Du). by rewrite (Ex Di).
Qed.

(** The array after an update whose guard is [g]. *)
Lemma guarded_ok a' n' g' g root u (new : assignment -> Z -> Z) P :
  getWidth g = Bool -> updates_mean a' root u -> array_means n' P new -> means g' g ->
  array_means (vc_iteExpr g' n' a') (fun rho => defined rho g /\ P rho /\ defined_updates rho u)
    (fun rho i => if negb (eval rho g =? 0) then new rho i else eval_updates rho u i (array_byte rho root i)).
Proof.
  intros Wg Ha Hn Hg rho. destruct (Ha rho) as (ga & Ea & Ra). destruct (Hn rho) as (gn & En & Rn). destruct (Hg rho) as (x & [Rx Tx] & Ex). rewrite Wg in Rx, Tx. cbn in Tx.
  exists (if x =? 1 then gn else ga). split; [unfold boold in Tx; rewrite (ite_law _ _ _ _ _ _ _ Tx En Ea) by done; by destruct (x =? 1)|]. intros i Hi.
  destruct (Ra i Hi) as [R1 V1], (Rn i Hi) as [R2 V2]. split; [by destruct (x =? 1)|]. intros (Dg & Dn & Du). rewrite <- (Ex Dg). apply inrange_1 in Rx as [-> | ->]; cbn; auto.
Qed.

Lemma true_guard rho g : isTrue g = true -> eval rho g = 1 /\ defined rho g.
Proof. destruct g; try done. cbn. rewrite andb_true_iff, !Z.eqb_eq. by intros [-> ->]. Qed.

Lemma write_ok a' i' v' root u i v :
  getWidth i = Int32 -> getWidth v = Int8 -> updates_mean a' root u -> means i' i -> means v' v ->
  array_means (vc_writeExpr a' i' v') (fun rho => defined rho i /\ defined rho v /\ defined_updates rho u)
    (fun rho j => if eval rho i =? j then eval rho v else eval_updates rho u j (array_byte rho root j)).
Proof.
  intros Wi Wv Ha Hi Hv rho. destruct (Ha rho) as (g & Eg & Rg). destruct (Hi rho) as (x & Tx & Ex). destruct (Hv rho) as (y & Ty & Ey). rewrite Wi in Tx. rewrite Wv in Ty.
  apply termd_bv in Tx, Ty; [|done..]. eexists. split; [apply (write_law _ _ _ _ _ _ _ Eg (proj1 Tx) (proj1 Ty))|]. intros j Hj. destruct (Rg j Hj) as [R V].
  cbn beta. split; [destruct (j =? x); [apply Ty|done]|]. intros (Di & Dv & Du). rewrite <- (Ex Di), <- (Ey Dv), (Z.eqb_sym x j). by destruct (j =? x); [|apply V].
Qed.

Lemma array_means_weaken r P Q f g : array_means r P f -> (forall rho, Q rho -> P rho) -> (forall rho i, Q rho -> f rho i = g rho i) -> array_means r Q g.
Proof.
  intros Hm HP Hf rho. destruct (Hm rho) as (h & Eh & Rh). exists h. split; [done|]. intros i Hi. destruct (Rh i Hi) as [R V]. split; [done|]. intros HQ. rewrite <- Hf by done. auto.
Qed.

Ltac flat := repeat match goal with
  | H : _ /\ _ |- _ => destruct H
  | H : _ && _ = true |- _ => apply andb_true_iff in H
  | H : negb _ = true |- _ => apply negb_true_iff in H
  | H : (_ =? _) = false |- _ => apply Z.eqb_neq in H
  | H : (_ <? _) = true |- _ => apply Z.ltb_lt in H
  end.
Ltac sub_term r Hm :=
  eapply gives_bind; [eauto|]; let p := fresh in let w := fresh in let Hw := fresh in
  intros p Hm; destruct p as [r w]; destruct Hm as [Hw Hm]; cbn [fst snd] in Hw, Hm; subst w.

Lemma mul_gives l r :
  good (Bin Mul l r) -> encodable (Bin Mul l r) = true ->
  gives (construct optimizeDivides l) (term_of l) -> gives (construct optimizeDivides r) (term_of r) -> gives (construct optimizeDivides (Bin Mul l r)) (term_of (Bin Mul l r)).
Proof.
  cbn [good encodable bin_ok construct]. intros Hg He Hl Hr. flat. assert (getWidth l = getWidth r) as Hw by done. apply gives_cached. sub_term r' Hmr.
  eapply gives_bind; [apply gives_not_bool; congruence|]. intros _ _.
  assert (gives (mthen (construct optimizeDivides l) (fun '(left', w) => mret (vc_bvMultExpr w left' r', w))) (term_of (Bin Mul l r))) as Hplain.
  { sub_term l' Hml. apply gives_ret. split; [done|]. apply plain_bin with l' r'; try done. intros rho w x y Hx Hy ->. apply (arith_law rho _ _ _ x y Hx Hy). }
  destruct (constant_of l) as [[lw lv]|] eqn:Ec; [|done]. destruct (Z.leb_spec lw 64); [|done].
  destruct l; try done. injection Ec as -> ->. cbn [good getWidth] in *.
  destruct (mul_constant_ok r' r lw lv) as (t & Et & Ht); try done. rewrite <- Hw. eapply gives_bind; [by apply (gives_lift _ t (fun t => means t (Bin Mul (Constant lw lv) r)))|].
  intros t' Ht'. by apply gives_ret.
Qed.

(** A division that is special for some constants. *)
Definition divide (k : binkind) (w : Z) (l' r' : vcexpr) : vcexpr := match k with UDiv => vc_bvDivExpr w l' r' | _ => vc_bvModExpr w l' r' end.
Definition special_divisor (k : binkind) (r : expr) (w : Z) (l' : vcexpr) : option (option vcexpr) :=
  match constant_of r with
  | Some (dw, d) => match k with UDiv => udiv_constant optimizeDivides w dw d l' | _ => urem_constant optimizeDivides w dw d l' end
  | None => Some None
  end.

Lemma special_divisor_ok k r l l' :
  k = UDiv \/ k = URem -> good r -> getWidth l = getWidth r -> getWidth l <> 1 -> (match constant_of r with Some (_, d) => negb (d =? 0) | None => true end) = true -> means l' l ->
  exists o, special_divisor k r (getWidth l) l' = Some o /\ (forall t, o = Some t -> means t (Bin k l r)).
Proof.
  intros Hk Hg Hw Hn Hd Hl. unfold special_divisor. destruct r; try (by exists None). cbn in Hg, Hd, Hw. flat. cbn [constant_of]. rewrite Hw in *.
  destruct Hk as [-> | ->]; [by apply udiv_constant_ok|by apply urem_constant_ok].
Qed.

Lemma divide_gives k l r :
  k = UDiv \/ k = URem -> good (Bin k l r) -> encodable (Bin k l r) = true ->
  gives (construct optimizeDivides l) (term_of l) -> gives (construct optimizeDivides r) (term_of r) -> gives (construct optimizeDivides (Bin k l r)) (term_of (Bin k l r)).
Proof.
  cbn [good encodable]. intros Hk Hg He Hl Hr. flat. assert (getWidth l = getWidth r) as Hw by done.
  assert (bin_ok k (getWidth l) r = negb (getWidth l =? 1) && match constant_of r with Some (_, d) => negb (d =? 0) | None => true end) as Eb by (by destruct Hk as [-> | ->]).
  rewrite Eb in *. flat.
  assert (gives (construct_cached (Bin k l r)
    ('(left', w) <~ construct optimizeDivides l; _ <~ not_bool w; special <~ mlift (special_divisor k r w left');
     match special with Some res => mret (res, w) | None => '(right', w) <~ construct optimizeDivides r; mret (divide k w left' right', w) end)) (term_of (Bin k l r))) as HG;
    [|destruct Hk as [-> | ->]; exact HG].
  apply gives_cached. sub_term l' Hml. eapply gives_bind; [by apply gives_not_bool|]. intros _ _.
  destruct (special_divisor_ok k r l l') as (o & Eo & Ho); try done.
  eapply gives_bind; [by apply (gives_lift _ o (fun o => forall t, o = Some t -> means t (Bin k l r)))|]. clear o Eo Ho. intros [t|] Ho; [apply gives_ret; split; [done|by apply Ho]|].
  sub_term r' Hmr. apply gives_ret. split; [done|]. cbn [fst snd]. apply div_bin with l' r'; try done. unfold divide. rewrite <- Hw. destruct Hk as [-> | ->]; [by left|by right; left].
Qed.

Lemma shift_gives k l r :
  k = Shl \/ k = LShr \/ k = AShr -> good (Bin k l r) -> encodable (Bin k l r) = true ->
  gives (construct optimizeDivides l) (term_of l) -> gives (construct optimizeDivides r) (term_of r) -> gives (construct optimizeDivides (Bin k l r)) (term_of (Bin k l r)).
Proof.
  cbn [good encodable]. intros Hk Hg He Hl Hr. flat. assert (getWidth l = getWidth r) as Hw by done.
  assert (bin_ok k (getWidth l) r = negb (getWidth l =? 1) && match constant_of r with Some (_, v) => v <? 2 ^ getShiftBits (getWidth l) | None => true end) as Eb by (by destruct Hk as [-> | [-> | ->]]).
  rewrite Eb in *. flat.
  assert (gives (construct_cached (Bin k l r)
    ('(left', w) <~ construct optimizeDivides l; _ <~ not_bool w;
     match constant_of r with
     | Some (_, v) => mret (shift_constant k w v left', w)
     | None => '(amount, _) <~ construct optimizeDivides r; mret (shift_variable k w left' amount, w)
     end)) (term_of (Bin k l r))) as HG; [|destruct Hk as [-> | [-> | ->]]; exact HG].
  apply gives_cached. sub_term l' Hml. eapply gives_bind; [by apply gives_not_bool|]. intros _ _.
  destruct (constant_of r) as [[rw v]|] eqn:Ec.
  - destruct r; try done. injection Ec as -> ->. cbn [good getWidth] in *. apply gives_ret. split; [done|]. cbn [fst]. rewrite Hw in *. flat. by apply shift_constant_ok.
  - sub_term r' Hmr. apply gives_ret. split; [done|]. by apply shift_variable_ok.
Qed.

Lemma simple_gives k l r :
  (k = Add \/ k = Sub \/ k = SRem) \/ k = And \/ k = Or \/ k = Xor -> good (Bin k l r) -> encodable (Bin k l r) = true ->
  gives (construct optimizeDivides l) (term_of l) -> gives (construct optimizeDivides r) (term_of r) -> gives (construct optimizeDivides (Bin k l r)) (term_of (Bin k l r)).
Proof.
  cbn [good encodable]. intros Hk Hg He Hl Hr. flat. assert (getWidth l = getWidth r) as Hw by done.
  assert (gives (construct_cached (Bin k l r)
    ('(left', _) <~ construct optimizeDivides l; '(right', w) <~ construct optimizeDivides r; bin_simple k w left' right')) (term_of (Bin k l r))) as HG;
    [|destruct Hk as [[-> | [-> | ->]]|[-> | [-> | ->]]]; exact HG].
  apply gives_cached. sub_term l' Hml. sub_term r' Hmr.
  destruct (bin_simple_ok k l' r' l r) as (t & Et & Ht); try done.
  { destruct Hk as [Hk|Hk]; [left|by right]. split; [done|]. destruct Hk as [-> | [-> | ->]]; cbn in *; flat; done. }
  eapply gives_pure; [exact Et|]. split; [cbn; congruence|done].
Qed.

Lemma cmp_gives k l r :
  good (Cmp k l r) -> encodable (Cmp k l r) = true ->
  gives (construct optimizeDivides l) (term_of l) -> gives (construct optimizeDivides r) (term_of r) -> gives (construct optimizeDivides (Cmp k l r)) (term_of (Cmp k l r)).
Proof.
  cbn [good encodable]. intros Hg He Hl Hr. flat. assert (getWidth l = getWidth r) as Hw by done. destruct (decide (k = Eq)) as [->|Hne].
  - cbn [construct]. apply gives_cached. sub_term l' Hml. sub_term r' Hmr. rewrite <- Hw. destruct (Z.eqb_spec (getWidth l) 1) as [E|E].
    + destruct (constant_of l) as [[lw v]|] eqn:Ec; [|apply gives_ret; split; [done|by apply iff_means]].
      destruct l; try done. injection Ec as -> ->. cbn [good getWidth] in *. rewrite E in *. apply gives_ret. split; [done|]. by apply eq_constant_means.
    + apply gives_ret. split; [done|]. by apply eq_means.
  - assert (gives (construct_cached (Cmp k l r)
      ('(left', _) <~ construct optimizeDivides l; '(right', w) <~ construct optimizeDivides r; _ <~ not_bool w; cmp_term k left' right')) (term_of (Cmp k l r))) as HG;
      [|destruct k; try done; exact HG].
    apply gives_cached. sub_term l' Hml. sub_term r' Hmr. assert (k = Ult \/ k = Ule \/ k = Slt \/ k = Sle) as Hk by (destruct k; try done; auto).
    assert (getWidth l <> 1) as Hn by (destruct Hk as [-> | [-> | [-> | ->]]]; cbn in *; by flat).
    eapply gives_bind; [apply gives_not_bool; congruence|]. intros _ _. destruct (cmp_term_ok k l' r' l r) as (t & Et & Ht); try done. eapply gives_pure; [exact Et|done].
Qed.

Lemma bin_gives k l r :
  good (Bin k l r) -> encodable (Bin k l r) = true ->
  gives (construct optimizeDivides l) (term_of l) -> gives (construct optimizeDivides r) (term_of r) -> gives (construct optimizeDivides (Bin k l r)) (term_of (Bin k l r)).
Proof.
  destruct k; first [apply mul_gives|apply divide_gives; tauto|apply shift_gives; tauto|apply simple_gives; tauto|idtac].
  cbn [good encodable bin_ok construct]. intros Hg He Hl Hr. flat. assert (getWidth l = getWidth r) as Hw by done. apply gives_cached. sub_term l' Hml.
  eapply gives_bind; [by apply gives_not_bool|]. intros _ _. sub_term r' Hmr. apply gives_ret. split; [done|]. apply div_bin with l' r'; try done. right. right. by rewrite <- Hw.
Qed.

(** An update gives the new array, guarded. *)
Lemma guard_gives g root u (n' a' : vcexpr) (new : assignment -> Z -> Z) P (u' : updates) :
  getWidth g = Bool -> gives (construct optimizeDivides g) (term_of g) -> updates_mean a' root u -> array_means n' P new ->
  (forall rho, defined_updates rho u' -> defined rho g /\ P rho /\ defined_updates rho u) ->
  (forall rho i, defined_updates rho u' -> (if negb (eval rho g =? 0) then new rho i else eval_updates rho u i (array_byte rho root i)) = eval_updates rho u' i (array_byte rho root i)) ->
  gives (if isTrue g then mret n' else '(g', _) <~ construct optimizeDivides g; mret (vc_iteExpr g' n' a')) (fun r => updates_mean r root u').
Proof.
  intros Wg Hg Ha Hn HD HV. destruct (isTrue g) eqn:Eg.
  - apply gives_ret. eapply array_means_weaken; [exact Hn|intros rho D; by destruct (HD rho D) as (_ & ? & _)|]. intros rho i D. rewrite <- HV by done. by destruct (true_guard rho g Eg) as [-> _].
  - sub_term g' Hmg. apply gives_ret. eapply array_means_weaken; [by apply (guarded_ok a' n' g' g root u new P)|exact HD|exact HV].
Qed.

Lemma construct_gives :
  (forall e, good e -> encodable e = true -> gives (construct optimizeDivides e) (term_of e)) /\
  (forall u, good_updates u -> encodable_updates u = true -> forall root, good_array root -> small_array root = true ->
     gives (construct_updates optimizeDivides root u) (fun r => updates_mean r root u)).
Proof.
  apply expr_updates_ind; [..|cbn [good_updates encodable_updates construct_updates]; intros; by apply gives_initial| |].
  - intros w v Hg He. cbn [construct]. apply gives_cached, gives_ret. split; [done|]. intros rho. exists v. split; [by apply constant_ok|done].
  - cbn [good encodable construct]. intros src IH Hg He. apply gives_cached. intros s Hs. destruct (IH Hg He s Hs) as (p & s' & E & Hs' & Hw & Hm). exists p, s'. done.
  - cbn [good encodable construct]. intros root u IHu i IHi Hg He. flat. apply gives_cached. eapply gives_bind; [by apply IHu|]. intros arr Ha. sub_term i' Hmi.
    apply gives_ret. split; [done|]. by apply read_means.
  - cbn [good encodable construct]. intros c IHc t IHt f IHf Hg He. flat. apply gives_cached. sub_term c' Hmc. sub_term t' Hmt. sub_term f' Hmf. apply gives_ret. split; [done|]. by apply select_ok.
  - cbn [good encodable construct]. intros l IHl r IHr Hg He. flat. apply gives_cached. sub_term r' Hmr. sub_term l' Hml. apply gives_ret. split; [done|]. by apply concat_means.
  - cbn [good encodable construct]. intros src IH off w Hg He. flat. apply gives_cached. sub_term s' Hms. apply gives_ret. split; [done|]. by apply extract_means.
  - cbn [good encodable construct]. intros src IH w Hg He. flat. apply gives_cached. sub_term s' Hms. apply gives_ret. split; [done|]. by apply zext_means.
  - cbn [good encodable construct]. intros src IH w Hg He. flat. apply gives_cached. sub_term s' Hms. apply gives_ret. split; [done|]. apply sext_means; [done| |done].
    match goal with H : _ || _ = true |- _ => apply orb_true_iff in H as [H|H] end; [left; by flat|right; by apply Z.leb_le].
  - cbn [good encodable construct]. intros src IH Hg He. flat. apply gives_cached. sub_term s' Hms. apply gives_ret. split; [done|]. by apply not_means.
  - intros k l IHl r IHr Hg He. pose proof Hg as Hg'. pose proof He as He'. cbn [good encodable] in Hg', He'. flat. apply bin_gives; auto.
  - intros k l IHl r IHr Hg He. pose proof Hg as Hg'. pose proof He as He'. cbn [good encodable] in Hg', He'. flat. apply cmp_gives; auto.
  - cbn [good encodable construct]. intros l IHl r IHr Hg He. flat. apply gives_cached. sub_term l' Hml. sub_term r' Hmr. apply gives_ret. split; [cbn; congruence|]. by apply implies_means.
  - cbn [good_updates encodable_updates construct_updates]. intros g IHg i IHi v IHv next IHn Hg He root Hr Hs. flat. apply gives_array_cached.
    eapply gives_bind; [by apply IHn|]. intros arr Ha. sub_term i' Hmi. sub_term v' Hmv. cbn zeta.
    eapply guard_gives with (u := next); [done|auto|done|by apply (write_ok arr i' v' root next i v)|cbn; tauto|].
    intros rho j _. cbn. destruct (eval rho g =? 0); [done|]. by destruct (eval rho i =? j).
  - cbn [good_updates encodable_updates construct_updates]. intros g IHg src next IHn Hg He root Hr Hs. flat. apply gives_array_cached.
    eapply gives_bind; [by apply IHn|]. intros arr Ha. eapply gives_bind; [by apply gives_initial|]. intros n' Hn'.
    eapply guard_gives with (u := next); [done|auto|done|exact Hn'|cbn; tauto|]. intros rho j _. cbn. by destruct (eval rho g =? 0).
Qed.

(** ** Formulas *)

(** A formula that holds just when all the terms hold. *)
Definition conj_means (r : vcexpr) (ts : list expr) : Prop :=
  forall rho, exists b, boold rho r b /\ (Forall (defined rho) ts -> (b = true <-> Forall (sat rho) ts)).

Lemma one_conj r e : getWidth e = Bool -> means r e -> conj_means r [e].
Proof.
  intros We Hm rho. destruct (Hm rho) as (x & [Rx Tx] & Ex). rewrite We in Rx, Tx. cbn in Tx. exists (x =? 1). split; [done|]. rewrite !Forall_singleton. intros D. unfold sat.
  by rewrite (Ex D), Z.eqb_eq.
Qed.

Lemma and_conj a b ts ts' : conj_means a ts -> conj_means b ts' -> conj_means (vc_andExpr a b) (ts' ++ ts).
Proof.
  intros Ha Hb rho. destruct (Ha rho) as (x & Tx & Ex). destruct (Hb rho) as (y & Ty & Ey). exists (x && y). split; [by apply and_law|].
  rewrite !Forall_app, andb_true_iff. intros [Db Da]. rewrite (Ex Da), (Ey Db). tauto.
Qed.

Definition translatable (e : expr) : Prop := boolean e /\ encodable e = true.

Lemma terms_gives es : forall result before,
  Forall translatable es -> match result with Some r => conj_means r before | None => before = [] end -> before ++ es <> [] ->
  gives (construct_terms optimizeDivides es result) (fun o => exists r, o = Some r /\ conj_means r (before ++ es)).
Proof.
  induction es as [|e es IH]; intros result before Hes Hr Hne; cbn [construct_terms].
  - rewrite app_nil_r in *. apply gives_ret. destruct result as [r|]; [by exists r|by destruct Hne].
  - apply Forall_cons in Hes as [[[Hg Hw] He] Hes]. eapply gives_bind; [by apply (proj1 construct_gives)|]. intros [t w] [_ Hm]. cbn [fst] in Hm.
    replace (before ++ e :: es) with ((before ++ [e]) ++ es) in * by (by rewrite <- app_assoc).
    apply IH; [done| |by destruct before]. pose proof (one_conj t e Hw Hm) as H1.
    destruct result as [r|]; [by apply and_conj|by subst before].
Qed.

Lemma nary_encodable e : encodable e = true -> Forall (fun t => encodable t = true) (nary And e).
Proof.
  induction e as [| | | | | | | | |k l IHl r IHr| |]; cbn [nary]; try (intros Hx; apply Forall_singleton; exact Hx). destruct (decide (k = And)) as [->|]; [|intros Hx; apply Forall_singleton; exact Hx].
  cbn [encodable]. intros He. flat. constructor; auto.
Qed.

Lemma nary_defined rho e : defined rho e -> Forall (defined rho) (nary And e).
Proof.
  induction e as [| | | | | | | | |k l IHl r IHr| |]; cbn [nary]; try (intros Hx; apply Forall_singleton; exact Hx). destruct (decide (k = And)) as [->|]; [|intros Hx; apply Forall_singleton; exact Hx].
  cbn [defined]. intros [D1 D2]. constructor; auto.
Qed.

Lemma nary_nonempty k e : nary k e <> [].
Proof. destruct e; cbn; try done. by case_decide. Qed.

(** A formula that holds just when the boolean expression does. *)
Definition formula_means (r : vcexpr) (e : expr) : Prop :=
  forall rho, exists b, boold rho r b /\ (defined rho e -> (b = true <-> sat rho e)).

Lemma conjunction_gives e :
  translatable e -> gives (construct_terms optimizeDivides (nary And e) None) (fun o => exists r, o = Some r /\ formula_means r e).
Proof.
  intros [[Hg Hw] He]. destruct (nary_terms And e Hg Hw) as (Hts & Hand & _). pose proof (nary_encodable e He) as Hen.
  intros s Hs. destruct (terms_gives (nary And e) None [] ltac:(rewrite Forall_forall in *; intros t Ht; split; [by apply Hts|by apply Hen]) eq_refl (nary_nonempty And e) s Hs)
    as (o & s' & E & Hs' & r & -> & Hr). exists (Some r), s'. split_and!; [done..|]. exists r. split; [done|]. intros rho. destruct (Hr rho) as (b & Hb & Hv). exists b. split; [done|].
  intros D. rewrite Hv by (by apply nary_defined). cbn [app]. symmetry. by apply (Hand rho).
Qed.

Lemma constructQuery_gives e : translatable e -> gives (constructQuery optimizeDivides e) (fun r => formula_means r e).
Proof.
  intros Ht. pose proof Ht as [[Hg Hw] He]. unfold constructQuery. rewrite Hw. cbn [Z.eqb Pos.eqb negb Bool].
  assert (gives (mthen (construct_terms optimizeDivides (nary And e) None) (fun o => match o with Some r => mret r | None => mfail end)) (fun r => formula_means r e)) as Hplain.
  { eapply gives_bind; [by apply conjunction_gives|]. intros o (r & -> & Hr). by apply gives_ret. }
  assert (forall l r, e = Cmp Eq l r -> expr_eqb l false_ = true ->
    gives (mthen (construct_terms optimizeDivides (nary And r) None) (fun o => match o with Some r => mret (vc_notExpr r) | None => mfail end)) (fun t => formula_means t e)) as Hneg.
  { intros l r -> ->%expr_eqb_eq. cbn [good encodable] in Hg, He. flat. assert (getWidth r = Bool) as Wr by (cbn in *; congruence).
    eapply gives_bind; [by apply (conjunction_gives r)|]. intros o (t & -> & Hr). apply gives_ret. intros rho. destruct (Hr rho) as (b & Hb & Hv). exists (negb b).
    split; [by apply not_law|]. cbn [defined]. intros [_ D]. specialize (Hv D). pose proof (eval_range r rho ltac:(done)) as Rr. rewrite Wr in Rr. unfold sat in *. cbn.
    apply inrange_1 in Rr as [E|E]; rewrite E in *; destruct b; cbn; naive_solver. }
  destruct e; try exact Hplain. destruct k; try exact Hplain. destruct (expr_eqb e1 false_) eqn:E1; [by apply (Hneg e1 e2)|exact Hplain].
Qed.

Lemma assertAssumptions_gives cs : Forall translatable cs -> gives (assertAssumptions optimizeDivides cs) (fun rs => Forall2 formula_means rs cs).
Proof.
  induction cs as [|c cs IH]; intros Hcs; cbn [assertAssumptions]; [by apply gives_ret|]. apply Forall_cons in Hcs as [[[Hg Hw] He] Hcs].
  eapply gives_bind; [by apply (proj1 construct_gives)|]. intros [r w] [_ Hm]. cbn [fst] in Hm. eapply gives_bind; [by apply IH|]. intros rs Hrs. apply gives_ret. constructor; [|done].
  intros rho. destruct (one_conj r c Hw Hm rho) as (b & Hb & Hv). exists b. rewrite !Forall_singleton in Hv. done.
Qed.

Lemma pushQuery_gives cs e :
  Forall translatable cs -> translatable e ->
  gives (pushQuery optimizeDivides cs e) (fun p => Forall2 formula_means p.1 cs /\ formula_means p.2 e).
Proof.
  intros Hcs He. unfold pushQuery. eapply gives_bind; [by apply assertAssumptions_gives|]. intros rs Hrs. eapply gives_bind; [by apply constructQuery_gives|].
  intros r Hr. by apply gives_ret.
Qed.

End query.
