(* ===== verification/StpSolver.v ===== *)
(** * The core solver ([STPSolverImpl] of [lib/Solver/Solver.cpp])

    What the solver library promises for a query, and what follows for the answers
    of the core solver; a small term language with its meaning shows that the laws
    can hold together. *)

From stdpp Require Import base list.
From Stdlib Require Import ZArith Lia.
From S2P Require Import Prelude BitVec Expr ExprCreate Constraints Solver ConstDiv Stp StpSound StpConstruct StpQuery.

Class VCSolverLaws {H : VC} (L : VCLaws H) (V : VCSolver H) := {
  query_law : forall asserted q,
    (forall rho, Forall (fun a => exists b, boold rho a b) asserted) -> (forall rho, exists b, boold rho q b) ->
    match vc_query asserted q with
    | VC_VALID => forall rho, Forall (fun a => boold rho a true) asserted -> boold rho q true
    | VC_INVALID => exists rho, Forall (fun a => boold rho a true) asserted /\ boold rho q false /\
        forall arr g i v, denote rho arr = Some (VArray g) -> (i, v) ∈ vc_getCounterExampleArray asserted q arr -> 0 <= i < 2 ^ 32 /\ g i = v
    | VC_TIMEOUT => True
    end;
}.

(** The queries that can be translated and divide by zero under no assignment. *)
Definition stp_query (q : Query) : Prop :=
  Forall (fun t => encodable t = true /\ forall rho, defined rho t) (cm_terms (q_constraints q)) /\
  encodable (q_expr q) = true /\ forall rho, defined rho (q_expr q).

Section solver.
Context {H : VC} {L : VCLaws H} {V : VCSolver H} {SL : VCSolverLaws L V} (optimizeDivides : bool).
Implicit Types (rho : assignment).

Lemma boold_fun rho a b b' : boold rho a b -> boold rho a b' -> b = b'.
Proof. unfold boold. congruence. Qed.

(** The asserted formulas hold just when the constraints do. *)
Lemma asserted_sat asserted cs rho :
  Forall2 formula_means asserted cs -> Forall (defined rho) cs ->
  Forall (fun a => boold rho a true) asserted <-> Forall (sat rho) cs.
Proof.
  induction 1 as [|a c asserted cs Ha _ IH]; [done|]. rewrite !Forall_cons. intros [Dc Dcs]. rewrite IH by done. destruct (Ha rho) as (b & Hb & Hv). specialize (Hv Dc).
  assert (boold rho a true <-> b = true) as ->; [split; [by apply boold_fun|by intros ->]|]. by rewrite Hv.
Qed.

Lemma counterexample_gives asserted q rho objects :
  Forall (fun a => good_array a /\ small_array a = true) objects ->
  (forall arr g i v, denote rho arr = Some (VArray g) -> (i, v) ∈ vc_getCounterExampleArray asserted q arr -> 0 <= i < 2 ^ 32 /\ g i = v) ->
  gives (counterexample asserted q objects) (fits rho).
Proof.
  intros Ho Hc. induction Ho as [|a objects [Hg Hs] _ IH]; cbn [counterexample]; [apply gives_ret; constructor|].
  eapply gives_bind; [by apply gives_initial|]. intros arr Ha. eapply gives_bind; [exact IH|]. intros rest Hrest. apply gives_ret. apply Forall_app. split; [|done].
  apply Forall_fmap, Forall_forall. intros [i v] Hin. destruct (Ha rho) as (g & Eg & Rg). destruct (Hc arr g i v Eg Hin) as [Hi Hv]. destruct (Rg i Hi) as [[_ R] Vg]. cbn.
  specialize (Vg I). cbn in Vg. rewrite u32_small by done. rewrite <- Vg, Hv, u8_small by (subst v; exact R). done.
Qed.

Lemma initial_values_ok q objects :
  stp_query q -> wf_query q -> Forall (fun a => good_array a /\ small_array a = true) objects ->
  returns cache_ok (stp_computeInitialValues optimizeDivides q objects) (fun b =>
    match b with
    | Some b => exists rho, cm_sat rho (q_constraints q) /\ ~ sat rho (q_expr q) /\ fits rho b
    | None => valid q
    end).
Proof.
  intros (Ht & He & Hd) ([Hcm _] & Hb) Ho s Hs. destruct (terms_spec _ Hcm) as (Hts & _ & Hsat).
  assert (Forall translatable (cm_terms (q_constraints q))) as Htr by (rewrite Forall_forall in *; intros t Hin; split; [by apply Hts|by apply Ht]).
  assert (forall rho, Forall (defined rho) (cm_terms (q_constraints q))) as Hdef by (intros rho; eapply Forall_impl; [exact Ht|]; cbn; intros t [_ ?]; auto).
  unfold stp_computeInitialValues. destruct (pushQuery_gives optimizeDivides _ _ Htr (conj Hb He) s Hs) as ([asserted r] & s' & -> & Hs' & Ha & Hr). cbn in Ha, Hr.
  pose proof (query_law asserted r) as Hq. unfold runAndGetCex.
  assert (forall rho, Forall (fun a => exists b, boold rho a b) asserted) as H1.
  { intros rho. clear -Ha. induction Ha as [|a c asserted cs Hac _ IH]; constructor; [|done]. destruct (Hac rho) as (b & Hb & _). by exists b. }
  assert (forall rho, exists b, boold rho r b) as H2 by (intros rho; destruct (Hr rho) as (b & Hb' & _); by exists b). specialize (Hq H1 H2). destruct (vc_query asserted r).
  - destruct Hq as (rho & Hall & Hf & Hcex). destruct (counterexample_gives asserted r rho objects Ho Hcex s' Hs') as (b & s2 & -> & Hs2 & Hfit). split; [by apply clearCaches_ok|].
    exists rho. split_and!; [apply Hsat; by apply (asserted_sat asserted)| |done]. destruct (Hr rho) as (b' & Hb' & Hv). specialize (Hv (Hd rho)). rewrite <- Hv. by rewrite (boold_fun _ _ _ _ Hb' Hf).
  - split; [by apply clearCaches_ok|]. intros rho Hc. destruct (Hr rho) as (b' & Hb' & Hv). apply (Hv (Hd rho)). apply (boold_fun _ _ _ _ Hb'), Hq.
    apply (asserted_sat asserted (cm_terms (q_constraints q))); [done|done|by apply Hsat].
  - split; [by apply clearCaches_ok|done].
Qed.

Lemma truth_ok q : stp_query q -> wf_query q -> returns cache_ok (stp_computeTruth optimizeDivides q) (fun b => b = true <-> valid q).
Proof.
  intros Hq Hw. unfold stp_computeTruth. eapply returns_bind; [by apply initial_values_ok|]. intros [b|] Hb; apply returns_ret; [|done].
  destruct Hb as (rho & Hc & Hn & _). split; [done|]. intros Hv. by destruct (Hn (Hv rho Hc)).
Qed.

End solver.
