(* ===== verification/StpModel.v ===== *)
(** * A model of the solver library

    A term language with the meaning that [VCLaws] asks for, and a decision
    procedure for the queries over one byte: the laws can hold together, and the
    builder and the core solver can be run. *)

From stdpp Require Import base list.
From Stdlib Require Import ZArith Lia.
From S2P Require Import Prelude BitVec Expr ExprCreate ExprSound ExprBits ExprVisit Constraints Solver ConstDiv Stp StpSound StpConstruct StpQuery StpSolver.

Inductive logic := LAnd | LOr | LIff | LImplies.

Definition logic_op (k : logic) (x y : bool) : bool :=
  match k with LAnd => x && y | LOr => x || y | LIff => Bool.eqb x y | LImplies => implb x y end.

Inductive term :=
  | TVar (a : array)
  | TBool (b : bool)
  | TConst (w v : Z)
  | TNot (a : term)
  | TLogic (k : logic) (a b : term)
  | TIte (c t f : term)
  | TRead (arr i : term)
  | TWrite (arr i v : term)
  | TConcat (a b : term)
  | TExtract (a : term) (hi lo : Z)
  | TSignExtend (a : term) (w : Z)
  | TUMinus (a : term)
  | TBVNot (a : term)
  | TBin (k : binkind) (w : Z) (a b : term)
  | TCmp (k : cmpkind) (a b : term).

Fixpoint term_length (t : term) : Z :=
  match t with
  | TConst w _ => w
  | TIte _ t _ => term_length t
  | TRead _ _ => 8
  | TConcat a b => term_length a + term_length b
  | TExtract _ hi lo => hi - lo + 1
  | TSignExtend _ w => w
  | TUMinus a | TBVNot a => term_length a
  | TBin _ w _ _ => w
  | _ => 0
  end.

Definition same_sortb (v v' : vcval) : bool :=
  match v, v' with VBool _, VBool _ | VArray _, VArray _ => true | VBV w _, VBV w' _ => w =? w' | _, _ => false end.

Fixpoint term_value (rho : assignment) (t : term) : option vcval :=
  match t with
  | TVar a => Some (VArray (fun i => u8 (rho a i)))
  | TBool b => Some (VBool b)
  | TConst w v => if 0 <? w then Some (VBV w (v mod 2 ^ w)) else None
  | TNot a => match term_value rho a with Some (VBool x) => Some (VBool (negb x)) | _ => None end
  | TLogic k a b => match term_value rho a, term_value rho b with Some (VBool x), Some (VBool y) => Some (VBool (logic_op k x y)) | _, _ => None end
  | TIte c t f =>
      match term_value rho c, term_value rho t, term_value rho f with
      | Some (VBool b), Some v, Some v' => if same_sortb v v' then Some (if b then v else v') else None
      | _, _, _ => None
      end
  | TRead arr i => match term_value rho arr, term_value rho i with Some (VArray g), Some (VBV w x) => if w =? 32 then Some (VBV 8 (g x)) else None | _, _ => None end
  | TWrite arr i v =>
      match term_value rho arr, term_value rho i, term_value rho v with
      | Some (VArray g), Some (VBV w x), Some (VBV w' y) => if (w =? 32) && (w' =? 8) then Some (VArray (fun j => if j =? x then y else g j)) else None
      | _, _, _ => None
      end
  | TConcat a b => match term_value rho a, term_value rho b with Some (VBV wa x), Some (VBV wb y) => Some (VBV (wa + wb) (cat wb x y)) | _, _ => None end
  | TExtract a hi lo =>
      match term_value rho a with
      | Some (VBV w x) => if (0 <=? lo) && (lo <=? hi) && (hi <? w) then Some (VBV (hi - lo + 1) (ext lo (hi - lo + 1) x)) else None
      | _ => None
      end
  | TSignExtend a w' => match term_value rho a with Some (VBV w x) => if w <=? w' then Some (VBV w' (sextOrTrunc w w' x)) else None | _ => None end
  | TUMinus a => match term_value rho a with Some (VBV w x) => Some (VBV w ((- x) mod 2 ^ w)) | _ => None end
  | TBVNot a => match term_value rho a with Some (VBV w x) => Some (VBV w (c_not w x)) | _ => None end
  | TBin k w a b =>
      match term_value rho a, term_value rho b with
      | Some (VBV wa x), Some (VBV wb y) => if (wa =? w) && (wb =? w) then Some (VBV w (c_bin k w x y)) else None
      | _, _ => None
      end
  | TCmp k a b =>
      match term_value rho a, term_value rho b with
      | Some (VBV wa x), Some (VBV wb y) => if wa =? wb then Some (VBool (c_cmp k wa x y)) else None
      | _, _ => None
      end
  end.

#[global] Instance model_vc : VC := {|
  vcexpr := term;
  vc_getBVLength := term_length;
  vc_varExpr := TVar;
  vc_trueExpr := TBool true;
  vc_falseExpr := TBool false;
  vc_bvConstExprFromInt := TConst;
  vc_bvConstExprFromLL := TConst;
  vc_eqExpr := TCmp Eq;
  vc_notExpr := TNot;
  vc_andExpr := TLogic LAnd;
  vc_orExpr := TLogic LOr;
  vc_iffExpr := TLogic LIff;
  vc_impliesExpr := TLogic LImplies;
  vc_iteExpr := TIte;
  vc_readExpr := TRead;
  vc_writeExpr := TWrite;
  vc_bvConcatExpr := TConcat;
  vc_bvExtract := TExtract;
  vc_bvSignExtend := TSignExtend;
  vc_bvUMinusExpr := TUMinus;
  vc_bvNotExpr := TBVNot;
  vc_bvPlusExpr := TBin Add;
  vc_bvMinusExpr := TBin Sub;
  vc_bvMultExpr := TBin Mul;
  vc_bvDivExpr := TBin UDiv;
  vc_bvModExpr := TBin URem;
  vc_sbvDivExpr := TBin SDiv;
  vc_sbvModExpr := TBin SRem;
  vc_bvAndExpr := fun a b => TBin And (term_length a) a b;
  vc_bvOrExpr := fun a b => TBin Or (term_length a) a b;
  vc_bvXorExpr := fun a b => TBin Xor (term_length a) a b;
  vc_bvLeftShiftExprExpr := TBin Shl;
  vc_bvRightShiftExprExpr := TBin LShr;
  vc_bvSignedRightShiftExprExpr := TBin AShr;
  vc_bvLtExpr := TCmp Ult;
  vc_bvLeExpr := TCmp Ule;
  vc_sbvLtExpr := TCmp Slt;
  vc_sbvLeExpr := TCmp Sle;
|}.

Lemma term_length_ok rho t w x : term_value rho t = Some (VBV w x) -> term_length t = w.
Proof.
  revert w x. induction t; intros ? ?; cbn [term_value term_length]; intros Hv; repeat case_match; simplify_eq; try done.
  - by eapply IHt2.
  - match goal with H : same_sortb ?v _ = true |- _ => destruct v; try done; apply Z.eqb_eq in H as -> end. by eapply IHt2.
  - by erewrite IHt1, IHt2.
  - by eapply IHt.
  - by eapply IHt.
Qed.

#[global] Instance model_laws : VCLaws model_vc.
Proof.
  refine {| denote := (term_value : assignment -> @vcexpr model_vc -> option vcval) |}; cbn [vcexpr model_vc]; intros *; cbn.
  - apply term_length_ok.
  - done.
  - done.
  - done.
  - intros Hw. by rewrite (proj2 (Z.ltb_lt 0 _)).
  - intros Hw. by rewrite (proj2 (Z.ltb_lt 0 _)).
  - by intros ->.
  - by intros -> ->.
  - by intros -> ->.
  - by intros -> ->.
  - by intros -> ->.
  - intros -> -> -> Hs. destruct v, v'; cbn in *; try done. subst. by rewrite Z.eqb_refl.
  - by intros -> ->.
  - by intros -> -> ->.
  - by intros -> ->.
  - intros -> Hl Hh. by rewrite (proj2 (Z.leb_le 0 lo)), (proj2 (Z.leb_le lo hi)), (proj2 (Z.ltb_lt hi w)) by lia.
  - intros -> Hw. by rewrite (proj2 (Z.leb_le w w')).
  - by intros ->.
  - by intros ->.
  - intros Ha Hb. rewrite (term_length_ok _ _ _ _ Ha), Ha, Hb, Z.eqb_refl. done.
  - intros Ha Hb Rx Ry. rewrite Ha, Hb, Z.eqb_refl. cbn [andb]. split_and!; (eexists; split; [done|split; [|done]]); by first [apply (c_bin_range UDiv w x y)|apply (c_bin_range URem w x y)|apply (c_bin_range SDiv w x y)|apply (c_bin_range SRem w x y)].
  - intros -> ->. rewrite Z.eqb_refl. done.
Defined.

(** ** Queries over one byte *)

Definition byte_term : term := TRead (TVar (Symbolic 0)) (TConst 32 0).

Fixpoint term_over_byte (t : term) : bool :=
  match t with
  | TBool _ | TConst _ _ => true
  | TRead (TVar a) (TConst w v) => bool_decide (a = Symbolic 0) && (w =? 32) && (v =? 0)
  | TVar _ | TRead _ _ | TWrite _ _ _ => false
  | TNot a | TExtract a _ _ | TSignExtend a _ | TUMinus a | TBVNot a => term_over_byte a
  | TLogic _ a b | TConcat a b | TBin _ _ a b | TCmp _ a b => term_over_byte a && term_over_byte b
  | TIte c t f => term_over_byte c && term_over_byte t && term_over_byte f
  end.

Lemma term_over_byte_value t rho : term_over_byte t = true -> term_value rho t = term_value (byte_is (u8 (rho (Symbolic 0) 0))) t.
Proof.
  induction t as [| | | | | |arr _ i _| | | | | | | |]; cbn [term_over_byte]; intros H; try done.
  4: { destruct arr; try done. destruct i; try done. repeat (apply andb_prop in H as [H ?]). apply bool_decide_eq_true in H as ->.
       repeat match goal with E : (_ =? _) = true |- _ => apply Z.eqb_eq in E as -> end. cbn. unfold byte_is, u8. by rewrite Z.mod_mod. }
  all: repeat (apply andb_prop in H as [H ?]); cbn [term_value];
    repeat match goal with IH : term_over_byte ?a = true -> term_value _ ?a = _ |- _ => rewrite IH by done; clear IH end; done.
Qed.

Definition holds (b : Z) (t : term) : bool := match term_value (byte_is b) t with Some (VBool true) => true | _ => false end.

Definition byte_cex (asserted : list term) (q : term) : option Z := List.find (fun b => forallb (holds b) asserted && negb (holds b q)) byte_values.

#[global] Instance model_solver : VCSolver model_vc := {|
  vc_query := fun (asserted : list (@vcexpr model_vc)) (q : @vcexpr model_vc) =>
    if forallb term_over_byte (q :: asserted) then match byte_cex asserted q with Some _ => VC_INVALID | None => VC_VALID end else VC_TIMEOUT;
  vc_getCounterExampleArray := fun (asserted : list (@vcexpr model_vc)) (q arr : @vcexpr model_vc) =>
    match arr, byte_cex asserted q with TVar (Symbolic 0), Some b => [(0, b)] | _, _ => [] end;
|}.

Lemma holds_true (rho : assignment) t : term_over_byte t = true -> holds (u8 (rho (Symbolic 0) 0)) t = true <-> term_value rho t = Some (VBool true).
Proof. intros Ht. unfold holds. rewrite <- term_over_byte_value by done. repeat case_match; naive_solver. Qed.

#[global] Instance model_solver_laws : VCSolverLaws model_laws model_solver.
Proof.
  split. intros asserted q Ha Hq. unfold boold in *. cbn [vc_query model_solver denote model_laws] in *.
  destruct (forallb term_over_byte (q :: asserted)) eqn:Eo; [|done]. cbn in Eo. apply andb_true_iff in Eo as [Oq Oa]. rewrite forallb_forall in Oa.
  destruct (byte_cex asserted q) as [b|] eqn:Ec.
  - pose proof Ec as Ec'. unfold byte_cex in Ec'. apply List.find_some in Ec' as [Hb Hc]. apply list_elem_of_In in Hb. apply andb_true_iff in Hc as [Hall Hn]. rewrite forallb_forall in Hall.
    apply negb_true_iff in Hn. assert (u8 b = b) as Eb.
    { unfold byte_values in Hb. apply list_elem_of_fmap in Hb as (n & -> & Hn'). apply elem_of_seq in Hn'. apply u8_small. lia. }
    exists (byte_is b). assert (forall t, term_over_byte t = true -> holds b t = true <-> term_value (byte_is b) t = Some (VBool true)) as Hh.
    { intros t Ht. rewrite <- (holds_true (byte_is b) t Ht). unfold byte_is at 1. by rewrite Eb. }
    split_and!.
    + apply Forall_forall. intros t Ht. apply Hh; [apply Oa; by apply list_elem_of_In|]. apply Hall. by apply list_elem_of_In.
    + destruct (Hq (byte_is b)) as [[] E]; [|done]. apply (Hh q Oq) in E. congruence.
    + cbn [vc_getCounterExampleArray model_solver]. rewrite Ec. intros arr g i v Hg Hin. destruct arr as [[[| |]|]| | | | | | | | | | | | | |]; try (by apply elem_of_nil in Hin).
      apply list_elem_of_singleton in Hin as [= -> ->]. cbn in Hg. injection Hg as <-. split; [lia|exact Eb].
  - intros rho Hall. apply holds_true; [done|]. destruct (holds (u8 (rho (Symbolic 0) 0)) q) eqn:E; [done|]. exfalso. unfold byte_cex in Ec.
    pose proof (List.find_none _ _ Ec (u8 (rho (Symbolic 0) 0)) ltac:(apply list_elem_of_In, byte_value_in)) as Hf. cbn in Hf. rewrite E, andb_true_r in Hf.
    assert (forallb (holds (u8 (rho (Symbolic 0) 0))) asserted = true) as Hx; [|congruence]. apply forallb_forall. intros t Ht. apply holds_true; [by apply Oa|].
    rewrite Forall_forall in Hall. apply Hall. by apply list_elem_of_In.
Qed.

(** ** The builder and the core solver are exact *)

Definition empty_stp `{VC} : stp := MkStp [] [] [].

Lemma empty_stp_ok `{L : VCLaws} : cache_ok empty_stp.
Proof. split; constructor. Qed.

(** C10: for every meaning of the solver library's terms that obeys its laws, the builder
    translates every good expression that is encodable (it fails no assertion and
    overruns no width), whatever its caches hold from before, into a term of the
    same width that has the value of the expression under every assignment in
    which no division by zero takes part; the caches stay right. *)
Theorem construct_sound {H : VC} (L : VCLaws H) (optimizeDivides : bool) (e : expr) (s : stp) :
  cache_ok s -> good e -> encodable e = true ->
  exists r s', construct optimizeDivides e s = Some ((r, getWidth e), s') /\ cache_ok s' /\
    forall rho, exists x, termd rho r (getWidth e) x /\ (defined rho e -> x = eval rho e).
Proof.
  intros Hs Hg He. destruct (proj1 (construct_gives optimizeDivides) e Hg He s Hs) as ([r w] & s' & E & Hs' & Hw & Hm). cbn in Hw, Hm. subst w. by exists r, s'.
Qed.

(** A 32-bit value whose low byte is symbolic, and its quotient by seven. *)
Definition demo_word : expr := ZExt byte0 32.
Definition demo_quotient : expr := Bin UDiv (Bin Mul (Constant 32 119) demo_word) (Constant 32 7).

Lemma demo_word_good : good demo_word.
Proof. cbn. unfold Int8, Int32. repeat split; lia. Qed.

Lemma demo_quotient_good : good demo_quotient.
Proof. pose proof demo_word_good as H. cbn in *. repeat split; try lia; try apply H; auto. Qed.

Lemma construct_sound_witness :
  exists r s', construct true demo_quotient empty_stp = Some ((r, 32), s') /\
    forall rho, exists x, termd (L := model_laws) rho r 32 x /\ (defined rho demo_quotient -> x = eval rho demo_quotient).
Proof.
  destruct (construct_sound model_laws true demo_quotient empty_stp) as (r & s' & H1 & _ & H2);
    [apply empty_stp_ok|exact demo_quotient_good|reflexivity|].
  exists r, s'. split; [exact H1|exact H2].
Defined.

(** C13: take a solver library that decides whether asserted formulas imply a
    query, and a query whose constraints are satisfiable, whose constraints and
    expression can be translated ([encodable]) and divide by zero under no
    assignment, and objects of at most [2 ^ 32] bytes.  Then the core solver's answers
    are right: [computeTruth] says true just when the
    constraints imply the query, and [computeInitialValues] returns nothing just
    when they do and otherwise bytes of an assignment that satisfies the
    constraints and refutes the query; a timeout is reported as a failure, no
    assertion fails, and the builder's caches stay right.  What can go wrong
    outside of these conditions is in [encoding_gaps]. *)
Theorem stp_solver_exact {H : VC} (L : VCLaws H) (V : VCSolver H) (SL : VCSolverLaws L V) (optimizeDivides : bool) (q : Query) (objects : list array) :
  stp_query q -> wf_query q -> Forall (fun a => good_array a /\ small_array a = true) objects ->
  returns cache_ok (stp_computeTruth optimizeDivides q) (fun b => b = true <-> valid q) /\
  returns cache_ok (stp_computeInitialValues optimizeDivides q objects) (fun b =>
    match b with
    | Some b => exists rho, cm_sat rho (q_constraints q) /\ ~ sat rho (q_expr q) /\ fits rho b
    | None => valid q
    end).
Proof. intros Hq Hw Ho. split; [by apply truth_ok|by apply initial_values_ok]. Qed.

(** The byte is at most twenty; is its quotient by seven below three? *)
Definition demo_limit : ConstraintManager := CM (Cmp Ule byte0 (Constant 8 20)) 1.
Definition demo_below (n : Z) : Query := MkQuery demo_limit (Cmp Ult (Bin UDiv demo_word (Constant 32 7)) (Constant 32 n)).

Lemma demo_below_ok n : 0 <= n < 2 ^ 32 -> stp_query (demo_below n) /\ wf_query (demo_below n).
Proof.
  intros Hn. split.
  - split_and!; [|reflexivity|intros rho; cbn; by repeat split]. change (cm_terms _) with [Cmp Ule byte0 (Constant 8 20)]. constructor; [|constructor]. split; [reflexivity|]. intros rho. cbn. by repeat split.
  - split; [split; [|exists (byte_is 0); reflexivity]|]; (split; [|reflexivity]); pose proof demo_word_good as H; cbn in *; repeat split; try lia; try apply H; auto.
Qed.

Lemma stp_solver_exact_witness :
  (stp_computeTruth true (demo_below 3) empty_stp).1 = Success true /\
  returns cache_ok (stp_computeTruth true (demo_below 2)) (fun b => b = true <-> valid (demo_below 2)) /\
  (stp_computeInitialValues true (demo_below 2) [Symbolic 0] empty_stp).1 = Success (Some [(Symbolic 0, 0, 14)]).
Proof.
  split; [vm_compute; reflexivity|]. split; [|vm_compute; reflexivity].
  destruct (demo_below_ok 2 ltac:(lia)) as [H1 H2].
  destruct (stp_solver_exact model_laws model_solver model_solver_laws true (demo_below 2) [Symbolic 0]) as [H3 _]; [exact H1|exact H2|repeat constructor|exact H3].
Defined.

(** C40: the limits of [encodable] are real; for each of these expressions, which the
    creators build, the term and the expression differ.  A constant of 80 bits
    becomes a term of its low 64 bits; a 32-bit value shifted left by the constant
    32 stays as it is, as only the low five bits of the amount are kept, while the
    expression is zero; the sign extension of a condition to 128 bits sets only 64
    of them; and a division by the constant zero makes the computation of the
    constants divide by zero. *)
Theorem encoding_gaps :
  (exists r s, construct true (Constant 80 (2 ^ 79)) empty_stp = Some ((r, 80), s) /\ forall rho, term_value rho r = Some (VBV 64 0)) /\
  (let e := ShlExpr_create demo_word (Constant 32 32) in
   good e /\ exists r s, construct true e empty_stp = Some ((r, 32), s) /\
     forall rho, term_value rho r = Some (VBV 32 (eval rho demo_word)) /\ eval rho e = 0) /\
  (let e := SExtExpr_create (UltExpr_create byte0 (Constant 8 10)) 128 in
   good e /\ exists r s, construct true e empty_stp = Some ((r, 128), s) /\
     forall rho, eval rho byte0 < 10 -> term_value rho r = Some (VBV 128 (2 ^ 64 - 1)) /\ eval rho e = 2 ^ 128 - 1) /\
  construct true (UDivExpr_create demo_word (Constant 32 0)) empty_stp = None.
Proof.
  split_and!.
  - eexists _, _. split; [vm_compute; reflexivity|]. intros rho. reflexivity.
  - assert (ShlExpr_create demo_word (Constant 32 32) = Bin Shl demo_word (Constant 32 32)) as -> by (vm_compute; reflexivity). cbn zeta.
    pose proof demo_word_good as Hg. split; [split_and!; [done|split; lia|done|done|by left]|]. exists (TConcat (TConst 24 0) byte_term). eexists. split; [vm_compute; reflexivity|].
    intros rho. assert (eval rho demo_word = eval rho byte0) as Ew by (apply zext_small, (inrange_wider 8); [apply (eval_range byte0 rho), Hg|lia]). split.
    + rewrite Ew. cbn -[Z.pow cat]. change (0 mod 2 ^ 24) with 0. change (0 mod 2 ^ 32) with 0. by rewrite cat_zero.
    + cbn [eval]. apply (shl_big 32). cbn. lia.
  - assert (SExtExpr_create (UltExpr_create byte0 (Constant 8 10)) 128 = SExt (Cmp Ult byte0 (Constant 8 10)) 128) as -> by (vm_compute; reflexivity). cbn zeta.
    pose proof demo_word_good as [Hg _]. split; [split_and!; [split_and!; [done|split; lia|done|by left]|cbn; unfold Bool; lia|done]|].
    exists (TIte (TCmp Ult byte_term (TConst 8 10)) (TConst 128 (2 ^ 64 - 1)) (TConst 128 0)). eexists. split; [vm_compute; reflexivity|]. intros rho Hb.
    assert (u8 (rho (Symbolic 0) 0) <? 10 = true) as Hlt by (by apply Z.ltb_lt). split.
    + cbn -[Z.pow u8]. change (0 mod 2 ^ 32) with 0. change (10 mod 2 ^ 8) with 10. rewrite Hlt. reflexivity.
    + cbn [eval c_cmp]. change (eval rho byte0) with (u8 (rho (Symbolic 0) 0)). cbn [eval]. rewrite Hlt. reflexivity.
  - vm_compute. reflexivity.
Qed.
