(* ===== verification/PathManager.v ===== *)
(** * The path manager ([lib/ICS/PathManager.cpp], [include/ics/PathManager.h])

    The worklist of the exploration: the frontier of inputs to explore, the
    schedules found so far, and the canonical forms of the path constraints that
    were seen.  [processSlice] takes the slice of an executed path, records it
    and adds the constraints of the paths that branch off it; an input to
    execute next is taken from the frontier by [instantiateNextInput].
    Statistics and debug output are left out; a failed assertion is [None]. *)

From stdpp Require Import base gmap list.
From Stdlib Require Import ZArith Lia.
From S2P Require Import Prelude HbGraph BitVec Expr ExprCreate ExprSound ExprBits ExprVisit Constraints ForkTrace SliceTrace Solver SolverChain Independent.

(** ** Data *)

Record PCEntry := PCE { pce_fc : ForkClass; pce_expr : expr; pce_hbNode : Z }.

Record PathConstraint := MkPC {
  pc_branch : Z;
  pc_lastCond : option expr;
  pc_lastTuid : ThreadUid;
  pc_fullSummary : expr;
  pc_conciseSummary : expr;
  pc_canonical : expr;
  pc_list : list PCEntry;
  pc_ctxswitches : list ThreadUid;
}.

Definition pc_new : PathConstraint := MkPC 0 None (Tuid 0 0) true_ true_ true_ [] [].

Definition set_branch (b : Z) (t : ThreadUid) (pc : PathConstraint) : PathConstraint :=
  MkPC b (pc_lastCond pc) t (pc_fullSummary pc) (pc_conciseSummary pc) (pc_canonical pc) (pc_list pc) (pc_ctxswitches pc).
Definition set_lastCond (c : expr) (pc : PathConstraint) : PathConstraint :=
  MkPC (pc_branch pc) (Some c) (pc_lastTuid pc) (pc_fullSummary pc) (pc_conciseSummary pc) (pc_canonical pc) (pc_list pc) (pc_ctxswitches pc).
Definition set_summary (full concise : expr) (pc : PathConstraint) : PathConstraint :=
  MkPC (pc_branch pc) (pc_lastCond pc) (pc_lastTuid pc) full concise (pc_canonical pc) (pc_list pc) (pc_ctxswitches pc).
Definition set_canonical (c : expr) (pc : PathConstraint) : PathConstraint :=
  MkPC (pc_branch pc) (pc_lastCond pc) (pc_lastTuid pc) (pc_fullSummary pc) (pc_conciseSummary pc) c (pc_list pc) (pc_ctxswitches pc).
Definition set_list (l : list PCEntry) (pc : PathConstraint) : PathConstraint :=
  MkPC (pc_branch pc) (pc_lastCond pc) (pc_lastTuid pc) (pc_fullSummary pc) (pc_conciseSummary pc) (pc_canonical pc) l (pc_ctxswitches pc).
Definition push_ctxswitch (t : ThreadUid) (pc : PathConstraint) : PathConstraint :=
  MkPC (pc_branch pc) (pc_lastCond pc) (pc_lastTuid pc) (pc_fullSummary pc) (pc_conciseSummary pc) (pc_canonical pc) (pc_list pc)
    (pc_ctxswitches pc ++ [t]).

Record QueuedPathConstraint := MkQueued { q_pc : PathConstraint; q_hbGraph : option HBGraph; q_maxIdToReplay : Z }.

Record CoveredSchedule := MkSchedule { cs_input : PathConstraint; cs_hbGraph : HBGraph; cs_exitsProgram : bool; cs_id : Z }.

Record PathManager := MkPM {
  pm_frontier : list QueuedPathConstraint;
  pm_frontierSet : list expr;
  pm_explored : list CoveredSchedule;
  pm_exploredSet : list expr;
  pm_priorPC : PathConstraint;
}.

Definition PathManager_new : PathManager := MkPM [] [] [] [] pc_new.
Definition resetToEmpty (pm : PathManager) : PathManager := PathManager_new.
Definition clearFrontier (pm : PathManager) : PathManager :=
  MkPM [] (pm_frontierSet pm) (pm_explored pm) (pm_exploredSet pm) (pm_priorPC pm).
Definition clearCaches (pm : PathManager) : PathManager := MkPM (pm_frontier pm) [] (pm_explored pm) [] (pm_priorPC pm).
Definition isFrontierEmpty (pm : PathManager) : bool := match pm_frontier pm with [] => true | _ => false end.
Definition isExploredEmpty (pm : PathManager) : bool := match pm_explored pm with [] => true | _ => false end.
Definition numFrontier (pm : PathManager) : nat := length (pm_frontier pm).
Definition numExplored (pm : PathManager) : nat := length (pm_explored pm).

Definition mem (e : expr) (s : list expr) : bool := existsb (expr_eqb e) s.

Definition see_explored (es : list expr) (pm : PathManager) : PathManager :=
  MkPM (pm_frontier pm) (pm_frontierSet pm) (pm_explored pm) (es ++ pm_exploredSet pm) (pm_priorPC pm).
Definition push_frontier (q : QueuedPathConstraint) (seen : list expr) (pm : PathManager) : PathManager :=
  MkPM (pm_frontier pm ++ [q]) (seen ++ pm_frontierSet pm) (pm_explored pm) (pm_exploredSet pm) (pm_priorPC pm).
Definition push_explored (s : CoveredSchedule) (pm : PathManager) : PathManager :=
  MkPM (pm_frontier pm) (pm_frontierSet pm) (pm_explored pm ++ [s]) (pm_exploredSet pm) (pm_priorPC pm).
Definition set_frontier (f : list QueuedPathConstraint) (pm : PathManager) : PathManager :=
  MkPM f (pm_frontierSet pm) (pm_explored pm) (pm_exploredSet pm) (pm_priorPC pm).

Section manager.

(** [a.compare(b) < 0], the order of the sets of expressions; the outcome of
    [TimingSolver::mustBeTrue] under some constraints, a failure counting as
    [false]; and [OptNoConcretizationConstraintsInSlice]. *)
Context (less : expr -> expr -> bool) (must : ConstraintManager -> expr -> bool) (optNoConcretization : bool).

(** ** Building path constraints *)

(** An [ImmutableExprSet] as the list of its elements in order. *)
Fixpoint set_insert (e : expr) (s : list expr) : list expr :=
  match s with
  | [] => [e]
  | x :: s' => if expr_eqb e x then s else if less e x then e :: s else x :: set_insert e s'
  end.

Record PathConstraintBuilder := MkBuilder {
  b_pc : PathConstraint;
  b_set : list expr;
  b_fullCanonical : expr;
  b_conciseCanonical : expr;
  b_length : Z;
}.

Definition builder_new : PathConstraintBuilder := MkBuilder pc_new [] true_ true_ 0.

Definition with_pc (f : PathConstraint -> PathConstraint) (b : PathConstraintBuilder) : PathConstraintBuilder :=
  MkBuilder (f (b_pc b)) (b_set b) (b_fullCanonical b) (b_conciseCanonical b) (b_length b).

Definition serializeExprSet (s : list expr) : expr := fold_left AndExpr_create s true_.
Definition serializeExprSetDisjunct (s : list expr) : expr := fold_left OrExpr_create s false_.

(** A new constraint manager with the one constraint [e]. *)
Definition constrain (e : expr) : option ConstraintManager :=
  match addConstraint e cm_clear with Added cm => Some cm | _ => None end.

Definition addToSummary (e : expr) (b : PathConstraintBuilder) : option PathConstraintBuilder :=
  let full := AndExpr_create (pc_fullSummary (b_pc b)) e in
  cm ← constrain full;
  Some (with_pc (set_summary full (cm_summary cm)) b).

Definition addToCanonical (e : expr) (b : PathConstraintBuilder) : option PathConstraintBuilder :=
  if mem e (b_set b) then Some b
  else
    let s := set_insert e (b_set b) in
    let full := serializeExprSet s in
    cm ← constrain full;
    let concise := serializeExprSet (fold_left (fun s e => set_insert e s) (cm_terms cm) []) in
    Some (MkBuilder (set_canonical concise (b_pc b)) s full concise (b_length b)).

Definition builder_add (e : expr) (hbNode : Z) (b : PathConstraintBuilder) : option PathConstraintBuilder :=
  b ← addToSummary e (with_pc (set_lastCond e) b);
  b ← addToCanonical e b;
  let pc := set_list (pc_list (b_pc b) ++ [PCE KLEE_FORK_INVARIANT_INPUT e hbNode]) (b_pc b) in
  Some (MkBuilder pc (b_set b) (b_fullCanonical b) (b_conciseCanonical b) (u64 (b_length b + 1))).

Definition addExtraInvariant (fc : ForkClass) (e : expr) (b : PathConstraintBuilder) : option PathConstraintBuilder :=
  if decide (fc = KLEE_FORK_INVARIANT_INPUT) then None
  else Some (with_pc (fun pc => set_list (pc_list pc ++ [PCE fc e 0]) pc) b).

(** From the back, entries that are neither branches nor inputs are removed. *)
Fixpoint trim (l : list PCEntry) : list PCEntry :=
  match l with
  | [] => []
  | x :: l => if bool_decide (pce_fc x = KLEE_FORK_INVARIANT_INPUT) || IsBranchingForkClass (pce_fc x) then x :: l else trim l
  end.
Definition trimExtraInvariants (b : PathConstraintBuilder) : PathConstraintBuilder :=
  with_pc (fun pc => set_list (rev (trim (rev (pc_list pc)))) pc) b.

(** ** Seen constraints *)

Definition alreadySeen (b : PathConstraintBuilder) (pm : PathManager) : bool :=
  mem (b_fullCanonical b) (pm_exploredSet pm) || mem (b_conciseCanonical b) (pm_exploredSet pm) ||
  mem (b_fullCanonical b) (pm_frontierSet pm) || mem (b_conciseCanonical b) (pm_frontierSet pm).

Definition addSchedule (s : CoveredSchedule) (pm : PathManager) : PathManager :=
  see_explored [pc_conciseSummary (cs_input s)] (push_explored s pm).

Definition disjuncts (e : expr) : list expr := match e with Bin Or _ _ => nary Or e | _ => [] end.

Fixpoint see_disjuncts (prior : PathConstraintBuilder) (ds : list expr) (pm : PathManager) : option PathManager :=
  match ds with
  | [] => Some pm
  | d :: ds => tmp ← addToCanonical d prior; see_disjuncts prior ds (see_explored [b_conciseCanonical tmp; b_fullCanonical tmp] pm)
  end.

Definition addExplored (cond : expr) (hbNode : Z) (b : PathConstraintBuilder) (pm : PathManager) :
    option (PathConstraintBuilder * PathManager) :=
  b' ← builder_add cond hbNode b;
  pm ← see_disjuncts b (disjuncts cond) (see_explored [b_conciseCanonical b'; b_fullCanonical b'] pm);
  Some (b', pm).

(** ** Slices *)

(** The variables of the loop of [processSlice]; [cm] is [kstate->globalConstraints]. *)
Record loop_state := MkLoop { l_pm : PathManager; l_builder : PathConstraintBuilder; l_cm : ConstraintManager; l_lastId : Z }.

Definition anyBranchesLeft (es : list Entry) : bool :=
  existsb (fun e => hasCondition e && match forkclass e with Some fc => IsBranchingOrInputForkClass fc | None => false end ||
                    hasOtherCtxSwitches e) es.

Section slice.
Context (oldHbGraph : HBGraph).

Definition switch_entry (e : Entry) (b : PathConstraintBuilder) (lastId : Z) (t : ThreadUid) : QueuedPathConstraint :=
  MkQueued (push_ctxswitch t (set_branch (e_kinst e) (e_tuid e) (b_pc b))) (Some oldHbGraph) lastId.

(** Apply ctx switches *)
Definition ctx_switches (e : Entry) (st : loop_state) : option loop_state :=
  if hasOtherCtxSwitches e then
    ts ← otherCtxSwitches e;
    let pm := fold_left (fun pm t => push_frontier (switch_entry e (l_builder st) (l_lastId st) t) [] pm) ts (l_pm st) in
    t ← targetTuid e;
    Some (MkLoop pm (with_pc (push_ctxswitch t) (l_builder st)) (l_cm st) (l_lastId st))
  else Some st.

Definition constrain_state (cond : expr) (cm : ConstraintManager) : option ConstraintManager :=
  match addConstraint cond cm with Added cm => Some cm | _ => None end.

(** One flipped condition. *)
Definition flip (e : Entry) (b : PathConstraintBuilder) (lastId : Z) (f : expr) (pm : PathManager) : option PathManager :=
  flipped ← builder_add f lastId (with_pc (set_branch (e_kinst e) (e_tuid e)) b);
  if alreadySeen flipped pm then Some pm
  else Some (push_frontier (MkQueued (b_pc flipped) (Some oldHbGraph) lastId) [b_conciseCanonical flipped; b_fullCanonical flipped] pm).

Fixpoint flip_all (e : Entry) (b : PathConstraintBuilder) (lastId : Z) (fs : list expr) (pm : PathManager) : option PathManager :=
  match fs with [] => Some pm | f :: fs => pm ← flip e b lastId f pm; flip_all e b lastId fs pm end.

Definition flips_of (e : Entry) (cond : expr) : option (list expr) :=
  use ← useFlippedConditions e;
  if use : bool then fs ← flippedConditions e; Some fs.*1 else Some [createIsZero cond].

(** A branch that is neither assumed nor redundant. *)
Definition branch (e : Entry) (cond : expr) (st : loop_state) : option loop_state :=
  lastId ← maxHbNodeId e;
  fs ← flips_of e cond;
  pm ← flip_all e (l_builder st) lastId fs (l_pm st);
  cm ← constrain_state cond (l_cm st);
  '(b, pm) ← addExplored cond lastId (l_builder st) pm;
  Some (MkLoop pm b cm lastId).

(** How the loop treats an entry with a condition. *)
Inductive treatment := Skip | Assume (keep : bool) | Flip.

Definition ignored (fc : ForkClass) : bool :=
  bool_decide (fc = KLEE_FORK_POINTER_ALIASING) || optNoConcretization && IsConcretizationForkClass fc.

Definition treat (cm : ConstraintManager) (fc : ForkClass) (cond : expr) : treatment :=
  if bool_decide (fc = KLEE_FORK_INVARIANT_INPUT) then Skip
  else if ignored fc then Assume false
  else if IsNonBranchingForkClass fc then if expr_eqb (simplifyExpr cm cond) true_ then Skip else Assume true
  else if must cm cond then Skip else Flip.

Definition is_assertion (e : Entry) : bool := bool_decide (kind e = Some Assertion).

Definition step (e : Entry) (st : loop_state) : option loop_state :=
  st ← ctx_switches e st;
  if negb (hasCondition e) then Some st
  else
    cond ← e_e e;
    fc ← forkclass e;
    match treat (l_cm st) fc cond with
    | Skip => if bool_decide (fc = KLEE_FORK_INVARIANT_INPUT) && negb (is_assertion e) then None else Some st
    | Assume keep =>
        b ← (if keep : bool then addExtraInvariant fc cond (l_builder st) else Some (l_builder st));
        cm ← constrain_state cond (l_cm st);
        if is_assertion e && negb (keep && default false (useFlippedConditions e))
        then Some (MkLoop (l_pm st) b cm (l_lastId st)) else None
    | Flip => branch e cond st
    end.

Fixpoint process (es : list Entry) (st : loop_state) : option loop_state :=
  match es with
  | [] => Some st
  | e :: es' => if anyBranchesLeft es then st ← step e st; process es' st else Some st
  end.

End slice.

(** What [processSlice] reads of the state: its graph, and the constraints that
    the region starts with. *)
Definition processSlice (hbGraph : HBGraph) (inputHarnessConstraints : ConstraintManager) (slice : list Entry) (programExited : bool)
    (nextId : Z) (pm : PathManager) : option PathManager :=
  let oldHbGraph := makeImmutableClone hbGraph in
  st ← process oldHbGraph slice (MkLoop pm builder_new inputHarnessConstraints 0);
  let b := trimExtraInvariants (l_builder st) in
  let pm := push_explored (MkSchedule (b_pc b) oldHbGraph programExited nextId) (l_pm st) in
  Some (set_frontier (filter (fun q => mem (pc_canonical (q_pc q)) (pm_exploredSet pm) = false) (pm_frontier pm)) pm).

(** ** The next input *)

(** The constraints that are given to [Executor::addConstraint], in order, the
    graph to replay and the context switches to replay. *)
Record next_input := MkNext { n_constraints : list (expr * ForkClass); n_hbGraph : HBGraph; n_ctxswitches : list ThreadUid }.

Definition is_input (x : PCEntry) : bool := bool_decide (pce_fc x = KLEE_FORK_INVARIANT_INPUT).

Definition extra_constraints (pc : PathConstraint) : ConstraintManager :=
  fold_left (fun cm x => addConstraintNoSimplify (pce_expr x) cm) (filter (fun x => is_input x = false) (pc_list pc)) cm_clear.

Definition input_constraints (pc : PathConstraint) : list PCEntry :=
  filter (fun x => is_input x || in_dependent_set (MkQuery (extra_constraints pc) (pc_fullSummary pc)) (pce_expr x) = true) (pc_list pc).

Definition instantiateNextInput (hbGraph : HBGraph) (pm : PathManager) : option (next_input * PathManager) :=
  match pm_frontier pm with
  | [] => None
  | next :: rest =>
      old ← q_hbGraph next;
      g ← startReplay (g_nodes old) (q_maxIdToReplay next) hbGraph;
      Some (MkNext ((fun x => (pce_expr x, pce_fc x)) <$> input_constraints (q_pc next)) g (pc_ctxswitches (q_pc next)),
            MkPM rest (pm_frontierSet pm) (pm_explored pm) (pm_exploredSet pm) (q_pc next))
  end.

End manager.
