(* ===== verification/PathTree.v ===== *)
(** * Exploration of a decision tree

    The specification of the path manager: a worklist over the paths of a
    decision tree.  After a sequence of conditions every input meets the same
    branch, whose alternatives exclude each other and cover all inputs; a run
    follows the alternatives of its input to a leaf and queues the other
    alternatives it passes. *)

From stdpp Require Import base gmap list.
From Stdlib Require Import ZArith Lia.
From S2P Require Import Prelude BitVec Expr ExprCreate ExprSound ExprBits ExprVisit Constraints.

Definition holds (rho : assignment) (p : list expr) : Prop := Forall (sat rho) p.

Lemma holds_singleton rho e : holds rho [e] <-> sat rho e.
Proof. apply Forall_singleton. Qed.

Lemma holds_snoc rho p e : holds rho (p ++ [e]) <-> holds rho p /\ sat rho e.
Proof. unfold holds. by rewrite Forall_app, Forall_singleton. Qed.

Lemma holds_prefix rho p q : p `prefix_of` q -> holds rho q -> holds rho p.
Proof. intros [k ->]. unfold holds. rewrite Forall_app. tauto. Qed.

Lemma prefix_snoc {A} (q p : list A) e : q `prefix_of` p ++ [e] <-> q = p ++ [e] \/ q `prefix_of` p.
Proof.
  split.
  - intros [k Hk]. destruct k as [|x k _] using rev_ind; [left; by rewrite app_nil_r in Hk|]. rewrite app_assoc in Hk.
    apply app_inj_tail in Hk as [-> _]. right. by eexists.
  - intros [-> | H]; [done|]. by apply prefix_app_r.
Qed.

(** ** Trees *)

(** The inputs, and the alternatives of the branch after a path; none at a leaf. *)
Section tree.
Context (D : assignment -> Prop) (alts : list expr -> list expr).

Inductive node : list expr -> Prop :=
| node_root : node []
| node_child p a : node p -> a ∈ alts p -> node (p ++ [a]).

Record decision_tree : Prop := {
  dt_boolean : forall p a, node p -> a ∈ alts p -> boolean a;
  dt_feasible : forall p, node p -> exists rho, D rho /\ holds rho p;
  dt_cover : forall p rho, node p -> alts p <> [] -> D rho -> holds rho p -> exists a, a ∈ alts p /\ sat rho a;
  dt_exclusive : forall p a b rho, node p -> a ∈ alts p -> b ∈ alts p -> D rho -> holds rho p -> sat rho a -> sat rho b -> a = b;
  dt_branching : forall p a, node p -> a ∈ alts p -> exists b, b ∈ alts p /\ b <> a;
}.

Lemma node_snoc_inv p a : node (p ++ [a]) -> node p /\ a ∈ alts p.
Proof.
  intros H. remember (p ++ [a]) as q eqn:E. destruct H as [|p' a' H Ha]; [by destruct p|].
  by apply app_inj_tail in E as [-> ->].
Qed.

Lemma node_prefix p q : p `prefix_of` q -> node q -> node p.
Proof.
  intros Hp Hq. induction Hq as [|q a Hq IH Ha]; [apply prefix_nil_inv in Hp as ->; constructor|].
  apply prefix_snoc in Hp as [-> | Hp]; [by constructor|auto].
Qed.

Section facts.
Context (T : decision_tree).

Lemma node_boolean p : node p -> Forall boolean p.
Proof. induction 1 as [|p a Hp IH Ha]; [constructor|]. apply Forall_app. split; [done|]. repeat constructor; by eapply (dt_boolean T). Qed.

(** The nodes that one input satisfies lie on one path. *)
Lemma node_comparable p q rho : node p -> node q -> D rho -> holds rho p -> holds rho q -> p `prefix_of` q \/ q `prefix_of` p.
Proof.
  intros Hp Hq HD. revert q Hq. induction Hp as [|p a Hp IH Ha]; intros q Hq Hrp Hrq; [left; apply prefix_nil|].
  apply holds_snoc in Hrp as [Hrp Hra]. destruct (IH q Hq Hrp Hrq) as [[k ->] | H]; [|right; by apply prefix_app_r].
  destruct k as [|b k]; [right; exists [a]; by rewrite app_nil_r|]. left.
  assert ((p ++ [b]) `prefix_of` p ++ b :: k) as Hpre by (exists k; by rewrite <- app_assoc).
  destruct (node_snoc_inv p b) as [_ Hb]; [by eapply node_prefix|].
  assert (holds rho (p ++ [b])) as Hrb by (by eapply holds_prefix). apply holds_snoc in Hrb as [_ Hrb].
  rewrite (dt_exclusive T p a b rho) by done. done.
Qed.

Lemma node_longer p k : node (p ++ k) -> k <> [] -> exists rho, D rho /\ holds rho p /\ ~ holds rho (p ++ k).
Proof.
  intros Hn Hk. destruct k as [|a k]; [done|].
  assert ((p ++ [a]) `prefix_of` p ++ a :: k) as Hpre by (exists k; by rewrite <- app_assoc).
  destruct (node_snoc_inv p a) as [Hp Ha]; [by eapply node_prefix|]. destruct (dt_branching T p a Hp Ha) as (b & Hb & Hne).
  destruct (dt_feasible T (p ++ [b])) as (rho & HD & Hr); [by constructor|]. apply holds_snoc in Hr as [Hr Hrb].
  exists rho. split; [done|]. split; [done|]. intros Hc. pose proof (holds_prefix _ _ _ Hpre Hc) as [_ Hra]%holds_snoc.
  by apply Hne, (dt_exclusive T p b a rho).
Qed.

(** Different nodes have different inputs. *)
Lemma node_region_inj p q : node p -> node q -> (forall rho, D rho -> holds rho p <-> holds rho q) -> p = q.
Proof.
  intros Hp Hq H. destruct (dt_feasible T p Hp) as (rho & HD & Hr).
  destruct (node_comparable p q rho) as [[k ->] | [k ->]]; [done|done|done|done|by apply H| |].
  - destruct (decide (k = [])) as [-> | Hk]; [by rewrite app_nil_r|].
    destruct (node_longer p k Hq Hk) as (r & Hr1 & Hr2 & []). by apply H.
  - destruct (decide (k = [])) as [-> | Hk]; [by rewrite app_nil_r|].
    destruct (node_longer q k Hp Hk) as (r & Hr1 & Hr2 & []). by apply H.
Qed.

(** The leaf of an input is below every node the input satisfies. *)
Lemma leaf_below p q rho : node p -> node q -> alts q = [] -> D rho -> holds rho p -> holds rho q -> p `prefix_of` q.
Proof.
  intros Hp Hq Hl HD Hrp Hrq. destruct (node_comparable p q rho) as [? | [k ->]]; [done..|].
  destruct k as [|a k]; [by rewrite app_nil_r|].
  assert ((q ++ [a]) `prefix_of` q ++ a :: k) as Hpre by (exists k; by rewrite <- app_assoc).
  destruct (node_snoc_inv q a) as [_ Ha]; [by eapply node_prefix|]. rewrite Hl in Ha. by apply elem_of_nil in Ha.
Qed.

End facts.

(** ** The worklist *)

(** Paths to run, the paths that were ever queued, the prefixes of the runs, and
    the runs. *)
Record worklist := MkWork { w_frontier : list (list expr); w_queued : list (list expr); w_opened : list (list expr); w_runs : list (list expr) }.

Definition w_start : worklist := MkWork [[]] [] [] [].

Definition w_flip (p : list expr) (w : worklist) (f : expr) : worklist :=
  if decide (p ++ [f] ∈ w_opened w \/ p ++ [f] ∈ w_queued w) then w
  else MkWork (w_frontier w ++ [p ++ [f]]) ((p ++ [f]) :: w_queued w) (w_opened w) (w_runs w).

Definition w_open (p : list expr) (w : worklist) : worklist := MkWork (w_frontier w) (w_queued w) (p :: w_opened w) (w_runs w).

(** A run meets branches, each with the alternative it takes and the others. *)
Fixpoint w_follow (p : list expr) (steps : list (expr * list expr)) (w : worklist) : worklist :=
  match steps with
  | [] => w
  | (c, fs) :: steps => w_follow (p ++ [c]) steps (w_open (p ++ [c]) (fold_left (w_flip p) fs w))
  end.

Definition w_finish (path : list expr) (w : worklist) : worklist :=
  MkWork (filter (fun p => p ∉ w_opened w) (w_frontier w)) (w_queued w) (w_opened w) (w_runs w ++ [path]).

Definition w_pop (w : worklist) : worklist := MkWork (tail (w_frontier w)) (w_queued w) (w_opened w) (w_runs w).

Definition w_run (steps : list (expr * list expr)) (w : worklist) : worklist := w_finish steps.*1 (w_follow [] steps w).

Fixpoint follows (p : list expr) (steps : list (expr * list expr)) : Prop :=
  match steps with
  | [] => alts p = []
  | (c, fs) :: steps => (forall x, x ∈ alts p <-> x = c \/ x ∈ fs) /\ c ∉ fs /\ follows (p ++ [c]) steps
  end.

Lemma follows_node p steps : node p -> follows p steps -> node (p ++ steps.*1) /\ alts (p ++ steps.*1) = [].
Proof.
  revert p. induction steps as [|[c fs] steps IH]; intros p Hp; cbn; [by rewrite app_nil_r|]. intros (Ha & _ & Hf).
  destruct (IH (p ++ [c])) as [H1 H2]; [|done|]; [constructor; [done|]; apply Ha; by left|]. by rewrite <- app_assoc in H1, H2.
Qed.

(** ** Invariant *)

Record w_inv (w : worklist) : Prop := {
  wi_nodes : forall p, p ∈ w_frontier w \/ p ∈ w_queued w \/ p ∈ w_opened w \/ p ∈ w_runs w -> node p;
  wi_queued : forall p, p ∈ w_frontier w -> p ∈ w_queued w \/ p = [];
  wi_nodup : NoDup (w_frontier w);
  wi_fresh : forall p q, p ∈ w_frontier w -> q ∈ w_opened w \/ q ∈ w_runs w -> ~ p `prefix_of` q;
  wi_fresh_queued : forall p q, p ∈ w_frontier w -> q ∈ w_queued w -> p `prefix_of` q -> p = q;
  wi_closed : forall q r, q ∈ w_opened w \/ q ∈ w_queued w -> r `prefix_of` q -> r = [] \/ r ∈ w_opened w \/ r ∈ w_queued w;
  wi_runs : forall q, q ∈ w_runs w -> alts q = [] /\ (q = [] \/ q ∈ w_opened w);
  wi_runs_nodup : NoDup (w_runs w);
}.

Definition w_covered (w : worklist) (rho : assignment) : Prop :=
  (exists p, p ∈ w_runs w /\ holds rho p) \/ exists p, p ∈ w_frontier w /\ holds rho p.

Lemma w_start_inv : w_inv w_start.
Proof.
  split; cbn; intros.
  - assert (p = []) as -> by set_solver. constructor.
  - right. set_solver.
  - apply NoDup_singleton.
  - set_solver.
  - set_solver.
  - set_solver.
  - set_solver.
  - constructor.
Qed.

(** In a run to [path] from [start], at [p] with some alternatives queued. *)
Record w_loop (start path p : list expr) (w : worklist) : Prop := {
  wl_inv : w_inv w;
  wl_off : forall q, q ∈ w_frontier w -> ~ q `prefix_of` path;
  wl_opened : forall r, r `prefix_of` p -> r = [] \/ r ∈ w_opened w;
  wl_below : forall q, q ∈ w_opened w \/ q ∈ w_queued w -> start `prefix_of` q -> start <> q ->
    (length q <= S (length p))%nat /\ (length q = S (length p) -> q ∈ w_frontier w);
}.

Lemma w_flip_loop start path p w f c :
  w_loop start path p w -> (p ++ [c]) `prefix_of` path -> c <> f -> node p -> f ∈ alts p -> w_loop start path p (w_flip p w f).
Proof.
  intros [[N Q ND Fr FQ Cl R RND] Off Op Be] Hpc Hne Hp Hf. unfold w_flip. destruct (decide _) as [|Hs]; [by split; [split|..]|].
  assert (p ++ [f] ∉ w_frontier w) as Hnf.
  { intros Hin. destruct (Q _ Hin) as [| Hnil]; [tauto|]. by destruct p. }
  assert (~ (p ++ [f]) `prefix_of` path) as Hoff.
  { intros [k1 E1]. destruct Hpc as [k2 E2]. rewrite E1, <- !app_assoc in E2. apply app_inv_head in E2. by injection E2. }
  assert (forall q, q ∈ w_opened w \/ q ∈ w_queued w -> ~ (p ++ [f]) `prefix_of` q) as Hbelow.
  { intros q Hq Hpre. destruct (Cl q _ Hq Hpre) as [Hnil|]; [by destruct p|tauto]. }
  split; [split; cbn|..]; cbn.
  - intros q. rewrite elem_of_app, list_elem_of_singleton, elem_of_cons. intros Hq.
    assert (q = p ++ [f] \/ q ∈ w_frontier w \/ q ∈ w_queued w \/ q ∈ w_opened w \/ q ∈ w_runs w) as [-> | ] by tauto; [by constructor|auto].
  - intros q [Hq | ->%list_elem_of_singleton]%elem_of_app; [destruct (Q q Hq); [left; by right|by right]|left; left].
  - apply NoDup_app. split; [done|]. split; [|apply NoDup_singleton]. by intros x Hx ->%list_elem_of_singleton.
  - intros q x [Hq | ->%list_elem_of_singleton]%elem_of_app Hx; [by apply Fr|]. destruct Hx as [Hx|Hx]; [by apply Hbelow; left|].
    destruct (R x Hx) as [_ [-> | Hx']]; [|by apply Hbelow; left]. intros Hnil%prefix_nil_inv. by destruct p.
  - intros q x [Hq | ->%list_elem_of_singleton]%elem_of_app [-> | Hx]%elem_of_cons Hpre; [|by apply FQ|done|by destruct (Hbelow x); [right|]].
    apply prefix_snoc in Hpre as [| Hpre]; [done|]. destruct (Off q Hq). transitivity p; [done|]. transitivity (p ++ [c]); [by eexists|done].
  - intros q r Hq Hr. rewrite elem_of_cons in Hq. assert (q = p ++ [f] \/ q ∈ w_opened w \/ q ∈ w_queued w) as [-> | Hq'] by tauto.
    + apply prefix_snoc in Hr as [-> | Hr]; [right; right; left|]. destruct (Op r Hr); auto.
    + destruct (Cl q r Hq' Hr) as [|[|]]; [by left|by right; left|right; right; by right].
  - done.
  - done.
  - intros q [Hq | ->%list_elem_of_singleton]%elem_of_app; [by apply Off|done].
  - done.
  - intros q Hq Hs1 Hs2. rewrite elem_of_cons in Hq. assert (q = p ++ [f] \/ q ∈ w_opened w \/ q ∈ w_queued w) as [-> | Hq'] by tauto.
    + rewrite length_app, Nat.add_comm. split; [done|]. intros _. apply elem_of_app. right. by left.
    + destruct (Be q Hq' Hs1 Hs2) as [H1 H2]. split; [done|]. intros H. apply elem_of_app. left. auto.
Qed.

(** What only grows. *)
Definition w_le (w w' : worklist) : Prop :=
  w_frontier w ⊆ w_frontier w' /\ w_queued w ⊆ w_queued w' /\ w_opened w ⊆ w_opened w' /\ w_runs w = w_runs w'.

#[local] Instance w_le_preorder : PreOrder w_le.
Proof.
  split; [done|]. intros x y z (H1 & H2 & H3 & H4) (K1 & K2 & K3 & K4). split; [by transitivity (w_frontier y)|].
  split; [by transitivity (w_queued y)|]. split; [by transitivity (w_opened y)|by transitivity (w_runs y)].
Qed.

Lemma w_le_covered w w' rho : w_le w w' -> w_covered w rho -> w_covered w' rho.
Proof. intros (HF & _ & _ & HR) [(q & Hq & Hr) | (q & Hq & Hr)]; [left|right]; exists q; split; [by rewrite <- HR|done|by apply HF|done]. Qed.

Lemma w_flip_le p w f : w_le w (w_flip p w f) /\ (p ++ [f] ∈ w_opened (w_flip p w f) \/ p ++ [f] ∈ w_queued (w_flip p w f)).
Proof.
  unfold w_flip. destruct (decide _) as [|_]; [done|]. unfold w_le. cbn. split; [|right; left]. repeat split; intros x Hx; [apply elem_of_app; by left|by right|done].
Qed.

Lemma w_flips_loop start path p c fs w :
  w_loop start path p w -> (p ++ [c]) `prefix_of` path -> c ∉ fs -> node p -> fs ⊆ alts p ->
  let w' := fold_left (w_flip p) fs w in
  w_loop start path p w' /\ w_le w w' /\ forall f, f ∈ fs -> p ++ [f] ∈ w_opened w' \/ p ++ [f] ∈ w_queued w'.
Proof.
  intros Hl Hpc Hc Hp Hfs w'. subst w'. revert w Hl. induction fs as [|f fs IH]; intros w Hl; cbn; [split; [done|]; split; [done|]; set_solver|].
  destruct (w_flip_le p w f) as [Hle Hin]. destruct (IH ltac:(set_solver) ltac:(set_solver) (w_flip p w f)) as (Hl' & Hle' & Hin').
  { apply w_flip_loop with c; [done|done|set_solver|done|set_solver]. }
  split; [done|]. split; [by transitivity (w_flip p w f)|]. intros x [-> | Hx]%elem_of_cons; [|by apply Hin'].
  destruct Hle' as (_ & H2 & H3 & _). destruct Hin as [Hin | Hin]; [left; by apply H3|right; by apply H2].
Qed.

Lemma w_open_loop start path p c w :
  w_loop start path p w -> (p ++ [c]) `prefix_of` path -> node (p ++ [c]) -> w_loop start path (p ++ [c]) (w_open (p ++ [c]) w).
Proof.
  intros [[N Q ND Fr FQ Cl R RND] Off Op Be] Hpc Hn. split; [split; cbn; try done|done| |]; cbn.
  - intros q. rewrite elem_of_cons. intros Hq.
    assert (q = p ++ [c] \/ q ∈ w_frontier w \/ q ∈ w_queued w \/ q ∈ w_opened w \/ q ∈ w_runs w) as [-> | ] by tauto; [done|auto].
  - intros q x Hq Hx. rewrite elem_of_cons in Hx. assert (x = p ++ [c] \/ x ∈ w_opened w \/ x ∈ w_runs w) as [-> | Hx'] by tauto; [|by apply Fr].
    intros Hpre. apply (Off q Hq). by transitivity (p ++ [c]).
  - intros q r Hq Hr. rewrite elem_of_cons in Hq. assert (q = p ++ [c] \/ q ∈ w_opened w \/ q ∈ w_queued w) as [-> | Hq'] by tauto.
    + apply prefix_snoc in Hr as [-> | Hr]; [right; left; left|]. destruct (Op r Hr); [by left|right; left; by right].
    + destruct (Cl q r Hq' Hr) as [|[|]]; [by left|right; left; by right|by right; right].
  - intros q Hq. destruct (R q Hq) as [? [|]]; split; [done|by left|done|right; by right].
  - intros r [-> | Hr]%prefix_snoc; [right; left|]. destruct (Op r Hr); [by left|right; by right].
  - intros q Hq Hs1 Hs2. rewrite length_app, Nat.add_comm. rewrite elem_of_cons in Hq. cbn.
    assert (q = p ++ [c] \/ q ∈ w_opened w \/ q ∈ w_queued w) as [-> | Hq'] by tauto.
    + rewrite length_app, Nat.add_comm. cbn. lia.
    + destruct (Be q Hq' Hs1 Hs2). lia.
Qed.

Lemma w_open_le p w : w_le w (w_open p w).
Proof. split; [done|]. split; [done|]. split; [|done]. intros x Hx. by right. Qed.

(** ** Coverage *)

Section covering.
Context (T : decision_tree).

Definition covering (start p : list expr) (w : worklist) : Prop :=
  forall rho, D rho -> w_covered w rho \/ holds rho start /\ holds rho p.

Lemma prefixes_comparable {A} (p q r : list A) : p `prefix_of` r -> q `prefix_of` r -> p `prefix_of` q \/ q `prefix_of` p.
Proof. intros H1 H2. destruct (prefix_weak_total p q r H1 H2); auto. Qed.

Lemma w_step_covering start path p c fs w :
  w_loop start path p w -> covering start p w -> start `prefix_of` path -> (p ++ [c]) `prefix_of` path -> node p ->
  (forall x, x ∈ alts p <-> x = c \/ x ∈ fs) -> c ∉ fs ->
  let w' := w_open (p ++ [c]) (fold_left (w_flip p) fs w) in
  w_loop start path (p ++ [c]) w' /\ covering start (p ++ [c]) w' /\ w_runs w' = w_runs w.
Proof.
  intros Hl Hcov Hs Hpc Hp Ha Hc w'. destruct (w_flips_loop start path p c fs w) as (Hl' & Hle & Hin); [done|done|done|done|intros x Hx; apply Ha; by right|].
  split; [|split]; [apply w_open_loop; [done|done|constructor; [done|]; apply Ha; by left]| |by destruct Hle as (_ & _ & _ & ->)].
  intros rho HD. destruct (Hcov rho HD) as [Hr | [Hr1 Hr2]]; [left; apply (w_le_covered w); [etrans; [exact Hle|apply w_open_le]|done]|].
  destruct (prefixes_comparable start (p ++ [c]) path Hs Hpc) as [Hsp | Hsp]; [|right; split; [done|by eapply holds_prefix]].
  apply prefix_snoc in Hsp as [-> | Hsp]; [by right|].
  destruct (dt_cover T p rho Hp) as (a & Haa & Hra); [|done|done|]; [intros E; specialize (Ha c); rewrite E in Ha; set_solver|].
  apply Ha in Haa as [-> | Hf]; [right; split; [done|by apply holds_snoc]|]. left. right. exists (p ++ [a]). split; [|by apply holds_snoc].
  cbn. apply (wl_below _ _ _ _ Hl'); [by apply Hin|by apply prefix_app_r| |by rewrite length_app, Nat.add_comm].
  intros ->. destruct Hsp as [k Hk]. apply (f_equal length) in Hk. rewrite !length_app in Hk. cbn in Hk. lia.
Qed.

Lemma w_follow_covering start path p steps w :
  w_loop start path p w -> covering start p w -> start `prefix_of` path -> p ++ steps.*1 = path -> node p -> follows p steps ->
  let w' := w_follow p steps w in w_loop start path path w' /\ covering start path w' /\ w_runs w' = w_runs w.
Proof.
  revert p w. induction steps as [|[c fs] steps IH]; intros p w Hl Hcov Hs Hpath Hp Hf; cbn in Hf, Hpath |- *; [rewrite app_nil_r in Hpath; by subst|].
  destruct Hf as (Ha & Hc & Hf). destruct (w_step_covering start path p c fs w) as (Hl' & Hcov' & Hr); try done.
  { exists steps.*1. by rewrite <- app_assoc. }
  destruct (IH (p ++ [c]) _ Hl' Hcov') as (H1 & H2 & H3); [done|by rewrite <- app_assoc|constructor; [done|apply Ha; by left]|done|].
  split; [done|]. split; [done|]. by rewrite H3.
Qed.

(** Nothing that is queued is subsumed by the paths that were run. *)
Lemma w_finish_frontier path w : w_inv w -> w_frontier (w_finish path w) = w_frontier w.
Proof.
  intros H. cbn. pose proof (wi_fresh w H) as Hf. clear H. revert Hf. generalize (w_opened w). intros o. induction (w_frontier w) as [|p l IH]; intros Hf; [done|].
  rewrite filter_cons_True, IH; [done| |]; [intros q x Hq; apply Hf; by right|]. intros Hin. by apply (Hf p p); [left|left|].
Qed.

Lemma w_pop_inv w : w_inv w -> w_inv (w_pop w).
Proof.
  intros [N Q ND Fr FQ Cl R RND]. assert (w_frontier (w_pop w) ⊆ w_frontier w) as Hsub.
  { cbn. destruct (w_frontier w); [done|]. intros x Hx. by right. }
  split; try done.
  - intros p [Hp | Hp]; apply N; auto.
  - auto.
  - cbn. destruct (w_frontier w); [done|]. by apply NoDup_cons in ND as [_ ND].
  - auto.
  - auto.
Qed.

(** The start of a run from the first path of the worklist. *)
Lemma w_pop_loop w start rest path :
  w_inv w -> w_frontier w = start :: rest -> start `prefix_of` path -> w_loop start path [] (w_pop w).
Proof.
  intros Hi HF Hs. pose proof Hi as [N Q ND Fr FQ Cl R RND]. rewrite HF in *. apply NoDup_cons in ND as [Hnot ND]. split.
  - by apply w_pop_inv.
  - cbn. rewrite HF. intros q Hq Hqp. assert (q ∈ start :: rest) as Hq' by (by right). assert (start ∈ start :: rest) as Hs' by left.
    apply Hnot. destruct (prefixes_comparable start q path Hs Hqp) as [H | H].
    + destruct (Q q Hq') as [Hin | ->]; [by rewrite (FQ start q Hs' Hin H)|]. by apply prefix_nil_inv in H as ->.
    + destruct (Q start Hs') as [Hin | ->]; [by rewrite <- (FQ q start Hq' Hin H)|]. by apply prefix_nil_inv in H as ->.
  - intros r ->%prefix_nil_inv. by left.
  - cbn. intros q [Hq | Hq] H1 H2; [by destruct (Fr start q); [left|left|]|]. destruct H2. apply FQ; [left|done|done].
Qed.

Lemma w_finish_inv start path w :
  w_loop start path path w -> node path -> alts path = [] -> path ∉ w_runs w -> w_inv (w_finish path w).
Proof.
  intros [Hi Off Op _] Hn Hleaf Hnew. pose proof (w_finish_frontier path w Hi) as HF. destruct Hi as [N Q ND Fr FQ Cl R RND].
  split; rewrite ?HF; cbn -[w_frontier]; try done.
  - intros q. rewrite elem_of_app, list_elem_of_singleton. intros Hq.
    assert (q = path \/ q ∈ w_frontier w \/ q ∈ w_queued w \/ q ∈ w_opened w \/ q ∈ w_runs w) as [-> | ] by tauto; [done|auto].
  - intros q x Hq. rewrite elem_of_app, list_elem_of_singleton. intros Hx.
    assert (x = path \/ x ∈ w_opened w \/ x ∈ w_runs w) as [-> | Hx'] by tauto; [by apply Off|by apply Fr].
  - intros q [Hq | ->%list_elem_of_singleton]%elem_of_app; [by apply R|]. split; [done|]. by apply Op.
  - apply NoDup_app. split; [done|]. split; [|apply NoDup_singleton]. by intros x Hx ->%list_elem_of_singleton.
Qed.

Lemma w_pop_covering w start rest :
  (forall rho, D rho -> w_covered w rho) -> w_frontier w = start :: rest -> covering start [] (w_pop w).
Proof.
  intros Hcov HF rho HD. destruct (Hcov rho HD) as [|(q & Hq & Hrho)]; [by left; left|]. unfold w_covered. cbn. rewrite HF in Hq |- *.
  apply elem_of_cons in Hq as [-> | Hq]; [right; split; [done|constructor]|left; right; by exists q].
Qed.

Lemma w_run_spec w start rest steps :
  w_inv w -> (forall rho, D rho -> w_covered w rho) -> w_frontier w = start :: rest -> follows [] steps -> start `prefix_of` steps.*1 ->
  let w' := w_run steps (w_pop w) in w_inv w' /\ (forall rho, D rho -> w_covered w' rho) /\ w_runs w' = w_runs w ++ [steps.*1].
Proof.
  intros Hi Hcov HF Hfol Hpre. destruct (follows_node [] steps node_root Hfol) as [Hn Hleaf]. cbn in Hn, Hleaf.
  destruct (w_follow_covering start steps.*1 [] steps (w_pop w)) as (Hl & Hcov' & Hr); [by apply (w_pop_loop w start rest)| |done|done|constructor|done|].
  { by apply (w_pop_covering w start rest). }
  set (w1 := w_follow [] steps (w_pop w)) in *. pose proof (w_finish_frontier steps.*1 w1 (wl_inv _ _ _ _ Hl)) as HF1.
  unfold w_run. fold w1. split; [|split].
  - apply w_finish_inv with start; [done|done|done|]. rewrite Hr. cbn. intros Hin. apply (wi_fresh w Hi start steps.*1); [rewrite HF; left|by right|done].
  - intros rho HD. unfold w_covered. rewrite HF1. cbn. destruct (Hcov' rho HD) as [[(q & Hq & Hrho) | H] | [_ H]]; [| |].
    + left. exists q. rewrite elem_of_app. auto.
    + by right.
    + left. exists steps.*1. rewrite elem_of_app. split; [right; left|done].
  - cbn. by rewrite Hr.
Qed.

Lemma w_follow_inv w start rest steps :
  w_inv w -> (forall rho, D rho -> w_covered w rho) -> w_frontier w = start :: rest -> follows [] steps -> start `prefix_of` steps.*1 ->
  w_inv (w_follow [] steps (w_pop w)).
Proof.
  intros Hi Hcov HF Hfol Hpre. destruct (w_follow_covering start steps.*1 [] steps (w_pop w)) as (Hl & _); [by apply (w_pop_loop w start rest)| |done|done|constructor|done|apply Hl].
  by apply (w_pop_covering w start rest).
Qed.

(** One run of each leaf: no input is in two of them. *)
Lemma w_runs_exclusive w i j p q rho :
  w_inv w -> D rho -> w_runs w !! i = Some p -> w_runs w !! j = Some q -> holds rho p -> holds rho q -> i = j.
Proof.
  intros Hi HD Hp Hq Hrp Hrq. pose proof (list_elem_of_lookup_2 _ _ _ Hp) as Ep. pose proof (list_elem_of_lookup_2 _ _ _ Hq) as Eq.
  assert (node p) as Np by (apply (wi_nodes w Hi); auto). assert (node q) as Nq by (apply (wi_nodes w Hi); auto).
  destruct (wi_runs w Hi p Ep) as [Lp _]. destruct (wi_runs w Hi q Eq) as [Lq _].
  pose proof (leaf_below T p q rho Np Nq Lq HD Hrp Hrq). pose proof (leaf_below T q p rho Nq Np Lp HD Hrq Hrp).
  assert (p = q) as -> by (by apply (anti_symm prefix)). by eapply NoDup_lookup; [apply (wi_runs_nodup w Hi)|..].
Qed.

(** There are no more runs than leaves. *)
Lemma w_runs_bounded w leaves :
  w_inv w -> (forall p, node p -> alts p = [] -> p ∈ leaves) -> (length (w_runs w) <= length leaves)%nat.
Proof.
  intros Hi Hl. apply submseteq_length, NoDup_submseteq; [apply (wi_runs_nodup w Hi)|]. intros p Hp. apply Hl; [apply (wi_nodes w Hi); auto|].
  by apply (wi_runs w Hi).
Qed.

End covering.
End tree.
