(* ===== verification/PathCover.v ===== *)
(** * Input coverage of the exploration

    The branches that the executed paths meet form a decision tree: after a
    common sequence of conditions every input meets the same branch, whose
    alternatives exclude each other and cover all inputs.  Then the path manager
    keeps every input covered by a schedule or by the frontier, never executes
    the same path twice, and when the frontier is empty the schedules cover all
    inputs. *)

From stdpp Require Import base gmap list.
From Stdlib Require Import ZArith Lia.
From S2P Require Import Prelude HbGraph BitVec Expr ExprCreate ExprSound ExprBits ExprVisit Constraints ForkTrace SliceTrace Solver SolverChain Independent PathManager PathTree.

(** ** Meaning of canonical forms *)

Lemma mem_spec e s : mem e s = true <-> e ∈ s.
Proof. apply existsb_elem. Qed.

Lemma mem_false e s : mem e s = false <-> e ∉ s.
Proof. rewrite <- mem_spec. by destruct (mem e s). Qed.

Lemma serialize_spec s :
  Forall boolean s -> boolean (serializeExprSet s) /\ forall rho, sat rho (serializeExprSet s) <-> holds rho s.
Proof.
  unfold serializeExprSet. intros Hs.
  assert (forall a, boolean a -> boolean (fold_left AndExpr_create s a) /\
    forall rho, sat rho (fold_left AndExpr_create s a) <-> sat rho a /\ holds rho s) as H.
  { induction Hs as [|e s He Hs IH]; intros a Ha; cbn; [split; [done|]; intros rho; split; [by split; [|constructor]|by intros []]|].
    destruct (and_create_sat a e Ha He) as (Hb & _ & Hsat). destruct (IH _ Hb) as [Hb' Hsat']. split; [done|].
    intros rho. rewrite Hsat', Hsat. unfold holds. rewrite Forall_cons. naive_solver. }
  destruct (H true_ true_boolean) as [Hb Hsat]. split; [done|]. intros rho. rewrite Hsat. split; [by intros []|by split].
Qed.

Lemma constrain_spec e cm :
  boolean e -> constrain e = Some cm -> cm_good cm /\ forall rho, cm_sat rho cm <-> sat rho e.
Proof.
  intros He H. unfold constrain in H. destruct (addConstraint e cm_clear) eqn:E; simplify_eq.
  destruct (addConstraint_added e cm_clear cm He clear_good E) as [Hg Hs]. split; [done|]. intros rho. rewrite Hs. split; [by intros []|by split].
Qed.

Lemma constrain_feasible e rho : boolean e -> sat rho e -> exists cm, constrain e = Some cm.
Proof.
  intros He Hs. destruct (addConstraint_feasible e cm_clear rho He clear_good) as [cm E]; [done|done|]. exists cm. unfold constrain. by rewrite E.
Qed.

Section cover.
Context (less : expr -> expr -> bool) (must : ConstraintManager -> expr -> bool) (optNoConcretization : bool).

Notation set_insert := (set_insert less).
Notation addToCanonical := (addToCanonical less).
Notation builder_add := (builder_add less).

Lemma insert_elem x e s : x ∈ set_insert e s <-> x = e \/ x ∈ s.
Proof.
  induction s as [|y s IH]; cbn; [set_solver|]. destruct (expr_eqbP e y) as [->|]; [set_solver|]. destruct (less e y); [set_solver|].
  rewrite !elem_of_cons, IH. naive_solver.
Qed.

(** The set of the conditions of a path, and its two canonical forms. *)
Definition path_set (p : list expr) : list expr := fold_left (fun s e => if mem e s then s else set_insert e s) p [].

Definition concise_of (cm : ConstraintManager) : expr := serializeExprSet (fold_left (fun s e => set_insert e s) (cm_terms cm) []).

Definition keys (p : list expr) : option (expr * expr) :=
  match p with
  | [] => Some (true_, true_)
  | _ => let full := serializeExprSet (path_set p) in cm ← constrain full; Some (full, concise_of cm)
  end.

Lemma path_set_snoc p e : path_set (p ++ [e]) = if mem e (path_set p) then path_set p else set_insert e (path_set p).
Proof. unfold path_set. by rewrite fold_left_app. Qed.

Lemma path_set_elem p x : x ∈ path_set p <-> x ∈ p.
Proof.
  induction p as [|e p IH] using rev_ind; [done|]. rewrite path_set_snoc, elem_of_app, list_elem_of_singleton, <- IH.
  destruct (mem e (path_set p)) eqn:E; [apply mem_spec in E; naive_solver|]. rewrite insert_elem. naive_solver.
Qed.

Lemma holds_same rho p q : (forall x, x ∈ p <-> x ∈ q) -> holds rho p <-> holds rho q.
Proof. intros H. unfold holds. rewrite !Forall_forall. by setoid_rewrite H. Qed.

Lemma path_set_boolean p : Forall boolean p -> Forall boolean (path_set p).
Proof. rewrite !Forall_forall. intros H x Hx. apply H. by apply path_set_elem. Qed.

Lemma keys_spec p f c : Forall boolean p -> keys p = Some (f, c) -> (forall rho, sat rho f <-> holds rho p) /\ (forall rho, sat rho c <-> holds rho p).
Proof.
  intros Hp H. destruct p as [|e p]; [injection H as <- <-; split; intros rho; (split; [intros _; by apply Forall_nil_2|done])|].
  unfold keys in H. cbv zeta in H. set (q := e :: p) in *. apply bind_Some in H as (cm & Hcm & [= <- <-]).
  assert (Forall boolean (path_set q)) as Hs by (by apply path_set_boolean).
  destruct (serialize_spec _ Hs) as [Hb Hsat]. assert (forall rho, sat rho (serializeExprSet (path_set q)) <-> holds rho q) as Hf.
  { intros rho. rewrite Hsat. apply holds_same. intros x. apply path_set_elem. }
  split; [done|]. destruct (constrain_spec _ _ Hb Hcm) as [Hg Hc]. destruct (terms_spec cm Hg) as (Ht & _ & Hts).
  assert (forall ts s x, x ∈ fold_left (fun s e => set_insert e s) ts s <-> x ∈ ts \/ x ∈ s) as Hfold.
  { intros ts. induction ts as [|y ts IH]; intros s x; cbn; [set_solver|]. rewrite IH, insert_elem, elem_of_cons. naive_solver. }
  destruct (serialize_spec (fold_left (fun s e => set_insert e s) (cm_terms cm) [])) as [_ Hser].
  { apply Forall_forall. intros x Hx. apply Hfold in Hx as [Hx|[]%elem_of_nil]. by apply (proj1 (Forall_forall _ _) Ht). }
  intros rho. unfold concise_of. rewrite Hser, <- Hf, <- Hc, Hts. apply holds_same. intros x. rewrite Hfold. set_solver.
Qed.

Lemma keys_feasible p rho : Forall boolean p -> holds rho p -> exists f c, keys p = Some (f, c).
Proof.
  intros Hp Hr. destruct p as [|e p]; [by eexists _, _|]. unfold keys. cbv zeta. set (q := e :: p) in *.
  assert (Forall boolean (path_set q)) as Hs by (by apply path_set_boolean).
  destruct (serialize_spec _ Hs) as [Hb Hsat]. destruct (constrain_feasible _ rho Hb) as [cm ->]; [|by eexists _, _].
  apply Hsat. apply (holds_same rho q); [|done]. intros x. symmetry. apply path_set_elem.
Qed.

(** ** Builders *)

(** The branch conditions of a path constraint. *)
Definition conds (pc : PathConstraint) : list expr := pce_expr <$> filter (fun x => is_input x = true) (pc_list pc).

(** A path constraint for the path [p]. *)
Record pc_for (p : list expr) (pc : PathConstraint) : Prop := {
  pf_conds : conds pc = p;
  pf_canonical : exists f, keys p = Some (f, pc_canonical pc);
  pf_summary : boolean (pc_fullSummary pc) /\ forall rho, sat rho (pc_fullSummary pc) <-> holds rho p;
}.

Record builder_for (p : list expr) (b : PathConstraintBuilder) : Prop := {
  bf_set : b_set b = path_set p;
  bf_keys : keys p = Some (b_fullCanonical b, b_conciseCanonical b);
  bf_pc : pc_for p (b_pc b);
  bf_canonical : pc_canonical (b_pc b) = b_conciseCanonical b;
}.

Lemma builder_new_for : builder_for [] builder_new.
Proof.
  split; [done|done| |done]. split; [done|by eexists|]. split; [apply true_boolean|].
  intros rho. split; [constructor|done].
Qed.

(** Nothing but the branch and the thread changes. *)
Lemma with_branch_for p b k t : builder_for p b -> builder_for p (with_pc (set_branch k t) b).
Proof. intros [H1 H2 [H3 H4 H5] H7]. by split. Qed.

Lemma keys_snoc_seen p e : mem e (path_set p) = true -> keys (p ++ [e]) = keys p.
Proof.
  intros E. unfold keys. destruct p as [|x p]; [done|]. cbn [app]. cbv zeta.
  replace (x :: p ++ [e]) with ((x :: p) ++ [e]) by done. by rewrite path_set_snoc, E.
Qed.

Lemma addToCanonical_for p b b' e :
  b_set b = path_set p -> keys p = Some (b_fullCanonical b, b_conciseCanonical b) -> pc_canonical (b_pc b) = b_conciseCanonical b ->
  addToCanonical e b = Some b' ->
  b_set b' = path_set (p ++ [e]) /\ keys (p ++ [e]) = Some (b_fullCanonical b', b_conciseCanonical b') /\
  pc_canonical (b_pc b') = b_conciseCanonical b' /\ b_pc b' = set_canonical (b_conciseCanonical b') (b_pc b).
Proof.
  intros Hs Hk Hc H. unfold addToCanonical in H. rewrite Hs in H. destruct (mem e (path_set p)) eqn:E.
  - injection H as <-. rewrite keys_snoc_seen, path_set_snoc, E by done. split; [done|]. split; [done|]. split; [done|].
    rewrite <- Hc. by destruct (b_pc b).
  - cbv zeta in H. apply bind_Some in H as (cm & Hcm & [= <-]). cbn. rewrite path_set_snoc, E. split; [done|]. split; [|done].
    unfold keys. destruct (p ++ [e]) eqn:Ep; [by destruct p|]. rewrite <- Ep. cbv zeta. by rewrite path_set_snoc, E, Hcm.
Qed.

Lemma builder_add_for p b b' e n :
  builder_for p b -> boolean e -> builder_add e n b = Some b' -> builder_for (p ++ [e]) b'.
Proof.
  intros [Hs Hk [Hc Hcan [Hsb Hss]] Hpc] He H. unfold builder_add in H. apply bind_Some in H as (b1 & H1 & H). apply bind_Some in H as (b2 & H2 & [= <-]).
  unfold addToSummary in H1. cbv zeta in H1. apply bind_Some in H1 as (cm & Hcm & [= <-]). cbn in Hcm.
  destruct (addToCanonical_for p (with_pc (set_summary (AndExpr_create (pc_fullSummary (b_pc b)) e) (cm_summary cm)) (with_pc (set_lastCond e) b)) b2 e Hs Hk Hpc H2) as (Hs2 & Hk2 & Hc2 & E2). cbn in E2.
  destruct (and_create_sat _ e Hsb He) as (Hb' & _ & Hsat'). split; [done|done| |done]. split; cbn.
  - unfold conds. cbn. rewrite E2. cbn. rewrite filter_app, fmap_app, filter_cons_True by done. by f_equal.
  - rewrite Hc2. by eexists.
  - rewrite E2. cbn. split; [done|]. intros rho. rewrite Hsat', Hss. unfold holds. by rewrite Forall_app, Forall_singleton.
Qed.

Lemma addToCanonical_feasible p b e rho :
  builder_for p b -> Forall boolean p -> boolean e -> holds rho (p ++ [e]) -> exists b', addToCanonical e b = Some b'.
Proof.
  intros [Hs _ _ _] Hp He Hr. unfold addToCanonical. destruct (mem e (b_set b)) eqn:E; [by eexists|]. cbv zeta.
  destruct (keys_feasible (p ++ [e]) rho) as (f & c & Hkf); [by rewrite Forall_app, Forall_singleton|done|].
  rewrite Hs in E |- *. unfold keys in Hkf. destruct (p ++ [e]) eqn:Ep; [by destruct p|]. rewrite <- Ep in Hkf. cbv zeta in Hkf.
  rewrite path_set_snoc, E in Hkf. apply bind_Some in Hkf as (cm' & -> & _). by eexists.
Qed.

Lemma addToCanonical_same e b b2 b' : addToCanonical e b = Some b' -> b_set b2 = b_set b -> exists b2', addToCanonical e b2 = Some b2'.
Proof.
  unfold addToCanonical. intros H ->. destruct (mem e (b_set b)); [by eexists|]. cbv zeta in *. apply bind_Some in H as (cm & -> & _). by eexists.
Qed.

Lemma builder_add_feasible p b e n rho :
  builder_for p b -> Forall boolean p -> boolean e -> holds rho (p ++ [e]) -> exists b', builder_add e n b = Some b'.
Proof.
  intros Hbf Hp He Hr. pose proof Hbf as [Hs Hk [Hc Hcan [Hsb Hss]] Hpc]. unfold builder_add, addToSummary. cbv zeta. cbn [with_pc b_pc set_lastCond pc_fullSummary].
  destruct (and_create_sat _ e Hsb He) as (Hb' & _ & Hsat').
  assert (sat rho (AndExpr_create (pc_fullSummary (b_pc b)) e)) as Hsum.
  { apply Hsat'. rewrite Hss. unfold holds in Hr. by rewrite Forall_app, Forall_singleton in Hr. }
  destruct (constrain_feasible _ rho Hb' Hsum) as [cm ->]. cbn [mbind option_bind].
  destruct (addToCanonical_feasible p b e rho Hbf Hp He Hr) as [b1 E1].
  match goal with |- context [addToCanonical e ?b2] => destruct (addToCanonical_same e b b2 b1 E1) as [b2' ->]; [done|] end. by eexists.
Qed.

Lemma boolean_snoc p e : Forall boolean (p ++ [e]) -> Forall boolean p /\ boolean e.
Proof. by rewrite Forall_app, Forall_singleton. Qed.

(** ** Branches of a slice *)

(** The branches that [processSlice] finds in a slice without other context
    switches: the condition that was taken and the conditions to flip to. *)
Fixpoint important (es : list Entry) (cm : ConstraintManager) : option (list (expr * list expr)) :=
  match es with
  | [] => Some []
  | e :: es' =>
      if negb (anyBranchesLeft es) then Some []
      else if hasOtherCtxSwitches e then None
      else if negb (hasCondition e) then important es' cm
      else
        cond ← e_e e;
        fc ← forkclass e;
        match treat must optNoConcretization cm fc cond with
        | Skip => if bool_decide (fc = KLEE_FORK_INVARIANT_INPUT) && negb (is_assertion e) then None else important es' cm
        | Assume keep =>
            if is_assertion e && negb (keep && default false (useFlippedConditions e))
            then cm ← constrain_state cond cm; important es' cm else None
        | Flip =>
            _ ← maxHbNodeId e;
            fs ← flips_of e cond;
            cm ← constrain_state cond cm;
            rest ← important es' cm;
            Some ((cond, fs) :: rest)
        end
  end.

(** ** Refinement of the worklist *)

Section refinement.
Context (D : assignment -> Prop) (alts : list expr -> list expr) (T : decision_tree D alts).

Notation node := (node alts).

(** A term of a disjunction can hold at its branch, and does not lead to the
    inputs of any node. *)
Definition disjuncts_apart : Prop :=
  forall p a d, node p -> a ∈ alts p -> d ∈ disjuncts a ->
  boolean d /\ (exists rho, holds rho (p ++ [d])) /\ forall q, node q -> ~ (forall rho, holds rho q <-> holds rho (p ++ [d])).

Context (DA : disjuncts_apart).

(** A set of canonical forms has those of the nodes in [S] and of no other node. *)
Definition set_for (l : list expr) (S : list (list expr)) : Prop :=
  forall q f c, node q -> keys q = Some (f, c) -> (q ∈ S -> f ∈ l /\ c ∈ l) /\ (f ∈ l \/ c ∈ l -> q ∈ S).

Record refines (pm : PathManager) (w : worklist) : Prop := {
  rf_frontier : Forall2 (fun p q => pc_for p (q_pc q)) (w_frontier w) (pm_frontier pm);
  rf_explored : Forall2 (fun p s => pc_for p (cs_input s)) (w_runs w) (pm_explored pm);
  rf_frontierSet : set_for (pm_frontierSet pm) (w_queued w);
  rf_exploredSet : set_for (pm_exploredSet pm) (w_opened w);
}.

Lemma same_key_same_region q q0 f c f0 c0 k :
  node q -> Forall boolean q0 -> keys q = Some (f, c) -> keys q0 = Some (f0, c0) -> k = f \/ k = c -> k = f0 \/ k = c0 ->
  forall rho, holds rho q <-> holds rho q0.
Proof.
  intros Hq H0 K K0 H1 H2 rho. destruct (keys_spec q f c (node_boolean D alts T q Hq) K) as [Hf Hc]. destruct (keys_spec q0 f0 c0 H0 K0) as [Hf0 Hc0].
  transitivity (sat rho k); [destruct H1 as [-> | ->]; symmetry; auto|destruct H2 as [-> | ->]; auto].
Qed.

Lemma set_for_add l S q0 f0 c0 : set_for l S -> node q0 -> keys q0 = Some (f0, c0) -> set_for ([c0; f0] ++ l) (q0 :: S).
Proof.
  intros H Hn0 K0 q f c Hn K. destruct (H q f c Hn K) as [H1 H2]. split.
  - intros [-> | Hq]%elem_of_cons; [rewrite K in K0; injection K0 as -> ->; set_solver|]. destruct (H1 Hq). set_solver.
  - intros Hk. assert (f ∈ l \/ c ∈ l \/ exists k, (k = f \/ k = c) /\ (k = f0 \/ k = c0)) as [|[|(k & Ha & Hb)]] by set_solver;
      [right; auto|right; auto|]. apply elem_of_cons. left. apply (node_region_inj D alts T); [done|done|]. intros rho _.
    by eapply same_key_same_region; [done|apply (node_boolean D alts T)|..].
Qed.

Lemma set_for_foreign l S p f0 c0 :
  set_for l S -> Forall boolean p -> (forall q, node q -> ~ (forall rho, holds rho q <-> holds rho p)) -> keys p = Some (f0, c0) ->
  set_for ([c0; f0] ++ l) S.
Proof.
  intros H Hb Hf K0 q f c Hn K. destruct (H q f c Hn K) as [H1 H2]. split; [intros Hq; destruct (H1 Hq); set_solver|].
  intros Hk. assert (f ∈ l \/ c ∈ l \/ exists k, (k = f \/ k = c) /\ (k = f0 \/ k = c0)) as [|[|(k & Ha & Hc)]] by set_solver; [auto|auto|].
  destruct (Hf q Hn). by eapply same_key_same_region.
Qed.

Lemma alreadySeen_spec pm w p b :
  refines pm w -> node p -> builder_for p b -> alreadySeen b pm = true <-> p ∈ w_opened w \/ p ∈ w_queued w.
Proof.
  intros [_ _ HS HX] Hn Hb. unfold alreadySeen. rewrite !orb_true_iff, !mem_spec.
  destruct (HS p _ _ Hn (bf_keys _ _ Hb)). destruct (HX p _ _ Hn (bf_keys _ _ Hb)). naive_solver.
Qed.

Lemma flip_refines hb e b id f pm w p :
  refines pm w -> builder_for p b -> node (p ++ [f]) ->
  exists pm', flip less hb e b id f pm = Some pm' /\ refines pm' (w_flip p w f).
Proof.
  intros HR Hb Hn. pose proof (node_boolean D alts T _ Hn) as Hbool. destruct (dt_feasible D alts T _ Hn) as (rho & _ & Hr).
  destruct (boolean_snoc _ _ Hbool) as [Hbp Hbf].
  destruct (builder_add_feasible p (with_pc (set_branch (e_kinst e) (e_tuid e)) b) f id rho) as [b' Eb]; [by apply with_branch_for|exact Hbp|exact Hbf|exact Hr|].
  pose proof (builder_add_for p _ b' f id (with_branch_for p b _ _ Hb) Hbf Eb) as Hb'. pose proof (alreadySeen_spec pm w _ b' HR Hn Hb') as Hseen.
  unfold flip, w_flip. rewrite Eb. cbn [mbind option_bind]. destruct (decide _) as [Hd | Hd].
  - apply Hseen in Hd as ->. by eexists.
  - destruct (alreadySeen b' pm); [tauto|]. eexists. split; [done|]. destruct HR as [H1 H2 H3 H4]. split; cbn; [|done| |done].
    + apply Forall2_app; [done|]. constructor; [apply Hb'|constructor].
    + apply set_for_add; [done|done|apply Hb'].
Qed.

Lemma flip_all_refines hb e b id fs pm w p :
  refines pm w -> builder_for p b -> (forall f, f ∈ fs -> node (p ++ [f])) ->
  exists pm', flip_all less hb e b id fs pm = Some pm' /\ refines pm' (fold_left (w_flip p) fs w).
Proof.
  revert pm w. induction fs as [|f fs IH]; intros pm w HR Hb Hn; cbn; [by eexists|].
  destruct (flip_refines hb e b id f pm w p) as (pm1 & -> & HR1); [done|done|apply Hn; left|]. cbn. apply IH; [done|done|]. intros x Hx. apply Hn. by right.
Qed.

Lemma see_disjuncts_refines b p a ds pm w :
  refines pm w -> builder_for p b -> node p -> a ∈ alts p -> (forall d, d ∈ ds -> d ∈ disjuncts a) ->
  exists pm', see_disjuncts less b ds pm = Some pm' /\ refines pm' w.
Proof.
  intros HR Hb Hp Ha. revert pm HR. induction ds as [|d ds IH]; intros pm HR Hd; cbn; [by eexists|].
  destruct (DA p a d Hp Ha) as (Hbool & (rho & Hr) & Hapart); [apply Hd; left|]. pose proof (node_boolean D alts T _ Hp) as Hbp.
  destruct (addToCanonical_feasible p b d rho Hb Hbp Hbool Hr) as [b' Eb]. rewrite Eb. cbn.
  destruct (addToCanonical_for p b b' d (bf_set _ _ Hb) (bf_keys _ _ Hb) (bf_canonical _ _ Hb) Eb) as (_ & Hk & _).
  apply IH; [|intros x Hx; apply Hd; by right]. destruct HR as [H1 H2 H3 H4]. split; cbn; [done..|].
  apply (set_for_foreign _ _ (p ++ [d])); [done|by apply Forall_app; split; [|apply Forall_singleton]|done|done].
Qed.

Lemma addExplored_refines c n b p pm w :
  refines pm w -> builder_for p b -> node (p ++ [c]) ->
  exists b' pm', addExplored less c n b pm = Some (b', pm') /\ builder_for (p ++ [c]) b' /\ refines pm' (w_open (p ++ [c]) w).
Proof.
  intros HR Hb Hn. destruct (node_snoc_inv _ _ _ Hn) as [Hp Ha]. destruct (boolean_snoc _ _ (node_boolean D alts T _ Hn)) as [Hbp Hbc].
  destruct (dt_feasible D alts T _ Hn) as (rho & _ & Hr). destruct (builder_add_feasible p b c n rho Hb Hbp Hbc Hr) as [b' Eb].
  pose proof (builder_add_for p b b' c n Hb Hbc Eb) as Hb'. unfold addExplored. rewrite Eb. cbn [mbind option_bind].
  destruct (see_disjuncts_refines b p c (disjuncts c) (see_explored [b_conciseCanonical b'; b_fullCanonical b'] pm) (w_open (p ++ [c]) w)) as (pm' & Ed & HR');
    [|done|done|done|done|by rewrite Ed; eexists _, _].
  destruct HR as [H1 H2 H3 H4]. split; cbn; [done..|]. apply set_for_add; [done|done|apply Hb'].
Qed.

(** ** Slices *)

Lemma extra_for p b b' fc c : builder_for p b -> fc <> KLEE_FORK_INVARIANT_INPUT -> addExtraInvariant fc c b = Some b' -> builder_for p b'.
Proof.
  intros [H1 H2 [H3 H4 H5] H6] Hfc H. unfold addExtraInvariant in H. destruct (decide _); simplify_eq. split; try done. split; try done.
  unfold conds in *. cbn. rewrite filter_app, filter_cons_False, filter_nil, app_nil_r; [done|]. unfold is_input. cbn. by rewrite bool_decide_eq_true.
Qed.

Lemma treat_assume cm fc c keep : treat must optNoConcretization cm fc c = Assume keep -> fc <> KLEE_FORK_INVARIANT_INPUT.
Proof. unfold treat. intros H ->. by rewrite bool_decide_eq_true_2 in H. Qed.

Lemma trim_conds l : filter (fun x => is_input x = true) (rev (trim (rev l))) = filter (fun x => is_input x = true) l.
Proof.
  induction l as [|x l IH] using rev_ind; [done|]. rewrite rev_unit. cbn [trim]. unfold is_input in *.
  destruct (bool_decide (pce_fc x = KLEE_FORK_INVARIANT_INPUT)) eqn:E; cbn [orb].
  - cbn [rev]. by rewrite rev_involutive.
  - destruct (IsBranchingForkClass (pce_fc x)); [cbn [rev]; by rewrite rev_involutive|]. rewrite IH, filter_app, filter_cons_False, filter_nil, app_nil_r; [done|].
    by rewrite E.
Qed.

Lemma trim_for p b : builder_for p b -> builder_for p (trimExtraInvariants b).
Proof. intros [H1 H2 [H3 H4 H5] H6]. split; try done. split; try done. unfold conds in *. cbn. by rewrite trim_conds. Qed.

Lemma branch_refines hb e c fs st cm w p :
  refines (l_pm st) w -> builder_for p (l_builder st) -> node (p ++ [c]) -> (forall f, f ∈ fs -> node (p ++ [f])) ->
  is_Some (maxHbNodeId e) -> flips_of e c = Some fs -> constrain_state c (l_cm st) = Some cm ->
  exists st', branch less hb e c st = Some st' /\ l_cm st' = cm /\ builder_for (p ++ [c]) (l_builder st') /\
  refines (l_pm st') (w_open (p ++ [c]) (fold_left (w_flip p) fs w)).
Proof.
  intros HR Hb Hn Hfs [id Hid] Hfl Hcm. unfold branch. rewrite Hid, Hfl. cbn [mbind option_bind].
  destruct (flip_all_refines hb e (l_builder st) id fs (l_pm st) w p HR Hb Hfs) as (pm1 & -> & HR1). cbn [mbind option_bind]. rewrite Hcm. cbn [mbind option_bind].
  destruct (addExplored_refines c id (l_builder st) p pm1 _ HR1 Hb Hn) as (b' & pm2 & -> & Hb' & HR2). by eexists.
Qed.

Lemma process_refines hb es steps st w p :
  important es (l_cm st) = Some steps -> refines (l_pm st) w -> builder_for p (l_builder st) -> node p -> follows alts p steps ->
  exists st', process less must optNoConcretization hb es st = Some st' /\ builder_for (p ++ steps.*1) (l_builder st') /\
  refines (l_pm st') (w_follow p steps w).
Proof.
  revert steps st w p. induction es as [|e es IH]; intros steps st w p Himp HR Hb Hp Hfol; cbn [process important] in *.
  { injection Himp as <-. exists st. cbn. by rewrite app_nil_r. }
  destruct (anyBranchesLeft (e :: es)) eqn:Eany; cbn [negb] in Himp; [|injection Himp as <-; exists st; cbn; by rewrite app_nil_r].
  unfold step, ctx_switches. destruct (hasOtherCtxSwitches e) eqn:Ectx; [done|]. cbn [mbind option_bind].
  destruct (hasCondition e) eqn:Econd; cbn [negb] in *; [|by apply IH].
  destruct (e_e e) as [c|] eqn:Ec; [|done]. cbn [mbind option_bind] in *. destruct (forkclass e) as [fc|] eqn:Efc; [|done]. cbn [mbind option_bind] in *.
  destruct (treat must optNoConcretization (l_cm st) fc c) as [|keep|] eqn:Etr.
  - destruct (_ && negb _); [done|]. cbn [mbind option_bind]. by apply IH.
  - pose proof (treat_assume _ _ _ _ Etr) as Hfc.
    assert (exists b', (if keep then addExtraInvariant fc c (l_builder st) else Some (l_builder st)) = Some b' /\ builder_for p b') as (b' & Eb' & Hb').
    { destruct keep; [|by eexists]. unfold addExtraInvariant. destruct (decide _) eqn:E; [done|]. eexists. split; [done|].
      eapply (extra_for p (l_builder st) _ fc c); [done|done|]. unfold addExtraInvariant. by rewrite E. }
    rewrite Eb'. cbn [mbind option_bind]. destruct (is_assertion e && _) eqn:Eas; [|done]. apply bind_Some in Himp as (cm & Ecm & Himp).
    rewrite Ecm. cbn [mbind option_bind]. by apply IH.
  - apply bind_Some in Himp as (id & Hid & Himp). apply bind_Some in Himp as (fs & Hfs & Himp). apply bind_Some in Himp as (cm & Hcm & Himp).
    apply bind_Some in Himp as (rest & Hrest & [= <-]). cbn in Hfol. destruct Hfol as (Ha & Hc & Hfol).
    destruct (branch_refines hb e c fs st cm w p) as (st1 & Est & Ecm & Hb1 & HR1); [done|done| | |by eexists|done|done|].
    + constructor; [done|]. apply Ha. by left.
    + intros f Hf. constructor; [done|]. apply Ha. by right.
    + rewrite Est. cbn [mbind option_bind]. rewrite <- Ecm in Hrest. destruct (IH rest st1 _ (p ++ [c]) Hrest HR1 Hb1) as (st2 & E2 & Hb2 & HR2).
      * constructor; [done|]. apply Ha. by left.
      * done.
      * exists st2. split; [done|]. split; [|done]. cbn. by rewrite <- app_assoc in Hb2.
Qed.

Lemma subsume_refines (f : list QueuedPathConstraint) ps X S :
  Forall2 (fun p q => pc_for p (q_pc q)) ps f -> (forall p, p ∈ ps -> node p) -> set_for X S ->
  Forall2 (fun p q => pc_for p (q_pc q)) (filter (fun p => p ∉ S) ps) (filter (fun q => mem (pc_canonical (q_pc q)) X = false) f).
Proof.
  intros HF Hn HX. induction HF as [|p q ps f Hpq HF IH]; [done|]. destruct (pf_canonical _ _ Hpq) as [fu Hk].
  destruct (HX p _ _ (Hn p (list_elem_of_here _ _)) Hk) as [H1 H2]. assert (forall p, p ∈ ps -> node p) as Hn' by (intros x Hx; apply Hn; by right).
  destruct (decide (p ∈ S)) as [Hin | Hin].
  - rewrite !filter_cons_False; [by apply IH|rewrite mem_false; naive_solver|naive_solver].
  - rewrite !filter_cons_True; [constructor; [done|by apply IH]|rewrite mem_false; naive_solver|done].
Qed.

(** [processSlice] runs the path of the slice on the worklist. *)
Lemma processSlice_refines hb cm slice exited id pm w steps :
  important slice cm = Some steps -> follows alts [] steps -> refines pm w -> (forall p, p ∈ w_frontier (w_follow [] steps w) -> node p) ->
  exists pm', processSlice less must optNoConcretization hb cm slice exited id pm = Some pm' /\ refines pm' (w_run steps w).
Proof.
  intros Himp Hfol HR Hn. unfold processSlice.
  destruct (process_refines (makeImmutableClone hb) slice steps (MkLoop pm builder_new cm 0) w []) as (st & -> & Hb & HR'); [done|done|apply builder_new_for|constructor|done|].
  cbn [mbind option_bind]. eexists. split; [done|]. destruct HR' as [H1 H2 H3 H4]. split; cbn; [|apply Forall2_app; [done|]|done|done].
  - by apply subsume_refines.
  - constructor; [|constructor]. apply (trim_for _ _ Hb).
Qed.

End refinement.
End cover.
