(* ===== verification/Explore.v ===== *)
(** * Input coverage of the exploration

    Runs of the program on inputs that [PathManager::instantiateNextInput] asks
    for, and the slices of these runs given to [PathManager::processSlice].  When
    the branches of the runs form a decision tree, every input is at any time in
    one schedule or in the frontier, no path is run twice, and when the frontier
    is empty every input has exactly one schedule.  The last part has concrete
    runs, also where the conditions of the theorems do not hold. *)

From stdpp Require Import base gmap list.
From Stdlib Require Import ZArith Lia.
From S2P Require Import Prelude HbGraph BitVec Expr ExprCreate ExprSound ExprBits ExprVisit Constraints ForkTrace SliceTrace Solver SolverChain Independent PathManager PathTree PathCover.

Section explore.
Context (less : expr -> expr -> bool) (must : ConstraintManager -> expr -> bool) (optNoConcretization : bool).
Context (D : assignment -> Prop) (alts : list expr -> list expr).

Notation node := (node alts).
Notation important := (important must optNoConcretization).
Notation processSlice := (processSlice less must optNoConcretization).
Notation refines := (refines less alts).

(** ** Exploration *)

(** The slice of a run on an input: its branches lead to a leaf of the tree, and
    the input satisfies the conditions that were taken. *)
Record run_of (rho : assignment) (cm : ConstraintManager) (slice : list Entry) (steps : list (expr * list expr)) : Prop := {
  ro_input : D rho;
  ro_steps : important slice cm = Some steps;
  ro_follows : follows alts [] steps;
  ro_holds : holds rho steps.*1;
}.

Inductive explores : PathManager -> Prop :=
| explores_first rho hb cm slice steps exited id pm :
    run_of rho cm slice steps -> processSlice hb cm slice exited id PathManager_new = Some pm -> explores pm
| explores_next pm hb0 next pm1 rho hb cm slice steps exited id pm' :
    explores pm -> instantiateNextInput hb0 pm = Some (next, pm1) -> Forall (sat rho) (n_constraints next).*1 ->
    run_of rho cm slice steps -> processSlice hb cm slice exited id pm1 = Some pm' -> explores pm'.

Context (T : decision_tree D alts) (DA : disjuncts_apart alts).

Definition ok (pm : PathManager) (w : worklist) : Prop := refines pm w /\ w_inv alts w /\ forall rho, D rho -> w_covered w rho.

Lemma new_manager_refines : refines PathManager_new (w_pop w_start).
Proof. split; cbn; [apply Forall2_nil_2|apply Forall2_nil_2|intros q f c _ _; set_solver|intros q f c _ _; set_solver]. Qed.

(** A run from the first path of a worklist. *)
Lemma run_ok rho hb cm slice steps exited id pm w start rest :
  w_inv alts w -> (forall rho, D rho -> w_covered w rho) -> w_frontier w = start :: rest -> refines pm (w_pop w) -> holds rho start ->
  run_of rho cm slice steps ->
  exists pm', processSlice hb cm slice exited id pm = Some pm' /\ ok pm' (w_run steps (w_pop w)) /\
  w_runs (w_run steps (w_pop w)) = w_runs w ++ [steps.*1].
Proof.
  intros Hi Hcov HF HR Hst [HD Himp Hfol Hr]. destruct (follows_node alts [] steps (node_root alts) Hfol) as [Hn Hleaf]. cbn in Hn, Hleaf.
  assert (start `prefix_of` steps.*1) as Hpre.
  { apply (leaf_below D alts T start steps.*1 rho); try done. apply (wi_nodes alts w Hi). left. rewrite HF. left. }
  destruct (w_run_spec D alts T w start rest steps Hi Hcov HF Hfol Hpre) as (Hi' & Hcov' & Hruns).
  destruct (processSlice_refines less must optNoConcretization D alts T DA hb cm slice exited id pm (w_pop w) steps Himp Hfol HR) as (pm' & E & HR').
  { intros p Hp. apply (wi_nodes alts _ (w_follow_inv D alts T w start rest steps Hi Hcov HF Hfol Hpre)). by left. }
  exists pm'. by split_and!.
Qed.

Lemma first_ok rho hb cm slice steps exited id :
  run_of rho cm slice steps ->
  exists pm w, processSlice hb cm slice exited id PathManager_new = Some pm /\ ok pm w /\ w_runs w = [steps.*1].
Proof.
  intros Hrun. destruct (run_ok rho hb cm slice steps exited id PathManager_new w_start [] []) as (pm & E & Hok & Hruns).
  - apply w_start_inv.
  - intros r _. right. exists []. split; [left|apply Forall_nil_2].
  - done.
  - apply new_manager_refines.
  - apply Forall_nil_2.
  - done.
  - by exists pm, (w_run steps (w_pop w_start)).
Qed.

(** The input that is asked for satisfies the conditions of the entry. *)
Lemma next_holds (pc : PathConstraint) rho : Forall (sat rho) ((fun x => (pce_expr x, pce_fc x)) <$> input_constraints pc).*1 -> holds rho (conds pc).
Proof.
  intros H. apply Forall_forall. intros c Hc. unfold conds in Hc. apply list_elem_of_fmap in Hc as (x & -> & Hx). apply list_elem_of_filter in Hx as [Hi Hx].
  apply (proj1 (Forall_forall _ _) H). rewrite <- list_fmap_compose. apply list_elem_of_fmap. exists x. split; [done|].
  apply list_elem_of_filter. split; [by rewrite Hi|done].
Qed.

Lemma next_ok pm w hb0 next pm1 rho hb cm slice steps exited id :
  ok pm w -> instantiateNextInput hb0 pm = Some (next, pm1) -> Forall (sat rho) (n_constraints next).*1 -> run_of rho cm slice steps ->
  exists pm' w', processSlice hb cm slice exited id pm1 = Some pm' /\ ok pm' w' /\ w_runs w' = w_runs w ++ [steps.*1].
Proof.
  intros (HR & Hi & Hcov) Hnext Hsat Hrun. unfold instantiateNextInput in Hnext. destruct (pm_frontier pm) as [|q qs] eqn:Eq; [done|].
  apply bind_Some in Hnext as (old & _ & Hnext). apply bind_Some in Hnext as (g & _ & [= <- <-]). cbn in Hsat.
  destruct HR as [HF HE HFS HES]. rewrite Eq in HF. apply Forall2_cons_inv_r in HF as (start & rest & Hs & Hrest & HF).
  destruct (run_ok rho hb cm slice steps exited id (MkPM qs (pm_frontierSet pm) (pm_explored pm) (pm_exploredSet pm) (q_pc q)) w start rest) as (pm' & E & Hok & Hruns);
    [done|done|done| | |done|by exists pm', (w_run steps (w_pop w))].
  - split; cbn; [by rewrite HF|done..].
  - rewrite <- (pf_conds _ _ _ Hs). by apply next_holds.
Qed.

Lemma explores_ok pm : explores pm -> exists w, ok pm w.
Proof.
  induction 1 as [rho hb cm slice steps exited id pm Hrun E|pm hb0 next pm1 rho hb cm slice steps exited id pm' _ [w Hok] Hnext Hsat Hrun E].
  - destruct (first_ok rho hb cm slice steps exited id Hrun) as (pm2 & w & E2 & Hok & _). exists w. congruence.
  - destruct (next_ok pm w hb0 next pm1 rho hb cm slice steps exited id Hok Hnext Hsat Hrun) as (pm2 & w2 & E2 & Hok2 & _). exists w2. congruence.
Qed.

(** ** Schedules and inputs *)

Definition schedule_covers (pm : PathManager) (rho : assignment) (i : nat) : Prop :=
  exists s, pm_explored pm !! i = Some s /\ sat rho (pc_fullSummary (cs_input s)).
Definition queued (pm : PathManager) (rho : assignment) : Prop :=
  exists q, q ∈ pm_frontier pm /\ sat rho (pc_fullSummary (q_pc q)).

Lemma schedule_covers_run pm w rho i : refines pm w -> schedule_covers pm rho i <-> exists p, w_runs w !! i = Some p /\ holds rho p.
Proof.
  intros [_ HE _ _]. split.
  - intros (s & Hs & Hr). destruct (Forall2_lookup_r _ _ _ _ _ HE Hs) as (p & Hp & Hpc). exists p. split; [done|]. by apply (pf_summary _ _ _ Hpc).
  - intros (p & Hp & Hr). destruct (Forall2_lookup_l _ _ _ _ _ HE Hp) as (s & Hs & Hpc). exists s. split; [done|]. by apply (pf_summary _ _ _ Hpc).
Qed.

Lemma queued_frontier pm w rho : refines pm w -> queued pm rho <-> exists p, p ∈ w_frontier w /\ holds rho p.
Proof.
  intros [HF _ _ _]. split.
  - intros (q & Hq & Hr). apply list_elem_of_lookup in Hq as [i Hi]. destruct (Forall2_lookup_r _ _ _ _ _ HF Hi) as (p & Hp & Hpc).
    exists p. split; [by eapply list_elem_of_lookup_2|]. by apply (pf_summary _ _ _ Hpc).
  - intros (p & Hp & Hr). apply list_elem_of_lookup in Hp as [i Hi]. destruct (Forall2_lookup_l _ _ _ _ _ HF Hi) as (q & Hq & Hpc).
    exists q. split; [by eapply list_elem_of_lookup_2|]. by apply (pf_summary _ _ _ Hpc).
Qed.

Lemma ok_partition pm w rho :
  ok pm w -> D rho ->
  (exists i, schedule_covers pm rho i /\ ~ queued pm rho /\ forall j, schedule_covers pm rho j -> j = i) \/
  queued pm rho /\ forall i, ~ schedule_covers pm rho i.
Proof.
  intros (HR & Hi & Hcov) HD. setoid_rewrite (queued_frontier pm w rho HR). setoid_rewrite (schedule_covers_run pm w rho _ HR).
  assert (forall p i q, p ∈ w_frontier w -> w_runs w !! i = Some q -> holds rho p -> holds rho q -> False) as Hno.
  { intros p i q Hp Hq Hrp Hrq. pose proof (list_elem_of_lookup_2 _ _ _ Hq) as Eq. apply (wi_fresh alts w Hi p q); [done|by right|].
    apply (leaf_below D alts T p q rho); try done; [apply (wi_nodes alts w Hi); auto|apply (wi_nodes alts w Hi); auto|by apply (wi_runs alts w Hi)]. }
  destruct (Hcov rho HD) as [(p & Hp & Hr) | (p & Hp & Hr)].
  - left. apply list_elem_of_lookup in Hp as [i Hp]. exists i. split; [by exists p|]. split; [intros (q & Hq & Hrq); by apply (Hno q i p)|].
    intros j (q & Hq & Hrq). by apply (w_runs_exclusive D alts T w j i q p rho).
  - right. split; [by exists p|]. intros i (q & Hq & Hrq). by apply (Hno p i q).
Qed.

(** C4: Take any exploration, a first run and then runs on inputs that the path
    manager asks for, under these conditions on the program and its slices:
    - the branches that [processSlice] finds form a decision tree over the inputs
      [D]: every path has no or at least two alternatives, which are feasible,
      exhaustive and exclusive, and a run records one of them as its condition and
      exactly the others, as the same expressions, as the conditions to flip to;
    - no slice has an alternative context switch;
    - the terms of an alternative that is a disjunction are feasible, and none
      of them leads to the region of a path of the tree ([disjuncts_apart]).
    Then every input is either covered by exactly one schedule and
    not in the frontier, or it is in the frontier and in no schedule.  So once
    the frontier is empty the schedules partition the inputs.  Without the
    last condition inputs are lost, see [nested_case_lost]. *)
Theorem exploration_covers pm :
  explores pm ->
  (forall rho, D rho ->
    (exists i, schedule_covers pm rho i /\ ~ queued pm rho /\ forall j, schedule_covers pm rho j -> j = i) \/
    queued pm rho /\ forall i, ~ schedule_covers pm rho i) /\
  (isFrontierEmpty pm = true -> forall rho, D rho -> exists i, schedule_covers pm rho i /\ forall j, schedule_covers pm rho j -> j = i).
Proof.
  intros [w Hok]%explores_ok. split; [intros rho; by apply (ok_partition pm w)|]. intros He rho HD.
  destruct (ok_partition pm w rho Hok HD) as [(i & H & _ & Hu) | [(q & Hq & _) _]]; [by exists i|].
  unfold isFrontierEmpty in He. destruct (pm_frontier pm); [|done]. by apply elem_of_nil in Hq.
Qed.

(** C7: Under the conditions of [exploration_covers] (a decision tree whose
    alternatives are recorded as the same expressions by every run, no
    alternative context switches, terms of disjunctions apart from the paths of
    the tree) the exploration makes progress and ends.  Every entry of the frontier is
    the path of some input; the slice of a run on the next input is
    accepted and adds one schedule; and there are never more schedules than
    leaves of the tree.  Without the conditions a path can be queued again, see
    [negated_disjunction_requeued]. *)
Theorem exploration_progress pm leaves :
  explores pm -> (forall p, node p -> alts p = [] -> p ∈ leaves) ->
  (forall q, q ∈ pm_frontier pm -> exists rho, D rho /\ sat rho (pc_fullSummary (q_pc q))) /\
  (numExplored pm <= length leaves)%nat /\
  forall hb0 next pm1 rho hb cm slice steps exited id,
    instantiateNextInput hb0 pm = Some (next, pm1) -> Forall (sat rho) (n_constraints next).*1 -> run_of rho cm slice steps ->
    exists pm', processSlice hb cm slice exited id pm1 = Some pm' /\ numExplored pm' = S (numExplored pm) /\ (numExplored pm < length leaves)%nat.
Proof.
  intros [w Hok]%explores_ok Hleaves. assert (forall pm w, ok pm w -> numExplored pm = length (w_runs w)) as Hlen.
  { intros pm0 w0 ([_ HE _ _] & _). symmetry. by apply (Forall2_length _ _ _ HE). }
  split; [|split].
  - intros q Hq. destruct Hok as ([HF _ _ _] & Hi & _). apply list_elem_of_lookup in Hq as [i Hq]. destruct (Forall2_lookup_r _ _ _ _ _ HF Hq) as (p & Hp & Hpc).
    destruct (dt_feasible D alts T p) as (rho & HD & Hr); [apply (wi_nodes alts w Hi); left; by eapply list_elem_of_lookup_2|].
    exists rho. split; [done|]. by apply (pf_summary _ _ _ Hpc).
  - rewrite (Hlen pm w Hok). apply (w_runs_bounded alts); [apply Hok|done].
  - intros hb0 next pm1 rho hb cm slice steps exited id Hn Hs Hrun.
    destruct (next_ok pm w hb0 next pm1 rho hb cm slice steps exited id Hok Hn Hs Hrun) as (pm' & w' & E & Hok' & Hruns).
    exists pm'. split; [done|]. rewrite (Hlen pm' w' Hok'), (Hlen pm w Hok), Hruns, length_app. split; [cbn; lia|].
    assert (length (w_runs w') <= length leaves)%nat as Hb by (apply (w_runs_bounded alts); [apply Hok'|done]).
    rewrite Hruns, length_app in Hb. cbn in Hb. lia.
Qed.

End explore.

(** ** The path constraint of a slice *)

Section exact.
Context (less : expr -> expr -> bool) (must : ConstraintManager -> expr -> bool) (optNoConcretization : bool).

(** The conditions of a slice that are branched on, and those that are assumed. *)
Definition branching (e : Entry) : bool :=
  hasCondition e && match forkclass e with Some fc => IsBranchingForkClass fc && negb (ignored optNoConcretization fc) | None => false end.
Definition assuming (e : Entry) : bool :=
  hasCondition e && match forkclass e with
    | Some fc => negb (bool_decide (fc = KLEE_FORK_INVARIANT_INPUT)) && (IsNonBranchingForkClass fc || ignored optNoConcretization fc)
    | None => false
    end.
Definition conditions (f : Entry -> bool) (es : list Entry) : list expr := omap e_e (filter (fun e => f e = true) es).

Lemma conditions_cons f e es :
  conditions f (e :: es) = (if f e then match e_e e with Some c => [c] | None => [] end else []) ++ conditions f es.
Proof.
  unfold conditions. destruct (f e) eqn:E; [rewrite filter_cons_True by done|rewrite filter_cons_False by congruence; done].
  cbn. by destruct (e_e e).
Qed.

Lemma no_branches_left es : anyBranchesLeft es = false -> conditions branching es = [].
Proof.
  induction es as [|e es IH]; cbn [anyBranchesLeft existsb]; [done|]. intros [H1 H2]%orb_false_iff. rewrite conditions_cons, IH by done.
  unfold branching. destruct (hasCondition e); [|done]. destruct (forkclass e) as [fc|]; [|done]. cbn in H1. unfold IsBranchingOrInputForkClass in H1.
  by destruct (IsBranchingForkClass fc).
Qed.

Lemma fork_class_split fc : IsBranchingForkClass fc = negb (IsNonBranchingForkClass fc).
Proof. unfold IsBranchingForkClass, IsNonBranchingForkClass. by rewrite Z.ltb_antisym. Qed.

(** How a condition counts follows its treatment. *)
Lemma treat_kinds cm e c fc :
  hasCondition e = true -> e_e e = Some c -> forkclass e = Some fc ->
  match treat must optNoConcretization cm fc c with
  | Skip => branching e = true -> must cm c = true
  | Assume _ => branching e = false /\ assuming e = true
  | Flip => branching e = true /\ assuming e = false
  end.
Proof.
  intros Hc He Hf. unfold treat, branching, assuming. rewrite Hc, Hf, fork_class_split. cbn [andb].
  destruct (bool_decide (fc = _)) eqn:Ein; [apply bool_decide_eq_true in Ein as ->; done|].
  destruct (ignored optNoConcretization fc); [by rewrite andb_false_r, orb_true_r|].
  destruct (IsNonBranchingForkClass fc); cbn; [by destruct (expr_eqb _ _)|]. by destruct (must cm c).
Qed.

Context (must_sound : forall cm c rho, must cm c = true -> cm_sat rho cm -> sat rho c).

Lemma addExplored_builder c n b pm b' pm' : addExplored less c n b pm = Some (b', pm') -> builder_add less c n b = Some b'.
Proof. unfold addExplored. intros H. apply bind_Some in H as (b1 & -> & H). by apply bind_Some in H as (pm1 & _ & [= -> ->]). Qed.

Lemma branch_builder hb e c st st' :
  branch less hb e c st = Some st' -> exists n, builder_add less c n (l_builder st) = Some (l_builder st') /\ constrain_state c (l_cm st) = Some (l_cm st').
Proof.
  unfold branch. intros H. apply bind_Some in H as (n & _ & H). apply bind_Some in H as (fs & _ & H). apply bind_Some in H as (pm & _ & H).
  apply bind_Some in H as (cm & Hcm & H). apply bind_Some in H as ([b pm'] & Hb & [= <-]). exists n. split; [by eapply addExplored_builder|done].
Qed.

Lemma ctx_switches_builder hb e st st' p :
  ctx_switches hb e st = Some st' -> builder_for less p (l_builder st) -> builder_for less p (l_builder st') /\ l_cm st' = l_cm st.
Proof.
  unfold ctx_switches. intros H Hb. destruct (hasOtherCtxSwitches e); [|by injection H as <-]. apply bind_Some in H as (ts & _ & H).
  apply bind_Some in H as (t & _ & [= <-]). split; [|done]. destruct Hb as [H1 H2 [H3 H4 H5] H6]. by split.
Qed.

Lemma constrain_state_spec c cm cm' :
  boolean c -> cm_good cm -> constrain_state c cm = Some cm' -> cm_good cm' /\ forall rho, cm_sat rho cm' <-> cm_sat rho cm /\ sat rho c.
Proof.
  intros Hc Hg H. unfold constrain_state in H. destruct (addConstraint c cm) eqn:E; simplify_eq. by apply (addConstraint_added c cm).
Qed.

(** One entry adds at most its condition to the path. *)
Lemma step_exact hb e st st' p :
  step less must optNoConcretization hb e st = Some st' -> builder_for less p (l_builder st) -> cm_good (l_cm st) -> from_option boolean True (e_e e) ->
  exists k, builder_for less (p ++ k) (l_builder st') /\ cm_good (l_cm st') /\
  forall rho, cm_sat rho (l_cm st) -> holds rho (conditions assuming [e]) ->
    (holds rho k <-> holds rho (conditions branching [e])) /\ (holds rho k -> cm_sat rho (l_cm st')).
Proof.
  unfold step. intros H Hb Hg Hbool. apply bind_Some in H as (st1 & H1 & H). destruct (ctx_switches_builder hb e st st1 p H1 Hb) as [Hb1 Ecm].
  rewrite <- Ecm in *. clear H1 Ecm Hb. rewrite !conditions_cons. cbn [conditions omap list_omap filter list_filter]. rewrite !app_nil_r.
  assert (forall rho, holds rho []) as Hnil by (intros; apply Forall_nil_2).
  destruct (hasCondition e) eqn:Hc; cbn [negb] in H.
  2: { injection H as <-. exists []. rewrite app_nil_r. unfold branching. rewrite Hc. cbn. by split_and!. }
  apply bind_Some in H as (c & Ec & H). apply bind_Some in H as (fc & Efc & H). rewrite Ec in *. cbn in Hbool.
  pose proof (treat_kinds (l_cm st1) e c fc Hc Ec Efc) as Hk.
  destruct (treat must optNoConcretization (l_cm st1) fc c) as [|keep|] eqn:Et.
  - destruct (_ && negb _); [done|]. injection H as <-. exists []. rewrite app_nil_r. split; [done|]. split; [done|]. intros rho Hs _. split; [|done].
    split; [|done]. intros _. destruct (branching e); [|done]. constructor; [|constructor]. apply (must_sound (l_cm st1)); [by apply Hk|done].
  - destruct Hk as [-> ->]. apply bind_Some in H as (b & Eb & H). apply bind_Some in H as (cm & Ecm & H). destruct (_ && negb _); [|done]. injection H as <-.
    destruct (constrain_state_spec c _ _ Hbool Hg Ecm) as [Hg' Hs']. exists []. rewrite app_nil_r. split; [|split; [done|]].
    + cbn. destruct keep; [|by injection Eb as <-]. by apply (extra_for less p (l_builder st1) b fc c); [|eapply treat_assume|].
    + intros rho Hs Ha. split; [done|]. intros _. cbn. apply Hs'. split; [done|]. by apply holds_singleton.
  - destruct Hk as [-> _]. destruct (branch_builder hb e c st1 st' H) as (n & Hadd & Hcm). destruct (constrain_state_spec c _ _ Hbool Hg Hcm) as [Hg' Hs'].
    exists [c]. split; [by apply (builder_add_for less p (l_builder st1) _ c n)|]. split; [done|]. intros rho Hs _. split; [done|]. intros Hr. apply Hs'.
    split; [done|]. by apply holds_singleton.
Qed.

Lemma process_exact hb es st st' p :
  process less must optNoConcretization hb es st = Some st' -> builder_for less p (l_builder st) -> cm_good (l_cm st) ->
  Forall (fun e => from_option boolean True (e_e e)) es ->
  exists k, builder_for less (p ++ k) (l_builder st') /\
  forall rho, cm_sat rho (l_cm st) -> holds rho (conditions assuming es) -> holds rho k <-> holds rho (conditions branching es).
Proof.
  revert st p. induction es as [|e es IH]; intros st p H Hb Hg Hes; cbn [process] in H.
  { injection H as <-. exists []. by rewrite app_nil_r. }
  destruct (anyBranchesLeft (e :: es)) eqn:Ea.
  2: { injection H as <-. exists []. rewrite app_nil_r, no_branches_left by done. done. }
  apply bind_Some in H as (st1 & H1 & H). apply Forall_cons in Hes as [He Hes].
  destruct (step_exact hb e st st1 p H1 Hb Hg He) as (k1 & Hb1 & Hg1 & Hk1). destruct (IH st1 _ H Hb1 Hg1 Hes) as (k2 & Hb2 & Hk2).
  exists (k1 ++ k2). rewrite app_assoc. split; [done|]. intros rho Hs Ha.
  assert (forall f, holds rho (conditions f (e :: es)) <-> holds rho (conditions f [e]) /\ holds rho (conditions f es)) as Hsplit.
  { intros f. rewrite !conditions_cons. cbn [conditions omap list_omap filter list_filter]. rewrite app_nil_r. apply Forall_app. }
  apply Hsplit in Ha as [Ha1 Ha2]. destruct (Hk1 rho Hs Ha1) as [Hiff Hcm]. rewrite Hsplit. unfold holds at 1. rewrite Forall_app. fold (holds rho k1) (holds rho k2).
  split; [intros [Hr1 Hr2]; split; [by apply Hiff|]; by apply Hk2; auto|]. intros [Hr1 Hr2]. apply Hiff in Hr1. split; [done|]. by apply Hk2; auto.
Qed.

(** C14: The schedule that [processSlice] records has the right inputs: leaving
    out branches that the solver proves redundant, and the entries after the last
    branch, does not change the meaning of its path constraint.  An input that
    satisfies the constraints of the region and the assumptions of the slice
    satisfies the recorded summary exactly when it takes every branch of the
    slice. *)
Theorem path_constraint_exact hb cm slice exited id pm pm' :
  processSlice less must optNoConcretization hb cm slice exited id pm = Some pm' -> cm_good cm ->
  Forall (fun e => from_option boolean True (e_e e)) slice ->
  exists s, last (pm_explored pm') = Some s /\ cs_id s = id /\ forall rho, cm_sat rho cm -> holds rho (conditions assuming slice) ->
    sat rho (pc_fullSummary (cs_input s)) <-> holds rho (conditions branching slice).
Proof.
  intros H Hg Hes. unfold processSlice in H. apply bind_Some in H as (st & Hst & [= <-]).
  destruct (process_exact _ slice _ st [] Hst (builder_new_for less) Hg Hes) as (k & Hb & Hk).
  eexists. split; [cbn; apply last_snoc|]. split; [done|]. intros rho Hs Ha. cbn -[trimExtraInvariants].
  destruct (bf_pc _ _ _ (trim_for less _ _ Hb)) as [_ _ [_ Hsum]]. rewrite Hsum. by apply Hk.
Qed.

End exact.

(** ** Concrete explorations *)

Definition demo_x : expr := Read (Symbolic 0) UNull (Constant Int32 0).
Definition x_is (n : Z) : expr := EqExpr_create (Constant Int8 n) demo_x.
Definition demo_byte (rho : assignment) : Z := u8 (rho (Symbolic 0) 0).

Definition demo_state : kstate_view := KState (Tuid 1 2) 40 7 (fun _ => None).
Definition branch_on (c : expr) : Entry := set_number 7 (set_e (Some c) (Entry_new Branch KLEE_FORK_BRANCH demo_state)).
Definition flipping_to (fs : list expr) (e : Entry) : Entry :=
  set_flips ((fun f => (f, 0)) <$> fs) (set_type (Z.lor (e_type e) UseFlippedConditions) e).

Definition no_order (a b : expr) : bool := false.
Definition no_answer (cm : ConstraintManager) (e : expr) : bool := false.
Definition no_nodes : HBGraph := Graph [] ∅ ∅ false ∅ None 0.
Notation demo_slice slice id pm := (processSlice no_order no_answer false no_nodes cm_clear slice false id pm).

(** One branch, on [x == 2 || x == 3]. *)
Definition two_or_three : expr := OrExpr_create (x_is 2) (x_is 3).
Definition neither : expr := createIsZero two_or_three.
Definition switch_alts (p : list expr) : list expr := match p with [] => [two_or_three; neither] | _ => [] end.

Lemma x_is_sat rho n : 0 <= n < 256 -> sat rho (x_is n) <-> demo_byte rho = n.
Proof.
  intros Hn. replace (x_is n) with (Cmp Eq (Constant Int8 n) demo_x) by done. unfold sat, demo_byte. cbn -[u8].
  destruct (Z.eqb_spec n (u8 (rho (Symbolic 0) 0))); cbn -[u8]; lia.
Qed.

Lemma switch_sat rho :
  (sat rho two_or_three <-> demo_byte rho = 2 \/ demo_byte rho = 3) /\ (sat rho neither <-> ~ (demo_byte rho = 2 \/ demo_byte rho = 3)).
Proof.
  unfold sat, demo_byte. replace two_or_three with (Bin Or (x_is 2) (x_is 3)) by done.
  replace neither with (Bin And (Cmp Eq false_ (x_is 2)) (Cmp Eq false_ (x_is 3))) by done.
  replace (x_is 2) with (Cmp Eq (Constant Int8 2) demo_x) by done. replace (x_is 3) with (Cmp Eq (Constant Int8 3) demo_x) by done. cbn -[u8 Z.eqb].
  destruct (Z.eqb_spec 2 (u8 (rho (Symbolic 0) 0))), (Z.eqb_spec 3 (u8 (rho (Symbolic 0) 0)));
    cbn -[u8]; cbv [Z.lor Z.land Pos.lor Pos.land Z.of_N]; lia.
Qed.

Lemma switch_node p : node switch_alts p <-> p = [] \/ p = [two_or_three] \/ p = [neither].
Proof.
  split.
  - induction 1 as [|p a Hp IH Ha]; [by left|]. destruct IH as [-> | [-> | ->]]; [|by apply elem_of_nil in Ha..].
    cbn in Ha. set_solver.
  - intros [-> | [-> | ->]]; [constructor|apply (node_child _ []); [constructor|left]|apply (node_child _ []); [constructor|right; left]].
Qed.

Definition byte_input (n : Z) : assignment := fun _ _ => n.
Definition any_input (rho : assignment) : Prop := True.

Lemma switch_boolean : boolean two_or_three /\ boolean neither /\ boolean (x_is 2) /\ boolean (x_is 3).
Proof. split_and!; (split; [|done]); vm_compute; split_and!; try done; first [by right|by left]. Qed.

Lemma switch_tree : decision_tree any_input switch_alts.
Proof.
  split.
  - intros p a [-> | [-> | ->]]%switch_node Ha; [|by apply elem_of_nil in Ha..]. destruct switch_boolean as (H1 & H2 & _). cbn in Ha. set_solver.
  - intros p [-> | [-> | ->]]%switch_node; [exists (byte_input 0)|exists (byte_input 2)|exists (byte_input 0)]; (split; [done|]); repeat constructor.
  - intros p rho [-> | [-> | ->]]%switch_node Hne _ _; [|done..]. destruct (switch_sat rho) as [H1 H2].
    destruct (decide (demo_byte rho = 2 \/ demo_byte rho = 3)); [exists two_or_three|exists neither]; (split; [set_solver|tauto]).
  - intros p a b rho [-> | [-> | ->]]%switch_node Ha Hb _ _; [|by apply elem_of_nil in Ha..]. destruct (switch_sat rho) as [H1 H2].
    cbn in Ha, Hb. assert ((a = two_or_three \/ a = neither) /\ (b = two_or_three \/ b = neither)) as [[-> | ->] [-> | ->]] by set_solver; tauto.
  - intros p a [-> | [-> | ->]]%switch_node Ha; [|by apply elem_of_nil in Ha..]. cbn in Ha.
    assert (a = two_or_three \/ a = neither) as [-> | ->] by set_solver; [exists neither|exists two_or_three]; (split; [set_solver|done]).
Qed.

Lemma switch_apart : disjuncts_apart switch_alts.
Proof.
  intros p a d [-> | [-> | ->]]%switch_node Ha Hd; [|by apply elem_of_nil in Ha..]. cbn in Ha.
  assert (a = two_or_three \/ a = neither) as [-> | ->] by set_solver; [|by apply elem_of_nil in Hd].
  assert (d = x_is 2 \/ d = x_is 3) as Hd' by (vm_compute in Hd; set_solver). destruct switch_boolean as (_ & _ & B2 & B3).
  assert (forall n, n = 2 \/ n = 3 -> boolean (x_is n) -> boolean (x_is n) /\ (exists rho, holds rho ([] ++ [x_is n])) /\
    forall q, node switch_alts q -> ~ (forall rho, holds rho q <-> holds rho ([] ++ [x_is n]))) as H.
  { intros n Hn Hb. split; [done|]. assert (forall r, holds r ([] ++ [x_is n]) <-> demo_byte r = n) as Hs.
    { intros r. cbn. unfold holds. rewrite Forall_singleton. apply x_is_sat. lia. }
    split; [exists (byte_input n); apply Hs; destruct Hn as [-> | ->]; done|]. intros q Hq Heq.
    assert (holds (byte_input n) q /\ holds (byte_input (5 - n)) q \/ ~ holds (byte_input n) q) as Hcase.
    { unfold holds. apply switch_node in Hq as [-> | [-> | ->]]; [left; by split|left|right]; rewrite !Forall_singleton;
        repeat match goal with |- context [sat ?r two_or_three] => rewrite (proj1 (switch_sat r)) | |- context [sat ?r neither] => rewrite (proj2 (switch_sat r)) end;
        destruct Hn as [-> | ->]; vm_compute; tauto. }
    rewrite !Heq, !Hs in Hcase. destruct Hn as [-> | ->]; vm_compute in Hcase; naive_solver. }
  destruct Hd' as [-> | ->]; [by apply H; [left|]|by apply H; [right|]].
Qed.

(** The run on [2], then the run on the other alternative. *)
Definition first_slice : list Entry := [branch_on two_or_three].
Definition second_slice : list Entry := [flipping_to [two_or_three] (branch_on neither)].
Definition switch_first : PathManager := Eval vm_compute in default PathManager_new (demo_slice first_slice 0 PathManager_new).
Definition switch_next : next_input * PathManager := Eval vm_compute in
  default (MkNext [] no_nodes [], PathManager_new) (instantiateNextInput no_nodes switch_first).
Definition switch_pm : PathManager := Eval vm_compute in default PathManager_new (demo_slice second_slice 1 switch_next.2).

Lemma switch_runs :
  demo_slice first_slice 0 PathManager_new = Some switch_first /\ instantiateNextInput no_nodes switch_first = Some (switch_next.1, switch_next.2) /\
  demo_slice second_slice 1 switch_next.2 = Some switch_pm.
Proof. split; [vm_compute; reflexivity|]. split; vm_compute; reflexivity. Qed.

Lemma switch_first_run : run_of no_answer false any_input switch_alts (byte_input 2) cm_clear first_slice [(two_or_three, [neither])].
Proof. split; [done|vm_compute; reflexivity| |repeat constructor]. cbn. split; [set_solver|]. split; [by rewrite list_elem_of_singleton|done]. Qed.

Lemma switch_second_run : run_of no_answer false any_input switch_alts (byte_input 0) cm_clear second_slice [(neither, [two_or_three])].
Proof. split; [done|vm_compute; reflexivity| |repeat constructor]. cbn. split; [set_solver|]. split; [by rewrite list_elem_of_singleton|done]. Qed.

Lemma switch_explores : explores no_order no_answer false any_input switch_alts switch_pm.
Proof.
  destruct switch_runs as (H1 & H2 & H3).
  refine (explores_next no_order no_answer false any_input switch_alts _ _ _ _ (byte_input 0) _ _ _ _ _ _ _ _ H2 _ switch_second_run H3).
  - exact (explores_first no_order no_answer false any_input switch_alts _ _ _ _ _ _ _ _ switch_first_run H1).
  - repeat constructor.
Qed.

Lemma exploration_covers_witness :
  isFrontierEmpty switch_pm = true /\ numExplored switch_pm = 2%nat /\
  forall rho, exists i, schedule_covers switch_pm rho i /\ forall j, schedule_covers switch_pm rho j -> j = i.
Proof.
  split; [vm_compute; reflexivity|]. split; [vm_compute; reflexivity|]. intros rho.
  apply (proj2 (exploration_covers no_order no_answer false any_input switch_alts switch_tree switch_apart switch_pm switch_explores)); [vm_compute; reflexivity|exact I].
Defined.

Lemma exploration_progress_witness :
  exists pm', demo_slice second_slice 1 switch_next.2 = Some pm' /\ numExplored pm' = S (numExplored switch_first) /\ (numExplored switch_first < 2)%nat.
Proof.
  destruct switch_runs as (H1 & H2 & _).
  refine (proj2 (proj2 (exploration_progress no_order no_answer false any_input switch_alts switch_tree switch_apart switch_first [[two_or_three]; [neither]]
    (explores_first no_order no_answer false any_input switch_alts _ _ _ _ _ _ _ _ switch_first_run H1) _))
    no_nodes _ _ (byte_input 0) no_nodes cm_clear second_slice _ false 1 H2 _ switch_second_run).
  - intros p Hp Hl. apply switch_node in Hp as [-> | [-> | ->]]; [discriminate Hl|left|right; left].
  - repeat constructor.
Defined.

(** ** Where inputs or schedules are lost *)

Definition nested_pm : PathManager := Eval vm_compute in
  default PathManager_new (demo_slice [branch_on two_or_three; branch_on (createIsZero (x_is 3))] 0 PathManager_new).

(** C37: Recording the terms of a disjunction as explored loses inputs: after a
    first run on [2] through [x == 2 || x == 3] and then [x != 3], the
    alternative [x == 3] counts as seen.  The input [3] is in no schedule and
    never queued, although only [2] was run. *)
Theorem nested_case_lost :
  demo_slice [branch_on two_or_three; branch_on (createIsZero (x_is 3))] 0 PathManager_new = Some nested_pm /\
  (forall i, ~ schedule_covers nested_pm (byte_input 3) i) /\ ~ queued nested_pm (byte_input 3).
Proof.
  split; [vm_compute; reflexivity|]. split.
  - intros i (s & Hs & Hr). destruct i as [|i]; [|by destruct i]. injection Hs as <-. by vm_compute in Hr.
  - intros (q & Hq & Hr). apply list_elem_of_singleton in Hq as ->. by vm_compute in Hr.
Qed.

(** A second run without explicit alternatives queues the first path again: the
    negation of a disjunction is a conjunction, whose negation is not the
    disjunction. *)
Lemma negated_disjunction_requeued :
  exists pm q, demo_slice [branch_on neither] 1 switch_next.2 = Some pm /\ pm_frontier pm = [q] /\
  pc_fullSummary (q_pc q) = Cmp Eq false_ neither /\ forall rho, sat rho (pc_fullSummary (q_pc q)) <-> sat rho two_or_three.
Proof.
  eexists _, _. split; [vm_compute; reflexivity|]. split; [reflexivity|]. split; [reflexivity|]. intros rho. cbn [q_pc pc_fullSummary].
  change (sat rho (Cmp Eq false_ neither) <-> sat rho two_or_three). destruct (switch_sat rho) as [-> H].
  destruct switch_boolean as (_ & [Hg Hw] & _). pose proof (bool_value neither rho Hg Hw) as Hv. unfold sat in *. cbn -[neither Z.eqb].
  destruct (Z.eqb_spec 0 (eval rho neither)) as [E|E]; cbn; lia.
Qed.

(** A bound is assumed, then a branch on [2]; the rest of the slice has none. *)
Definition assume_on (c : expr) : Entry := set_number 7 (set_e (Some c) (Entry_new Assertion KLEE_FORK_BOUNDS_CHECK demo_state)).
Definition bounded_slice : list Entry := [assume_on (createIsZero (x_is 9)); branch_on (x_is 2); assume_on (createIsZero (x_is 3))].

Lemma bounded_boolean : Forall (fun e => from_option boolean True (e_e e)) bounded_slice.
Proof.
  apply Forall_cons; split; [|apply Forall_cons; split; [|apply Forall_cons; split; [|apply Forall_nil_2]]];
    (split; [|reflexivity]); vm_compute; split_and!; try done; first [by right|by left].
Qed.

Lemma path_constraint_exact_witness :
  exists pm' s, demo_slice bounded_slice 4 PathManager_new = Some pm' /\ last (pm_explored pm') = Some s /\
  forall rho, holds rho [createIsZero (x_is 9); createIsZero (x_is 3)] -> sat rho (pc_fullSummary (cs_input s)) <-> holds rho [x_is 2].
Proof.
  destruct (demo_slice bounded_slice 4 PathManager_new) as [pm'|] eqn:E; [|vm_compute in E; discriminate E].
  destruct (path_constraint_exact no_order no_answer false (fun cm c rho (H : no_answer cm c = true) => ltac:(discriminate H)) no_nodes cm_clear bounded_slice false 4
    PathManager_new pm' E clear_good) as (s & Hs & _ & H).
  - exact bounded_boolean.
  - exists pm', s. split; [reflexivity|]. split; [exact Hs|]. intros rho Ha. apply (H rho); [reflexivity|exact Ha].
Defined.

(** ** Invariants given to the next input *)

(** A path constraint with the invariant [inv] before the condition [x == 2]. *)
Definition with_invariant (inv : expr) : PathConstraint :=
  MkPC 40 (Some (x_is 2)) (Tuid 1 2) (x_is 2) (x_is 2) (x_is 2)
    [PCE KLEE_FORK_BOUNDS_CHECK inv 0; PCE KLEE_FORK_INVARIANT_INPUT (x_is 2) 7] [].

(** [instantiateNextInput] passes on an invariant that the branch conditions
    depend on, but not if it is a conjunction: the constraint manager splits it,
    and the set of dependent constraints then has only its parts. *)
Theorem conjunctive_invariant_dropped :
  let inv := AndExpr_create (createIsZero (x_is 9)) (createIsZero (x_is 8)) in
  (pce_expr <$> input_constraints (with_invariant (createIsZero (x_is 9)))) = [createIsZero (x_is 9); x_is 2] /\
  (pce_expr <$> input_constraints (with_invariant inv)) = [x_is 2].
Proof. split; vm_compute; reflexivity. Qed.
