(* ===== verification/Switches.v ===== *)
(** * Alternative context switches ([PathManager::processSlice])

    [processSlice] queues an entry for every other thread that could have been
    chosen at a context switch, with the path constraint of the branches so far,
    and ends with a pass that removes the entries whose path constraint counts
    as explored.  This file follows such an entry from one to the other. *)

From stdpp Require Import base gmap list.
From Stdlib Require Import ZArith Lia.
From S2P Require Import Prelude HbGraph BitVec Expr ExprCreate ExprSound ExprBits ExprVisit Constraints ForkTrace SliceTrace Solver SolverChain Independent PathManager PathTree PathCover Explore.

Section switches.
Context (less : expr -> expr -> bool) (must : ConstraintManager -> expr -> bool) (optNoConcretization : bool) (hb : HBGraph).

Notation step := (step less must optNoConcretization hb).
Notation process := (process less must optNoConcretization hb).

(** The loop of [processSlice] over the first entries of a slice. *)
Fixpoint steps_to (es : list Entry) (st : loop_state) : option loop_state :=
  match es with [] => Some st | e :: es => st ← step e st; steps_to es st end.

(** The loop does not stop before an entry with other context switches. *)
Lemma process_reaches pre e post st st' :
  hasOtherCtxSwitches e = true -> process (pre ++ e :: post) st = Some st' ->
  exists st0 st1, steps_to pre st = Some st0 /\ step e st0 = Some st1 /\ process post st1 = Some st'.
Proof.
  intros He. revert st. induction pre as [|x pre IH]; intros st H.
  - cbn [app process] in H. assert (anyBranchesLeft (e :: post) = true) as Hleft by (cbn; by rewrite He, orb_true_r).
    rewrite Hleft in H. apply bind_Some in H as (st1 & H1 & H2). by exists st, st1.
  - cbn [app PathManager.process] in H. assert (anyBranchesLeft (x :: pre ++ e :: post) = true) as Hleft.
    { cbn. rewrite existsb_app. cbn. by rewrite He, !orb_true_r. }
    rewrite Hleft in H. apply bind_Some in H as (sx & Hx & H). destruct (IH sx H) as (st0 & st1 & H0 & H1 & H2).
    exists st0, st1. cbn [steps_to]. by rewrite Hx.
Qed.

(** ** What grows *)

Definition grows (pm pm' : PathManager) : Prop :=
  pm_frontier pm ⊆ pm_frontier pm' /\ pm_exploredSet pm ⊆ pm_exploredSet pm'.

#[local] Instance grows_preorder : PreOrder grows.
Proof. split; [by split|]. intros a b c [H1 H2] [H3 H4]. split; set_solver. Qed.

Lemma see_disjuncts_grows b ds pm pm' : see_disjuncts less b ds pm = Some pm' -> grows pm pm'.
Proof.
  revert pm. induction ds as [|d ds IH]; intros pm H; cbn in H; [by injection H as <-|].
  apply bind_Some in H as (tmp & _ & H%IH). etrans; [|exact H]. split; cbn; set_solver.
Qed.

Lemma flip_all_grows e b n fs pm pm' : flip_all less hb e b n fs pm = Some pm' -> grows pm pm'.
Proof.
  revert pm. induction fs as [|f fs IH]; intros pm H; cbn in H; [by injection H as <-|].
  apply bind_Some in H as (pm1 & H1 & H%IH). etrans; [|exact H]. apply bind_Some in H1 as (fl & _ & H1).
  destruct (alreadySeen fl pm); injection H1 as <-; [done|]. split; cbn; set_solver.
Qed.

Lemma push_switches_frontier e b n ts pm :
  let pm' := fold_left (fun pm t => push_frontier (switch_entry hb e b n t) [] pm) ts pm in
  pm_frontier pm' = pm_frontier pm ++ (switch_entry hb e b n <$> ts) /\ pm_exploredSet pm' = pm_exploredSet pm.
Proof.
  revert pm. induction ts as [|t ts IH]; intros pm; cbn [fold_left]; [by rewrite app_nil_r|].
  destruct (IH (push_frontier (switch_entry hb e b n t) [] pm)) as [-> ->]. cbn. by rewrite <- app_assoc.
Qed.

(** ** The canonical form of the branches so far *)

(** It is [true] before the first branch and counts as explored after it. *)
Record builder_seen (b : PathConstraintBuilder) (pm : PathManager) : Prop := {
  bs_concise : pc_canonical (b_pc b) = b_conciseCanonical b;
  bs_none : conds (b_pc b) = [] -> pc_canonical (b_pc b) = true_;
  bs_some : conds (b_pc b) <> [] -> pc_canonical (b_pc b) ∈ pm_exploredSet pm;
}.

Lemma builder_seen_grows b pm pm' : grows pm pm' -> builder_seen b pm -> builder_seen b pm'.
Proof. intros [_ Hg] [H1 H2 H3]. split; [done|done|]. intros Hc. by apply Hg, H3. Qed.

Lemma builder_new_seen pm : builder_seen builder_new pm.
Proof. by split. Qed.

Lemma builder_add_concise e n b b' :
  builder_add less e n b = Some b' -> pc_canonical (b_pc b) = b_conciseCanonical b ->
  pc_canonical (b_pc b') = b_conciseCanonical b' /\ conds (b_pc b') = conds (b_pc b) ++ [e].
Proof.
  unfold builder_add, addToSummary. intros H Hb. apply bind_Some in H as (b1 & H1 & H). apply bind_Some in H1 as (cm & _ & [= <-]).
  apply bind_Some in H as (b2 & H2 & [= <-]). assert (pc_canonical (b_pc b2) = b_conciseCanonical b2 /\ pc_list (b_pc b2) = pc_list (b_pc b)) as [Hcc Hl].
  { unfold addToCanonical in H2. destruct (mem _ _); [by injection H2 as <-|]. by apply bind_Some in H2 as (cm1 & _ & [= <-]). }
  split; [done|]. unfold conds. cbn [b_pc set_list pc_list]. rewrite Hl, filter_app, fmap_app. done.
Qed.

Lemma addExplored_seen c n b pm b' pm' :
  addExplored less c n b pm = Some (b', pm') -> builder_seen b pm -> builder_seen b' pm' /\ grows pm pm'.
Proof.
  unfold addExplored. intros H [Hb _ _]. apply bind_Some in H as (b1 & Hadd & H). apply bind_Some in H as (pm1 & Hd & [= <- <-]).
  destruct (builder_add_concise _ _ _ _ Hadd Hb) as [Hc Hl]. apply see_disjuncts_grows in Hd.
  split; [|etrans; [|exact Hd]; split; cbn; set_solver]. split; [done|rewrite Hl; by destruct (conds (b_pc b))|].
  intros _. apply Hd. rewrite Hc. left.
Qed.

Lemma ctx_switches_seen e st st' :
  ctx_switches hb e st = Some st' -> builder_seen (l_builder st) (l_pm st) ->
  builder_seen (l_builder st') (l_pm st') /\ grows (l_pm st) (l_pm st').
Proof.
  unfold ctx_switches. intros H Hb. destruct (hasOtherCtxSwitches e); [|by injection H as <-].
  apply bind_Some in H as (ts & _ & H). apply bind_Some in H as (t & _ & [= <-]). cbn [l_builder l_pm].
  destruct (push_switches_frontier e (l_builder st) (l_lastId st) ts (l_pm st)) as [Hf He]. destruct Hb as [H1 H2 H3].
  split; [split; [done|done|by rewrite He]|]. split; [rewrite Hf; set_solver|by rewrite He].
Qed.

Lemma step_splits e st st' :
  step e st = Some st' -> builder_seen (l_builder st) (l_pm st) ->
  exists st1, ctx_switches hb e st = Some st1 /\ builder_seen (l_builder st') (l_pm st') /\ grows (l_pm st1) (l_pm st').
Proof.
  unfold PathManager.step. intros H Hb. apply bind_Some in H as (st1 & H1 & H). destruct (ctx_switches_seen e st st1 H1 Hb) as [Hb1 _].
  exists st1. split; [done|].
  destruct (negb (hasCondition e)); [by injection H as <-|]. apply bind_Some in H as (c & _ & H). apply bind_Some in H as (fc & _ & H).
  destruct (treat must optNoConcretization (l_cm st1) fc c) as [|keep|].
  - destruct (_ && negb _); [done|]. by injection H as <-.
  - apply bind_Some in H as (b & Hadd & H). apply bind_Some in H as (cm & _ & H). destruct (_ && negb _); [|done]. injection H as <-. cbn [l_builder l_pm].
    split; [|done]. destruct keep; [|by injection Hadd as <-]. unfold addExtraInvariant in Hadd. destruct (decide _) as [|Hne]; [done|]. injection Hadd as <-.
    destruct Hb1 as [B1 B2 B3]. assert (conds (b_pc (with_pc (fun pc => set_list (pc_list pc ++ [PCE fc c 0]) pc) (l_builder st1))) = conds (b_pc (l_builder st1))) as Hc.
    { unfold conds. cbn [b_pc with_pc set_list pc_list]. rewrite filter_app, filter_cons_False, app_nil_r; [done|].
      unfold is_input. cbn. by rewrite bool_decide_eq_false_2. }
    split; [done|by rewrite Hc|by rewrite Hc].
  - unfold branch in H. apply bind_Some in H as (n & _ & H). apply bind_Some in H as (fs & _ & H). apply bind_Some in H as (pm & Hf & H).
    apply bind_Some in H as (cm & _ & H). apply bind_Some in H as ([b pm'] & Hadd & [= <-]). apply flip_all_grows in Hf.
    destruct (addExplored_seen _ _ _ _ _ _ Hadd (builder_seen_grows _ _ _ Hf Hb1)) as [Hb' Hg']. split; [done|]. by etrans.
Qed.

Lemma step_seen e st st' :
  step e st = Some st' -> builder_seen (l_builder st) (l_pm st) ->
  builder_seen (l_builder st') (l_pm st') /\ grows (l_pm st) (l_pm st').
Proof.
  intros H Hb. destruct (step_splits e st st' H Hb) as (st1 & H1 & Hb' & Hg). destruct (ctx_switches_seen e st st1 H1 Hb) as [_ Hg1].
  split; [done|]. by etrans.
Qed.

Lemma steps_to_seen es st st' :
  steps_to es st = Some st' -> builder_seen (l_builder st) (l_pm st) -> builder_seen (l_builder st') (l_pm st').
Proof.
  revert st. induction es as [|e es IH]; intros st H Hb; cbn in H; [by injection H as <-|].
  apply bind_Some in H as (st1 & H1 & H). apply (IH st1 H). by apply (step_seen e st).
Qed.

Lemma process_grows es st st' :
  process es st = Some st' -> builder_seen (l_builder st) (l_pm st) -> grows (l_pm st) (l_pm st').
Proof.
  revert st. induction es as [|e es IH]; intros st H Hb; cbn [PathManager.process] in H; [by injection H as <-|].
  destruct (anyBranchesLeft _); [|by injection H as <-]. apply bind_Some in H as (st1 & H1 & H).
  destruct (step_seen e st st1 H1 Hb) as [Hb1 Hg]. etrans; [exact Hg|]. by apply IH.
Qed.

(** The entries of a switch are in the frontier when the loop has passed it. *)
Lemma step_queues e st st' :
  hasOtherCtxSwitches e = true -> builder_seen (l_builder st) (l_pm st) -> step e st = Some st' ->
  exists ts, otherCtxSwitches e = Some ts /\ forall t, t ∈ ts -> switch_entry hb e (l_builder st) (l_lastId st) t ∈ pm_frontier (l_pm st').
Proof.
  intros He Hb H. destruct (step_splits e st st' H Hb) as (st1 & H1 & _ & [Hg _]). unfold ctx_switches in H1. rewrite He in H1.
  apply bind_Some in H1 as (ts & Hts & H1). apply bind_Some in H1 as (t & _ & [= <-]). exists ts. split; [done|]. intros u Hu. apply Hg. cbn [l_pm].
  destruct (push_switches_frontier e (l_builder st) (l_lastId st) ts (l_pm st)) as [-> _]. apply elem_of_app. right. by apply list_elem_of_fmap_2.
Qed.

End switches.

(** C38: An alternative context switch is queued, but it stays in the frontier
    only if no branch comes before it.  Take any slice that [processSlice]
    accepts, with an entry [e] at which other threads could have been chosen,
    and the loop's state [st] before [e].  If a branch condition was recorded
    before [e], the entries for the other threads are not in the frontier
    afterwards: their path constraint is that of the branches so far, which
    counts as explored, and the subsumption pass removes them.  Before the first
    branch the path constraint is [true] and the entries stay exactly if [true]
    does not count as explored. *)
Theorem ctx_switch_after_branch_lost less must optNoConcretization hbGraph cm pre e post exited id pm pm' :
  processSlice less must optNoConcretization hbGraph cm (pre ++ e :: post) exited id pm = Some pm' -> hasOtherCtxSwitches e = true ->
  let hb := makeImmutableClone hbGraph in
  exists st ts, steps_to less must optNoConcretization hb pre (MkLoop pm builder_new cm 0) = Some st /\ otherCtxSwitches e = Some ts /\
  forall t, t ∈ ts -> let q := switch_entry hb e (l_builder st) (l_lastId st) t in
    (conds (b_pc (l_builder st)) <> [] -> q ∉ pm_frontier pm') /\
    (conds (b_pc (l_builder st)) = [] -> q ∈ pm_frontier pm' <-> true_ ∉ pm_exploredSet pm').
Proof.
  intros H He hb. unfold processSlice in H. apply bind_Some in H as (st' & Hp & [= <-]).
  destruct (process_reaches _ _ _ _ pre e post _ st' He Hp) as (st & st1 & H0 & H1 & H2).
  pose proof (steps_to_seen _ _ _ _ _ _ _ H0 (builder_new_seen pm)) as Hb. destruct (step_queues _ _ _ _ e st st1 He Hb H1) as (ts & Hts & Hq).
  exists st, ts. split; [done|]. split; [done|]. intros t Ht. cbn [pm_frontier set_frontier pm_exploredSet push_explored].
  destruct (step_seen _ _ _ _ e st st1 H1 Hb) as [Hb1 [_ Hx1]]. destruct (process_grows _ _ _ _ post st1 st' H2 Hb1) as [Hf2 Hx2].
  rewrite list_elem_of_filter, mem_false. cbn [q_pc switch_entry pc_canonical push_ctxswitch set_branch]. destruct Hb as [_ Hnone Hsome]. split.
  - intros Hc [Hn _]. apply Hn, Hx2, Hx1, Hsome, Hc.
  - intros Hc. rewrite (Hnone Hc). split; [by intros [? _]|]. intros Hn. split; [done|]. by apply Hf2, Hq.
Qed.

(** A context switch of thread 2 for which thread 3 could have been chosen. *)
Definition switch_to : Entry :=
  set_switches [Tuid 1 3] (set_type (Z.lor (MakeType CtxSwitch KLEE_FORK_BRANCH) HasFlippableCtxSwitch)
    (set_target (Tuid 1 2) 44 (Entry_new CtxSwitch KLEE_FORK_BRANCH demo_state))).

Definition queued_switches (pm : option PathManager) : option (list (list ThreadUid)) :=
  pm ← pm; Some ((fun q => pc_ctxswitches (q_pc q)) <$> pm_frontier pm).

(** Queued before a branch, lost after it. *)
Lemma ctx_switch_after_branch_lost_witness :
  queued_switches (demo_slice [switch_to; branch_on (x_is 2)] 0 PathManager_new) = Some [[Tuid 1 3]; [Tuid 1 2]] /\
  queued_switches (demo_slice [branch_on (x_is 2); switch_to] 0 PathManager_new) = Some [[]] /\
  exists pm' q, demo_slice [branch_on (x_is 2); switch_to] 0 PathManager_new = Some pm' /\ pc_ctxswitches (q_pc q) = [Tuid 1 3] /\ q ∉ pm_frontier pm'.
Proof.
  split; [vm_compute; reflexivity|]. split; [vm_compute; reflexivity|].
  destruct (demo_slice [branch_on (x_is 2); switch_to] 0 PathManager_new) as [pm'|] eqn:E; [|vm_compute in E; discriminate E].
  destruct (ctx_switch_after_branch_lost no_order no_answer false no_nodes cm_clear [branch_on (x_is 2)] switch_to [] false 0 PathManager_new pm' E)
    as (st & ts & Hst & Hts & H); [reflexivity|]. vm_compute in Hst. injection Hst as <-. vm_compute in Hts. injection Hts as <-.
  destruct (H (Tuid 1 3)) as [Hl _]; [left|]. eexists pm', _. split; [reflexivity|]. split; [|apply Hl; discriminate]. reflexivity.
Defined.
